(** * Mandrill: lexer, parsers, code generator, bytecode container, VM and
    tree-walking interpreter, embedded from the Python sources
    (lexer.py, parser.py, compiler.py, vm.py, interpreter.py).

    Conventions of the embedding.
    - Python [int] is unbounded: it is [Z].  [//] and [%] are Python's floored
      division and modulus, which on a non-zero divisor are [Z.div] and
      [Z.modulo].
    - A Python [str] is a [string]; its characters are code points 0..255
      (type [ascii]).  The [str] predicates [isspace], [isdigit], [isalpha],
      [islower] are written out for that range.
    - [raise] is the [Err] constructor of [result]; the exception is kept as a
      value of type [exn].  A Python loop or recursion with no structural
      bound takes a [fuel : nat]; running out of it is the separate error
      [OutOfFuel], which no Python run produces.
    - [print(x, end='')] appends to an [output : string] field.
    - The interpreter reads its input from the file mandrill.in, opened in
      text mode: the file is an [input_file], and a carriage return of its
      text is read as a line feed.  The VM reads its standard input, which
      keeps the carriage returns (as on a POSIX system): its input is the
      [string] that [sys.stdin.read()] returns.
    - The limits of the Python implementation are not modelled: the depth of
      its call stack ([RecursionError]), its memory, and the bound on the
      number of digits that [int] and [str] convert. *)

From Stdlib Require Import ZArith NArith String Ascii List Lia DecimalString.
From Stdlib.Strings Require Import Byte.
From stdpp Require Import base option list gmap strings.

Set Warnings "-register-all".
Local Open Scope Z_scope.

(** ** Exceptions and the error monad *)

Inductive exn : Type :=
| LexicalError (msg : string)     (* Lexer.error *)
| SyntaxError (msg : string)      (* ASTParser.error *)
| GenerationError (msg : string)  (* raise Exception in CodeGenerator *)
| VMError (msg : string)          (* raise Exception in MandrillVM *)
| InterpreterError (msg : string) (* raise Exception in Interpreter *)
| IndexError                      (* list index out of range *)
| TypeError                       (* ord(None) *)
| AttributeError                  (* attribute access on None *)
| ValueError                      (* int() on an invalid literal *)
| StructError                     (* struct.pack / struct.unpack *)
| OSError                         (* open or read fails, the file being there *)
| UnicodeDecodeError              (* read on bytes that do not decode *)
| OutOfFuel.

Inductive result (A : Type) : Type :=
| Ok (a : A)
| Err (e : exn).
Arguments Ok {A} a.
Arguments Err {A} e.

Definition bind {A B : Type} (r : result A) (k : A -> result B) : result B :=
  match r with
  | Ok a => k a
  | Err e => Err e
  end.

Notation "'do' x <- e ; k" := (bind e (fun x => k))
  (at level 10, x pattern, e at level 100, k at level 200).

Definition is_ok {A : Type} (r : result A) : bool :=
  match r with Ok _ => true | Err _ => false end.

Definition is_Some_bool {A : Type} (o : option A) : bool :=
  match o with Some _ => true | None => false end.

(** ** Python primitives *)

Module Py.

Definition ord (c : ascii) : Z := Z.of_N (N_of_ascii c).

(** [chr(v)], used by the sources only under the guard [0 <= v <= 127]. *)
Definition chr (v : Z) : ascii := ascii_of_N (Z.to_N v).

Definition in_range (lo hi : Z) (c : ascii) : bool :=
  (lo <=? ord c) && (ord c <=? hi).

(** [str.isspace] on one character: U+0009..U+000D, U+001C..U+0020, U+0085
    and U+00A0. *)
Definition isspace (c : ascii) : bool :=
  in_range 9 13 c || in_range 28 32 c || (ord c =? 133) || (ord c =? 160).

(** [str.isdigit]: the ASCII digits and the superscripts U+00B2, U+00B3,
    U+00B9. *)
Definition isdigit (c : ascii) : bool :=
  in_range 48 57 c || (ord c =? 178) || (ord c =? 179) || (ord c =? 185).

(** [c.isalpha() and c.islower()]: a..z, U+00AA, U+00B5, U+00BA,
    U+00DF..U+00F6 and U+00F8..U+00FF. *)
Definition isalpha_lower (c : ascii) : bool :=
  in_range 97 122 c || (ord c =? 170) || (ord c =? 181) || (ord c =? 186)
  || in_range 223 246 c || in_range 248 255 c.

(** The value of a digit of [int(s, base)], for bases up to 16. *)
Definition digit_value (c : ascii) : option Z :=
  if in_range 48 57 c then Some (ord c - 48)
  else if in_range 97 102 c then Some (ord c - 87)
  else if in_range 65 70 c then Some (ord c - 55)
  else None.

Definition digit_in (base : Z) (c : ascii) : option Z :=
  match digit_value c with
  | Some d => if d <? base then Some d else None
  | None => None
  end.

Definition is_underscore (c : ascii) : bool := ord c =? 95.

(** The digits of an integer literal: one or more digits, single underscores
    allowed between two digits.  [after_digit] says that the previous
    character was a digit; [acc] is the value read so far. *)
Fixpoint int_digits (base : Z) (s : string) (after_digit : bool) (acc : Z)
  : option Z :=
  match s with
  | EmptyString => if after_digit then Some acc else None
  | String c s' =>
      if is_underscore c then
        (if after_digit then int_digits base s' false acc else None)
      else
        match digit_in base c with
        | Some d => int_digits base s' true (acc * base + d)
        | None => None
        end
  end.

(** The whitespace that [int] allows around a literal: that of
    [str.isspace] without U+001C..U+001F. *)
Definition int_space (c : ascii) : bool :=
  in_range 9 13 c || (ord c =? 32) || (ord c =? 133) || (ord c =? 160).

(** Drops the leading whitespace of a literal of [int]. *)
Fixpoint lstrip (s : string) : string :=
  match s with
  | String c s' => if int_space c then lstrip s' else s
  | EmptyString => EmptyString
  end.

(** Drops the trailing whitespace of a literal of [int]: the result is empty
    when [s] is all whitespace. *)
Fixpoint rstrip (s : string) : string :=
  match s with
  | EmptyString => EmptyString
  | String c s' =>
      match rstrip s' with
      | EmptyString => if int_space c then EmptyString else String c EmptyString
      | r => String c r
      end
  end.

Definition strip_sign (s : string) : bool * string :=
  match s with
  | String "-" s' => (true, s')
  | String "+" s' => (false, s')
  | _ => (false, s)
  end.

(** After the sign, [int(s, 16)] skips a [0x] or [0X] prefix, and then also
    accepts one underscore before the first digit. *)
Definition strip_prefix16 (s : string) : bool * string :=
  match s with
  | String "0" (String "x" s') => (true, s')
  | String "0" (String "X" s') => (true, s')
  | _ => (false, s)
  end.

(** [int(s)] and [int(s, 16)] on a string: surrounding whitespace, a sign,
    then the digits.  [None] is [ValueError]. *)
Definition int_of_string (base : Z) (s : string) : option Z :=
  let '(neg, body) := strip_sign (rstrip (lstrip s)) in
  let '(pre, body) := if base =? 16 then strip_prefix16 body else (false, body) in
  let body := match body with
              | String c b' => if pre && is_underscore c then b' else body
              | EmptyString => body
              end in
  match int_digits base body false 0 with
  | Some v => Some (if neg then - v else v)
  | None => None
  end.

Definition int (s : string) : result Z :=
  match int_of_string 10 s with Some v => Ok v | None => Err ValueError end.

Definition int16 (s : string) : result Z :=
  match int_of_string 16 s with Some v => Ok v | None => Err ValueError end.

(** [str(v)] of an integer, as [print] writes it: decimal, with a leading
    minus sign when negative. *)
Definition str (v : Z) : string := NilZero.string_of_int (Z.to_int v).

(** [f"{v:x}"] for [v >= 0]: lowercase hexadecimal without prefix. *)
Definition hex_digit (d : Z) : ascii :=
  if d <? 10 then ascii_of_N (Z.to_N (48 + d)) else ascii_of_N (Z.to_N (87 + d)).

Fixpoint hex_digits (fuel : nat) (v : Z) (acc : string) : string :=
  let acc' := String (hex_digit (v mod 16)) acc in
  match fuel with
  | O => acc'
  | S f => if v / 16 =? 0 then acc' else hex_digits f (v / 16) acc'
  end.

Definition format_x (v : Z) : string :=
  hex_digits (Z.to_nat (Z.log2 v)) v EmptyString.

(** [s.startswith(p)]. *)
Fixpoint startswith (p s : string) : bool :=
  match p, s with
  | EmptyString, _ => true
  | String a p', String b s' => if Ascii.eqb a b then startswith p' s' else false
  | String _ _, EmptyString => false
  end.

(** What a file opened in text mode ([open(name, 'r')], universal newlines)
    gives for the decoded characters [s]: a carriage return, and a carriage
    return followed by a line feed, are read as one line feed. *)
Fixpoint universal_newlines (s : string) : string :=
  match s with
  | EmptyString => EmptyString
  | String c rest =>
      if Ascii.eqb c "013" then
        String "010"
          match rest with
          | String c' rest' =>
              if Ascii.eqb c' "010" then universal_newlines rest'
              else universal_newlines rest
          | EmptyString => EmptyString
          end
      else String c (universal_newlines rest)
  end.

(** [s.split()]: the maximal runs of non-whitespace characters. *)
Fixpoint split_aux (s : string) (cur : string) : list string :=
  match s with
  | EmptyString => match cur with EmptyString => [] | _ => [cur] end
  | String c s' =>
      if isspace c then
        match cur with
        | EmptyString => split_aux s' EmptyString
        | _ => cur :: split_aux s' EmptyString
        end
      else split_aux s' (cur +:+ String c EmptyString)
  end.

Definition split (s : string) : list string := split_aux s EmptyString.

(** [l[i]] for a Python list: a negative index counts from the end;
    [None] is [IndexError]. *)
Definition index {A : Type} (l : list A) (i : Z) : option A :=
  if 0 <=? i then l !! Z.to_nat i
  else if 0 <=? i + Z.of_nat (length l) then l !! Z.to_nat (i + Z.of_nat (length l))
  else None.

(** [l[i] = x], with the same index rule. *)
Definition set_index {A : Type} (l : list A) (i : Z) (x : A) : option (list A) :=
  if 0 <=? i then
    (if i <? Z.of_nat (length l) then Some (<[Z.to_nat i := x]> l) else None)
  else if 0 <=? i + Z.of_nat (length l) then
    Some (<[Z.to_nat (i + Z.of_nat (length l)) := x]> l)
  else None.

End Py.

(** ** lexer.py *)

Inductive TokenType : Type := KEYWORD | ID | LITERAL | OP.

Definition TokenType_eqb (a b : TokenType) : bool :=
  match a, b with
  | KEYWORD, KEYWORD | ID, ID | LITERAL, LITERAL | OP, OP => true
  | _, _ => false
  end.

Record Token : Type := mkToken { type : TokenType; value : string }.

(** [x in [a, b, ...]] on strings. *)
Definition str_in (x : string) (l : list string) : bool :=
  existsb (String.eqb x) l.

Definition KEYWORDS : list string :=
  ["if"; "else"; "while"; "read"; "put"; "write"; "get"].

Definition SINGLE_CHAR_OPS : list string :=
  ["+"; "-"; "*"; "/"; "%"; ">"; "<"; "="; ";"; "("; ")"; "{"; "}"].

Definition DOUBLE_CHAR_OPS : list string := [">="; "<="; "=="; "!="].

Module Lexer.

(** The lexer's state is the part of [source] from [pos] on: [current_char]
    is its first character ([None] at the end) and [advance] drops it.  The
    line and column counters only feed the text of error messages and are
    left out. *)

Definition current_char (s : string) : option ascii :=
  match s with String c _ => Some c | EmptyString => None end.

Definition advance (s : string) : string :=
  match s with String _ s' => s' | EmptyString => EmptyString end.

Definition peek (s : string) : option ascii := current_char (advance s).

Fixpoint skip_whitespace (s : string) : string :=
  match s with
  | String c s' => if Py.isspace c then skip_whitespace s' else s
  | EmptyString => EmptyString
  end.

(** The [while] loops of [identifier] and [number]: the longest prefix whose
    characters satisfy [p], and what follows it. *)
Fixpoint take_while (p : ascii -> bool) (s : string) : string * string :=
  match s with
  | String c s' =>
      if p c then let '(r, rest) := take_while p s' in (String c r, rest)
      else (EmptyString, s)
  | EmptyString => (EmptyString, EmptyString)
  end.

Definition identifier (s : string) : Token * string :=
  let '(result, rest) := take_while Py.isalpha_lower s in
  if str_in result KEYWORDS then (mkToken KEYWORD result, rest)
  else (mkToken ID result, rest).

Definition number (s : string) : result (Token * string) :=
  let '(result, rest) := take_while Py.isdigit s in
  do value <- Py.int result;
  Ok (mkToken LITERAL ("0x" +:+ Py.format_x value), rest).

Definition character (s : string) : result (Token * string) :=
  let s := advance s in
  do char_value_s <-
    match s with
    | String "\" s1 =>
        match s1 with
        | String "n" _ => Ok (Py.ord "010", s1)
        | String "\" _ => Ok (Py.ord "\", s1)
        | String "'" _ => Ok (Py.ord "'", s1)
        | _ => Err (LexicalError "Unsupported escape sequence")
        end
    | String c _ => Ok (Py.ord c, s)
    | EmptyString => Err TypeError
    end;
  let '(char_value, s) := char_value_s in
  let s := advance s in
  match current_char s with
  | Some "'"%char =>
      let s := advance s in
      Ok (mkToken LITERAL ("0x" +:+ Py.format_x char_value), s)
  | _ => Err (LexicalError "Unterminated character literal")
  end.

Definition is_cmp_start (c : ascii) : bool :=
  str_in (String c EmptyString) [">"; "<"; "="; "!"].

Definition get_next_token (s : string) : result (option Token * string) :=
  match skip_whitespace s with
  | EmptyString => Ok (None, EmptyString)
  | String c s' as s0 =>
      if Py.isalpha_lower c then
        let '(t, rest) := identifier s0 in Ok (Some t, rest)
      else if Py.isdigit c then
        do (t, rest) <- number s0; Ok (Some t, rest)
      else if Ascii.eqb c "'" then
        do (t, rest) <- character s0; Ok (Some t, rest)
      else if is_cmp_start c && match peek s0 with Some "="%char => true | _ => false end then
        Ok (Some (mkToken OP (String c (String "=" EmptyString))), advance (advance s0))
      else if str_in (String c EmptyString) SINGLE_CHAR_OPS then
        Ok (Some (mkToken OP (String c EmptyString)), advance s0)
      else Err (LexicalError "Invalid character")
  end.

(** [tokenize]: tokens until the end of the source.  Every token consumes at
    least one character, so the length of the source is enough fuel. *)
Fixpoint tokenize_loop (fuel : nat) (s : string) : result (list Token) :=
  do (t, rest) <- get_next_token s;
  match t with
  | None => Ok []
  | Some tok =>
      match fuel with
      | O => Err OutOfFuel
      | S f => do toks <- tokenize_loop f rest; Ok (tok :: toks)
      end
  end.

Definition tokenize (s : string) : result (list Token) :=
  tokenize_loop (String.length s) s.

End Lexer.

(** ** compiler.py: syntax tree and parser *)

Module Compiler.

(** [BinaryOp], [Identifier], [Literal] and [SpecialVar] nodes.  A [Literal]
    keeps the token's payload, the hexadecimal string. *)
Inductive expr : Type :=
| BinaryOp (left : expr) (operator : string) (right : expr)
| Identifier (name : string)
| Literal (value : string)
| SpecialVar (name : string).

(** [AssignmentStatement], [IfStatement] and [WhileStatement] nodes; the
    left value of an assignment is an [Identifier] or [SpecialVar] node, and
    [else_statements] is [None] when there is no [else]. *)
Inductive stmt : Type :=
| AssignmentStatement (lvalue : expr) (expression : expr)
| IfStatement (condition : expr) (then_statements : list stmt)
    (else_statements : option (list stmt))
| WhileStatement (condition : expr) (body_statements : list stmt).

Inductive program : Type := Program (statements : list stmt).

(** The parser object: the current token and the lexer it pulls from. *)
Record parser : Type := mkParser { current_token : option Token; lexer : string }.

Definition error {A : Type} (msg : string) : result A := Err (SyntaxError msg).

(** [ASTParser.__init__]. *)
Definition init (source : string) : result parser :=
  do (t, rest) <- Lexer.get_next_token source;
  Ok (mkParser t rest).

Definition eat (token_type : TokenType) (token_value : option string)
  (p : parser) : result parser :=
  match current_token p with
  | None => error "Expected token"
  | Some tok =>
      if TokenType_eqb (type tok) token_type then
        if match token_value with
           | None => true
           | Some v => String.eqb (value tok) v
           end
        then init (lexer p)
        else error "Expected token value"
      else error "Expected token"
  end.

Section Expressions.

(** [expression], as called from [primary] on a parenthesis. *)
Variable expression : parser -> result (expr * parser).

Definition primary (p : parser) : result (expr * parser) :=
  match current_token p with
  | None => Err AttributeError
  | Some tok =>
      match type tok with
      | LITERAL =>
          do p <- eat LITERAL None p; Ok (Literal (value tok), p)
      | ID =>
          do p <- eat ID None p; Ok (Identifier (value tok), p)
      | KEYWORD =>
          if str_in (value tok) ["read"; "write"; "put"; "get"] then
            do p <- eat KEYWORD None p; Ok (SpecialVar (value tok), p)
          else error "Invalid primary expression"
      | OP =>
          if String.eqb (value tok) "(" then
            do p <- eat OP (Some "(") p;
            do (e, p) <- expression p;
            do p <- eat OP (Some ")") p;
            Ok (e, p)
          else error "Invalid primary expression"
      end
  end.

(** The loop shared by [factor], [term], [comparison] and [equality]:
    while the current token is one of the operators [ops], eat it, parse
    the right operand and fold to the left. *)
Fixpoint binop_loop (ops : list string)
  (operand : parser -> result (expr * parser))
  (fuel : nat) (left : expr) (p : parser) : result (expr * parser) :=
  match current_token p with
  | Some tok =>
      if TokenType_eqb (type tok) OP && str_in (value tok) ops then
        match fuel with
        | O => Err OutOfFuel
        | S f =>
            let op := value tok in
            do p <- eat OP (Some op) p;
            do (rhs, p) <- operand p;
            binop_loop ops operand f (BinaryOp left op rhs) p
        end
      else Ok (left, p)
  | None => Ok (left, p)
  end.

Definition factor (fuel : nat) (p : parser) : result (expr * parser) :=
  do (lhs, p) <- primary p;
  binop_loop ["*"; "/"; "%"] primary fuel lhs p.

Definition term (fuel : nat) (p : parser) : result (expr * parser) :=
  do (lhs, p) <- factor fuel p;
  binop_loop ["+"; "-"] (factor fuel) fuel lhs p.

Definition comparison (fuel : nat) (p : parser) : result (expr * parser) :=
  do (lhs, p) <- term fuel p;
  binop_loop [">"; "<"; ">="; "<="] (term fuel) fuel lhs p.

Definition equality (fuel : nat) (p : parser) : result (expr * parser) :=
  do (lhs, p) <- comparison fuel p;
  binop_loop ["=="; "!="] (comparison fuel) fuel lhs p.

End Expressions.

Fixpoint expression (fuel : nat) (p : parser) : result (expr * parser) :=
  match fuel with
  | O => Err OutOfFuel
  | S f => equality (expression f) f p
  end.

Definition is_close_brace (tok : Token) : bool :=
  String.eqb (value tok) "}".

(** The test before the optional [else]: the current token is the keyword
    [else]. *)
Definition at_else (p : parser) : bool :=
  match current_token p with
  | Some tok => TokenType_eqb (type tok) KEYWORD && String.eqb (value tok) "else"
  | None => false
  end.

Section Statements.

Variable fuel : nat.
(** [statement], as called from [statement_list]. *)
Variable statement : parser -> result (stmt * parser).

(** The [while] loop of [statement_list]: it goes on while the token is
    neither an operator nor valued [}]. *)
Fixpoint statement_loop (n : nat) (statements : list stmt) (p : parser)
  : result (list stmt * parser) :=
  match current_token p with
  | Some tok =>
      if negb (TokenType_eqb (type tok) OP) && negb (is_close_brace tok) then
        match n with
        | O => Err OutOfFuel
        | S n' =>
            do (s, p) <- statement p;
            statement_loop n' (statements ++ [s]) p
        end
      else Ok (statements, p)
  | None => Ok (statements, p)
  end.

Definition statement_list (p : parser) : result (list stmt * parser) :=
  match current_token p with
  | None => Ok ([], p)
  | Some tok =>
      do (statements, p) <-
        (if negb (TokenType_eqb (type tok) OP) || negb (is_close_brace tok) then
           do (s, p) <- statement p; Ok ([s], p)
         else Ok ([], p));
      statement_loop fuel statements p
  end.

Definition if_statement (p : parser) : result (stmt * parser) :=
  do p <- eat KEYWORD (Some "if") p;
  do p <- eat OP (Some "(") p;
  do (condition, p) <- expression fuel p;
  do p <- eat OP (Some ")") p;
  do p <- eat OP (Some "{") p;
  do (then_statements, p) <- statement_list p;
  do p <- eat OP (Some "}") p;
  if at_else p then
    do p <- eat KEYWORD (Some "else") p;
    do p <- eat OP (Some "{") p;
    do (else_statements, p) <- statement_list p;
    do p <- eat OP (Some "}") p;
    Ok (IfStatement condition then_statements (Some else_statements), p)
  else Ok (IfStatement condition then_statements None, p).

Definition while_statement (p : parser) : result (stmt * parser) :=
  do p <- eat KEYWORD (Some "while") p;
  do p <- eat OP (Some "(") p;
  do (condition, p) <- expression fuel p;
  do p <- eat OP (Some ")") p;
  do p <- eat OP (Some "{") p;
  do (body_statements, p) <- statement_list p;
  do p <- eat OP (Some "}") p;
  Ok (WhileStatement condition body_statements, p).

Definition assignment_statement (p : parser) : result (stmt * parser) :=
  match current_token p with
  | None => Err AttributeError
  | Some tok =>
      do (lvalue, p) <-
        match type tok with
        | ID => do p <- eat ID None p; Ok (Identifier (value tok), p)
        | KEYWORD =>
            if str_in (value tok) ["write"; "put"] then
              do p <- eat KEYWORD None p; Ok (SpecialVar (value tok), p)
            else error "Expected identifier or output variable"
        | _ => error "Expected identifier or output variable"
        end;
      do p <- eat OP (Some "=") p;
      do (e, p) <- expression fuel p;
      do p <- eat OP (Some ";") p;
      Ok (AssignmentStatement lvalue e, p)
  end.

End Statements.

Fixpoint statement (fuel : nat) (p : parser) : result (stmt * parser) :=
  match fuel with
  | O => Err OutOfFuel
  | S f =>
      match current_token p with
      | None => error "Unexpected end of input"
      | Some tok =>
          match type tok with
          | KEYWORD =>
              if String.eqb (value tok) "if" then if_statement f (statement f) p
              else if String.eqb (value tok) "while" then while_statement f (statement f) p
              else if str_in (value tok) ["write"; "put"] then assignment_statement f p
              else error "Unexpected keyword"
          | ID => assignment_statement f p
          | _ => error "Unexpected token"
          end
      end
  end.

(** [ASTParser(Lexer(source)).parse()]. *)
Definition parse (fuel : nat) (source : string) : result program :=
  do p <- init source;
  do (statements, p) <- statement_list fuel (statement fuel) p;
  match current_token p with
  | Some _ => error "Unexpected token at end of input"
  | None => Ok (Program statements)
  end.

End Compiler.

(** ** parser.py: the syntax checker *)

Module Parser.

(** parser.py's [Parser] keeps the same state as compiler.py's [ASTParser],
    the current token and the lexer, and its [__init__], [error] and [eat]
    are the same; they are shared here.  Its methods build no tree: each
    returns the parser it leaves behind. *)
#[local] Abbreviation parser := Compiler.parser.
#[local] Abbreviation current_token := Compiler.current_token.
#[local] Abbreviation eat := Compiler.eat.
#[local] Abbreviation error := Compiler.error.

Section Expressions.

Variable expression : parser -> result parser.

Definition primary (p : parser) : result parser :=
  match current_token p with
  | None => Err AttributeError
  | Some tok =>
      match type tok with
      | LITERAL => eat LITERAL None p
      | ID => eat ID None p
      | KEYWORD =>
          if str_in (value tok) ["read"; "write"; "put"; "get"] then
            eat KEYWORD None p
          else error "Invalid primary expression"
      | OP =>
          if String.eqb (value tok) "(" then
            do p <- eat OP (Some "(") p;
            do p <- expression p;
            eat OP (Some ")") p
          else error "Invalid primary expression"
      end
  end.

(** The loop shared by [factor], [term], [comparison] and [equality]. *)
Fixpoint binop_loop (ops : list string) (operand : parser -> result parser)
  (fuel : nat) (p : parser) : result parser :=
  match current_token p with
  | Some tok =>
      if TokenType_eqb (type tok) OP && str_in (value tok) ops then
        match fuel with
        | O => Err OutOfFuel
        | S f =>
            let op := value tok in
            do p <- eat OP (Some op) p;
            do p <- operand p;
            binop_loop ops operand f p
        end
      else Ok p
  | None => Ok p
  end.

Definition factor (fuel : nat) (p : parser) : result parser :=
  do p <- primary p;
  binop_loop ["*"; "/"; "%"] primary fuel p.

Definition term (fuel : nat) (p : parser) : result parser :=
  do p <- factor fuel p;
  binop_loop ["+"; "-"] (factor fuel) fuel p.

Definition comparison (fuel : nat) (p : parser) : result parser :=
  do p <- term fuel p;
  binop_loop [">"; "<"; ">="; "<="] (term fuel) fuel p.

Definition equality (fuel : nat) (p : parser) : result parser :=
  do p <- comparison fuel p;
  binop_loop ["=="; "!="] (comparison fuel) fuel p.

End Expressions.

Fixpoint expression (fuel : nat) (p : parser) : result parser :=
  match fuel with
  | O => Err OutOfFuel
  | S f => equality (expression f) f p
  end.

Section Statements.

Variable fuel : nat.
Variable statement : parser -> result parser.

(** The [while] loop of [statement_list]. *)
Fixpoint statement_loop (n : nat) (p : parser) : result parser :=
  match current_token p with
  | Some tok =>
      if negb (TokenType_eqb (type tok) OP) && negb (Compiler.is_close_brace tok) then
        match n with
        | O => Err OutOfFuel
        | S n' =>
            do p <- statement p;
            statement_loop n' p
        end
      else Ok p
  | None => Ok p
  end.

(** Unlike compiler.py's, this [statement_list] calls [statement] once
    whenever a token is left, whatever the token is. *)
Definition statement_list (p : parser) : result parser :=
  match current_token p with
  | None => Ok p
  | Some _ =>
      do p <- statement p;
      statement_loop fuel p
  end.

Definition if_statement (p : parser) : result parser :=
  do p <- eat KEYWORD (Some "if") p;
  do p <- eat OP (Some "(") p;
  do p <- expression fuel p;
  do p <- eat OP (Some ")") p;
  do p <- eat OP (Some "{") p;
  do p <- statement_list p;
  do p <- eat OP (Some "}") p;
  if Compiler.at_else p then
    do p <- eat KEYWORD (Some "else") p;
    do p <- eat OP (Some "{") p;
    do p <- statement_list p;
    eat OP (Some "}") p
  else Ok p.

Definition while_statement (p : parser) : result parser :=
  do p <- eat KEYWORD (Some "while") p;
  do p <- eat OP (Some "(") p;
  do p <- expression fuel p;
  do p <- eat OP (Some ")") p;
  do p <- eat OP (Some "{") p;
  do p <- statement_list p;
  eat OP (Some "}") p.

Definition assignment_statement (p : parser) : result parser :=
  match current_token p with
  | None => Err AttributeError
  | Some tok =>
      do p <-
        match type tok with
        | ID => eat ID None p
        | KEYWORD =>
            if str_in (value tok) ["write"; "put"] then eat KEYWORD None p
            else error "Expected identifier or output variable"
        | _ => error "Expected identifier or output variable"
        end;
      do p <- eat OP (Some "=") p;
      do p <- expression fuel p;
      eat OP (Some ";") p
  end.

End Statements.

Fixpoint statement (fuel : nat) (p : parser) : result parser :=
  match fuel with
  | O => Err OutOfFuel
  | S f =>
      match current_token p with
      | None => error "Unexpected end of input"
      | Some tok =>
          match type tok with
          | KEYWORD =>
              if String.eqb (value tok) "if" then if_statement f (statement f) p
              else if String.eqb (value tok) "while" then while_statement f (statement f) p
              else if str_in (value tok) ["write"; "put"] then assignment_statement f p
              else error "Unexpected keyword"
          | ID => assignment_statement f p
          | _ => error "Unexpected token"
          end
      end
  end.

(** The body of the [try] of [parse]: [program], then the test that no token
    is left. *)
Definition program_to_end (fuel : nat) (p : parser) : result unit :=
  do p <- statement_list fuel (statement fuel) p;
  match current_token p with
  | Some _ => error "Unexpected token at end of input"
  | None => Ok tt
  end.

(** [parse]: [True] when the body runs through, [False] on any exception.
    Running out of fuel is no Python exception and is passed on. *)
Definition parse (fuel : nat) (p : parser) : result bool :=
  match program_to_end fuel p with
  | Ok _ => Ok true
  | Err OutOfFuel => Err OutOfFuel
  | Err _ => Ok false
  end.

(** [main]: the result is the standard output.  [Parser(lexer)] reads the
    first token outside [parse]'s [try], so an exception of the lexer there
    leaves [main]. *)
Definition main (fuel : nat) (source : string) : result string :=
  do p <- Compiler.init source;
  do passed <- parse fuel p;
  Ok ((if passed then "PASS" else "ERROR") +:+ String "010" EmptyString).

End Parser.

(** ** compiler.py: code generator *)

(** Opcodes and [EVAL] operands, shared by [CodeGenerator] and
    [MandrillVM]. *)
Definition NOP : Z := 0x00000000.
Definition DSTORE : Z := 0x00000001.
Definition DLOAD : Z := 0x00000002.
Definition DWRITE : Z := 0x00000003.
Definition EVAL : Z := 0x00000005.
Definition JUMP : Z := 0x00000006.
Definition GETI : Z := 0x00000007.
Definition GETC : Z := 0x00000008.
Definition PUTI : Z := 0x00000009.
Definition PUTC : Z := 0x0000000A.

Definition OP_ADD : Z := 0x00010001.
Definition OP_SUB : Z := 0x00010002.
Definition OP_MUL : Z := 0x00010003.
Definition OP_DIV : Z := 0x00010004.
Definition OP_MOD : Z := 0x00010005.
Definition OP_GT : Z := 0x00010006.
Definition OP_LT : Z := 0x00010007.
Definition OP_GE : Z := 0x00010008.
Definition OP_LE : Z := 0x00010009.
Definition OP_EQ : Z := 0x0001000A.
Definition OP_NE : Z := 0x0001000B.
Definition OP_COND_JUMP : Z := 0x0001000C.

(** The operand of the halting [JUMP]. *)
Definition HALT : Z := 0xFFFFFFFF.

(** An instruction is the pair [(opcode, operand)]. *)
Abbreviation instruction := (Z * Z)%type.

Module CodeGenerator.

Import Compiler.

Record t : Type := mk {
  instructions : list instruction;
  var_table : gmap string Z;
  var_count : Z
}.

(** [CodeGenerator()]. *)
Definition new : t := mk [] ∅ 0.

Definition get_var_id (name : string) (g : t) : Z * t :=
  match var_table g !! name with
  | Some id => (id, g)
  | None =>
      (var_count g,
       mk (instructions g) (<[name := var_count g]> (var_table g)) (var_count g + 1))
  end.

Definition emit (opcode operand : Z) (g : t) : t :=
  mk (instructions g ++ [(opcode, operand)]) (var_table g) (var_count g).

(** [len(self.instructions)]. *)
Definition here (g : t) : nat := length (instructions g).

(** A position of the instruction list as a byte address. *)
Definition addr (position : nat) : Z := Z.of_nat position * 8.

Definition patch_jump (instruction_index : nat) (target_address : Z) (g : t)
  : result t :=
  match instructions g !! instruction_index with
  | Some (opcode, _) =>
      Ok (mk (<[instruction_index := (opcode, target_address)]> (instructions g))
             (var_table g) (var_count g))
  | None => Err IndexError
  end.

Definition op_map (operator : string) : option Z :=
  if String.eqb operator "+" then Some OP_ADD
  else if String.eqb operator "-" then Some OP_SUB
  else if String.eqb operator "*" then Some OP_MUL
  else if String.eqb operator "/" then Some OP_DIV
  else if String.eqb operator "%" then Some OP_MOD
  else if String.eqb operator ">" then Some OP_GT
  else if String.eqb operator "<" then Some OP_LT
  else if String.eqb operator ">=" then Some OP_GE
  else if String.eqb operator "<=" then Some OP_LE
  else if String.eqb operator "==" then Some OP_EQ
  else if String.eqb operator "!=" then Some OP_NE
  else None.

(** [visit] on expression nodes: [visit_BinaryOp], [visit_Identifier],
    [visit_Literal] and [visit_SpecialVar]. *)
Fixpoint visit_expr (node : expr) (g : t) : result t :=
  match node with
  | BinaryOp l operator r =>
      do g <- visit_expr l g;
      do g <- visit_expr r g;
      match op_map operator with
      | Some code => Ok (emit EVAL code g)
      | None => Err (GenerationError "Unknown operator")
      end
  | Identifier name =>
      let '(var_id, g) := get_var_id name g in
      Ok (emit DLOAD var_id g)
  | Literal value =>
      do v <- Py.int16 value;
      Ok (emit DSTORE v g)
  | SpecialVar name =>
      if String.eqb name "read" then Ok (emit GETI 0 g)
      else if String.eqb name "get" then Ok (emit GETC 0 g)
      else if String.eqb name "write" || String.eqb name "put" then
        Err (GenerationError "Unexpected special variable in expression")
      else Ok g
  end.

Section Visit.

(** The operand with which a patch slot is emitted.  The source writes the
    constant [0] at these places ([PLACEHOLDER] below); it is a variable
    here so that theorems can say that the generated code does not depend
    on it. *)
Variable placeholder : Z.

(** [for stmt in statements: self.visit(stmt)]. *)
Definition visit_each (visit : stmt -> t -> result t)
  : list stmt -> t -> result t :=
  fix each (statements : list stmt) (g : t) : result t :=
    match statements with
    | [] => Ok g
    | s :: rest => do g <- visit s g; each rest g
    end.

(** The branch of [visit_IfStatement] taken when [node.else_statements] is
    true, after the condition's code; [then_body] and [else_body] are the
    two [for] loops over the statements. *)
Definition if_with_else (then_body else_body : t -> result t) (g : t)
  : result t :=
  let then_addr_pos := here g in
  let g := emit DSTORE placeholder g in
  let else_addr_pos := here g in
  let g := emit DSTORE placeholder g in
  let g := emit EVAL OP_COND_JUMP g in
  let then_start := here g in
  do g <- then_body g;
  let jump_to_end := here g in
  let g := emit JUMP placeholder g in
  let else_start := here g in
  do g <- else_body g;
  let end_addr := addr (here g) in
  do g <- patch_jump jump_to_end end_addr g;
  do g <- patch_jump then_addr_pos (addr then_start) g;
  patch_jump else_addr_pos (addr else_start) g.

(** The other branch of [visit_IfStatement]. *)
Definition if_without_else (then_body : t -> result t) (g : t) : result t :=
  let then_addr_pos := here g in
  let g := emit DSTORE placeholder g in
  let else_addr_pos := here g in
  let g := emit DSTORE placeholder g in
  let g := emit EVAL OP_COND_JUMP g in
  let then_start := here g in
  do g <- then_body g;
  let end_addr := addr (here g) in
  do g <- patch_jump then_addr_pos (addr then_start) g;
  patch_jump else_addr_pos end_addr g.

(** [visit_WhileStatement]; [condition] and [body] emit the code of the
    condition and of the body. *)
Definition while_loop (condition body : t -> result t) (g : t) : result t :=
  let loop_start := here g in
  do g <- condition g;
  let then_addr_pos := here g in
  let g := emit DSTORE placeholder g in
  let else_addr_pos := here g in
  let g := emit DSTORE placeholder g in
  let g := emit EVAL OP_COND_JUMP g in
  let body_start := here g in
  do g <- body g;
  let g := emit JUMP (addr loop_start) g in
  let end_addr := addr (here g) in
  do g <- patch_jump then_addr_pos (addr body_start) g;
  patch_jump else_addr_pos end_addr g.

(** [visit_AssignmentStatement], after the expression's code. *)
Definition assign_to (lvalue : expr) (g : t) : result t :=
  match lvalue with
  | Identifier name =>
      let '(var_id, g) := get_var_id name g in
      Ok (emit DWRITE var_id g)
  | SpecialVar name =>
      if String.eqb name "write" then Ok (emit PUTI 0 g)
      else if String.eqb name "put" then Ok (emit PUTC 0 g)
      else Ok g
  | _ => Ok g
  end.

(** [visit] on statement nodes: [visit_AssignmentStatement],
    [visit_IfStatement] and [visit_WhileStatement].  In
    [if node.else_statements], [None] and the empty list are false. *)
Fixpoint visit_stmt (node : stmt) (g : t) : result t :=
  match node with
  | AssignmentStatement lvalue expression =>
      do g <- visit_expr expression g;
      assign_to lvalue g
  | IfStatement condition then_statements else_statements =>
      do g <- visit_expr condition g;
      match else_statements with
      | Some ((_ :: _) as else_statements) =>
          if_with_else (visit_each visit_stmt then_statements)
            (visit_each visit_stmt else_statements) g
      | _ => if_without_else (visit_each visit_stmt then_statements) g
      end
  | WhileStatement condition body_statements =>
      while_loop (visit_expr condition)
        (visit_each visit_stmt body_statements) g
  end.

Definition visit_Program (node : program) (g : t) : result t :=
  let 'Program statements := node in visit_each visit_stmt statements g.

(** [generate] on a generator [g]; the instruction list it returns is the
    [instructions] field of the result. *)
Definition generate_from (g : t) (ast : program) : result t :=
  do g <- visit_Program ast g;
  Ok (emit JUMP HALT g).

End Visit.

(** The value the source emits in a patch slot. *)
Definition PLACEHOLDER : Z := 0.

(** [CodeGenerator().generate(ast)], together with the generator's final
    [var_count], which [main] passes to the bytecode writer. *)
Definition generate (ast : program) : result t :=
  generate_from PLACEHOLDER new ast.

End CodeGenerator.

(** ** struct.pack and struct.unpack, formats [">I"] and [">II"] *)

Module Struct.

(** The byte made of the eight low bits of [x]. *)
Definition byte_of_Z (x : Z) : byte :=
  match Byte.of_N (Z.to_N (Z.land x 255)) with
  | Some b => b
  | None => Byte.x00
  end.

Definition Z_of_byte (b : byte) : Z := Z.of_N (Byte.to_N b).

(** [struct.pack(">I", x)]: four bytes, most significant first; an [x]
    outside [0, 2^32) raises [struct.error]. *)
Definition pack_I (x : Z) : result (list byte) :=
  if (0 <=? x) && (x <? 2 ^ 32) then
    Ok [byte_of_Z (Z.shiftr x 24); byte_of_Z (Z.shiftr x 16);
        byte_of_Z (Z.shiftr x 8); byte_of_Z x]
  else Err StructError.

(** [struct.unpack(">I", b)[0]]: [b] must hold exactly four bytes. *)
Definition unpack_I (b : list byte) : result Z :=
  match b with
  | [b3; b2; b1; b0] =>
      Ok (Z.lor (Z.shiftl (Z_of_byte b3) 24)
            (Z.lor (Z.shiftl (Z_of_byte b2) 16)
               (Z.lor (Z.shiftl (Z_of_byte b1) 8) (Z_of_byte b0))))
  | _ => Err StructError
  end.

Definition pack_II (x y : Z) : result (list byte) :=
  do bx <- pack_I x;
  do by_ <- pack_I y;
  Ok (bx ++ by_).

Definition unpack_II (b : list byte) : result (Z * Z) :=
  if Nat.eqb (length b) 8 then
    do x <- unpack_I (take 4 b);
    do y <- unpack_I (drop 4 b);
    Ok (x, y)
  else Err StructError.

End Struct.

(** ** compiler.py: bytecode writer *)

Definition MAGIC : list byte := list_byte_of_string "MANDRILLBYTECODE".

#[global] Instance byte_eq_decision : EqDecision byte := Byte.byte_eq_dec.

Module BytecodeWriter.

(** The [for] loop over the instructions. *)
Fixpoint write_code (instructions : list instruction) : result (list byte) :=
  match instructions with
  | [] => Ok []
  | (opcode, operand) :: rest =>
      do instruction <- Struct.pack_II opcode operand;
      do code <- write_code rest;
      Ok (instruction ++ code)
  end.

Definition write_bytecode (instructions : list instruction) (var_count : Z)
  : result (list byte) :=
  let data_size := var_count * 4 in
  let code_size := Z.of_nat (length instructions) * 8 in
  do version <- Struct.pack_I 1;
  do data_size_bytes <- Struct.pack_I data_size;
  do code_size_bytes <- Struct.pack_I code_size;
  let padding := [Byte.x00; Byte.x00; Byte.x00; Byte.x00] in
  let header := MAGIC ++ version ++ data_size_bytes ++ code_size_bytes ++ padding in
  do code <- write_code instructions;
  Ok (header ++ code).

End BytecodeWriter.

(** ** vm.py *)

Module MandrillVM.

(** The machine.  [stack] has its top first: [stack[-1]] is the head of the
    list.  [input_tokens] and [input_chars] are what is left to read, that is
    the lists from [input_pos] and from [char_pos] on.  [output] is what has
    been printed. *)
Record t : Type := mk {
  stack : list Z;
  variables : list Z;
  code : list instruction;
  pc : Z;
  input_tokens : list string;
  input_chars : string;
  output : string
}.

Definition INT32_MIN : Z := -2147483648.
Definition INT32_MAX : Z := 2147483647.
Definition UINT32_MAX : Z := 4294967296.

(** [MandrillVM()], with [all_input] what [sys.stdin.read()] returns.  When
    the read raises, [_preload_input] leaves what the empty input gives,
    [new EmptyString]. *)
Definition new (all_input : string) : t :=
  mk [] [] [] 0 (Py.split all_input) all_input EmptyString.

Definition set_stack (s : list Z) (vm : t) : t :=
  mk s (variables vm) (code vm) (pc vm) (input_tokens vm) (input_chars vm) (output vm).
Definition set_variables (v : list Z) (vm : t) : t :=
  mk (stack vm) v (code vm) (pc vm) (input_tokens vm) (input_chars vm) (output vm).
Definition set_pc (p : Z) (vm : t) : t :=
  mk (stack vm) (variables vm) (code vm) p (input_tokens vm) (input_chars vm) (output vm).
Definition print (s : string) (vm : t) : t :=
  mk (stack vm) (variables vm) (code vm) (pc vm) (input_tokens vm) (input_chars vm)
     (output vm +:+ s).

(** [_get_next_int]: the value and the tokens left. *)
Fixpoint _get_next_int (tokens : list string) : Z * list string :=
  match tokens with
  | token :: rest =>
      match Py.int token with
      | Ok v => (v, rest)
      | Err _ => _get_next_int rest
      end
  | [] => (0, [])
  end.

Definition _get_next_char (chars : string) : Z * string :=
  match chars with
  | String char rest => (Py.ord char, rest)
  | EmptyString => (0, EmptyString)
  end.

Definition _to_32bit_int (value : Z) : Z :=
  if (INT32_MIN <=? value) && (value <=? INT32_MAX) then value
  else ((value + INT32_MAX + 1) mod UINT32_MAX) + INT32_MIN.

(** [f.read(n)] on the bytes left in the file: the bytes read and the rest. *)
Definition read (n : Z) (file : list byte) : list byte * list byte :=
  (take (Z.to_nat n) file, drop (Z.to_nat n) file).

(** The [for i in range(instruction_count)] loop, on [code_bytes[offset:]]. *)
Fixpoint decode (instruction_count : nat) (code_bytes : list byte)
  : result (list instruction) :=
  match instruction_count with
  | O => Ok []
  | S n =>
      do i <- Struct.unpack_II (take 8 code_bytes);
      do rest <- decode n (drop 8 code_bytes);
      Ok (i :: rest)
  end.

Definition load_bytecode (file : list byte) (vm : t) : result t :=
  let '(magic, file) := read 16 file in
  if negb (bool_decide (magic = MAGIC)) then
    Err (VMError "Invalid bytecode file: wrong magic number")
  else
    let '(b, file) := read 4 file in
    do version <- Struct.unpack_I b;
    if negb (version =? 1) then Err (VMError "Unsupported bytecode version")
    else
      let '(b, file) := read 4 file in
      do data_size <- Struct.unpack_I b;
      let '(b, file) := read 4 file in
      do code_size <- Struct.unpack_I b;
      let '(padding, file) := read 4 file in
      let var_count := data_size / 4 in
      let '(code_bytes, file) := read code_size file in
      let instruction_count := code_size / 8 in
      do code <- decode (Z.to_nat instruction_count) code_bytes;
      Ok (mk [] (replicate (Z.to_nat var_count) 0) code (pc vm)
             (input_tokens vm) (input_chars vm) (output vm)).

Definition bool_to_int (b : bool) : Z := if b then 1 else 0.

(** [execute_eval_optimized]; [lhs] and [rhs] are the source's [left] and
    [right].  The conditional jump leaves [pc] one below its target, for the
    main loop adds one. *)
Definition execute_eval_optimized (operand : Z) (vm : t) : result t :=
  if operand =? OP_COND_JUMP then
    match stack vm with
    | else_addr :: then_addr :: condition :: rest =>
        let vm := set_stack rest vm in
        let target := if negb (condition =? 0) then then_addr / 8 else else_addr / 8 in
        Ok (set_pc (target - 1) vm)
    | _ => Err IndexError
    end
  else
    match stack vm with
    | rhs :: lhs :: rest =>
        let vm := set_stack rest vm in
        do result <-
          (if operand =? OP_MUL then
             if (lhs =? 0) || (rhs =? 0) then Ok 0
             else if lhs =? 1 then Ok rhs
             else if rhs =? 1 then Ok lhs
             else Ok (lhs * rhs)
           else if operand =? OP_ADD then Ok (lhs + rhs)
           else if operand =? OP_SUB then Ok (_to_32bit_int (lhs - rhs))
           else if operand =? OP_DIV then
             if rhs =? 0 then Err (VMError "Division by zero")
             else Ok (_to_32bit_int (lhs / rhs))
           else if operand =? OP_MOD then
             if rhs =? 0 then Err (VMError "Division by zero")
             else
               let mod_result := lhs mod rhs in
               let mod_result :=
                 if (rhs >? 0) && (mod_result <? 0) then mod_result + rhs
                 else mod_result in
               Ok (_to_32bit_int mod_result)
           else if operand =? OP_EQ then Ok (bool_to_int (lhs =? rhs))
           else if operand =? OP_NE then Ok (bool_to_int (negb (lhs =? rhs)))
           else if operand =? OP_GT then Ok (bool_to_int (lhs >? rhs))
           else if operand =? OP_LT then Ok (bool_to_int (lhs <? rhs))
           else if operand =? OP_GE then Ok (bool_to_int (lhs >=? rhs))
           else if operand =? OP_LE then Ok (bool_to_int (lhs <=? rhs))
           else Err (VMError "Unknown eval operand"));
        Ok (set_stack (result :: stack vm) vm)
    | _ => Err IndexError
    end.

(** [execute_eval], which the source keeps as a fallback: it works with
    [pop] on [self.stack] and tests the depth of the stack first. *)
Definition execute_eval (operand : Z) (vm : t) : result t :=
  if operand =? OP_COND_JUMP then
    if (length (stack vm) <? 3)%nat then
      Err (VMError "Stack underflow in conditional jump")
    else
      match stack vm with
      | else_addr :: then_addr :: condition :: rest =>
          let vm := set_stack rest vm in
          let target := if negb (condition =? 0) then then_addr / 8 else else_addr / 8 in
          Ok (set_pc (target - 1) vm)
      | _ => Err IndexError
      end
  else
    if (length (stack vm) <? 2)%nat then
      Err (VMError "Stack underflow in binary operation")
    else
      match stack vm with
      | rhs :: lhs :: rest =>
          let vm := set_stack rest vm in
          do result <-
            (if operand =? OP_ADD then Ok (lhs + rhs)
             else if operand =? OP_SUB then Ok (_to_32bit_int (lhs - rhs))
             else if operand =? OP_MUL then Ok (lhs * rhs)
             else if operand =? OP_DIV then
               if rhs =? 0 then Err (VMError "Division by zero")
               else Ok (_to_32bit_int (lhs / rhs))
             else if operand =? OP_MOD then
               if rhs =? 0 then Err (VMError "Division by zero")
               else
                 let mod_result := lhs mod rhs in
                 let mod_result :=
                   if (rhs >? 0) && (mod_result <? 0) then mod_result + rhs
                   else mod_result in
                 Ok (_to_32bit_int mod_result)
             else if operand =? OP_GT then Ok (bool_to_int (lhs >? rhs))
             else if operand =? OP_LT then Ok (bool_to_int (lhs <? rhs))
             else if operand =? OP_GE then Ok (bool_to_int (lhs >=? rhs))
             else if operand =? OP_LE then Ok (bool_to_int (lhs <=? rhs))
             else if operand =? OP_EQ then Ok (bool_to_int (lhs =? rhs))
             else if operand =? OP_NE then Ok (bool_to_int (negb (lhs =? rhs)))
             else Err (VMError "Unknown eval operand"));
          Ok (set_stack (result :: stack vm) vm)
      | _ => Err IndexError
      end.

(** The handlers of [run].  Each returns the machine and whether the program
    has ended, which only [handle_jump] can say. *)
Definition handle_dload (operand : Z) (vm : t) : result t :=
  match Py.index (variables vm) operand with
  | Some v => Ok (set_stack (v :: stack vm) vm)
  | None => Err IndexError
  end.

Definition handle_dwrite (operand : Z) (vm : t) : result t :=
  match stack vm with
  | value :: rest =>
      let vm := set_stack rest vm in
      match Py.set_index (variables vm) operand (_to_32bit_int value) with
      | Some vars => Ok (set_variables vars vm)
      | None => Err IndexError
      end
  | [] => Err IndexError
  end.

Definition handle_jump (operand : Z) (vm : t) : bool * t :=
  if operand =? HALT then (true, vm)
  else (false, set_pc (operand / 8 - 1) vm).

Definition handle_geti (vm : t) : t :=
  let '(v, rest) := _get_next_int (input_tokens vm) in
  mk (v :: stack vm) (variables vm) (code vm) (pc vm) rest (input_chars vm) (output vm).

Definition handle_getc (vm : t) : t :=
  let '(v, rest) := _get_next_char (input_chars vm) in
  mk (v :: stack vm) (variables vm) (code vm) (pc vm) (input_tokens vm) rest (output vm).

Definition handle_puti (vm : t) : result t :=
  match stack vm with
  | value :: rest => Ok (print (Py.str (_to_32bit_int value)) (set_stack rest vm))
  | [] => Err IndexError
  end.

Definition handle_putc (vm : t) : result t :=
  match stack vm with
  | value :: rest =>
      let vm := set_stack rest vm in
      let value := _to_32bit_int value in
      if (0 <=? value) && (value <=? 127) then
        Ok (print (String (Py.chr value) EmptyString) vm)
      else Ok vm
  | [] => Err IndexError
  end.

(** The body of the main loop, up to [self.pc += 1]: the instruction
    handler found in [instruction_handlers].  The boolean is [True] when the
    loop is left by [break]. *)
Definition dispatch (opcode operand : Z) (vm : t) : result (bool * t) :=
  if opcode =? NOP then Ok (false, vm)
  else if opcode =? DSTORE then Ok (false, set_stack (operand :: stack vm) vm)
  else if opcode =? DLOAD then do vm <- handle_dload operand vm; Ok (false, vm)
  else if opcode =? DWRITE then do vm <- handle_dwrite operand vm; Ok (false, vm)
  else if opcode =? EVAL then do vm <- execute_eval_optimized operand vm; Ok (false, vm)
  else if opcode =? JUMP then Ok (handle_jump operand vm)
  else if opcode =? GETI then Ok (false, handle_geti vm)
  else if opcode =? GETC then Ok (false, handle_getc vm)
  else if opcode =? PUTI then do vm <- handle_puti vm; Ok (false, vm)
  else if opcode =? PUTC then do vm <- handle_putc vm; Ok (false, vm)
  else Err (VMError "Unknown opcode").

(** One turn of the main loop, entered with [pc < len(code)]. *)
Definition step (vm : t) : result (bool * t) :=
  match Py.index (code vm) (pc vm) with
  | None => Err IndexError
  | Some (opcode, operand) =>
      do (halted, vm) <- dispatch opcode operand vm;
      if halted then Ok (true, vm) else Ok (false, set_pc (pc vm + 1) vm)
  end.

(** [while self.pc < len(code)]. *)
Fixpoint run_loop (fuel : nat) (vm : t) : result t :=
  if pc vm <? Z.of_nat (length (code vm)) then
    match fuel with
    | O => Err OutOfFuel
    | S f =>
        do (halted, vm) <- step vm;
        if halted then Ok vm else run_loop f vm
    end
  else Ok vm.

Definition run (fuel : nat) (vm : t) : result t :=
  run_loop fuel (set_pc 0 vm).

(** [main]: load the file and run it; the result is the standard output. *)
Definition main (fuel : nat) (file : list byte) (all_input : string)
  : result string :=
  do vm <- load_bytecode file (new all_input);
  do vm <- run fuel vm;
  Ok (output vm).

End MandrillVM.

(** compiler.py's [main], from the source text to the bytecode file. *)
Definition compile (fuel : nat) (source : string) : result (list byte) :=
  do ast <- Compiler.parse fuel source;
  do g <- CodeGenerator.generate ast;
  BytecodeWriter.write_bytecode (CodeGenerator.instructions g)
    (CodeGenerator.var_count g).

(** Compile, then execute on the VM. *)
Definition compile_and_run (fuel : nat) (source all_input : string)
  : result string :=
  do file <- compile fuel source;
  MandrillVM.main fuel file all_input.

(** ** interpreter.py *)

Module Interpreter.

(** The interpreter's own node classes.  A [Literal] holds the integer; a
    [Block] node is its list of statements. *)
Inductive expr : Type :=
| BinaryOp (left : expr) (op : string) (right : expr)
| Literal (value : Z)
| Identifier (name : string)
| Keyword (name : string).

Inductive stmt : Type :=
| Assignment (target : expr) (value : expr)
| IfStatement (condition : expr) (then_block : list stmt)
    (else_block : option (list stmt))
| WhileStatement (condition : expr) (body : list stmt).

Inductive program : Type := Program (statements : list stmt).

(** interpreter.py has its own [ASTParser].  Its [__init__], [error] and
    [eat] are those of compiler.py's, and are shared here. *)
#[local] Abbreviation parser := Compiler.parser.
#[local] Abbreviation current_token := Compiler.current_token.
#[local] Abbreviation eat := Compiler.eat.
#[local] Abbreviation error := Compiler.error.

Section Expressions.

Variable expression : parser -> result (expr * parser).

Definition primary (p : parser) : result (expr * parser) :=
  match current_token p with
  | None => Err AttributeError
  | Some tok =>
      match type tok with
      | LITERAL =>
          do p <- eat LITERAL None p;
          do v <- (if Py.startswith "0x" (value tok) then Py.int16 (value tok)
                   else Py.int (value tok));
          Ok (Literal v, p)
      | ID =>
          do p <- eat ID None p; Ok (Identifier (value tok), p)
      | KEYWORD =>
          if str_in (value tok) ["read"; "write"; "put"; "get"] then
            do p <- eat KEYWORD None p; Ok (Keyword (value tok), p)
          else error "Invalid primary expression"
      | OP =>
          if String.eqb (value tok) "(" then
            do p <- eat OP (Some "(") p;
            do (node, p) <- expression p;
            do p <- eat OP (Some ")") p;
            Ok (node, p)
          else error "Invalid primary expression"
      end
  end.

Fixpoint binop_loop (ops : list string)
  (operand : parser -> result (expr * parser))
  (fuel : nat) (node : expr) (p : parser) : result (expr * parser) :=
  match current_token p with
  | Some tok =>
      if TokenType_eqb (type tok) OP && str_in (value tok) ops then
        match fuel with
        | O => Err OutOfFuel
        | S f =>
            let op := value tok in
            do p <- eat OP (Some op) p;
            do (rhs, p) <- operand p;
            binop_loop ops operand f (BinaryOp node op rhs) p
        end
      else Ok (node, p)
  | None => Ok (node, p)
  end.

Definition factor (fuel : nat) (p : parser) : result (expr * parser) :=
  do (node, p) <- primary p;
  binop_loop ["*"; "/"; "%"] primary fuel node p.

Definition term (fuel : nat) (p : parser) : result (expr * parser) :=
  do (node, p) <- factor fuel p;
  binop_loop ["+"; "-"] (factor fuel) fuel node p.

Definition comparison (fuel : nat) (p : parser) : result (expr * parser) :=
  do (node, p) <- term fuel p;
  binop_loop [">"; "<"; ">="; "<="] (term fuel) fuel node p.

Definition equality (fuel : nat) (p : parser) : result (expr * parser) :=
  do (node, p) <- comparison fuel p;
  binop_loop ["=="; "!="] (comparison fuel) fuel node p.

End Expressions.

Fixpoint expression (fuel : nat) (p : parser) : result (expr * parser) :=
  match fuel with
  | O => Err OutOfFuel
  | S f => equality (expression f) f p
  end.

Section Statements.

Variable fuel : nat.
Variable statement : parser -> result (stmt * parser).

(** The [while] loop of this file's [statement_list]: it goes on until
    the token is the operator [}]. *)
Fixpoint statement_loop (n : nat) (statements : list stmt) (p : parser)
  : result (list stmt * parser) :=
  match current_token p with
  | Some tok =>
      if negb (TokenType_eqb (type tok) OP && Compiler.is_close_brace tok) then
        match n with
        | O => Err OutOfFuel
        | S n' =>
            do (s, p) <- statement p;
            statement_loop n' (statements ++ [s]) p
        end
      else Ok (statements, p)
  | None => Ok (statements, p)
  end.

Definition statement_list (p : parser) : result (list stmt * parser) :=
  statement_loop fuel [] p.

Definition if_statement (p : parser) : result (stmt * parser) :=
  do p <- eat KEYWORD (Some "if") p;
  do p <- eat OP (Some "(") p;
  do (condition, p) <- expression fuel p;
  do p <- eat OP (Some ")") p;
  do p <- eat OP (Some "{") p;
  do (then_block, p) <- statement_list p;
  do p <- eat OP (Some "}") p;
  if Compiler.at_else p then
    do p <- eat KEYWORD (Some "else") p;
    do p <- eat OP (Some "{") p;
    do (else_block, p) <- statement_list p;
    do p <- eat OP (Some "}") p;
    Ok (IfStatement condition then_block (Some else_block), p)
  else Ok (IfStatement condition then_block None, p).

Definition while_statement (p : parser) : result (stmt * parser) :=
  do p <- eat KEYWORD (Some "while") p;
  do p <- eat OP (Some "(") p;
  do (condition, p) <- expression fuel p;
  do p <- eat OP (Some ")") p;
  do p <- eat OP (Some "{") p;
  do (body, p) <- statement_list p;
  do p <- eat OP (Some "}") p;
  Ok (WhileStatement condition body, p).

Definition assignment_statement (p : parser) : result (stmt * parser) :=
  match current_token p with
  | None => Err AttributeError
  | Some tok =>
      do (target, p) <-
        match type tok with
        | ID => do p <- eat ID None p; Ok (Identifier (value tok), p)
        | KEYWORD =>
            if str_in (value tok) ["write"; "put"] then
              do p <- eat KEYWORD None p; Ok (Keyword (value tok), p)
            else error "Expected identifier or output variable"
        | _ => error "Expected identifier or output variable"
        end;
      do p <- eat OP (Some "=") p;
      do (v, p) <- expression fuel p;
      do p <- eat OP (Some ";") p;
      Ok (Assignment target v, p)
  end.

End Statements.

Fixpoint statement (fuel : nat) (p : parser) : result (stmt * parser) :=
  match fuel with
  | O => Err OutOfFuel
  | S f =>
      match current_token p with
      | None => error "Unexpected end of input"
      | Some tok =>
          match type tok with
          | KEYWORD =>
              if String.eqb (value tok) "if" then if_statement f (statement f) p
              else if String.eqb (value tok) "while" then while_statement f (statement f) p
              else if str_in (value tok) ["write"; "put"] then assignment_statement f p
              else error "Unexpected keyword"
          | ID => assignment_statement f p
          | _ => error "Unexpected token"
          end
      end
  end.

Definition parse (fuel : nat) (source : string) : result program :=
  do p <- Compiler.init source;
  do (statements, p) <- statement_list fuel (statement fuel) p;
  match current_token p with
  | Some _ => error "Unexpected token at end of input"
  | None => Ok (Program statements)
  end.

(** The interpreter object.  [input_data] is what is left to read, the text
    from [input_index] on; [output] is what has been printed. *)
Record t : Type := mk {
  variables : gmap string Z;
  input_data : string;
  output : string
}.

(** What [open(input_file, 'r')] and [f.read()] meet in [__init__]. *)
Inductive input_file : Type :=
| Missing                  (* no such file: FileNotFoundError *)
| Unopenable               (* another OSError of [open] or [read] *)
| Undecodable              (* bytes that do not decode: UnicodeDecodeError *)
| Text (decoded : string). (* the characters that the bytes decode to *)

(** [Interpreter()]: only [FileNotFoundError] is caught, and leaves the
    input empty; the file is read in text mode. *)
Definition new (file : input_file) : result t :=
  match file with
  | Missing => Ok (mk ∅ EmptyString EmptyString)
  | Unopenable => Err OSError
  | Undecodable => Err UnicodeDecodeError
  | Text decoded => Ok (mk ∅ (Py.universal_newlines decoded) EmptyString)
  end.

Definition print (s : string) (i : t) : t :=
  mk (variables i) (input_data i) (output i +:+ s).

Definition read_integer (i : t) : Z * t :=
  let data := Lexer.skip_whitespace (input_data i) in
  match data with
  | EmptyString => (0, mk (variables i) data (output i))
  | String c _ =>
      let '(sign, after_sign) :=
        if Ascii.eqb c "-" then ("-", Lexer.advance data) else ("", data) in
      let '(digits, rest) := Lexer.take_while Py.isdigit after_sign in
      let num_str := sign +:+ digits in
      if String.eqb num_str "" || String.eqb num_str "-" then
        (0, mk (variables i) data (output i))
      else
        match Py.int num_str with
        | Ok v => (v, mk (variables i) rest (output i))
        | Err _ => (0, mk (variables i) rest (output i))
        end
  end.

Definition read_character (i : t) : Z * t :=
  match input_data i with
  | String char rest => (Py.ord char, mk (variables i) rest (output i))
  | EmptyString => (0, i)
  end.

Definition bool_to_int (b : bool) : Z := if b then 1 else 0.

Definition binary (op : string) (lhs rhs : Z) : result Z :=
  if String.eqb op "+" then Ok (lhs + rhs)
  else if String.eqb op "-" then Ok (lhs - rhs)
  else if String.eqb op "*" then Ok (lhs * rhs)
  else if String.eqb op "/" then Ok (if negb (rhs =? 0) then lhs / rhs else 0)
  else if String.eqb op "%" then Ok (if negb (rhs =? 0) then lhs mod rhs else 0)
  else if String.eqb op ">" then Ok (bool_to_int (lhs >? rhs))
  else if String.eqb op "<" then Ok (bool_to_int (lhs <? rhs))
  else if String.eqb op ">=" then Ok (bool_to_int (lhs >=? rhs))
  else if String.eqb op "<=" then Ok (bool_to_int (lhs <=? rhs))
  else if String.eqb op "==" then Ok (bool_to_int (lhs =? rhs))
  else if String.eqb op "!=" then Ok (bool_to_int (negb (lhs =? rhs)))
  else Err (InterpreterError "Unknown binary operator").

Definition visit_Identifier (name : string) (i : t) : Z :=
  default 0 (variables i !! name).

Definition visit_Keyword (name : string) (i : t) : result (Z * t) :=
  if String.eqb name "read" then Ok (read_integer i)
  else if String.eqb name "get" then Ok (read_character i)
  else if str_in name ["write"; "put"] then Ok (0, i)
  else Err (InterpreterError "Unknown keyword").

(** [visit] on expression nodes; [binary] is the chain of comparisons of
    [visit_BinaryOp]. *)
Fixpoint visit_expr (node : expr) (i : t) : result (Z * t) :=
  match node with
  | BinaryOp l op r =>
      do (lhs, i) <- visit_expr l i;
      do (rhs, i) <- visit_expr r i;
      do v <- binary op lhs rhs;
      Ok (v, i)
  | Literal v => Ok (v, i)
  | Identifier name => Ok (visit_Identifier name i, i)
  | Keyword name => visit_Keyword name i
  end.

(** [visit_Assignment], after the value has been computed. *)
Definition assign_to (target : expr) (v : Z) (i : t) : t :=
  match target with
  | Identifier name => mk (<[name := v]> (variables i)) (input_data i) (output i)
  | Keyword name =>
      if String.eqb name "write" then print (Py.str v) i
      else if String.eqb name "put" then
        if (0 <=? v) && (v <=? 127) then print (String (Py.chr v) EmptyString) i
        else i
      else i
  | _ => i
  end.

(** [visit_Block] and the loop of [visit_Program]. *)
Definition visit_each (visit : stmt -> t -> result t)
  : list stmt -> t -> result t :=
  fix each (statements : list stmt) (i : t) : result t :=
    match statements with
    | [] => Ok i
    | s :: rest => do i <- visit s i; each rest i
    end.

(** [visit] on statement nodes.  Each turn of the [while True] loop of
    [visit_WhileStatement] takes one unit of fuel, as does each nested
    statement. *)
Fixpoint visit_stmt (fuel : nat) (node : stmt) (i : t) : result t :=
  match fuel with
  | O => Err OutOfFuel
  | S f =>
      match node with
      | Assignment target e =>
          do (v, i) <- visit_expr e i;
          Ok (assign_to target v i)
      | IfStatement condition then_block else_block =>
          do (c, i) <- visit_expr condition i;
          if negb (c =? 0) then visit_each (visit_stmt f) then_block i
          else
            match else_block with
            | Some b => visit_each (visit_stmt f) b i
            | None => Ok i
            end
      | WhileStatement condition body =>
          do (c, i) <- visit_expr condition i;
          if c =? 0 then Ok i
          else
            do i <- visit_each (visit_stmt f) body i;
            visit_stmt f node i
      end
  end.

Definition interpret (fuel : nat) (ast : program) (i : t) : result t :=
  let 'Program statements := ast in visit_each (visit_stmt fuel) statements i.

(** [main], with [file] the state of [mandrill.in]: the result is the
    standard output, or the exception that reaches the [except] clause. *)
Definition main (fuel : nat) (source : string) (file : input_file)
  : result string :=
  do ast <- parse fuel source;
  do i <- new file;
  do i <- interpret fuel ast i;
  Ok (output i).

End Interpreter.

(** ** Definitions that follow the specification's words *)

(** Truncate32 of the specification's glossary: signed 32-bit two's-complement
    wrap, [((x + 2^31) mod 2^32) - 2^31]. *)
Definition truncate32 (x : Z) : Z := ((x + 2 ^ 31) mod 2 ^ 32) - 2 ^ 31.



(** A value that fits in an unsigned 32-bit field. *)
Definition u32 (x : Z) : Prop := 0 <= x < 2 ^ 32.

(** The escapes that the specification accepts in a character literal,
    [\n], [\\] and [\'], with the code point each stands for. *)
Definition escape_value (e : ascii) : option Z :=
  if Ascii.eqb e "n" then Some 10
  else if Ascii.eqb e "\" then Some 92
  else if Ascii.eqb e "'" then Some 39
  else None.

(** ** The generated code without patching

    [Layout] gives the code of a tree directly, each address computed from
    the position [base] at which the code starts, with no placeholder and no
    patching.  The proofs show that [CodeGenerator] produces this code; the
    theorems on [generate] are read off it. *)

Module Layout.

Import Compiler.

(** The variable table and the next free index. *)
Record symbols : Type := mk { table : gmap string Z; count : Z }.

Definition symbols_of (g : CodeGenerator.t) : symbols :=
  mk (CodeGenerator.var_table g) (CodeGenerator.var_count g).

(** The generator [g] after [code] has been appended, with symbols [v]. *)
Definition extend (g : CodeGenerator.t) (code : list instruction) (v : symbols)
  : CodeGenerator.t :=
  CodeGenerator.mk (CodeGenerator.instructions g ++ code) (table v) (count v).

Definition var_id (name : string) (v : symbols) : Z * symbols :=
  match table v !! name with
  | Some id => (id, v)
  | None => (count v, mk (<[name := count v]> (table v)) (count v + 1))
  end.

Fixpoint expr_code (node : expr) (v : symbols) : result (list instruction * symbols) :=
  match node with
  | BinaryOp l operator r =>
      do (cl, v) <- expr_code l v;
      do (cr, v) <- expr_code r v;
      match CodeGenerator.op_map operator with
      | Some code => Ok (cl ++ cr ++ [(EVAL, code)], v)
      | None => Err (GenerationError "Unknown operator")
      end
  | Identifier name =>
      let '(id, v) := var_id name v in Ok ([(DLOAD, id)], v)
  | Literal value =>
      do n <- Py.int16 value; Ok ([(DSTORE, n)], v)
  | SpecialVar name =>
      if String.eqb name "read" then Ok ([(GETI, 0)], v)
      else if String.eqb name "get" then Ok ([(GETC, 0)], v)
      else if String.eqb name "write" || String.eqb name "put" then
        Err (GenerationError "Unexpected special variable in expression")
      else Ok ([], v)
  end.

Definition assign_code (lvalue : expr) (v : symbols) : list instruction * symbols :=
  match lvalue with
  | Identifier name => let '(id, v) := var_id name v in ([(DWRITE, id)], v)
  | SpecialVar name =>
      if String.eqb name "write" then ([(PUTI, 0)], v)
      else if String.eqb name "put" then ([(PUTC, 0)], v)
      else ([], v)
  | _ => ([], v)
  end.

Definition block_code (stmt_code : nat -> stmt -> symbols -> result (list instruction * symbols))
  : nat -> list stmt -> symbols -> result (list instruction * symbols) :=
  fix block (base : nat) (statements : list stmt) (v : symbols) :=
    match statements with
    | [] => Ok ([], v)
    | s :: rest =>
        do (c, v) <- stmt_code base s v;
        do (cs, v) <- block (base + length c)%nat rest v;
        Ok (c ++ cs, v)
    end.

#[local] Abbreviation addr := CodeGenerator.addr.

Fixpoint stmt_code (base : nat) (node : stmt) (v : symbols)
  : result (list instruction * symbols) :=
  match node with
  | AssignmentStatement lvalue expression =>
      do (ce, v) <- expr_code expression v;
      let '(ca, v) := assign_code lvalue v in
      Ok (ce ++ ca, v)
  | IfStatement condition then_statements else_statements =>
      do (cc, v) <- expr_code condition v;
      let then_start := (base + length cc + 3)%nat in
      do (ct, v) <- block_code stmt_code then_start then_statements v;
      match else_statements with
      | Some ((_ :: _) as else_statements) =>
          let else_start := (then_start + length ct + 1)%nat in
          do (ce, v) <- block_code stmt_code else_start else_statements v;
          let end_ := (else_start + length ce)%nat in
          Ok (cc ++ [(DSTORE, addr then_start); (DSTORE, addr else_start);
                     (EVAL, OP_COND_JUMP)]
                 ++ ct ++ [(JUMP, addr end_)] ++ ce, v)
      | _ =>
          let end_ := (then_start + length ct)%nat in
          Ok (cc ++ [(DSTORE, addr then_start); (DSTORE, addr end_);
                     (EVAL, OP_COND_JUMP)] ++ ct, v)
      end
  | WhileStatement condition body_statements =>
      do (cc, v) <- expr_code condition v;
      let body_start := (base + length cc + 3)%nat in
      do (cb, v) <- block_code stmt_code body_start body_statements v;
      let end_ := (body_start + length cb + 1)%nat in
      Ok (cc ++ [(DSTORE, addr body_start); (DSTORE, addr end_);
                 (EVAL, OP_COND_JUMP)] ++ cb ++ [(JUMP, addr base)], v)
  end.

(** [f] appends to the generator the code that [code_at] gives for the
    current position and symbols, and fails when [code_at] fails. *)
Definition appends (f : CodeGenerator.t -> result CodeGenerator.t)
  (code_at : nat -> symbols -> result (list instruction * symbols)) : Prop :=
  forall g c v,
    f (extend g c v) =
    do (c', v') <- code_at (CodeGenerator.here g + length c)%nat v;
    Ok (extend g (c ++ c') v').

(** The symbols are dense: every index of the table is below the counter. *)
Definition symbols_ok (v : symbols) : Prop :=
  0 <= count v /\ map_Forall (fun _ id => 0 <= id < count v) (table v).

(** Every [DLOAD] and [DWRITE] of [c] names a variable below [n]. *)
Definition vars_below (n : Z) (c : list instruction) : Prop :=
  Forall (fun i => i.1 = DLOAD \/ i.1 = DWRITE -> 0 <= i.2 < n) c.

(** Code without conditional jump. *)
Definition plain (c : list instruction) : Prop :=
  Forall (fun i => i <> (EVAL, OP_COND_JUMP)) c.

(** Every [EVAL COND_JUMP] of [code] comes right after two [DSTORE]
    instructions whose operands are the addresses of positions in
    [(lo, hi]]. *)
Definition slots_ok (lo hi : nat) (code : list instruction) : Prop :=
  forall i, code !! i = Some (EVAL, OP_COND_JUMP) ->
    exists j p q,
      i = S (S j) /\
      code !! j = Some (DSTORE, addr p) /\
      code !! S j = Some (DSTORE, addr q) /\
      (lo < p <= hi)%nat /\ (lo < q <= hi)%nat.

End Layout.

(** ** Shape of the parser's output *)

Module Shape.

Import Compiler.

(** [write] or [put] occurs in expression position. *)
Fixpoint expr_reads_output (e : expr) : bool :=
  match e with
  | BinaryOp l _ r => expr_reads_output l || expr_reads_output r
  | SpecialVar name => String.eqb name "write" || String.eqb name "put"
  | _ => false
  end.

Fixpoint stmt_reads_output (s : stmt) : bool :=
  match s with
  | AssignmentStatement _ e => expr_reads_output e
  | IfStatement c t e =>
      expr_reads_output c || existsb stmt_reads_output t ||
      match e with
      | Some l => existsb stmt_reads_output l
      | None => false
      end
  | WhileStatement c b => expr_reads_output c || existsb stmt_reads_output b
  end.

Definition program_reads_output (ast : program) : bool :=
  let 'Program statements := ast in existsb stmt_reads_output statements.

(** What the parser builds: operators of the grammar and literals whose
    payload [int(value, 16)] reads. *)
Fixpoint expr_wf (e : expr) : bool :=
  match e with
  | BinaryOp l operator r =>
      expr_wf l && is_Some_bool (CodeGenerator.op_map operator) && expr_wf r
  | Literal value => is_ok (Py.int16 value)
  | _ => true
  end.

Fixpoint stmt_wf (s : stmt) : bool :=
  match s with
  | AssignmentStatement _ e => expr_wf e
  | IfStatement c t e =>
      expr_wf c && forallb stmt_wf t &&
      match e with
      | Some l => forallb stmt_wf l
      | None => true
      end
  | WhileStatement c b => expr_wf c && forallb stmt_wf b
  end.

(** A token as the lexer makes it: the payload of a literal is a hex string. *)
Definition token_ok (t : Token) : bool :=
  match type t with
  | LITERAL => is_ok (Py.int16 (value t))
  | _ => true
  end.

Definition parser_ok (p : parser) : Prop :=
  match current_token p with
  | Some t => token_ok t = true
  | None => True
  end.

(** The parsing function [f] returns trees that satisfy [wf] and leaves a
    lexer-made token as the current one. *)
Definition preserves {A : Type} (wf : A -> bool)
  (f : parser -> result (A * parser)) : Prop :=
  forall p a p', parser_ok p -> f p = Ok (a, p') -> wf a = true /\ parser_ok p'.

(** Every operator of [ops] has its [EVAL] code. *)
Definition known (ops : list string) : Prop :=
  forall op, str_in op ops = true -> is_Some_bool (CodeGenerator.op_map op) = true.

(** The one error that generation can raise on the parser's output. *)
Definition output_read : exn :=
  GenerationError "Unexpected special variable in expression".

(** [r] is that error when [reads] holds, and a success otherwise. *)
Definition outcome {A : Type} (reads : bool) (r : result A) : Prop :=
  if reads then r = Err output_read else exists a, r = Ok a.

(** The characters of [f"{v:x}"]. *)
Definition is_lower_hex (c : ascii) : bool :=
  Py.in_range 48 57 c || Py.in_range 97 102 c.

Fixpoint all_chars (p : ascii -> bool) (s : string) : bool :=
  match s with
  | EmptyString => true
  | String c s' => p c && all_chars p s'
  end.

End Shape.

(** ** The end-to-end scenarios of the specification *)

Module Corpus.

Definition echo_sum : string := "a = read; b = read; write = a + b;".
Definition character_copy : string := "c = get; put = c; c = get; put = c;".



End Corpus.

(** ** Definitions for the further properties *)

(** *** Blocks of the syntax tree *)

Module Blocks.

Import Compiler.

(** [bool(l)] of a list. *)
Definition nonempty {A : Type} (l : list A) : bool :=
  match l with [] => false | _ :: _ => true end.

(** No block of the statement is empty. *)
Fixpoint no_empty_block (s : stmt) : bool :=
  match s with
  | AssignmentStatement _ _ => true
  | IfStatement _ t e =>
      nonempty t && forallb no_empty_block t &&
      match e with
      | Some l => nonempty l && forallb no_empty_block l
      | None => true
      end
  | WhileStatement _ b => nonempty b && forallb no_empty_block b
  end.

(** The result of a parsing method without the tree. *)
Definition forget {A : Type} (r : result (A * parser)) : result parser :=
  do (_, p) <- r; Ok p.

End Blocks.

(** *** What a parser has left to read *)

Module Measure.

Import Compiler.

(** What the parser has not consumed yet: the characters left in the lexer,
    and one more when a token is waiting. *)
Definition remaining (p : parser) : nat :=
  String.length (lexer p) + match current_token p with Some _ => 1 | None => 0 end.

(** On a parser with fewer than [bound] left, [f] does not run out of fuel,
    and what it leaves is less when it succeeds. *)
Definition consumes {A : Type} (bound : nat)
  (f : parser -> result (A * parser)) : Prop :=
  forall p, (remaining p < bound)%nat ->
    f p <> Err OutOfFuel /\
    forall a p', f p = Ok (a, p') -> (remaining p' < remaining p)%nat.

End Measure.

(** *** The trees of the two parsers *)

Module Trees.

(** The node of interpreter.py for a node of compiler.py: a [SpecialVar] is
    a [Keyword], and a [Literal] holds the integer [int(value, 16)] instead
    of the payload [value], which starts with [0x]. *)
Fixpoint expr_tree (e : Compiler.expr) : result Interpreter.expr :=
  match e with
  | Compiler.BinaryOp l op r =>
      do l' <- expr_tree l;
      do r' <- expr_tree r;
      Ok (Interpreter.BinaryOp l' op r')
  | Compiler.Identifier name => Ok (Interpreter.Identifier name)
  | Compiler.Literal s =>
      if Py.startswith "0x" s then do v <- Py.int16 s; Ok (Interpreter.Literal v)
      else Err ValueError
  | Compiler.SpecialVar name => Ok (Interpreter.Keyword name)
  end.

Section Each.

Context {A B : Type} (f : A -> result B).

Fixpoint each (l : list A) : result (list B) :=
  match l with
  | [] => Ok []
  | a :: l' => do b <- f a; do bs <- each l'; Ok (b :: bs)
  end.

End Each.

Fixpoint stmt_tree (s : Compiler.stmt) : result Interpreter.stmt :=
  match s with
  | Compiler.AssignmentStatement lvalue e =>
      do target <- expr_tree lvalue;
      do v <- expr_tree e;
      Ok (Interpreter.Assignment target v)
  | Compiler.IfStatement c t e =>
      do c' <- expr_tree c;
      do t' <- each stmt_tree t;
      match e with
      | Some l =>
          do l' <- each stmt_tree l;
          Ok (Interpreter.IfStatement c' t' (Some l'))
      | None => Ok (Interpreter.IfStatement c' t' None)
      end
  | Compiler.WhileStatement c b =>
      do c' <- expr_tree c;
      do b' <- each stmt_tree b;
      Ok (Interpreter.WhileStatement c' b')
  end.

Definition program_tree (ast : Compiler.program) : result Interpreter.program :=
  let 'Compiler.Program statements := ast in
  do statements' <- each stmt_tree statements;
  Ok (Interpreter.Program statements').

Import Compiler.

(** A token as the lexer makes it: the payload of a literal starts with
    [0x] and has a value, and only an operator is valued [}]. *)
Definition lexed (t : Token) : bool :=
  match type t with
  | LITERAL => Py.startswith "0x" (value t) && is_ok (Py.int16 (value t))
  | OP => true
  | _ => negb (is_close_brace t)
  end.

Definition lexed_parser (p : parser) : Prop :=
  match current_token p with
  | Some t => lexed t = true
  | None => True
  end.

(** The same exception, or two syntax errors. *)
Definition alike (e e' : exn) : Prop :=
  e' = e \/ ((exists m, e = SyntaxError m) /\ exists m', e' = SyntaxError m').

(** On a parser with fewer than [bound] left, [f'] builds the tree of what
    [f] builds and leaves the same parser, and fails when [f] fails. *)
Definition agree {A A' : Type} (tree : A -> result A') (bound : nat)
  (f : parser -> result (A * parser)) (f' : parser -> result (A' * parser))
  : Prop :=
  forall p, lexed_parser p -> (Measure.remaining p < bound)%nat ->
    match f p with
    | Ok (a, q) =>
        (exists a', tree a = Ok a' /\ f' p = Ok (a', q)) /\
        lexed_parser q /\ (Measure.remaining q < Measure.remaining p)%nat
    | Err e => e <> OutOfFuel /\ exists e', f' p = Err e' /\ alike e e'
    end.

(** Where interpreter.py's loop of [statement_list] stops: at the end of the
    source or at the operator [}]. *)
Definition stops (p : parser) : bool :=
  match current_token p with
  | None => true
  | Some tok => TokenType_eqb (type tok) OP && is_close_brace tok
  end.

(** What the two loops of [statement_list] have in common: where
    compiler.py's loop leaves at an operator that is not [}], interpreter.py's
    calls [statement], which raises. *)
Definition loops_agree (p : parser)
  (r : result (list stmt * parser))
  (r' : result (list Interpreter.stmt * parser)) : Prop :=
  match r with
  | Ok (l, q) =>
      lexed_parser q /\ (Measure.remaining q <= Measure.remaining p)%nat /\
      if stops q then exists l', each stmt_tree l = Ok l' /\ r' = Ok (l', q)
      else exists m, r' = Err (SyntaxError m)
  | Err e => e <> OutOfFuel /\ exists e', r' = Err e' /\ alike e e'
  end.

End Trees.

(** *** Numbers of the input and printed text *)

Module Input.

(** One of the digits 0 to 9. *)
Definition ascii_digit (c : ascii) : bool := Py.in_range 48 57 c.

(** A number as both readers take it: a minus sign or none, then one or
    more of the digits 0 to 9. *)
Definition decimal (s : string) : bool :=
  match s with
  | String "-" d => negb (String.eqb d "") && Shape.all_chars ascii_digit d
  | _ => negb (String.eqb s "") && Shape.all_chars ascii_digit s
  end.

(** The text is at its end or goes on with whitespace. *)
Definition ends_word (s : string) : bool :=
  match s with
  | EmptyString => true
  | String c _ => Py.isspace c
  end.

(** The text holds no carriage return. *)
Definition no_carriage_return (s : string) : bool :=
  Shape.all_chars (fun c => negb (Ascii.eqb c "013")) s.

End Input.

Module Printed.

(** A character of code at most 127. *)
Definition ascii7 (c : ascii) : bool := Py.ord c <=? 127.

(** What a run of the VM has printed is [printed]. *)
Definition vm_printed (printed : string) (vm vm' : MandrillVM.t) : Prop :=
  MandrillVM.output vm' = MandrillVM.output vm +:+ printed.

(** What the interpreter has printed is [printed] and what it has read is
    [read]. *)
Definition interp_frame (printed read : string) (i i' : Interpreter.t) : Prop :=
  Interpreter.output i' = Interpreter.output i +:+ printed /\
  Interpreter.input_data i = read +:+ Interpreter.input_data i'.

(** What a step of the interpreter may do: print characters of code at most
    127 and read from the front of the input. *)
Definition framed (i i' : Interpreter.t) : Prop :=
  exists printed read,
    interp_frame printed read i i' /\ Shape.all_chars ascii7 printed = true.

End Printed.

(** *** The variables of generated code *)

Module Dense.

(** Some [DLOAD] or [DWRITE] of [c] has operand [k]. *)
Definition uses (c : list instruction) (k : Z) : Prop :=
  exists i opcode, c !! i = Some (opcode, k) /\ (opcode = DLOAD \/ opcode = DWRITE).

(** The table gives the indices from 0 up to the counter, one name each. *)
Definition tight (v : Layout.symbols) : Prop :=
  0 <= Layout.count v /\
  (forall name id, Layout.table v !! name = Some id -> 0 <= id < Layout.count v) /\
  (forall n1 n2 id, Layout.table v !! n1 = Some id ->
                    Layout.table v !! n2 = Some id -> n1 = n2) /\
  (forall k, 0 <= k < Layout.count v -> exists name, Layout.table v !! name = Some k).

(** [f] goes from tight symbols to tight symbols, and its code uses every
    index that it adds. *)
Definition allocates (f : Layout.symbols -> result (list instruction * Layout.symbols))
  : Prop :=
  forall v c v', f v = Ok (c, v') -> tight v ->
    tight v' /\ Layout.count v <= Layout.count v' /\
    forall k, Layout.count v <= k < Layout.count v' -> uses c k.

End Dense.

(** *** The machine across a run *)

(** A value of a signed 32-bit integer. *)
Definition int32 (x : Z) : Prop :=
  MandrillVM.INT32_MIN <= x <= MandrillVM.INT32_MAX.

(** What a run may do to the machine besides its stack and [pc]: the code
    stays, the variable store keeps its length and its 32-bit values, output
    is only appended and input is only taken from the front. *)
Definition vm_frame (vm vm' : MandrillVM.t) : Prop :=
  MandrillVM.code vm' = MandrillVM.code vm /\
  length (MandrillVM.variables vm') = length (MandrillVM.variables vm) /\
  (Forall int32 (MandrillVM.variables vm) -> Forall int32 (MandrillVM.variables vm')) /\
  (exists printed, MandrillVM.output vm' = MandrillVM.output vm +:+ printed) /\
  (exists read, MandrillVM.input_chars vm = read +:+ MandrillVM.input_chars vm') /\
  (exists read, MandrillVM.input_tokens vm = read ++ MandrillVM.input_tokens vm').

(** The depth of stack that [EVAL] needs for [operand]. *)
Definition eval_arity (operand : Z) : nat :=
  if operand =? OP_COND_JUMP then 3%nat else 2%nat.

(** *** Names in the parsers' trees *)

Module Names.

Import Compiler.

(** The special variables of an expression are among the four keywords
    that [primary] accepts. *)
Fixpoint expr_names (e : expr) : bool :=
  match e with
  | BinaryOp l _ r => expr_names l && expr_names r
  | SpecialVar name => str_in name ["read"; "write"; "put"; "get"]
  | _ => true
  end.

(** The left value of an assignment as [assignment_statement] builds it. *)
Definition lvalue_names (e : expr) : bool :=
  match e with
  | Identifier _ => true
  | SpecialVar name => str_in name ["write"; "put"]
  | _ => false
  end.

Fixpoint stmt_names (s : stmt) : bool :=
  match s with
  | AssignmentStatement lvalue e => lvalue_names lvalue && expr_names e
  | IfStatement c t e =>
      expr_names c && forallb stmt_names t &&
      match e with
      | Some l => forallb stmt_names l
      | None => true
      end
  | WhileStatement c b => expr_names c && forallb stmt_names b
  end.

(** The parsing function [f] returns trees that satisfy [wf]. *)
Definition keeps {A : Type} (wf : A -> bool)
  (f : parser -> result (A * parser)) : Prop :=
  forall p a p', f p = Ok (a, p') -> wf a = true.

End Names.

Module Known.

Import Interpreter.

(** The operators of an expression are those that [visit_BinaryOp] knows,
    and its keywords those that [visit_Keyword] knows. *)
Fixpoint expr_known (e : expr) : bool :=
  match e with
  | BinaryOp l op r => expr_known l && is_ok (binary op 0 0) && expr_known r
  | Keyword name => str_in name ["read"; "write"; "put"; "get"]
  | _ => true
  end.

Fixpoint stmt_known (s : stmt) : bool :=
  match s with
  | Assignment _ e => expr_known e
  | IfStatement c t e =>
      expr_known c && forallb stmt_known t &&
      match e with
      | Some l => forallb stmt_known l
      | None => true
      end
  | WhileStatement c b => expr_known c && forallb stmt_known b
  end.

(** Every operator of [ops] is known to [visit_BinaryOp]. *)
Definition binary_ops (ops : list string) : Prop :=
  forall op, str_in op ops = true -> is_ok (binary op 0 0) = true.

End Known.

(** *** Typing of VM code

    The depth of the stack at every instruction, as a proof device for the
    safety of generated code. *)

Module Safety.

#[local] Abbreviation addr := CodeGenerator.addr.

Definition pushes (opcode : Z) : Prop :=
  opcode = DSTORE \/ opcode = DLOAD \/ opcode = GETI \/ opcode = GETC.

Definition pops (opcode : Z) : Prop :=
  opcode = DWRITE \/ opcode = PUTI \/ opcode = PUTC.

Definition binop (operand : Z) : Prop :=
  In operand [OP_ADD; OP_SUB; OP_MUL; OP_DIV; OP_MOD; OP_GT; OP_LT; OP_GE;
              OP_LE; OP_EQ; OP_NE].

(** The depth of the stack after the instruction [i], run at depth [d]. *)
Definition effect (i : instruction) (d : nat) : nat :=
  if (i.1 =? DSTORE) || (i.1 =? DLOAD) || (i.1 =? GETI) || (i.1 =? GETC) then S d
  else if (i.1 =? DWRITE) || (i.1 =? PUTI) || (i.1 =? PUTC) then pred d
  else if i.1 =? EVAL then
    if i.2 =? OP_COND_JUMP then (d - 3)%nat else pred d
  else d.

(** The depth after the instructions of [c], taken in sequence from depth
    [d]. *)
Definition run_depth (c : list instruction) (d : nat) : nat :=
  fold_left (fun d i => effect i d) c d.

(** The depth with which the instruction at position [k] of [code] is
    reached. *)
Definition depth_at (code : list instruction) (k : nat) : nat :=
  run_depth (take k code) 0.

(** A position a jump may go to: inside the code or just after it, and
    reached with an empty stack. *)
Definition target (code : list instruction) (p : nat) : Prop :=
  (p <= length code)%nat /\ depth_at code p = 0%nat.

(** The instruction at position [k] finds the operands it takes on the
    stack, and jumps only to targets. *)
Inductive ok_instr (code : list instruction) (k : nat) : instruction -> Prop :=
| ok_push (opcode operand : Z) :
    pushes opcode -> ok_instr code k (opcode, operand)
| ok_pop (opcode operand : Z) :
    pops opcode -> (1 <= depth_at code k)%nat -> ok_instr code k (opcode, operand)
| ok_binop (operand : Z) :
    binop operand -> (2 <= depth_at code k)%nat -> ok_instr code k (EVAL, operand)
| ok_cond_jump (j p q : nat) :
    k = S (S j) ->
    code !! j = Some (DSTORE, addr p) -> code !! S j = Some (DSTORE, addr q) ->
    depth_at code k = 3%nat -> target code p -> target code q ->
    ok_instr code k (EVAL, OP_COND_JUMP)
| ok_halt : ok_instr code k (JUMP, HALT)
| ok_jump (p : nat) :
    depth_at code k = 0%nat -> target code p -> ok_instr code k (JUMP, addr p).

Definition well_typed (code : list instruction) : Prop :=
  forall k i, code !! k = Some i -> ok_instr code k i.

(** The instructions of [c], placed at position [base] of [code], are well
    typed. *)
Definition typed_in (code : list instruction) (base : nat)
  (c : list instruction) : Prop :=
  forall k i, c !! k = Some i -> ok_instr code (base + k) i.

(** Straight-line code that, entered at depth [d], finds the operands it
    takes. *)
Definition seg_ok (c : list instruction) (d : nat) : Prop :=
  forall k i, c !! k = Some i ->
    pushes i.1 \/
    (pops i.1 /\ (1 <= run_depth (take k c) d)%nat) \/
    (i.1 = EVAL /\ binop i.2 /\ (2 <= run_depth (take k c) d)%nat).

(** The machine is about to run the instruction at position [k] of [code],
    with the stack as deep as the typing says and, after one or two
    [DSTORE], with their operands on top. *)
Record inv (code : list instruction) (k : nat) (vm : MandrillVM.t) : Prop := mk_inv {
  inv_code : MandrillVM.code vm = code;
  inv_pc : MandrillVM.pc vm = Z.of_nat k;
  inv_bound : (k <= length code)%nat;
  inv_depth : length (MandrillVM.stack vm) = depth_at code k;
  inv_top : forall j a, k = S j -> code !! j = Some (DSTORE, a) ->
              exists rest, MandrillVM.stack vm = a :: rest;
  inv_top2 : forall j a b, k = S (S j) ->
               code !! j = Some (DSTORE, b) -> code !! S j = Some (DSTORE, a) ->
               exists rest, MandrillVM.stack vm = a :: b :: rest
}.

End Safety.

(** *** Runs of the interpreter within 32 bits

    The interpreter of interpreter.py, restricted to the runs on which the
    VM is meant to do the same: the hypothesis of the theorem on compiled
    code. *)

Module Within.

Import Interpreter.

(** A signed 32-bit value. *)
Definition fits (v : Z) : bool :=
  (MandrillVM.INT32_MIN <=? v) && (v <=? MandrillVM.INT32_MAX).

(** [visit_BinaryOp] where the divisor of [/] and [%] is not zero and the
    result is a 32-bit value. *)
Definition binary (op : string) (lhs rhs : Z) : option Z :=
  if (String.eqb op "/" || String.eqb op "%") && (rhs =? 0) then None
  else
    match Interpreter.binary op lhs rhs with
    | Ok v => if fits v then Some v else None
    | Err _ => None
    end.

(** The sign that [read_integer] takes off, and what follows it. *)
Definition minus_sign (data : string) : string * string :=
  match data with
  | String "-" s => ("-", s)
  | _ => ("", data)
  end.

(** [read_integer] on a number (a minus sign or none, then digits 0 to 9)
    that whitespace or the end of the input follows. *)
Definition read_decimal (i : t) : option (Z * t) :=
  let data := Lexer.skip_whitespace (input_data i) in
  let '(sign, after_sign) := minus_sign data in
  let '(digits, rest) := Lexer.take_while Input.ascii_digit after_sign in
  if Input.decimal (sign +:+ digits) && Input.ends_word rest
  then Some (read_integer i) else None.

Section Reads.

(** Which of the two ways of reading the run uses: [read] when [reads]
    holds, [get] otherwise. *)
Variable reads : bool.

(** [visit] on expressions that read no output variable. *)
Fixpoint visit_expr (node : expr) (i : t) : option (Z * t) :=
  match node with
  | BinaryOp l op r =>
      '(lhs, i) ← visit_expr l i;
      '(rhs, i) ← visit_expr r i;
      v ← binary op lhs rhs;
      Some (v, i)
  | Literal v => Some (v, i)
  | Identifier name => Some (visit_Identifier name i, i)
  | Keyword name =>
      if reads then
        if String.eqb name "read" then read_decimal i else None
      else
        if String.eqb name "get" then Some (read_character i) else None
  end.

(** [visit_Assignment] of a 32-bit value to a variable, to [write] or to
    [put]. *)
Definition assign_to (target : expr) (v : Z) (i : t) : option t :=
  if fits v then
    match target with
    | Identifier _ => Some (Interpreter.assign_to target v i)
    | Keyword name =>
        if str_in name ["write"; "put"] then Some (Interpreter.assign_to target v i)
        else None
    | _ => None
    end
  else None.

Definition visit_each (visit : stmt -> t -> option t)
  : list stmt -> t -> option t :=
  fix each (statements : list stmt) (i : t) : option t :=
    match statements with
    | [] => Some i
    | s :: rest => i ← visit s i; each rest i
    end.

Fixpoint visit_stmt (fuel : nat) (node : stmt) (i : t) : option t :=
  match fuel with
  | O => None
  | S f =>
      match node with
      | Assignment target e =>
          '(v, i) ← visit_expr e i;
          assign_to target v i
      | IfStatement condition then_block else_block =>
          '(c, i) ← visit_expr condition i;
          if negb (c =? 0) then visit_each (visit_stmt f) then_block i
          else
            match else_block with
            | Some b => visit_each (visit_stmt f) b i
            | None => Some i
            end
      | WhileStatement condition body =>
          '(c, i) ← visit_expr condition i;
          if c =? 0 then Some i
          else
            i ← visit_each (visit_stmt f) body i;
            visit_stmt f node i
      end
  end.

Definition interpret (fuel : nat) (ast : program) (i : t) : option t :=
  let 'Program statements := ast in visit_each (visit_stmt fuel) statements i.

(** The output of [main] when the run stays within these bounds. *)
Definition main (fuel : nat) (source : string) (file : input_file)
  : option string :=
  match parse fuel source, new file with
  | Ok ast, Ok i => i ← interpret fuel ast i; Some (output i)
  | _, _ => None
  end.

End Reads.

End Within.

(** *** The machine beside the interpreter *)

Module Sim.

Import MandrillVM.

(** [n] turns of the main loop of [run], none of which ends the run. *)
Inductive runs : nat -> t -> t -> Prop :=
| runs_done (vm : t) : runs 0 vm vm
| runs_step (n : nat) (vm vm1 vm2 : t) :
    (pc vm <? Z.of_nat (length (code vm))) = true ->
    step vm = Ok (false, vm1) ->
    runs n vm1 vm2 ->
    runs (S n) vm vm2.

(** The instructions [c] are those of [code] from position [k] on. *)
Definition sits (code : list instruction) (k : nat) (c : list instruction) : Prop :=
  forall j i, c !! j = Some i -> code !! (k + j)%nat = Some i.

(** The machine and the interpreter are in the same state: the same
    output, the same input left (the tokens of it when the run reads
    integers), and in the slot of each name of the table the value of the
    variable. *)
Definition same_state (reads : bool) (tbl : gmap string Z)
  (instrs : list instruction) (i : Interpreter.t) (vm : t) : Prop :=
  code vm = instrs /\
  output vm = Interpreter.output i /\
  (if reads then input_tokens vm = Py.split (Interpreter.input_data i)
   else input_chars vm = Interpreter.input_data i) /\
  forall name id, tbl !! name = Some id ->
    0 <= id /\
    variables vm !! Z.to_nat id = Some (Interpreter.visit_Identifier name i).

(** The table of [f]'s result extends the table it is given. *)
Definition grows (f : Layout.symbols -> result (list instruction * Layout.symbols))
  : Prop :=
  forall v c v', f v = Ok (c, v') -> Layout.table v ⊆ Layout.table v'.

(** Where the interpreter goes from [i] to [i'] on a tree, the machine,
    started in the same state at the first instruction of the code of that
    tree, comes to the instruction after the code, in the state of [i'] and
    with the stack as it was. *)
Definition simulates {S S' : Type} (tree : S -> result S')
  (code_of : nat -> S -> Layout.symbols -> result (list instruction * Layout.symbols))
  (visit : S' -> Interpreter.t -> option Interpreter.t)
  (reads : bool) (tbl : gmap string Z) (instrs : list instruction) : Prop :=
  forall s s' base v c v' i i' vm,
    tree s = Ok s' ->
    code_of base s v = Ok (c, v') ->
    Layout.table v' ⊆ tbl ->
    sits instrs base c ->
    same_state reads tbl instrs i vm ->
    pc vm = Z.of_nat base ->
    visit s' i = Some i' ->
    exists n vm',
      runs n vm vm' /\ pc vm' = Z.of_nat (base + length c) /\
      stack vm' = stack vm /\ same_state reads tbl instrs i' vm'.

End Sim.

(** * The error monad *)

Lemma bind_Ok_inv {A B : Type} (r : result A) (k : A -> result B) (b : B) :
  bind r k = Ok b -> exists a, r = Ok a /\ k a = Ok b.
Proof. destruct r as [a|e]; simpl; [eauto | discriminate]. Qed.

(** * Checks of the embedding on concrete inputs *)

Example int_examples :
  Py.int "42" = Ok 42 /\ Py.int "-5" = Ok (-5) /\ Py.int "+5" = Ok 5 /\
  Py.int "1_000" = Ok 1000 /\ Py.int "1__0" = Err ValueError /\
  Py.int "3a" = Err ValueError /\ Py.int "-" = Err ValueError /\
  Py.int16 "0x1f" = Ok 31 /\ Py.int16 "ff" = Ok 255 /\ Py.int16 "0x" = Err ValueError.
Proof. repeat split; reflexivity. Qed.

Example str_examples :
  Py.str 0 = "0" /\ Py.str 55 = "55" /\ Py.str (-7) = "-7" /\
  Py.format_x 0 = "0" /\ Py.format_x 255 = "ff" /\ Py.format_x 4096 = "1000" /\
  Py.split "  3 4
 x " = ["3"; "4"; "x"].
Proof. repeat split; reflexivity. Qed.

Example text_mode_examples :
  Py.universal_newlines
    (String "a" (String "013" (String "b" (String "013" (String "010" "c")))))
  = String "a" (String "010" (String "b" (String "010" "c"))) /\
  Py.universal_newlines (String "013" (String "013" (String "010" EmptyString)))
  = String "010" (String "010" EmptyString) /\
  Py.universal_newlines (String "010" (String "013" EmptyString))
  = String "010" (String "010" EmptyString) /\
  Py.int (String "028" "12") = Err ValueError /\
  Py.int (String "160" "12") = Ok 12 /\
  Py.split (String "a" (String "028" "b")) = ["a"; "b"].
Proof. repeat split; reflexivity. Qed.

Example tokenize_example :
  Lexer.tokenize "if (x >= 10) { put = 'a'; }" =
  Ok [mkToken KEYWORD "if"; mkToken OP "("; mkToken ID "x"; mkToken OP ">=";
      mkToken LITERAL "0xa"; mkToken OP ")"; mkToken OP "{"; mkToken KEYWORD "put";
      mkToken OP "="; mkToken LITERAL "0x61"; mkToken OP ";"; mkToken OP "}"].
Proof. reflexivity. Qed.

Example parse_example :
  Compiler.parse 20 "x = read; if (x > 0) { write = 1; } else { write = 0; }" =
  Ok (Compiler.Program
        [Compiler.AssignmentStatement (Compiler.Identifier "x") (Compiler.SpecialVar "read");
         Compiler.IfStatement
           (Compiler.BinaryOp (Compiler.Identifier "x") ">" (Compiler.Literal "0x0"))
           [Compiler.AssignmentStatement (Compiler.SpecialVar "write") (Compiler.Literal "0x1")]
           (Some [Compiler.AssignmentStatement (Compiler.SpecialVar "write") (Compiler.Literal "0x0")])]).
Proof. reflexivity. Qed.

Example generate_example :
  (do ast <- Compiler.parse 20 "i = 1; while (i <= 2) { i = i + 1; } write = i;";
   do g <- CodeGenerator.generate ast;
   Ok (CodeGenerator.instructions g, CodeGenerator.var_count g)) =
  Ok ([(DSTORE, 1); (DWRITE, 0);
       (DLOAD, 0); (DSTORE, 2); (EVAL, OP_LE);
       (DSTORE, 64); (DSTORE, 104); (EVAL, OP_COND_JUMP);
       (DLOAD, 0); (DSTORE, 1); (EVAL, OP_ADD); (DWRITE, 0);
       (JUMP, 16);
       (DLOAD, 0); (PUTI, 0);
       (JUMP, HALT)], 1).
Proof. vm_compute. reflexivity. Qed.

Example vm_loop_example :
  compile_and_run 200
    "i = 1; s = 0; while (i <= 10) { s = s + i; i = i + 1; } write = s;" "" = Ok "55".
Proof. vm_compute. reflexivity. Qed.

Example interpreter_loop_example :
  Interpreter.main 200
    "i = 1; s = 0; while (i <= 10) { s = s + i; i = i + 1; } write = s;"
    Interpreter.Missing = Ok "55".
Proof. vm_compute. reflexivity. Qed.

(** * VM arithmetic *)

Section VMArithmetic.

Import MandrillVM.

Lemma to_32bit_int_truncate32 (v : Z) : _to_32bit_int v = truncate32 v.
Proof.
  unfold _to_32bit_int, truncate32, INT32_MIN, INT32_MAX, UINT32_MAX.
  change (2 ^ 31) with 2147483648. change (2 ^ 32) with 4294967296.
  replace (v + 2147483647 + 1) with (v + 2147483648) by lia.
  destruct ((-2147483648 <=? v) && (v <=? 2147483647)) eqn:E; [|lia].
  apply andb_true_iff in E as [E1 E2].
  apply Z.leb_le in E1. apply Z.leb_le in E2.
  rewrite Z.mod_small by lia. lia.
Qed.

Lemma truncate32_range (v : Z) : - 2 ^ 31 <= truncate32 v < 2 ^ 31.
Proof.
  unfold truncate32.
  pose proof (Z.mod_pos_bound (v + 2 ^ 31) (2 ^ 32) ltac:(lia)). lia.
Qed.

Lemma truncate32_small (v : Z) : - 2 ^ 31 <= v < 2 ^ 31 -> truncate32 v = v.
Proof. intros H. unfold truncate32. rewrite Z.mod_small by lia. lia. Qed.

(** The special cases of the multiplication all return the product. *)
Lemma mul_shortcuts (l r : Z) :
  (if (l =? 0) || (r =? 0) then Ok 0
   else if l =? 1 then Ok r
   else if r =? 1 then Ok l
   else Ok (l * r)) = (Ok (l * r) : result Z).
Proof.
  destruct (Z.eqb_spec l 0) as [->|]; [reflexivity|].
  destruct (Z.eqb_spec r 0) as [->|]; simpl; [f_equal; lia|].
  destruct (Z.eqb_spec l 1) as [->|]; [f_equal; lia|].
  destruct (Z.eqb_spec r 1) as [->|]; [f_equal; lia|reflexivity].
Qed.

Lemma set_stack_set_stack (a b : list Z) (vm : t) :
  set_stack a (set_stack b vm) = set_stack a vm.
Proof. reflexivity. Qed.

Lemma eval_add (vm : t) (l r : Z) (rest : list Z) :
  execute_eval_optimized OP_ADD (set_stack (r :: l :: rest) vm) =
  Ok (set_stack (l + r :: rest) vm).
Proof. reflexivity. Qed.

Lemma eval_mul (vm : t) (l r : Z) (rest : list Z) :
  execute_eval_optimized OP_MUL (set_stack (r :: l :: rest) vm) =
  Ok (set_stack (l * r :: rest) vm).
Proof.
  unfold execute_eval_optimized.
  change (OP_MUL =? OP_COND_JUMP) with false. change (OP_MUL =? OP_MUL) with true.
  cbn [stack set_stack]. rewrite mul_shortcuts. reflexivity.
Qed.


Lemma eval_div (vm : t) (l r : Z) (rest : list Z) :
  r <> 0 ->
  execute_eval_optimized OP_DIV (set_stack (r :: l :: rest) vm) =
  Ok (set_stack (truncate32 (l / r) :: rest) vm).
Proof.
  intros Hr. rewrite <- to_32bit_int_truncate32.
  unfold execute_eval_optimized.
  change (OP_DIV =? OP_COND_JUMP) with false. cbn [stack set_stack].
  change (OP_DIV =? OP_MUL) with false. change (OP_DIV =? OP_ADD) with false.
  change (OP_DIV =? OP_SUB) with false. change (OP_DIV =? OP_DIV) with true.
  cbv iota. destruct (Z.eqb_spec r 0); [contradiction | reflexivity].
Qed.

Lemma eval_mod (vm : t) (l r : Z) (rest : list Z) :
  r <> 0 ->
  execute_eval_optimized OP_MOD (set_stack (r :: l :: rest) vm) =
  Ok (set_stack (truncate32 (l mod r) :: rest) vm).
Proof.
  intros Hr. rewrite <- to_32bit_int_truncate32.
  unfold execute_eval_optimized.
  change (OP_MOD =? OP_COND_JUMP) with false. cbn [stack set_stack].
  change (OP_MOD =? OP_MUL) with false. change (OP_MOD =? OP_ADD) with false.
  change (OP_MOD =? OP_SUB) with false. change (OP_MOD =? OP_DIV) with false.
  change (OP_MOD =? OP_MOD) with true.
  cbv iota. destruct (Z.eqb_spec r 0); [contradiction|].
  assert (E : (r >? 0) && (l mod r <? 0) = false).
  { destruct (r >? 0) eqn:G; [|reflexivity]. simpl.
    apply Z.ltb_ge. apply Z.gtb_lt in G. apply Z.mod_pos_bound. lia. }
  rewrite E. reflexivity.
Qed.

Lemma eval_div_by_zero (operand : Z) (vm : t) (l : Z) (rest : list Z) :
  operand = OP_DIV \/ operand = OP_MOD ->
  execute_eval_optimized operand (set_stack (0 :: l :: rest) vm) =
  Err (VMError "Division by zero").
Proof. intros [-> | ->]; reflexivity. Qed.


End VMArithmetic.



(** C4, as stated, fails: with a right operand above [2^31] the modulus can
    reach [2^31], and its truncation is negative.  [EVAL MOD] on
    [L = 2147483648] and [R = 4294967295] pushes [-2147483648], and the
    program [write = 2147483648 % 4294967295;] prints it. *)
Lemma C4_mod_negative_counterexample :
  MandrillVM.execute_eval_optimized OP_MOD
    (MandrillVM.set_stack [4294967295; 2147483648] (MandrillVM.new ""))
  = Ok (MandrillVM.set_stack [-2147483648] (MandrillVM.new "")) /\
  -2147483648 < 0 /\
  compile_and_run 100 "write = 2147483648 % 4294967295;" "" = Ok "-2147483648".
Proof. repeat apply conj; [reflexivity | lia | vm_compute; reflexivity]. Qed.

(** C4, amended.  For every execution of [EVAL MOD] with right operand
    [R > 0] and any left operand [L], the value pushed is
    [truncate32 (L mod R)]; when moreover [R <= 2^31] it is non-negative and
    equal to [L mod R].  The program [write = (0 - 7) % 3;] prints 2. *)
Theorem C4_mod_normalized (vm : MandrillVM.t) (L R : Z) (rest : list Z) :
  0 < R ->
  MandrillVM.execute_eval_optimized OP_MOD (MandrillVM.set_stack (R :: L :: rest) vm)
    = Ok (MandrillVM.set_stack (truncate32 (L mod R) :: rest) vm) /\
  (R <= 2 ^ 31 -> 0 <= truncate32 (L mod R) /\ truncate32 (L mod R) = L mod R) /\
  (forall all_input : string,
     compile_and_run 100 "write = (0 - 7) % 3;" all_input = Ok "2").
Proof.
  intros HR. repeat apply conj.
  - apply eval_mod. lia.
  - intros Hle. pose proof (Z.mod_pos_bound L R HR).
    rewrite truncate32_small by lia. lia.
  - intros all_input. vm_compute. reflexivity.
Qed.

Lemma C4_mod_normalized_witness :
  MandrillVM.execute_eval_optimized OP_MOD
    (MandrillVM.set_stack [3; -7] (MandrillVM.new ""))
  = Ok (MandrillVM.set_stack [2] (MandrillVM.new "")).
Proof.
  destruct (C4_mod_normalized (MandrillVM.new "") (-7) 3 []) as (H & _ & _);
    [lia | exact H].
Defined.

(** * Division by zero *)

(** C5, as stated, fails for the tree-walking interpreter: a zero divisor
    makes [/] and [%] evaluate to 0 and the run goes on. *)
Lemma C5_interpreter_counterexample :
  Interpreter.main 100 "write = 1 / 0; write = 1 % 0;" (Interpreter.Text "")
  = Ok "00".
Proof. vm_compute. reflexivity. Qed.

Lemma run_loop_unfold (fuel : nat) (vm : MandrillVM.t) :
  MandrillVM.run_loop (S fuel) vm =
  if MandrillVM.pc vm <? Z.of_nat (length (MandrillVM.code vm)) then
    do (halted, vm') <- MandrillVM.step vm;
    if halted then Ok vm' else MandrillVM.run_loop fuel vm'
  else Ok vm.
Proof. reflexivity. Qed.

Lemma index_nonneg {A : Type} (l : list A) (i : Z) :
  0 <= i -> Py.index l i = l !! Z.to_nat i.
Proof. intros H. unfold Py.index. destruct (Z.leb_spec 0 i); [reflexivity | lia]. Qed.

(** C5, amended.  In the VM, [EVAL DIV] and [EVAL MOD] with right operand 0
    raise "Division by zero", and a run that reaches such an instruction
    aborts with that error.  In the tree-walking interpreter, [/] and [%]
    with a divisor that evaluates to 0 evaluate to 0, with no error. *)
Theorem C5_division_by_zero :
  (forall (vm : MandrillVM.t) (operand L : Z) (rest : list Z),
     operand = OP_DIV \/ operand = OP_MOD ->
     MandrillVM.execute_eval_optimized operand
       (MandrillVM.set_stack (0 :: L :: rest) vm)
     = Err (VMError "Division by zero")) /\
  (forall (fuel : nat) (vm : MandrillVM.t) (operand L : Z) (rest : list Z),
     operand = OP_DIV \/ operand = OP_MOD ->
     0 <= MandrillVM.pc vm ->
     MandrillVM.code vm !! Z.to_nat (MandrillVM.pc vm) = Some (EVAL, operand) ->
     MandrillVM.stack vm = 0 :: L :: rest ->
     MandrillVM.run_loop (S fuel) vm = Err (VMError "Division by zero")) /\
  (forall (l r : Interpreter.expr) (op : string) (i i1 i2 : Interpreter.t) (L : Z),
     op = "/" \/ op = "%" ->
     Interpreter.visit_expr l i = Ok (L, i1) ->
     Interpreter.visit_expr r i1 = Ok (0, i2) ->
     Interpreter.visit_expr (Interpreter.BinaryOp l op r) i = Ok (0, i2)).
Proof.
  repeat apply conj.
  - intros vm operand L rest H. apply eval_div_by_zero, H.
  - intros fuel vm operand L rest Hop Hpc Hcode Hstack.
    rewrite run_loop_unfold.
    pose proof (lookup_lt_Some _ _ _ Hcode) as Hlt.
    destruct (Z.ltb_spec (MandrillVM.pc vm) (Z.of_nat (length (MandrillVM.code vm))));
      [|exfalso; lia].
    unfold MandrillVM.step. rewrite index_nonneg by exact Hpc. rewrite Hcode.
    unfold MandrillVM.dispatch. change (EVAL =? NOP) with false.
    change (EVAL =? DSTORE) with false. change (EVAL =? DLOAD) with false.
    change (EVAL =? DWRITE) with false. change (EVAL =? EVAL) with true.
    cbv iota.
    replace vm with (MandrillVM.set_stack (0 :: L :: rest) vm)
      by (destruct vm; simpl in Hstack; subst; reflexivity).
    rewrite (eval_div_by_zero operand vm L rest Hop). reflexivity.
  - intros l r op i i1 i2 L Hop Hl Hr. simpl. rewrite Hl. simpl. rewrite Hr.
    destruct Hop as [-> | ->]; reflexivity.
Qed.

Lemma C5_division_by_zero_witness :
  MandrillVM.run_loop 1
    (MandrillVM.mk [0; 5] [] [(EVAL, OP_DIV)] 0 [] "" "")
  = Err (VMError "Division by zero").
Proof.
  destruct C5_division_by_zero as (_ & H & _).
  apply (H 0%nat _ OP_DIV 5 []);
    [left; reflexivity | vm_compute; discriminate | reflexivity | reflexivity].
Defined.

(** * Program counter out of bounds *)

(** C3, as stated, fails: a [JUMP] whose target is beyond the last
    instruction ends the run normally.  The one-instruction program
    [JUMP 16] returns with [pc = 2] and no error. *)
Lemma C3_jump_past_end_counterexample :
  MandrillVM.run 10 (MandrillVM.mk [] [] [(JUMP, 16)] 0 [] "" "")
  = Ok (MandrillVM.mk [] [] [(JUMP, 16)] 2 [] "" "").
Proof. reflexivity. Qed.

(** C3, amended.  When the program counter is at or beyond the number of
    instructions, the main loop ends and the run returns normally, with the
    machine as it is; so does a run whose [JUMP] (not the halt sentinel) or
    [EVAL COND_JUMP] targets a byte address whose eighth is at or beyond the
    number of instructions: the turn of the loop that executes it sets the
    program counter there, and the loop ends without error. *)
Theorem C3_pc_out_of_bounds :
  (forall (fuel : nat) (vm : MandrillVM.t),
     Z.of_nat (length (MandrillVM.code vm)) <= MandrillVM.pc vm ->
     MandrillVM.run_loop fuel vm = Ok vm) /\
  (forall (fuel : nat) (vm : MandrillVM.t) (operand : Z),
     0 <= MandrillVM.pc vm ->
     MandrillVM.code vm !! Z.to_nat (MandrillVM.pc vm) = Some (JUMP, operand) ->
     operand <> HALT ->
     Z.of_nat (length (MandrillVM.code vm)) <= operand / 8 ->
     MandrillVM.run_loop (S fuel) vm = Ok (MandrillVM.set_pc (operand / 8) vm)) /\
  (forall (fuel : nat) (vm : MandrillVM.t) (else_addr then_addr condition : Z)
          (rest : list Z),
     0 <= MandrillVM.pc vm ->
     MandrillVM.code vm !! Z.to_nat (MandrillVM.pc vm) = Some (EVAL, OP_COND_JUMP) ->
     MandrillVM.stack vm = else_addr :: then_addr :: condition :: rest ->
     let target := if negb (condition =? 0) then then_addr / 8 else else_addr / 8 in
     Z.of_nat (length (MandrillVM.code vm)) <= target ->
     MandrillVM.run_loop (S fuel) vm
       = Ok (MandrillVM.set_pc target (MandrillVM.set_stack rest vm))).
Proof.
  assert (Hend : forall (fuel : nat) (vm : MandrillVM.t),
     Z.of_nat (length (MandrillVM.code vm)) <= MandrillVM.pc vm ->
     MandrillVM.run_loop fuel vm = Ok vm).
  { intros fuel vm H.
    destruct fuel; simpl;
      destruct (Z.ltb_spec (MandrillVM.pc vm) (Z.of_nat (length (MandrillVM.code vm))));
      solve [exfalso; lia | reflexivity]. }
  repeat apply conj.
  - exact Hend.
  - intros fuel vm operand Hpc Hcode Hne Hout.
    rewrite run_loop_unfold.
    pose proof (lookup_lt_Some _ _ _ Hcode) as Hlt.
    destruct (Z.ltb_spec (MandrillVM.pc vm) (Z.of_nat (length (MandrillVM.code vm))));
      [|exfalso; lia].
    unfold MandrillVM.step. rewrite index_nonneg by exact Hpc. rewrite Hcode.
    unfold MandrillVM.dispatch, MandrillVM.handle_jump.
    change (JUMP =? NOP) with false. change (JUMP =? DSTORE) with false.
    change (JUMP =? DLOAD) with false. change (JUMP =? DWRITE) with false.
    change (JUMP =? EVAL) with false. change (JUMP =? JUMP) with true.
    cbv iota. destruct (Z.eqb_spec operand HALT); [contradiction|].
    cbn [bind MandrillVM.pc MandrillVM.set_pc].
    rewrite Hend.
    + f_equal. destruct vm; unfold MandrillVM.set_pc; simpl. f_equal. lia.
    + simpl. lia.
  - intros fuel vm else_addr then_addr condition rest Hpc Hcode Hstack target Hout.
    rewrite run_loop_unfold.
    pose proof (lookup_lt_Some _ _ _ Hcode) as Hlt.
    destruct (Z.ltb_spec (MandrillVM.pc vm) (Z.of_nat (length (MandrillVM.code vm))));
      [|exfalso; lia].
    unfold MandrillVM.step. rewrite index_nonneg by exact Hpc. rewrite Hcode.
    unfold MandrillVM.dispatch, MandrillVM.execute_eval_optimized.
    change (EVAL =? NOP) with false. change (EVAL =? DSTORE) with false.
    change (EVAL =? DLOAD) with false. change (EVAL =? DWRITE) with false.
    change (EVAL =? EVAL) with true. change (OP_COND_JUMP =? OP_COND_JUMP) with true.
    cbv iota. rewrite Hstack. fold target.
    cbn [bind MandrillVM.pc MandrillVM.set_pc MandrillVM.set_stack].
    rewrite Hend.
    + f_equal. destruct vm; unfold MandrillVM.set_pc, MandrillVM.set_stack; simpl.
      f_equal. lia.
    + simpl. lia.
Qed.

Lemma C3_pc_out_of_bounds_witness :
  MandrillVM.run_loop 1 (MandrillVM.mk [] [] [(JUMP, 16)] 0 [] "" "")
  = Ok (MandrillVM.mk [] [] [(JUMP, 16)] 2 [] "" "").
Proof.
  destruct C3_pc_out_of_bounds as (_ & H & _).
  apply (H 0%nat (MandrillVM.mk [] [] [(JUMP, 16)] 0 [] "" "") 16);
    [vm_compute; discriminate | reflexivity | discriminate | vm_compute; discriminate].
Defined.

(** Below zero the program counter is an index of a Python list: the turn of
    the loop taken at a program counter in [[-len(code), 0)] executes the
    instruction at [pc + len(code)], and one below [-len(code)] raises
    [IndexError].  Only an [EVAL COND_JUMP] on a negative address gets
    there. *)
Remark negative_pc (vm : MandrillVM.t) :
  let len := Z.of_nat (length (MandrillVM.code vm)) in
  (- len <= MandrillVM.pc vm < 0 ->
   MandrillVM.step vm =
   match MandrillVM.code vm !! Z.to_nat (MandrillVM.pc vm + len) with
   | None => Err IndexError
   | Some (opcode, operand) =>
       do (halted, vm') <- MandrillVM.dispatch opcode operand vm;
       if halted then Ok (true, vm')
       else Ok (false, MandrillVM.set_pc (MandrillVM.pc vm' + 1) vm')
   end) /\
  (MandrillVM.pc vm < - len ->
   forall fuel, MandrillVM.run_loop (S fuel) vm = Err IndexError).
Proof.
  intros len. split.
  - intros Hin. unfold MandrillVM.step, Py.index.
    destruct (Z.leb_spec 0 (MandrillVM.pc vm)); [exfalso; lia|].
    fold len. destruct (Z.leb_spec 0 (MandrillVM.pc vm + len)); [|exfalso; lia].
    destruct (MandrillVM.code vm !! _) as [[opcode operand]|]; reflexivity.
  - intros Hlow fuel. rewrite run_loop_unfold. fold len.
    destruct (Z.ltb_spec (MandrillVM.pc vm) len); [|exfalso; lia].
    unfold MandrillVM.step, Py.index.
    destruct (Z.leb_spec 0 (MandrillVM.pc vm)); [exfalso; lia|].
    fold len. destruct (Z.leb_spec 0 (MandrillVM.pc vm + len));
      [exfalso; lia | reflexivity].
Qed.

(** * The bytecode container *)

Section Container.

Import Struct.

Lemma Z_of_byte_of_Z (x : Z) : Z_of_byte (byte_of_Z x) = x mod 256.
Proof.
  unfold Z_of_byte, byte_of_Z.
  assert (Hland : Z.land x 255 = x mod 256) by (apply (Z.land_ones x 8); lia).
  rewrite Hland. pose proof (Z.mod_pos_bound x 256 ltac:(lia)) as Hb.
  destruct (Byte.of_N (Z.to_N (x mod 256))) as [b|] eqn:E.
  - apply Byte.to_of_N in E. rewrite E. lia.
  - apply Byte.of_N_None_iff in E. lia.
Qed.

Lemma Z_of_byte_range (b : byte) : 0 <= Z_of_byte b < 256.
Proof. unfold Z_of_byte. pose proof (Byte.to_N_bounded b). lia. Qed.

Lemma testbit_small (lo n i : Z) : 0 <= lo < 2 ^ n -> n <= i -> Z.testbit lo i = false.
Proof.
  intros Hlo Hi. destruct (Z.eq_dec lo 0) as [->|Hne]; [apply Z.bits_0|].
  apply Z.bits_above_log2; [lia|].
  apply Z.lt_le_trans with n; [|exact Hi].
  apply Z.log2_lt_pow2; lia.
Qed.

Lemma land_shiftl_small (hi lo n : Z) :
  0 <= n -> 0 <= lo < 2 ^ n -> Z.land (Z.shiftl hi n) lo = 0.
Proof.
  intros Hn Hlo. apply Z.bits_inj'. intros i Hi.
  rewrite Z.land_spec, Z.bits_0.
  destruct (Z.lt_ge_cases i n) as [Hlt|Hge].
  - rewrite Z.shiftl_spec_low by lia. reflexivity.
  - rewrite (testbit_small lo n i Hlo Hge). apply andb_false_r.
Qed.

(** Bits that do not overlap: [lor] is the sum. *)
Lemma lor_shiftl_small (hi lo n : Z) :
  0 <= n -> 0 <= lo < 2 ^ n -> Z.lor (Z.shiftl hi n) lo = hi * 2 ^ n + lo.
Proof.
  intros Hn Hlo. pose proof (land_shiftl_small hi lo n Hn Hlo) as Hland.
  rewrite <- Z.shiftl_mul_pow2 by lia.
  rewrite <- Z.lxor_lor by exact Hland.
  symmetry. apply Z.add_nocarry_lxor. exact Hland.
Qed.

Local Ltac pow_bounds :=
  change (2 ^ 24) with 16777216; change (2 ^ 16) with 65536;
  change (2 ^ 8) with 256; Z.div_mod_to_equations; lia.

Lemma unpack_pack_I (x : Z) (b : list byte) :
  pack_I x = Ok b -> length b = 4%nat /\ unpack_I b = Ok x.
Proof.
  unfold pack_I. destruct ((0 <=? x) && (x <? 2 ^ 32)) eqn:E; [|discriminate].
  apply andb_true_iff in E as [E1 E2]. apply Z.leb_le in E1. apply Z.ltb_lt in E2.
  intros H. injection H as <-. split; [reflexivity|].
  unfold unpack_I. f_equal. rewrite !Z_of_byte_of_Z.
  rewrite !Z.shiftr_div_pow2 by lia.
  change (2 ^ 32) with 4294967296 in E2.
  rewrite (lor_shiftl_small _ _ 8) by pow_bounds.
  rewrite (lor_shiftl_small _ _ 16) by pow_bounds.
  rewrite (lor_shiftl_small _ _ 24) by pow_bounds.
  pow_bounds.
Qed.

Lemma pack_I_ok (x : Z) : 0 <= x < 2 ^ 32 -> exists b, pack_I x = Ok b.
Proof.
  intros [H0 H1]. unfold pack_I.
  destruct (Z.leb_spec 0 x); [|exfalso; lia].
  destruct (Z.ltb_spec x (2 ^ 32)); [|exfalso; lia].
  eexists. reflexivity.
Qed.

Lemma unpack_pack_II (x y : Z) (b : list byte) :
  pack_II x y = Ok b -> length b = 8%nat /\ unpack_II b = Ok (x, y).
Proof.
  unfold pack_II. intros H.
  apply bind_Ok_inv in H as (bx & Hx & H).
  apply bind_Ok_inv in H as (by_ & Hy & H). injection H as <-.
  destruct (unpack_pack_I _ _ Hx) as [Lx Ux].
  destruct (unpack_pack_I _ _ Hy) as [Ly Uy].
  split; [rewrite length_app; lia|].
  unfold unpack_II. rewrite length_app, Lx, Ly. simpl Nat.eqb. cbv iota.
  rewrite take_app_length' by (symmetry; exact Lx).
  rewrite drop_app_length' by (symmetry; exact Lx).
  rewrite Ux, Uy. reflexivity.
Qed.

Lemma read_app (n : Z) (a b : list byte) :
  length a = Z.to_nat n -> MandrillVM.read n (a ++ b) = (a, b).
Proof.
  intros H. unfold MandrillVM.read.
  rewrite take_app_length', drop_app_length' by (symmetry; exact H). reflexivity.
Qed.

Lemma write_code_decode (instructions : list instruction) :
  Forall (fun i => u32 i.1 /\ u32 i.2) instructions ->
  exists code : list byte,
    BytecodeWriter.write_code instructions = Ok code /\
    length code = (8 * length instructions)%nat /\
    forall extra, MandrillVM.decode (length instructions) (code ++ extra) = Ok instructions.
Proof.
  induction 1 as [|[opcode operand] rest [Hc Hd] _ (code & Hw & Hl & Hdec)].
  - exists []. repeat split.
  - simpl in Hc, Hd.
    destruct (pack_I_ok opcode Hc) as (bc & Ec).
    destruct (pack_I_ok operand Hd) as (bd & Ed).
    assert (Ep : pack_II opcode operand = Ok (bc ++ bd))
      by (unfold pack_II; rewrite Ec, Ed; reflexivity).
    destruct (unpack_pack_II _ _ _ Ep) as [L8 U8].
    exists ((bc ++ bd) ++ code). repeat apply conj.
    + simpl. rewrite Ep. simpl. rewrite Hw. reflexivity.
    + rewrite length_app, L8, Hl. simpl. lia.
    + intros extra. simpl. rewrite <- app_assoc.
      rewrite take_app_length' by (symmetry; exact L8).
      rewrite drop_app_length' by (symmetry; exact L8).
      rewrite U8. simpl. rewrite Hdec. reflexivity.
Qed.

Lemma pack_I_inv (x : Z) (b : list byte) : pack_I x = Ok b -> 0 <= x < 2 ^ 32.
Proof.
  unfold pack_I. destruct ((0 <=? x) && (x <? 2 ^ 32)) eqn:E; [|discriminate].
  apply andb_true_iff in E as [E1 E2]. apply Z.leb_le in E1. apply Z.ltb_lt in E2.
  intros _. split; assumption.
Qed.

Lemma write_code_inv (instructions : list instruction) (code : list byte) :
  BytecodeWriter.write_code instructions = Ok code ->
  length code = (8 * length instructions)%nat /\
  forall extra, MandrillVM.decode (length instructions) (code ++ extra) = Ok instructions.
Proof.
  revert code. induction instructions as [|[opcode operand] rest IH]; intros code H; simpl in H.
  - injection H as <-. split; reflexivity.
  - apply bind_Ok_inv in H as (b & Ep & H).
    apply bind_Ok_inv in H as (code' & Hw & H). injection H as <-.
    destruct (unpack_pack_II _ _ _ Ep) as [L8 U8].
    destruct (IH _ Hw) as [Hl Hdec]. split.
    + rewrite length_app, L8, Hl. simpl. lia.
    + intros extra. simpl. rewrite <- app_assoc.
      rewrite take_app_length' by (symmetry; exact L8).
      rewrite drop_app_length' by (symmetry; exact L8).
      rewrite U8. simpl. rewrite Hdec. reflexivity.
Qed.

(** Loading a header followed by the written code. *)
Lemma load_written (instructions : list instruction) (var_count : Z)
  (ds cs code : list byte) (vm : MandrillVM.t) :
  pack_I (var_count * 4) = Ok ds ->
  pack_I (Z.of_nat (length instructions) * 8) = Ok cs ->
  BytecodeWriter.write_code instructions = Ok code ->
  MandrillVM.load_bytecode
    ((MAGIC ++ [Byte.x00; Byte.x00; Byte.x00; Byte.x01] ++ ds ++ cs
            ++ [Byte.x00; Byte.x00; Byte.x00; Byte.x00]) ++ code) vm =
  Ok (MandrillVM.mk [] (replicate (Z.to_nat var_count) 0) instructions
        (MandrillVM.pc vm) (MandrillVM.input_tokens vm)
        (MandrillVM.input_chars vm) (MandrillVM.output vm)).
Proof.
  intros Eds Ecs Ew.
  destruct (unpack_pack_I _ _ Eds) as [Lds Uds].
  destruct (unpack_pack_I _ _ Ecs) as [Lcs Ucs].
  destruct (write_code_inv _ _ Ew) as [Lcode Hdec].
  unfold MandrillVM.load_bytecode.
  rewrite <- !app_assoc.
  rewrite (read_app 16 MAGIC) by reflexivity.
  rewrite bool_decide_true by reflexivity. cbn [negb].
  rewrite (read_app 4 [Byte.x00; Byte.x00; Byte.x00; Byte.x01]) by reflexivity.
  change (Struct.unpack_I [Byte.x00; Byte.x00; Byte.x00; Byte.x01]) with (Ok 1 : result Z).
  cbn [bind]. change (negb (1 =? 1)) with false. cbv iota.
  rewrite (read_app 4 ds) by exact Lds. rewrite Uds. cbn [bind].
  rewrite (read_app 4 cs) by exact Lcs. rewrite Ucs. cbn [bind].
  rewrite (read_app 4 [Byte.x00; Byte.x00; Byte.x00; Byte.x00]) by reflexivity.
  rewrite <- (app_nil_r code) at 1.
  rewrite (read_app _ code) by (rewrite Lcode; lia).
  rewrite !Z.div_mul by lia. rewrite Nat2Z.id.
  rewrite <- (app_nil_r code), Hdec. reflexivity.
Qed.

(** Whatever the writer returns, the loader reads back. *)
Lemma write_then_load (instructions : list instruction) (var_count : Z)
  (file : list byte) (vm : MandrillVM.t) :
  BytecodeWriter.write_bytecode instructions var_count = Ok file ->
  MandrillVM.load_bytecode file vm =
  Ok (MandrillVM.mk [] (replicate (Z.to_nat var_count) 0) instructions
        (MandrillVM.pc vm) (MandrillVM.input_tokens vm)
        (MandrillVM.input_chars vm) (MandrillVM.output vm)).
Proof.
  unfold BytecodeWriter.write_bytecode. cbv zeta.
  change (Struct.pack_I 1) with (Ok [Byte.x00; Byte.x00; Byte.x00; Byte.x01]).
  cbn [bind]. intros H.
  apply bind_Ok_inv in H as (ds & Eds & H).
  apply bind_Ok_inv in H as (cs & Ecs & H).
  apply bind_Ok_inv in H as (code & Ew & H). injection H as <-.
  exact (load_written _ _ _ _ _ vm Eds Ecs Ew).
Qed.

End Container.

(** C9, as stated, fails for large variable counts: the header's
    [data_size] field cannot hold [4 * 2^30], and the writer raises instead
    of producing bytes. *)
Lemma C9_writer_overflow_counterexample :
  BytecodeWriter.write_bytecode [] (2 ^ 30) = Err StructError.
Proof. reflexivity. Qed.

(** C9, amended.  For every instruction list whose opcodes and operands fit
    in u32 and which has fewer than [2^29] instructions, and every variable
    count in [0, 2^30), the writer returns the 32-byte header -- the magic
    [MANDRILLBYTECODE], version 1, [data_size = 4 * var_count],
    [code_size = 8 * len(instructions)], each a big-endian u32, and four
    zero bytes -- followed by the code; loading these bytes succeeds and
    gives back the same instruction list (of length [code_size / 8]) and
    [data_size / 4 = var_count] zeroed variables. *)
Theorem C9_writer_loader_roundtrip (instructions : list instruction) (var_count : Z) :
  Forall (fun i => u32 i.1 /\ u32 i.2) instructions ->
  0 <= var_count < 2 ^ 30 ->
  Z.of_nat (length instructions) < 2 ^ 29 ->
  exists data_size_bytes code_size_bytes code : list byte,
    let header :=
      MAGIC ++ [Byte.x00; Byte.x00; Byte.x00; Byte.x01] ++ data_size_bytes
            ++ code_size_bytes ++ [Byte.x00; Byte.x00; Byte.x00; Byte.x00] in
    BytecodeWriter.write_bytecode instructions var_count = Ok (header ++ code) /\
    length header = 32%nat /\
    length code = (8 * length instructions)%nat /\
    Struct.pack_I (var_count * 4) = Ok data_size_bytes /\
    Struct.unpack_I data_size_bytes = Ok (var_count * 4) /\
    Struct.pack_I (Z.of_nat (length instructions) * 8) = Ok code_size_bytes /\
    Struct.unpack_I code_size_bytes = Ok (Z.of_nat (length instructions) * 8) /\
    forall vm : MandrillVM.t,
      MandrillVM.load_bytecode (header ++ code) vm =
      Ok (MandrillVM.mk [] (replicate (Z.to_nat var_count) 0) instructions
            (MandrillVM.pc vm) (MandrillVM.input_tokens vm)
            (MandrillVM.input_chars vm) (MandrillVM.output vm)).
Proof.
  intros Hfit Hvars Hlen.
  destruct (pack_I_ok (var_count * 4)) as (ds & Eds); [lia|].
  destruct (pack_I_ok (Z.of_nat (length instructions) * 8)) as (cs & Ecs); [lia|].
  destruct (write_code_decode instructions Hfit) as (code & Ew & Lcode & Hdec).
  destruct (unpack_pack_I _ _ Eds) as [Lds Uds].
  destruct (unpack_pack_I _ _ Ecs) as [Lcs Ucs].
  exists ds, cs, code. cbv zeta. repeat apply conj; try assumption.
  - unfold BytecodeWriter.write_bytecode. cbv zeta.
    change (Struct.pack_I 1) with (Ok [Byte.x00; Byte.x00; Byte.x00; Byte.x01]).
    cbn [bind]. rewrite Eds, Ecs. cbn [bind]. rewrite Ew. reflexivity.
  - rewrite !length_app, Lds, Lcs. reflexivity.
  - intros vm. exact (load_written _ _ _ _ _ vm Eds Ecs Ew).
Qed.

Lemma C9_writer_loader_roundtrip_witness :
  exists data_size_bytes code_size_bytes code : list byte,
    let header :=
      MAGIC ++ [Byte.x00; Byte.x00; Byte.x00; Byte.x01] ++ data_size_bytes
            ++ code_size_bytes ++ [Byte.x00; Byte.x00; Byte.x00; Byte.x00] in
    BytecodeWriter.write_bytecode [(JUMP, HALT)] 1 = Ok (header ++ code) /\
    length header = 32%nat /\
    length code = 8%nat /\
    Struct.pack_I 4 = Ok data_size_bytes /\
    Struct.unpack_I data_size_bytes = Ok 4 /\
    Struct.pack_I 8 = Ok code_size_bytes /\
    Struct.unpack_I code_size_bytes = Ok 8 /\
    forall vm : MandrillVM.t,
      MandrillVM.load_bytecode (header ++ code) vm =
      Ok (MandrillVM.mk [] [0] [(JUMP, HALT)]
            (MandrillVM.pc vm) (MandrillVM.input_tokens vm)
            (MandrillVM.input_chars vm) (MandrillVM.output vm)).
Proof.
  apply (C9_writer_loader_roundtrip [(JUMP, HALT)] 1).
  - repeat constructor; vm_compute; discriminate.
  - split; vm_compute; [discriminate | reflexivity].
  - vm_compute. reflexivity.
Defined.

(** * Character literals *)

Local Ltac each_ascii c :=
  destruct c as [[|] [|] [|] [|] [|] [|] [|] [|]].

Lemma int16_format_x_ord (c : ascii) :
  Py.int16 ("0x" +:+ Py.format_x (Py.ord c)) = Ok (Py.ord c).
Proof. each_ascii c; vm_compute; reflexivity. Qed.

Lemma character_plain (c : ascii) (rest : string) :
  c <> "\"%char ->
  Lexer.character (String "'" (String c (String "'" rest))) =
  Ok (mkToken LITERAL ("0x" +:+ Py.format_x (Py.ord c)), rest).
Proof. intros Hc. each_ascii c; solve [reflexivity | exfalso; apply Hc; reflexivity]. Qed.

Lemma character_plain_unterminated (c : ascii) (s : string) :
  c <> "\"%char ->
  Lexer.current_char s <> Some "'"%char ->
  Lexer.character (String "'" (String c s)) =
  Err (LexicalError "Unterminated character literal").
Proof.
  intros Hc Hs.
  assert (E : Lexer.character (String "'" (String c s)) =
              match Lexer.current_char s with
              | Some "'"%char =>
                  Ok (mkToken LITERAL ("0x" +:+ Py.format_x (Py.ord c)), Lexer.advance s)
              | _ => Err (LexicalError "Unterminated character literal")
              end)
    by (each_ascii c; solve [reflexivity | exfalso; apply Hc; reflexivity]).
  rewrite E. destruct s as [|d s']; [reflexivity|].
  simpl in *. each_ascii d; solve [reflexivity | exfalso; apply Hs; reflexivity].
Qed.

Lemma character_escape (e : ascii) (s : string) :
  Lexer.character (String "'" (String "\" (String e s))) =
  match escape_value e with
  | Some v =>
      match Lexer.current_char s with
      | Some "'"%char => Ok (mkToken LITERAL ("0x" +:+ Py.format_x v), Lexer.advance s)
      | _ => Err (LexicalError "Unterminated character literal")
      end
  | None => Err (LexicalError "Unsupported escape sequence")
  end.
Proof. each_ascii e; reflexivity. Qed.

(** C7, as stated, fails: no check on the code point is made.  The literal
    ['é'] (code point 233) gives the token [Literal "0xe9"]. *)
Lemma C7_code_point_above_127_counterexample :
  Lexer.get_next_token (String "'" (String (ascii_of_nat 233) (String "'" EmptyString)))
  = Ok (Some (mkToken LITERAL "0xe9"), EmptyString) /\
  127 < Py.ord (ascii_of_nat 233).
Proof. split; [reflexivity | vm_compute; reflexivity]. Qed.

(** C7, amended.  A quote starts a character literal.  For every character
    [c] other than a backslash, ['c'] gives a Literal token whose payload is
    the hex string of [c]'s code point, whatever the code point; the escapes
    [\n], [\\] and [\'] give the tokens of code points 10, 92 and 39, and any
    other escape raises a lexical error; a character or accepted escape that
    is not followed by a closing quote raises a lexical error. *)
Theorem C7_character_literal :
  (forall s : string,
     Lexer.get_next_token (String "'" s) =
     (do (t, rest) <- Lexer.character (String "'" s); Ok (Some t, rest))) /\
  (forall (c : ascii) (rest : string),
     c <> "\"%char ->
     Lexer.character (String "'" (String c (String "'" rest))) =
     Ok (mkToken LITERAL ("0x" +:+ Py.format_x (Py.ord c)), rest)) /\
  (forall c : ascii, Py.int16 ("0x" +:+ Py.format_x (Py.ord c)) = Ok (Py.ord c)) /\
  (forall (e : ascii) (v : Z) (rest : string),
     escape_value e = Some v ->
     Lexer.character (String "'" (String "\" (String e (String "'" rest)))) =
     Ok (mkToken LITERAL ("0x" +:+ Py.format_x v), rest)) /\
  (forall (e : ascii) (s : string),
     escape_value e = None ->
     Lexer.character (String "'" (String "\" (String e s))) =
     Err (LexicalError "Unsupported escape sequence")) /\
  Lexer.character (String "'" (String "\" EmptyString)) =
    Err (LexicalError "Unsupported escape sequence") /\
  (forall (c : ascii) (s : string),
     c <> "\"%char ->
     Lexer.current_char s <> Some "'"%char ->
     Lexer.character (String "'" (String c s)) =
     Err (LexicalError "Unterminated character literal")) /\
  (forall (e : ascii) (v : Z) (s : string),
     escape_value e = Some v ->
     Lexer.current_char s <> Some "'"%char ->
     Lexer.character (String "'" (String "\" (String e s))) =
     Err (LexicalError "Unterminated character literal")).
Proof.
  repeat apply conj.
  - intros s. reflexivity.
  - apply character_plain.
  - apply int16_format_x_ord.
  - intros e v rest He. rewrite character_escape, He. reflexivity.
  - intros e s He. rewrite character_escape, He. reflexivity.
  - reflexivity.
  - apply character_plain_unterminated.
  - intros e v s He Hs. rewrite character_escape, He.
    destruct s as [|d s']; [reflexivity|].
    simpl in *. each_ascii d; solve [reflexivity | exfalso; apply Hs; reflexivity].
Qed.

Lemma C7_character_literal_witness :
  Lexer.character "'a';" = Ok (mkToken LITERAL "0x61", ";").
Proof.
  destruct C7_character_literal as (_ & H & _).
  apply (H "a"%char ";"). discriminate.
Defined.

(** * Code generation *)

(** Induction on statements, with the hypothesis on every statement of the
    nested lists. *)
Section StmtInduction.

Import Compiler.

Variable P : stmt -> Prop.
Hypothesis Hassign : forall lvalue e, P (AssignmentStatement lvalue e).
Hypothesis Hif : forall c t e,
  Forall P t -> match e with Some l => Forall P l | None => True end ->
  P (IfStatement c t e).
Hypothesis Hwhile : forall c b, Forall P b -> P (WhileStatement c b).

Fixpoint stmt_induction (s : stmt) : P s :=
  let all := fix all (l : list stmt) : Forall P l :=
    match l with
    | [] => @List.Forall_nil _ P
    | x :: l' => @List.Forall_cons _ P x l' (stmt_induction x) (all l')
    end in
  match s with
  | AssignmentStatement lvalue e => Hassign lvalue e
  | IfStatement c t e =>
      Hif c t e (all t)
        (match e as e0 return match e0 with Some l => Forall P l | None => True end with
         | Some l => all l
         | None => I
         end)
  | WhileStatement c b => Hwhile c b (all b)
  end.

End StmtInduction.

Section Generation.

Import Compiler.
Import CodeGenerator.

Implicit Types (g : CodeGenerator.t) (v : Layout.symbols) (c : list instruction).

#[local] Abbreviation appends := Layout.appends.
#[local] Abbreviation slots_ok := Layout.slots_ok.
#[local] Abbreviation plain := Layout.plain.

Lemma extend_extend g c v c' v' :
  Layout.extend (Layout.extend g c v) c' v' = Layout.extend g (c ++ c') v'.
Proof. unfold Layout.extend. simpl. rewrite <- app_assoc. reflexivity. Qed.

Lemma extend_nil g : Layout.extend g [] (Layout.symbols_of g) = g.
Proof. destruct g. unfold Layout.extend. simpl. rewrite app_nil_r. reflexivity. Qed.

Lemma emit_extend opcode operand g c v :
  emit opcode operand (Layout.extend g c v) =
  Layout.extend g (c ++ [(opcode, operand)]) v.
Proof. unfold emit, Layout.extend. simpl. rewrite <- app_assoc. reflexivity. Qed.

Lemma here_extend g c v : here (Layout.extend g c v) = (here g + length c)%nat.
Proof. unfold here, Layout.extend. simpl. apply length_app. Qed.

Lemma get_var_id_extend name g c v :
  get_var_id name (Layout.extend g c v) =
  let '(id, v') := Layout.var_id name v in (id, Layout.extend g c v').
Proof.
  unfold get_var_id, Layout.var_id, Layout.extend. simpl.
  destruct (Layout.table v !! name); reflexivity.
Qed.

Lemma patch_jump_extend g a b v opcode old target :
  patch_jump (here g + length a) target
    (Layout.extend g (a ++ (opcode, old) :: b) v) =
  Ok (Layout.extend g (a ++ (opcode, target) :: b) v).
Proof.
  unfold patch_jump, Layout.extend, here. simpl.
  rewrite app_assoc.
  rewrite list_lookup_middle by (rewrite length_app; reflexivity).
  f_equal. f_equal.
  rewrite <- length_app.
  rewrite <- (Nat.add_0_r (length (instructions g ++ a))).
  rewrite insert_app_r. simpl. rewrite <- app_assoc. reflexivity.
Qed.

Lemma visit_expr_appends (e : expr) :
  appends (visit_expr e) (fun _ => Layout.expr_code e).
Proof.
  induction e as [l IHl op r IHr | name | value | name]; intros g c v; simpl.
  - rewrite IHl. destruct (Layout.expr_code l v) as [[cl v1]|]; [|reflexivity].
    simpl. rewrite IHr. destruct (Layout.expr_code r v1) as [[cr v2]|]; [|reflexivity].
    simpl. destruct (op_map op); [|reflexivity].
    rewrite emit_extend, <- !app_assoc. reflexivity.
  - rewrite get_var_id_extend. destruct (Layout.var_id name v) as [id v1].
    simpl. rewrite emit_extend. reflexivity.
  - destruct (Py.int16 value); [|reflexivity]. simpl.
    rewrite emit_extend. reflexivity.
  - destruct (String.eqb name "read"); [simpl; rewrite emit_extend; reflexivity|].
    destruct (String.eqb name "get"); [simpl; rewrite emit_extend; reflexivity|].
    destruct (_ || _); [reflexivity|]. simpl. rewrite app_nil_r. reflexivity.
Qed.

Lemma assign_to_extend lvalue g c v :
  assign_to lvalue (Layout.extend g c v) =
  let '(ca, v') := Layout.assign_code lvalue v in Ok (Layout.extend g (c ++ ca) v').
Proof.
  destruct lvalue as [l op r | name | value | name]; simpl;
    try (rewrite app_nil_r; reflexivity).
  - rewrite get_var_id_extend. destruct (Layout.var_id name v) as [id v1].
    rewrite emit_extend. reflexivity.
  - destruct (String.eqb name "write"); [rewrite emit_extend; reflexivity|].
    destruct (String.eqb name "put"); [rewrite emit_extend; reflexivity|].
    rewrite app_nil_r. reflexivity.
Qed.

Lemma visit_each_appends (visit : stmt -> CodeGenerator.t -> result CodeGenerator.t)
  (stmt_code : nat -> stmt -> Layout.symbols -> result (list instruction * Layout.symbols))
  (l : list stmt) :
  Forall (fun s => appends (visit s) (fun base => stmt_code base s)) l ->
  appends (visit_each visit l) (fun base => Layout.block_code stmt_code base l).
Proof.
  induction 1 as [|s rest Hs _ IH]; intros g c v; simpl.
  - rewrite app_nil_r. reflexivity.
  - rewrite Hs. destruct (stmt_code _ s v) as [[c1 v1]|]; [|reflexivity].
    simpl. rewrite IH. rewrite length_app, Nat.add_assoc.
    destruct (Layout.block_code stmt_code _ rest v1) as [[c2 v2]|]; [|reflexivity].
    simpl. rewrite <- app_assoc. reflexivity.
Qed.

Lemma if_without_else_appends ph tb LT :
  appends tb LT ->
  appends (if_without_else ph tb)
    (fun base v =>
       do (ct, v) <- LT (base + 3)%nat v;
       Ok ([(DSTORE, addr (base + 3)); (DSTORE, addr (base + 3 + length ct));
            (EVAL, OP_COND_JUMP)] ++ ct, v)).
Proof.
  intros Htb g c v. unfold if_without_else. cbv zeta.
  rewrite !emit_extend, !here_extend.
  rewrite Htb. rewrite !length_app. simpl length.
  replace (here g + (length c + 1 + 1 + 1))%nat with (here g + length c + 3)%nat by lia.
  destruct (LT _ v) as [[ct v1]|]; [|reflexivity].
  cbn [bind]. rewrite here_extend.
  rewrite <- !app_assoc. cbn [app].
  rewrite patch_jump_extend. cbn [bind].
  replace (here g + (length c + 1))%nat with (here g + length (c ++ [(DSTORE, addr (here g + length c + 3))]))%nat
    by (rewrite length_app; simpl; lia).
  replace (c ++ (DSTORE, addr (here g + length c + 3)) :: (DSTORE, ph) :: (EVAL, OP_COND_JUMP) :: ct)
    with ((c ++ [(DSTORE, addr (here g + length c + 3))]) ++ (DSTORE, ph) :: (EVAL, OP_COND_JUMP) :: ct)
    by (rewrite <- app_assoc; reflexivity).
  rewrite patch_jump_extend. rewrite <- app_assoc. cbn [app].
  rewrite !length_app. simpl length.
  replace (here g + (length c + S (S (S (length ct)))))%nat
    with (here g + length c + 3 + length ct)%nat by lia.
  reflexivity.
Qed.

Lemma patch_jump_split g code v n a opcode old b target :
  code = a ++ (opcode, old) :: b ->
  n = (here g + length a)%nat ->
  patch_jump n target (Layout.extend g code v) =
  Ok (Layout.extend g (a ++ (opcode, target) :: b) v).
Proof. intros -> ->. apply patch_jump_extend. Qed.

Local Ltac same_list := rewrite <- ?app_assoc; reflexivity.
Local Ltac same_pos :=
  repeat first [rewrite length_app | progress (cbn [length])]; lia.
(* Two results that differ in the position given to one [addr]. *)
Local Ltac same_addr :=
  repeat match goal with
    | |- addr _ = addr _ => fail 1
    | |- _ => f_equal; []
    end;
  f_equal; same_pos.

Lemma if_with_else_appends ph tb eb LT LE :
  appends tb LT ->
  appends eb LE ->
  appends (if_with_else ph tb eb)
    (fun base v =>
       do (ct, v) <- LT (base + 3)%nat v;
       do (ce, v) <- LE (base + 3 + length ct + 1)%nat v;
       Ok ([(DSTORE, addr (base + 3)); (DSTORE, addr (base + 3 + length ct + 1));
            (EVAL, OP_COND_JUMP)]
             ++ ct ++ [(JUMP, addr (base + 3 + length ct + 1 + length ce))] ++ ce, v)).
Proof.
  intros Htb Heb g c v. unfold if_with_else. cbv zeta.
  rewrite !emit_extend, !here_extend.
  rewrite Htb. rewrite !length_app. simpl length.
  replace (here g + (length c + 1 + 1 + 1))%nat with (here g + length c + 3)%nat by lia.
  destruct (LT _ v) as [[ct v1]|]; [|reflexivity].
  cbn [bind]. rewrite emit_extend, !here_extend. rewrite Heb.
  rewrite !length_app. simpl length.
  replace (here g + (length c + 1 + 1 + 1 + length ct + 1))%nat
    with (here g + length c + 3 + length ct + 1)%nat by lia.
  destruct (LE _ v1) as [[ce v2]|]; [|reflexivity].
  cbn [bind]. rewrite here_extend.
  set (D1 := (DSTORE, ph)). set (CJ := (EVAL, OP_COND_JUMP)).
  rewrite (patch_jump_split _ _ _ _ (c ++ [D1; D1; CJ] ++ ct) JUMP ph ce);
    [| subst D1 CJ; same_list | same_pos].
  cbn [bind].
  erewrite (patch_jump_split _ _ _ _ c DSTORE ph ([D1; CJ] ++ ct ++ (JUMP, _) :: ce));
    [| subst D1 CJ; same_list | same_pos].
  cbn [bind].
  erewrite (patch_jump_split _ _ _ _ (c ++ [(DSTORE, addr (here g + length c + 3))])
              DSTORE ph ([CJ] ++ ct ++ (JUMP, _) :: ce));
    [| subst D1 CJ; same_list | same_pos].
  subst D1 CJ. rewrite <- !app_assoc. cbn [app]. same_addr.
Qed.

Lemma while_loop_appends ph cond body (LC : Layout.symbols -> _) LB :
  appends cond (fun _ => LC) ->
  appends body LB ->
  appends (while_loop ph cond body)
    (fun base v =>
       do (cc, v) <- LC v;
       do (cb, v) <- LB (base + length cc + 3)%nat v;
       Ok (cc ++ [(DSTORE, addr (base + length cc + 3));
                  (DSTORE, addr (base + length cc + 3 + length cb + 1));
                  (EVAL, OP_COND_JUMP)] ++ cb ++ [(JUMP, addr base)], v)).
Proof.
  intros Hc Hb g c v. unfold while_loop. cbv zeta.
  rewrite Hc. destruct (LC v) as [[cc v1]|]; [|reflexivity].
  cbn [bind]. rewrite !emit_extend, !here_extend.
  rewrite Hb. rewrite !length_app. simpl length.
  replace (here g + (length c + length cc + 1 + 1 + 1))%nat
    with (here g + length c + length cc + 3)%nat by lia.
  destruct (LB _ v1) as [[cb v2]|]; [|reflexivity].
  cbn [bind]. rewrite emit_extend, !here_extend.
  set (D1 := (DSTORE, ph)). set (CJ := (EVAL, OP_COND_JUMP)).
  set (J := (JUMP, addr (here g + length c))).
  rewrite (patch_jump_split _ _ _ _ (c ++ cc) DSTORE ph ([D1; CJ] ++ cb ++ [J]));
    [| subst D1 CJ J; same_list | same_pos].
  cbn [bind].
  rewrite (patch_jump_split _ _ _ _
             ((c ++ cc) ++ [(DSTORE, addr (here g + length c + length cc + 3))])
             DSTORE ph ([CJ] ++ cb ++ [J]));
    [| subst D1 CJ J; same_list | same_pos].
  subst D1 CJ J. rewrite <- !app_assoc. cbn [app]. same_addr.
Qed.

Lemma visit_stmt_appends ph (s : stmt) :
  appends (visit_stmt ph s) (fun base => Layout.stmt_code base s).
Proof.
  induction s as [lvalue e | cond t e Ht He | cond b Hb] using stmt_induction;
    intros g c v.
  - simpl. rewrite visit_expr_appends.
    destruct (Layout.expr_code e v) as [[ce v1]|]; [|reflexivity].
    cbn [bind]. rewrite assign_to_extend.
    destruct (Layout.assign_code lvalue v1) as [ca v2].
    cbn [bind]. rewrite app_assoc. reflexivity.
  - pose proof (visit_each_appends (visit_stmt ph) Layout.stmt_code t Ht) as Hthen.
    cbn [visit_stmt Layout.stmt_code]. rewrite visit_expr_appends.
    destruct (Layout.expr_code cond v) as [[cc v1]|]; [|reflexivity].
    cbn [bind].
    destruct e as [[|s0 es]|].
    + rewrite (if_without_else_appends ph _ _ Hthen).
      rewrite length_app, Nat.add_assoc.
      destruct (Layout.block_code Layout.stmt_code _ t v1) as [[ct v2]|]; [|reflexivity].
      cbn [bind]. rewrite <- app_assoc. reflexivity.
    + pose proof (visit_each_appends (visit_stmt ph) Layout.stmt_code (s0 :: es) He) as Helse.
      rewrite (if_with_else_appends ph _ _ _ _ Hthen Helse).
      rewrite length_app, Nat.add_assoc.
      destruct (Layout.block_code Layout.stmt_code _ t v1) as [[ct v2]|]; [|reflexivity].
      cbn [bind].
      destruct (Layout.block_code Layout.stmt_code _ (s0 :: es) v2) as [[ce v3]|];
        [|reflexivity].
      cbn [bind]. rewrite <- app_assoc. reflexivity.
    + rewrite (if_without_else_appends ph _ _ Hthen).
      rewrite length_app, Nat.add_assoc.
      destruct (Layout.block_code Layout.stmt_code _ t v1) as [[ct v2]|]; [|reflexivity].
      cbn [bind]. rewrite <- app_assoc. reflexivity.
  - pose proof (visit_each_appends (visit_stmt ph) Layout.stmt_code b Hb) as Hbody.
    cbn [visit_stmt Layout.stmt_code].
    rewrite (while_loop_appends ph _ _ _ _ (visit_expr_appends cond) Hbody).
    reflexivity.
Qed.

(** The generator produces the code that [Layout] gives, followed by the
    halting jump, whatever the placeholder. *)
Lemma generate_from_layout ph (statements : list stmt) :
  generate_from ph new (Program statements) =
  do (c, v) <- Layout.block_code Layout.stmt_code 0 statements (Layout.mk ∅ 0);
  Ok (CodeGenerator.mk (c ++ [(JUMP, HALT)]) (Layout.table v) (Layout.count v)).
Proof.
  unfold generate_from, visit_Program.
  pose proof (visit_each_appends (visit_stmt ph) Layout.stmt_code statements) as H.
  specialize (H ltac:(apply Forall_forall; intros; apply visit_stmt_appends)).
  specialize (H new [] (Layout.mk ∅ 0)).
  change (Layout.extend new [] (Layout.mk ∅ 0)) with new in H.
  rewrite H. simpl.
  destruct (Layout.block_code Layout.stmt_code 0 statements _) as [[c v]|]; reflexivity.
Qed.

(** *** Patch slots of the generated code *)

Lemma slots_ok_widen lo hi lo' hi' c :
  (lo' <= lo)%nat -> (hi <= hi')%nat -> slots_ok lo hi c -> slots_ok lo' hi' c.
Proof.
  intros Hlo Hhi H i Hi. destruct (H i Hi) as (j & p & q & -> & Hj & Hj' & Hp & Hq).
  exists j, p, q. repeat split; solve [assumption | lia].
Qed.

Lemma slots_ok_app lo hi a b :
  slots_ok lo hi a -> slots_ok lo hi b -> slots_ok lo hi (a ++ b).
Proof.
  intros Ha Hb i Hi. destruct (Nat.lt_ge_cases i (length a)) as [Hlt|Hge].
  - rewrite lookup_app_l in Hi by exact Hlt.
    destruct (Ha i Hi) as (j & p & q & -> & Hj & Hj' & Hp & Hq).
    exists j, p, q. rewrite !lookup_app_l by lia.
    repeat split; solve [assumption | lia].
  - rewrite lookup_app_r in Hi by exact Hge.
    destruct (Hb _ Hi) as (j & p & q & E & Hj & Hj' & Hp & Hq).
    exists (length a + j)%nat, p, q.
    rewrite !lookup_app_r by lia.
    replace (length a + j - length a)%nat with j by lia.
    replace (S (length a + j) - length a)%nat with (S j) by lia.
    repeat split; solve [assumption | lia].
Qed.

Lemma plain_slots_ok lo hi c : plain c -> slots_ok lo hi c.
Proof.
  intros H i Hi. exfalso.
  apply (proj1 (Forall_lookup _ _) H i _ Hi). reflexivity.
Qed.

Lemma op_map_not_cond_jump op code : op_map op = Some code -> code <> OP_COND_JUMP.
Proof.
  unfold op_map. intros H.
  repeat match type of H with
    | (if ?b then _ else _) = _ => destruct b; [injection H as <-; discriminate|]
    end.
  discriminate.
Qed.

Lemma expr_code_plain (e : expr) v c v' :
  Layout.expr_code e v = Ok (c, v') -> plain c.
Proof.
  revert v c v'. induction e as [l IHl op r IHr | name | value | name];
    intros v c v' H; simpl in H.
  - apply bind_Ok_inv in H as ([cl v1] & Hl & H).
    apply bind_Ok_inv in H as ([cr v2] & Hr & H).
    destruct (op_map op) as [code|] eqn:E; [|discriminate].
    injection H as <- <-.
    apply Forall_app. split; [exact (IHl _ _ _ Hl)|].
    apply Forall_app. split; [exact (IHr _ _ _ Hr)|].
    constructor; [|constructor]. intros [= Hc].
    exact (op_map_not_cond_jump _ _ E Hc).
  - destruct (Layout.var_id name v). injection H as <- <-.
    constructor; [discriminate | constructor].
  - apply bind_Ok_inv in H as (n & _ & H). injection H as <- <-.
    constructor; [discriminate | constructor].
  - destruct (String.eqb name "read");
      [injection H as <- <-; constructor; [discriminate | constructor]|].
    destruct (String.eqb name "get");
      [injection H as <- <-; constructor; [discriminate | constructor]|].
    destruct (_ || _); [discriminate|]. injection H as <- <-. constructor.
Qed.

Lemma assign_code_plain lvalue v : plain (Layout.assign_code lvalue v).1.
Proof.
  destruct lvalue as [l op r | name | value | name]; simpl; try constructor.
  - destruct (Layout.var_id name v). constructor; [discriminate | constructor].
  - destruct (String.eqb name "write"); [constructor; [discriminate | constructor]|].
    destruct (String.eqb name "put"); constructor; [discriminate | constructor].
Qed.

Lemma slot_triple_ok lo hi p q :
  (lo < p <= hi)%nat -> (lo < q <= hi)%nat ->
  slots_ok lo hi [(DSTORE, addr p); (DSTORE, addr q); (EVAL, OP_COND_JUMP)].
Proof.
  intros Hp Hq [|[|[|i]]] Hi; try discriminate.
  exists 0%nat, p, q. repeat split; solve [assumption | lia].
Qed.

Lemma block_code_slots_ok (l : list stmt) :
  Forall (fun s => forall base v c v',
            Layout.stmt_code base s v = Ok (c, v') ->
            slots_ok base (base + length c) c) l ->
  forall base v c v',
    Layout.block_code Layout.stmt_code base l v = Ok (c, v') ->
    slots_ok base (base + length c) c.
Proof.
  induction 1 as [|s rest Hs _ IH]; intros base v c v' H; simpl in H.
  - injection H as <- <-. apply plain_slots_ok. constructor.
  - apply bind_Ok_inv in H as ([c1 v1] & H1 & H).
    apply bind_Ok_inv in H as ([c2 v2] & H2 & H). injection H as <- <-.
    rewrite length_app. apply slots_ok_app.
    + apply (slots_ok_widen base (base + length c1)); [lia | lia |].
      exact (Hs _ _ _ _ H1).
    + apply (slots_ok_widen (base + length c1) (base + length c1 + length c2));
        [lia | lia |].
      exact (IH _ _ _ _ H2).
Qed.

Lemma stmt_code_slots_ok (s : stmt) :
  forall base v c v',
    Layout.stmt_code base s v = Ok (c, v') ->
    slots_ok base (base + length c) c.
Proof.
  induction s as [lvalue e | cond t e Ht He | cond b Hb] using stmt_induction;
    intros base v c v' H; cbn [Layout.stmt_code] in H.
  - apply bind_Ok_inv in H as ([ce v1] & He & H).
    pose proof (assign_code_plain lvalue v1) as Hp.
    destruct (Layout.assign_code lvalue v1) as [ca v2]. injection H as <- <-.
    apply plain_slots_ok. apply Forall_app. split; [|exact Hp].
    exact (expr_code_plain _ _ _ _ He).
  - apply bind_Ok_inv in H as ([cc v1] & Hc & H).
    apply bind_Ok_inv in H as ([ct v2] & Hthen & H).
    pose proof (expr_code_plain _ _ _ _ Hc) as Hcc.
    pose proof (block_code_slots_ok t Ht _ _ _ _ Hthen) as Hct.
    assert (Hno : forall vv,
              Ok (cc ++ [(DSTORE, addr (base + length cc + 3));
                         (DSTORE, addr (base + length cc + 3 + length ct));
                         (EVAL, OP_COND_JUMP)] ++ ct, vv) = Ok (c, v') ->
              slots_ok base (base + length c) c).
    { intros vv E. injection E as <- <-.
      repeat first [rewrite length_app | progress (cbn [length])].
      apply slots_ok_app; [apply plain_slots_ok; exact Hcc|].
      apply (slots_ok_app _ _ [_; _; _]); [apply slot_triple_ok; lia|].
      eapply slots_ok_widen; [| | exact Hct]; lia. }
    destruct e as [[|s0 es]|]; [exact (Hno _ H) | | exact (Hno _ H)].
    apply bind_Ok_inv in H as ([ce v3] & Helse & H). injection H as <- <-.
    pose proof (block_code_slots_ok _ He _ _ _ _ Helse) as Hce.
    repeat first [rewrite length_app | progress (cbn [length])].
    apply slots_ok_app; [apply plain_slots_ok; exact Hcc|].
    apply (slots_ok_app _ _ [_; _; _]); [apply slot_triple_ok; lia|].
    apply slots_ok_app;
      [eapply slots_ok_widen; [| | exact Hct]; lia|].
    apply (slots_ok_app _ _ [_]);
      [apply plain_slots_ok; constructor; [discriminate | constructor]|].
    eapply slots_ok_widen; [| | exact Hce]; lia.
  - apply bind_Ok_inv in H as ([cc v1] & Hc & H).
    apply bind_Ok_inv in H as ([cb v2] & Hbody & H). injection H as <- <-.
    pose proof (expr_code_plain _ _ _ _ Hc) as Hcc.
    pose proof (block_code_slots_ok b Hb _ _ _ _ Hbody) as Hcb.
    repeat first [rewrite length_app | progress (cbn [length])].
    apply slots_ok_app; [apply plain_slots_ok; exact Hcc|].
    apply (slots_ok_app _ _ [_; _; _]); [apply slot_triple_ok; lia|].
    apply slots_ok_app;
      [eapply slots_ok_widen; [| | exact Hcb]; lia|].
    apply plain_slots_ok; constructor; [discriminate | constructor].
Qed.

(** *** Variable indices of the generated code *)

Local Ltac split3 := split; [|split].

Lemma vars_below_widen (n m : Z) c :
  n <= m -> Layout.vars_below n c -> Layout.vars_below m c.
Proof.
  intros Hnm H. unfold Layout.vars_below in *.
  eapply Forall_impl; [exact H|]. intros i Hi Hop. specialize (Hi Hop). lia.
Qed.

Lemma vars_below_other (n : Z) (opcode operand : Z) :
  opcode <> DLOAD -> opcode <> DWRITE -> Layout.vars_below n [(opcode, operand)].
Proof.
  intros H1 H2. constructor; [|constructor]. simpl. intros [E|E]; contradiction.
Qed.

Lemma vars_below_cons (n : Z) (opcode operand : Z) c :
  opcode <> DLOAD -> opcode <> DWRITE ->
  Layout.vars_below n c -> Layout.vars_below n ((opcode, operand) :: c).
Proof.
  intros H1 H2 Hc. constructor; [|exact Hc]. simpl. intros [E|E]; contradiction.
Qed.

Local Ltac skip_slots :=
  repeat (apply vars_below_cons; [discriminate | discriminate |]).

Lemma var_id_ok name v id v' :
  Layout.var_id name v = (id, v') ->
  Layout.symbols_ok v ->
  Layout.symbols_ok v' /\ Layout.count v <= Layout.count v' /\ 0 <= id < Layout.count v'.
Proof.
  unfold Layout.var_id, Layout.symbols_ok. intros H [Hc Ht].
  destruct (Layout.table v !! name) as [i|] eqn:E; injection H as <- <-.
  - split; [split; assumption|]. split; [lia | exact (Ht _ _ E)].
  - simpl. split; [split; [lia|] | lia].
    apply map_Forall_insert_2; [lia|].
    eapply map_Forall_impl; [exact Ht|]. simpl. intros _ i Hi. lia.
Qed.

Lemma expr_code_vars (e : expr) : forall v c v',
  Layout.expr_code e v = Ok (c, v') ->
  Layout.symbols_ok v ->
  Layout.symbols_ok v' /\ Layout.count v <= Layout.count v' /\
  Layout.vars_below (Layout.count v') c.
Proof.
  induction e as [l IHl op r IHr | name | value | name]; intros v c v' H Hv; simpl in H.
  - apply bind_Ok_inv in H as ([cl v1] & Hl & H).
    apply bind_Ok_inv in H as ([cr v2] & Hr & H).
    destruct (op_map op) as [code|]; [|discriminate]. injection H as <- <-.
    destruct (IHl _ _ _ Hl Hv) as (Hv1 & Hle1 & Hb1).
    destruct (IHr _ _ _ Hr Hv1) as (Hv2 & Hle2 & Hb2).
    split3; [exact Hv2 | lia |].
    apply Forall_app. split; [exact (vars_below_widen _ _ _ Hle2 Hb1)|].
    apply Forall_app. split; [exact Hb2|].
    apply vars_below_other; discriminate.
  - destruct (Layout.var_id name v) as [id v1] eqn:E. injection H as <- <-.
    destruct (var_id_ok _ _ _ _ E Hv) as (Hv1 & Hle & Hid).
    split3; [exact Hv1 | exact Hle |].
    constructor; [intros _; exact Hid | constructor].
  - apply bind_Ok_inv in H as (n & _ & H). injection H as <- <-.
    split3; [exact Hv | lia | apply vars_below_other; discriminate].
  - destruct (String.eqb name "read");
      [injection H as <- <-;
       split3; [exact Hv | lia | apply vars_below_other; discriminate]|].
    destruct (String.eqb name "get");
      [injection H as <- <-;
       split3; [exact Hv | lia | apply vars_below_other; discriminate]|].
    destruct (_ || _); [discriminate|]. injection H as <- <-.
    split3; [exact Hv | lia | constructor].
Qed.

Lemma assign_code_vars lvalue v c v' :
  Layout.assign_code lvalue v = (c, v') ->
  Layout.symbols_ok v ->
  Layout.symbols_ok v' /\ Layout.count v <= Layout.count v' /\
  Layout.vars_below (Layout.count v') c.
Proof.
  intros H Hv.
  destruct lvalue as [l op r | name | value | name]; simpl in H;
    try (injection H as <- <-; split3; [exact Hv | lia | constructor]).
  - destruct (Layout.var_id name v) as [id v1] eqn:E. injection H as <- <-.
    destruct (var_id_ok _ _ _ _ E Hv) as (Hv1 & Hle & Hid).
    split3; [exact Hv1 | exact Hle |].
    constructor; [intros _; exact Hid | constructor].
  - destruct (String.eqb name "write");
      [injection H as <- <-;
       split3; [exact Hv | lia | apply vars_below_other; discriminate]|].
    destruct (String.eqb name "put"); injection H as <- <-;
      (split3; [exact Hv | lia |]);
      [apply vars_below_other; discriminate | constructor].
Qed.

Lemma block_code_vars (l : list stmt) :
  Forall (fun s => forall base v c v',
            Layout.stmt_code base s v = Ok (c, v') ->
            Layout.symbols_ok v ->
            Layout.symbols_ok v' /\ Layout.count v <= Layout.count v' /\
            Layout.vars_below (Layout.count v') c) l ->
  forall base v c v',
    Layout.block_code Layout.stmt_code base l v = Ok (c, v') ->
    Layout.symbols_ok v ->
    Layout.symbols_ok v' /\ Layout.count v <= Layout.count v' /\
    Layout.vars_below (Layout.count v') c.
Proof.
  induction 1 as [|s rest Hs _ IH]; intros base v c v' H Hv; simpl in H.
  - injection H as <- <-. split3; [exact Hv | lia | constructor].
  - apply bind_Ok_inv in H as ([c1 v1] & H1 & H).
    apply bind_Ok_inv in H as ([c2 v2] & H2 & H). injection H as <- <-.
    destruct (Hs _ _ _ _ H1 Hv) as (Hv1 & Hle1 & Hb1).
    destruct (IH _ _ _ _ H2 Hv1) as (Hv2 & Hle2 & Hb2).
    split3; [exact Hv2 | lia |].
    apply Forall_app. split; [exact (vars_below_widen _ _ _ Hle2 Hb1) | exact Hb2].
Qed.

Lemma stmt_code_vars (s : stmt) : forall base v c v',
  Layout.stmt_code base s v = Ok (c, v') ->
  Layout.symbols_ok v ->
  Layout.symbols_ok v' /\ Layout.count v <= Layout.count v' /\
  Layout.vars_below (Layout.count v') c.
Proof.
  induction s as [lvalue e | cond t e Ht He | cond b Hb] using stmt_induction;
    intros base v c v' H Hv; cbn [Layout.stmt_code] in H.
  - apply bind_Ok_inv in H as ([ce v1] & He & H).
    destruct (Layout.assign_code lvalue v1) as [ca v2] eqn:Ea. injection H as <- <-.
    destruct (expr_code_vars _ _ _ _ He Hv) as (Hv1 & Hle1 & Hb1).
    destruct (assign_code_vars _ _ _ _ Ea Hv1) as (Hv2 & Hle2 & Hb2).
    split3; [exact Hv2 | lia |].
    apply Forall_app. split; [exact (vars_below_widen _ _ _ Hle2 Hb1) | exact Hb2].
  - apply bind_Ok_inv in H as ([cc v1] & Hc & H).
    apply bind_Ok_inv in H as ([ct v2] & Hthen & H).
    destruct (expr_code_vars _ _ _ _ Hc Hv) as (Hv1 & Hle1 & Hb1).
    destruct (block_code_vars t Ht _ _ _ _ Hthen Hv1) as (Hv2 & Hle2 & Hb2).
    assert (Hno : forall p q,
              Ok (cc ++ [(DSTORE, p); (DSTORE, q); (EVAL, OP_COND_JUMP)] ++ ct, v2)
              = Ok (c, v') ->
              Layout.symbols_ok v' /\ Layout.count v <= Layout.count v' /\
              Layout.vars_below (Layout.count v') c).
    { intros p q E. injection E as <- <-. split3; [exact Hv2 | lia |].
      apply Forall_app. split; [exact (vars_below_widen _ _ _ Hle2 Hb1)|].
      cbn [app]. skip_slots. exact Hb2. }
    destruct e as [[|s0 es]|]; [exact (Hno _ _ H) | | exact (Hno _ _ H)].
    apply bind_Ok_inv in H as ([ce v3] & Helse & H). injection H as <- <-.
    destruct (block_code_vars _ He _ _ _ _ Helse Hv2) as (Hv3 & Hle3 & Hb3).
    split3; [exact Hv3 | lia |].
    apply Forall_app. split; [apply (vars_below_widen (Layout.count v1)); [lia | exact Hb1]|].
    cbn [app]. skip_slots.
    apply Forall_app. split; [exact (vars_below_widen _ _ _ Hle3 Hb2)|].
    cbn [app]. skip_slots. exact Hb3.
  - apply bind_Ok_inv in H as ([cc v1] & Hc & H).
    apply bind_Ok_inv in H as ([cb v2] & Hbody & H). injection H as <- <-.
    destruct (expr_code_vars _ _ _ _ Hc Hv) as (Hv1 & Hle1 & Hb1).
    destruct (block_code_vars b Hb _ _ _ _ Hbody Hv1) as (Hv2 & Hle2 & Hb2).
    split3; [exact Hv2 | lia |].
    apply Forall_app. split; [exact (vars_below_widen _ _ _ Hle2 Hb1)|].
    cbn [app]. skip_slots.
    apply Forall_app. split; [exact Hb2 | apply vars_below_other; discriminate].
Qed.

(** In the generated code, every [DLOAD] and [DWRITE] names a variable below
    the generator's [var_count]. *)
Lemma generate_vars (ast : program) (g : CodeGenerator.t) :
  generate ast = Ok g ->
  0 <= var_count g /\ Layout.vars_below (var_count g) (instructions g).
Proof.
  destruct ast as [statements]. unfold generate. rewrite generate_from_layout.
  intros H. apply bind_Ok_inv in H as ([c v] & Hc & H). injection H as <-.
  assert (H0 : Layout.symbols_ok (Layout.mk ∅ 0))
    by (split; [simpl; lia | apply map_Forall_empty]).
  destruct (block_code_vars statements
              ltac:(apply Forall_forall; intros s _; apply stmt_code_vars)
              _ _ _ _ Hc H0) as ((Hcount & _) & _ & Hb).
  cbn [var_count instructions]. split; [exact Hcount|].
  apply Forall_app. split; [exact Hb | apply vars_below_other; discriminate].
Qed.

End Generation.

(** C8, as stated, fails: the placeholder is 0, and 0 is also the operand of
    instructions that are not patch slots.  The code of [a = 1;] holds
    [DWRITE 0]. *)
Lemma C8_placeholder_operand_counterexample :
  exists g : CodeGenerator.t,
    (do ast <- Compiler.parse 10 "a = 1;"; CodeGenerator.generate ast) = Ok g /\
    CodeGenerator.instructions g !! 1%nat = Some (DWRITE, CodeGenerator.PLACEHOLDER).
Proof. eexists. split; vm_compute; reflexivity. Qed.

(** C8, amended.  After [generate] returns, every patch slot has been
    overwritten: the result is the same whatever value is emitted as
    placeholder, and every [EVAL COND_JUMP] comes right after two [DSTORE]
    instructions whose operands differ from the placeholder and lie within
    [[0, 8 * len(code))].  (Instructions that are not patch slots may have
    operand 0.) *)
Theorem C8_patching_complete (ast : Compiler.program) (g : CodeGenerator.t) :
  CodeGenerator.generate ast = Ok g ->
  (forall placeholder : Z,
     CodeGenerator.generate_from placeholder CodeGenerator.new ast = Ok g) /\
  (forall i : nat,
     CodeGenerator.instructions g !! i = Some (EVAL, OP_COND_JUMP) ->
     exists (j : nat) (a b : Z),
       i = S (S j) /\
       CodeGenerator.instructions g !! j = Some (DSTORE, a) /\
       CodeGenerator.instructions g !! S j = Some (DSTORE, b) /\
       a <> CodeGenerator.PLACEHOLDER /\ b <> CodeGenerator.PLACEHOLDER /\
       0 <= a < 8 * Z.of_nat (length (CodeGenerator.instructions g)) /\
       0 <= b < 8 * Z.of_nat (length (CodeGenerator.instructions g))).
Proof.
  destruct ast as [statements]. unfold CodeGenerator.generate.
  rewrite generate_from_layout. intros H.
  apply bind_Ok_inv in H as ([c v] & Hc & H). injection H as <-.
  split.
  - intros placeholder. rewrite generate_from_layout, Hc. reflexivity.
  - cbn [CodeGenerator.instructions]. intros i Hi.
    assert (Hall : Layout.slots_ok 0 (0 + length c) c).
    { apply (block_code_slots_ok statements) with (v := Layout.mk ∅ 0) (v' := v);
        [|exact Hc].
      apply Forall_forall. intros s _. apply stmt_code_slots_ok. }
    assert (Hlast : Layout.slots_ok 0 (0 + length c) [(JUMP, HALT)])
      by (apply plain_slots_ok; constructor; [discriminate | constructor]).
    destruct (slots_ok_app _ _ _ _ Hall Hlast i Hi)
      as (j & p & q & -> & Hj & Hj' & Hp & Hq).
    exists j, (CodeGenerator.addr p), (CodeGenerator.addr q).
    rewrite length_app. unfold CodeGenerator.addr, CodeGenerator.PLACEHOLDER.
    cbn [length]. repeat split; solve [assumption | lia].
Qed.

Lemma C8_patching_complete_witness :
  CodeGenerator.generate_from 7 CodeGenerator.new
    (Compiler.Program
       [Compiler.IfStatement (Compiler.Identifier "x")
          [Compiler.AssignmentStatement (Compiler.SpecialVar "write") (Compiler.Identifier "x")]
          None])
  = Ok (CodeGenerator.mk
          [(DLOAD, 0); (DSTORE, 32); (DSTORE, 48); (EVAL, OP_COND_JUMP);
           (DLOAD, 0); (PUTI, 0); (JUMP, HALT)]
          {[ "x" := 0 ]} 1).
Proof.
  apply (C8_patching_complete
           (Compiler.Program
              [Compiler.IfStatement (Compiler.Identifier "x")
                 [Compiler.AssignmentStatement (Compiler.SpecialVar "write")
                    (Compiler.Identifier "x")]
                 None])).
  reflexivity.
Defined.

(** * The parser's output and the code generator *)

Section HexPayload.

Import Shape.

Lemma lower_hex_digit (c : ascii) :
  is_lower_hex c = true ->
  (exists d, Py.digit_in 16 c = Some d) /\ Py.isspace c = false /\
  Py.is_underscore c = false.
Proof.
  each_ascii c; vm_compute; intros H; try discriminate H;
    (split; [eexists; reflexivity | split; reflexivity]).
Qed.

Lemma hex_digit_lower (d : Z) : 0 <= d < 16 -> is_lower_hex (Py.hex_digit d) = true.
Proof.
  intros H. rewrite <- (Z2Nat.id d) by lia.
  assert (Hn : (Z.to_nat d < 16)%nat) by lia.
  revert Hn. generalize (Z.to_nat d). clear. intros n Hn.
  do 16 (destruct n as [|n]; [reflexivity|]). lia.
Qed.

Lemma hex_digits_lower (fuel : nat) (v : Z) (acc : string) :
  all_chars is_lower_hex acc = true ->
  all_chars is_lower_hex (Py.hex_digits fuel v acc) = true /\
  Py.hex_digits fuel v acc <> EmptyString.
Proof.
  revert v acc. induction fuel as [|f IH]; intros v acc Hacc; simpl.
  - rewrite hex_digit_lower by (apply Z.mod_pos_bound; lia). split; [exact Hacc | discriminate].
  - destruct (v / 16 =? 0).
    + simpl. rewrite hex_digit_lower by (apply Z.mod_pos_bound; lia).
      split; [exact Hacc | discriminate].
    + apply IH. simpl. rewrite hex_digit_lower by (apply Z.mod_pos_bound; lia).
      exact Hacc.
Qed.

(** The whitespace of [int] is whitespace of [str.isspace]. *)
Lemma int_space_isspace (c : ascii) :
  Py.isspace c = false -> Py.int_space c = false.
Proof. each_ascii c; vm_compute; intros H; solve [reflexivity | discriminate H]. Qed.

Lemma rstrip_no_space (s : string) :
  all_chars (fun c => negb (Py.isspace c)) s = true -> Py.rstrip s = s.
Proof.
  induction s as [|c s IH]; intros H; [reflexivity|]. simpl in *.
  apply andb_true_iff in H as [Hc Hs]. rewrite (IH Hs).
  destruct s; [|reflexivity].
  apply negb_true_iff in Hc. rewrite (int_space_isspace c Hc). reflexivity.
Qed.

Lemma lower_hex_no_space (s : string) :
  all_chars is_lower_hex s = true ->
  all_chars (fun c => negb (Py.isspace c)) s = true.
Proof.
  induction s as [|c s IH]; intros H; [reflexivity|]. simpl in *.
  apply andb_true_iff in H as [Hc Hs].
  destruct (lower_hex_digit c Hc) as (_ & Hsp & _).
  rewrite Hsp, (IH Hs). reflexivity.
Qed.

Lemma int_digits_lower_hex (s : string) :
  all_chars is_lower_hex s = true ->
  forall (after_digit : bool) (acc : Z),
    s <> EmptyString \/ after_digit = true ->
    exists n, Py.int_digits 16 s after_digit acc = Some n.
Proof.
  induction s as [|c s IH]; intros H after_digit acc Hne; simpl.
  - destruct Hne as [Hne | ->]; [contradiction | eauto].
  - simpl in H. apply andb_true_iff in H as [Hc Hs].
    destruct (lower_hex_digit c Hc) as ((d & Hd) & _ & Hu).
    rewrite Hu, Hd. apply IH; [exact Hs | right; reflexivity].
Qed.

Lemma int16_lower_hex (h : string) :
  all_chars is_lower_hex h = true -> h <> EmptyString ->
  is_ok (Py.int16 ("0x" +:+ h)) = true.
Proof.
  intros Hh Hne. unfold Py.int16, Py.int_of_string.
  change ("0x" +:+ h) with (String "0" (String "x" h)).
  change (Py.lstrip (String "0" (String "x" h))) with (String "0" (String "x" h)).
  rewrite rstrip_no_space
    by (simpl; rewrite (lower_hex_no_space h Hh); reflexivity).
  cbn [Py.strip_sign]. change (16 =? 16) with true. cbn [Py.strip_prefix16 andb].
  destruct h as [|c h']; [contradiction|].
  simpl in Hh. pose proof Hh as Hh'. apply andb_true_iff in Hh as [Hc Hs].
  destruct (lower_hex_digit c Hc) as (_ & _ & Hu). rewrite Hu.
  destruct (int_digits_lower_hex (String c h') Hh' false 0) as (n & Hn);
    [left; discriminate|].
  rewrite Hn. reflexivity.
Qed.

Lemma int16_format_x (v : Z) : is_ok (Py.int16 ("0x" +:+ Py.format_x v)) = true.
Proof.
  destruct (hex_digits_lower (Z.to_nat (Z.log2 v)) v EmptyString eq_refl) as [Hall Hne].
  apply int16_lower_hex; assumption.
Qed.

Lemma get_next_token_ok (s rest : string) (t : Token) :
  Lexer.get_next_token s = Ok (Some t, rest) -> token_ok t = true.
Proof.
  unfold Lexer.get_next_token.
  destruct (Lexer.skip_whitespace s) as [|c s'] eqn:E; [discriminate|].
  destruct (Py.isalpha_lower c).
  { unfold Lexer.identifier.
    destruct (Lexer.take_while _ _) as [r rest'].
    destruct (str_in r KEYWORDS); intros [= <- _]; reflexivity. }
  destruct (Py.isdigit c).
  { unfold Lexer.number. destruct (Lexer.take_while _ _) as [r rest'].
    destruct (Py.int r) as [n|]; [|discriminate]. simpl.
    intros [= <- _]. apply int16_format_x. }
  destruct (Ascii.eqb c "'").
  { intros H. apply bind_Ok_inv in H as ([t0 r0] & Hc & H). injection H as <- _.
    unfold Lexer.character in Hc.
    apply bind_Ok_inv in Hc as ([cv s1] & _ & Hc).
    destruct (Lexer.current_char _) as [q|]; [|discriminate].
    destruct (Ascii.eqb_spec q "'") as [->|Hq].
    - injection Hc as <- _. apply int16_format_x.
    - exfalso. revert Hc Hq. clear. each_ascii q; intros Hc Hq;
        solve [discriminate Hc | apply Hq; reflexivity]. }
  destruct (_ && _); [intros [= <- _]; reflexivity|].
  destruct (str_in _ SINGLE_CHAR_OPS); [intros [= <- _]; reflexivity | discriminate].
Qed.

End HexPayload.

Section ParserShape.

Import Compiler.
Import Shape.

Lemma init_ok (s : string) (p : parser) : init s = Ok p -> parser_ok p.
Proof.
  unfold init. intros H. apply bind_Ok_inv in H as ([t rest] & Ht & H).
  injection H as <-. unfold parser_ok. simpl.
  destruct t as [t|]; [|exact I]. exact (get_next_token_ok _ _ _ Ht).
Qed.

Lemma eat_ok (token_type : TokenType) (token_value : option string) (p p' : parser) :
  eat token_type token_value p = Ok p' -> parser_ok p'.
Proof.
  unfold eat. destruct (current_token p) as [tok|]; [|discriminate].
  destruct (TokenType_eqb _ _); [|discriminate].
  destruct (match token_value with Some _ => _ | None => _ end); [|discriminate].
  apply init_ok.
Qed.

Lemma primary_preserves (rec : parser -> result (expr * parser)) :
  preserves expr_wf rec -> preserves expr_wf (primary rec).
Proof.
  intros Hrec p e p' Hp H. unfold primary in H. unfold parser_ok in Hp.
  destruct (current_token p) as [tok|]; [|discriminate].
  unfold token_ok in Hp. destruct (type tok).
  - destruct (str_in _ _); [|discriminate].
    apply bind_Ok_inv in H as (p1 & He & H). injection H as <- <-.
    split; [reflexivity | exact (eat_ok _ _ _ _ He)].
  - apply bind_Ok_inv in H as (p1 & He & H). injection H as <- <-.
    split; [reflexivity | exact (eat_ok _ _ _ _ He)].
  - apply bind_Ok_inv in H as (p1 & He & H). injection H as <- <-.
    split; [exact Hp | exact (eat_ok _ _ _ _ He)].
  - destruct (String.eqb _ _); [|discriminate].
    apply bind_Ok_inv in H as (p1 & He1 & H).
    apply bind_Ok_inv in H as ([e1 p2] & Hr & H).
    apply bind_Ok_inv in H as (p3 & He3 & H). injection H as <- <-.
    destruct (Hrec _ _ _ (eat_ok _ _ _ _ He1) Hr) as [Hwf _].
    split; [exact Hwf | exact (eat_ok _ _ _ _ He3)].
Qed.

Lemma known_ops :
  known ["*"; "/"; "%"] /\ known ["+"; "-"] /\ known [">"; "<"; ">="; "<="] /\
  known ["=="; "!="].
Proof.
  repeat apply conj; intros op H; unfold str_in in H; simpl in H;
    repeat match type of H with
      | (String.eqb ?a ?b || _)%bool = true =>
          let E := fresh "E" in
          destruct (String.eqb a b) eqn:E;
          [apply String.eqb_eq in E; subst; reflexivity | simpl in H]
      end; discriminate.
Qed.

Lemma binop_loop_preserves (rec : parser -> result (expr * parser))
  (ops : list string) (operand : parser -> result (expr * parser)) :
  known ops -> preserves expr_wf operand ->
  forall (fuel : nat) (lhs : expr) (p : parser) (e : expr) (p' : parser),
    expr_wf lhs = true -> parser_ok p ->
    binop_loop ops operand fuel lhs p = Ok (e, p') ->
    expr_wf e = true /\ parser_ok p'.
Proof.
  intros Hops Hoperand. induction fuel as [|f IH]; intros lhs p e p' Hl Hp H; simpl in H.
  - destruct (current_token p) as [tok|]; [|injection H as <- <-; split; assumption].
    destruct (_ && _); [discriminate | injection H as <- <-; split; assumption].
  - destruct (current_token p) as [tok|] eqn:Etok;
      [|injection H as <- <-; split; assumption].
    destruct (TokenType_eqb (type tok) OP && str_in (value tok) ops) eqn:E;
      [|injection H as <- <-; split; assumption].
    apply andb_true_iff in E as [_ Hin].
    apply bind_Ok_inv in H as (p1 & He & H).
    apply bind_Ok_inv in H as ([rhs p2] & Hr & H).
    destruct (Hoperand _ _ _ (eat_ok _ _ _ _ He) Hr) as [Hrhs Hp2].
    assert (Hwf : expr_wf (BinaryOp lhs (value tok) rhs) = true)
      by (simpl; rewrite Hl, (Hops _ Hin), Hrhs; reflexivity).
    exact (IH _ _ _ _ Hwf Hp2 H).
Qed.

Lemma level_preserves (ops : list string)
  (operand : parser -> result (expr * parser)) (fuel : nat) :
  known ops -> preserves expr_wf operand ->
  preserves expr_wf
    (fun p => do (lhs, p) <- operand p; binop_loop ops operand fuel lhs p).
Proof.
  intros Hops Hoperand p e p' Hp H.
  apply bind_Ok_inv in H as ([lhs p1] & Hl & H).
  destruct (Hoperand _ _ _ Hp Hl) as [Hwf Hp1].
  exact (binop_loop_preserves operand ops operand Hops Hoperand fuel _ _ _ _ Hwf Hp1 H).
Qed.

Lemma expression_preserves (fuel : nat) : preserves expr_wf (expression fuel).
Proof.
  destruct known_ops as (Hmul & Hadd & Hcmp & Heq).
  induction fuel as [|f IH]; [intros p e p' _ H; discriminate|].
  cbn [expression]. unfold equality, comparison, term, factor.
  apply level_preserves; [exact Heq|].
  apply level_preserves; [exact Hcmp|].
  apply level_preserves; [exact Hadd|].
  apply level_preserves; [exact Hmul|].
  apply primary_preserves. exact IH.
Qed.

Lemma forallb_snoc (l : list stmt) (x : stmt) :
  forallb stmt_wf l = true -> stmt_wf x = true -> forallb stmt_wf (l ++ [x]) = true.
Proof.
  intros Hl Hx. rewrite forallb_app, Hl. simpl. rewrite Hx. reflexivity.
Qed.

Section Statements.

Variable fuel : nat.
Variable stmt_rec : parser -> result (stmt * parser).
Hypothesis Hrec : preserves stmt_wf stmt_rec.

Lemma statement_loop_preserves (n : nat) :
  forall (acc : list stmt) (p : parser) (l : list stmt) (p' : parser),
    forallb stmt_wf acc = true -> parser_ok p ->
    statement_loop stmt_rec n acc p = Ok (l, p') ->
    forallb stmt_wf l = true /\ parser_ok p'.
Proof.
  induction n as [|n IH]; intros acc p l p' Hacc Hp H; simpl in H.
  - destruct (current_token p) as [tok|]; [|injection H as <- <-; split; assumption].
    destruct (_ && _); [discriminate | injection H as <- <-; split; assumption].
  - destruct (current_token p) as [tok|]; [|injection H as <- <-; split; assumption].
    destruct (_ && _); [|injection H as <- <-; split; assumption].
    apply bind_Ok_inv in H as ([s p1] & Hs & H).
    destruct (Hrec _ _ _ Hp Hs) as [Hwf Hp1].
    exact (IH _ _ _ _ (forallb_snoc _ _ Hacc Hwf) Hp1 H).
Qed.

Lemma statement_list_preserves :
  preserves (forallb stmt_wf) (statement_list fuel stmt_rec).
Proof.
  intros p l p' Hp H. unfold statement_list in H.
  destruct (current_token p) as [tok|] eqn:Etok;
    [|injection H as <- <-; split; [reflexivity | exact Hp]].
  apply bind_Ok_inv in H as ([acc p1] & Hfirst & H).
  assert (Hacc : forallb stmt_wf acc = true /\ parser_ok p1).
  { destruct (_ || _).
    - apply bind_Ok_inv in Hfirst as ([s p2] & Hs & Hfirst).
      injection Hfirst as <- <-.
      destruct (Hrec _ _ _ Hp Hs) as [Hwf Hp2].
      split; [simpl; rewrite Hwf; reflexivity | exact Hp2].
    - injection Hfirst as <- <-. split; [reflexivity | exact Hp]. }
  destruct Hacc as [Hacc Hp1].
  exact (statement_loop_preserves _ _ _ _ _ Hacc Hp1 H).
Qed.

Lemma if_statement_preserves : preserves stmt_wf (if_statement fuel stmt_rec).
Proof.
  intros p s p' Hp H. unfold if_statement in H.
  apply bind_Ok_inv in H as (p1 & E1 & H).
  apply bind_Ok_inv in H as (p2 & E2 & H).
  apply bind_Ok_inv in H as ([c p3] & Hc & H).
  destruct (expression_preserves _ _ _ _ (eat_ok _ _ _ _ E2) Hc) as [Hcwf _].
  apply bind_Ok_inv in H as (p4 & E4 & H).
  apply bind_Ok_inv in H as (p5 & E5 & H).
  apply bind_Ok_inv in H as ([t p6] & Ht & H).
  destruct (statement_list_preserves _ _ _ (eat_ok _ _ _ _ E5) Ht) as [Htwf _].
  apply bind_Ok_inv in H as (p7 & E7 & H).
  assert (Hno : Ok (IfStatement c t None, p7) = Ok (s, p') ->
                stmt_wf s = true /\ parser_ok p').
  { intros [= <- <-]. split; [|exact (eat_ok _ _ _ _ E7)].
    simpl. rewrite Hcwf, Htwf. reflexivity. }
  destruct (at_else p7); [|exact (Hno H)].
  apply bind_Ok_inv in H as (q1 & F1 & H).
  apply bind_Ok_inv in H as (q2 & F2 & H).
  apply bind_Ok_inv in H as ([e q3] & He & H).
  destruct (statement_list_preserves _ _ _ (eat_ok _ _ _ _ F2) He) as [Hewf _].
  apply bind_Ok_inv in H as (q4 & F4 & H). injection H as <- <-.
  split; [|exact (eat_ok _ _ _ _ F4)].
  simpl. rewrite Hcwf, Htwf, Hewf. reflexivity.
Qed.

Lemma while_statement_preserves : preserves stmt_wf (while_statement fuel stmt_rec).
Proof.
  intros p s p' Hp H. unfold while_statement in H.
  apply bind_Ok_inv in H as (p1 & E1 & H).
  apply bind_Ok_inv in H as (p2 & E2 & H).
  apply bind_Ok_inv in H as ([c p3] & Hc & H).
  destruct (expression_preserves _ _ _ _ (eat_ok _ _ _ _ E2) Hc) as [Hcwf _].
  apply bind_Ok_inv in H as (p4 & E4 & H).
  apply bind_Ok_inv in H as (p5 & E5 & H).
  apply bind_Ok_inv in H as ([b p6] & Hb & H).
  destruct (statement_list_preserves _ _ _ (eat_ok _ _ _ _ E5) Hb) as [Hbwf _].
  apply bind_Ok_inv in H as (p7 & E7 & H). injection H as <- <-.
  split; [|exact (eat_ok _ _ _ _ E7)].
  simpl. rewrite Hcwf, Hbwf. reflexivity.
Qed.

Lemma assignment_statement_preserves :
  preserves stmt_wf (assignment_statement fuel).
Proof.
  intros p s p' Hp H. unfold assignment_statement in H.
  destruct (current_token p) as [tok|]; [|discriminate].
  apply bind_Ok_inv in H as ([lvalue p1] & _ & H).
  apply bind_Ok_inv in H as (p2 & E2 & H).
  apply bind_Ok_inv in H as ([e p3] & He & H).
  destruct (expression_preserves _ _ _ _ (eat_ok _ _ _ _ E2) He) as [Hewf _].
  apply bind_Ok_inv in H as (p4 & E4 & H). injection H as <- <-.
  split; [exact Hewf | exact (eat_ok _ _ _ _ E4)].
Qed.


End Statements.

Lemma statement_preserves (fuel : nat) : preserves stmt_wf (statement fuel).
Proof.
  induction fuel as [|f IH]; [intros p s p' _ H; discriminate|].
  intros p s p' Hp H. cbn [statement] in H.
  destruct (current_token p) as [tok|] eqn:Etok; [|discriminate].
  destruct (type tok).
  - destruct (String.eqb (value tok) "if");
      [exact (if_statement_preserves f _ IH _ _ _ Hp H)|].
    destruct (String.eqb (value tok) "while");
      [exact (while_statement_preserves f _ IH _ _ _ Hp H)|].
    destruct (str_in _ _); [|discriminate].
    exact (assignment_statement_preserves f _ _ _ Hp H).
  - exact (assignment_statement_preserves f _ _ _ Hp H).
  - discriminate.
  - discriminate.
Qed.

(** The trees the parser returns have the grammar's operators and
    lexer-made literals. *)
Lemma parse_wf (fuel : nat) (source : string) (statements : list stmt) :
  parse fuel source = Ok (Program statements) ->
  forallb stmt_wf statements = true.
Proof.
  unfold parse. intros H.
  apply bind_Ok_inv in H as (p & Hi & H).
  apply bind_Ok_inv in H as ([l p1] & Hl & H).
  destruct (statement_list_preserves fuel _ (statement_preserves fuel) _ _ _
              (init_ok _ _ Hi) Hl) as [Hwf _].
  destruct (current_token p1); [discriminate|]. injection H as <-. exact Hwf.
Qed.

End ParserShape.

Section GenerationOutcome.

Import Compiler.
Import Shape.

Lemma expr_code_outcome (e : expr) :
expr_wf e = true ->
forall v, outcome (expr_reads_output e) (Layout.expr_code e v).
Proof.
induction e as [l IHl op r IHr | name | value | name]; intros Hwf v; simpl in *.
- apply andb_true_iff in Hwf as [Hwf Hr]. apply andb_true_iff in Hwf as [Hl Hop].
  specialize (IHl Hl v). unfold outcome in *.
  destruct (expr_reads_output l); simpl.
  + rewrite IHl. reflexivity.
  + destruct IHl as ([cl v1] & ->). simpl.
    specialize (IHr Hr v1).
    destruct (expr_reads_output r).
    * rewrite IHr. reflexivity.
    * destruct IHr as ([cr v2] & ->). simpl.
      destruct (CodeGenerator.op_map op); [eauto | discriminate].
- unfold outcome. destruct (Layout.var_id name v). eauto.
- unfold outcome. destruct (Py.int16 value); [simpl; eauto | discriminate].
- unfold outcome.
  destruct (String.eqb name "read") eqn:E1.
  { apply String.eqb_eq in E1. subst. simpl. eauto. }
  destruct (String.eqb name "get") eqn:E2.
  { apply String.eqb_eq in E2. subst. simpl. eauto. }
  destruct (_ || _); [reflexivity | eauto].
Qed.

Lemma block_code_outcome (l : list stmt) :
Forall (fun s => stmt_wf s = true ->
          forall base v, outcome (stmt_reads_output s) (Layout.stmt_code base s v)) l ->
forallb stmt_wf l = true ->
forall base v,
  outcome (existsb stmt_reads_output l) (Layout.block_code Layout.stmt_code base l v).
Proof.
induction 1 as [|s rest Hs _ IH]; intros Hwf base v; simpl in *.
- unfold outcome. eauto.
- apply andb_true_iff in Hwf as [Hws Hwr].
  specialize (Hs Hws base v). unfold outcome in *.
  destruct (stmt_reads_output s); simpl.
  + rewrite Hs. reflexivity.
  + destruct Hs as ([c v1] & ->). simpl.
    specialize (IH Hwr (base + length c)%nat v1).
    destruct (existsb stmt_reads_output rest).
    * rewrite IH. reflexivity.
    * destruct IH as ([cs v2] & ->). simpl. eauto.
Qed.

Lemma stmt_code_outcome (s : stmt) :
stmt_wf s = true ->
forall base v, outcome (stmt_reads_output s) (Layout.stmt_code base s v).
Proof.
induction s as [lvalue e | cond t e Ht He | cond b Hb] using stmt_induction;
  intros Hwf base v; cbn [stmt_wf stmt_reads_output Layout.stmt_code] in *.
- pose proof (expr_code_outcome e Hwf v) as H. unfold outcome in *.
  destruct (expr_reads_output e).
  + rewrite H. reflexivity.
  + destruct H as ([ce v1] & ->). simpl.
    destruct (Layout.assign_code lvalue v1). eauto.
- apply andb_true_iff in Hwf as [Hwf Hewf]. apply andb_true_iff in Hwf as [Hc Htwf].
  pose proof (expr_code_outcome cond Hc v) as H. unfold outcome in *.
  destruct (expr_reads_output cond); simpl.
  { rewrite H. reflexivity. }
  destruct H as ([cc v1] & ->). simpl.
  pose proof (block_code_outcome t Ht Htwf (base + length cc + 3)%nat v1) as H.
  unfold outcome in H.
  destruct (existsb stmt_reads_output t); simpl.
  { rewrite H. reflexivity. }
  destruct H as ([ct v2] & ->). cbn [bind].
  destruct e as [[|s0 es]|]; [simpl; eauto | | eauto].
  pose proof (block_code_outcome (s0 :: es) He Hewf
                (base + length cc + 3 + length ct + 1)%nat v2) as H.
  unfold outcome in H.
  destruct (existsb stmt_reads_output (s0 :: es)).
  { rewrite H. reflexivity. }
  destruct H as ([ce v3] & ->). simpl. eauto.
- apply andb_true_iff in Hwf as [Hc Hbwf].
  pose proof (expr_code_outcome cond Hc v) as H. unfold outcome in *.
  destruct (expr_reads_output cond); simpl.
  { rewrite H. reflexivity. }
  destruct H as ([cc v1] & ->). simpl.
  pose proof (block_code_outcome b Hb Hbwf (base + length cc + 3)%nat v1) as H.
  unfold outcome in H.
  destruct (existsb stmt_reads_output b).
  { rewrite H. reflexivity. }
  destruct H as ([cb v2] & ->). simpl. eauto.
Qed.

Lemma generate_outcome (statements : list stmt) :
forallb stmt_wf statements = true ->
outcome (existsb stmt_reads_output statements)
  (CodeGenerator.generate (Program statements)).
Proof.
intros Hwf. unfold CodeGenerator.generate. rewrite generate_from_layout.
pose proof (block_code_outcome statements
              ltac:(apply Forall_forall; intros s _; apply stmt_code_outcome)
              Hwf 0%nat (Layout.mk ∅ 0)) as H.
unfold outcome in *. destruct (existsb stmt_reads_output statements).
- rewrite H. reflexivity.
- destruct H as ([c v] & ->). simpl. eauto.
Qed.

End GenerationOutcome.

(** C6, as stated, fails: [write] and [put] are accepted as primaries and
  make generation raise.  The program [a = write;] parses, and
  [generate] raises on its tree. *)
Lemma C6_output_primary_counterexample :
Compiler.parse 10 "a = write;" =
  Ok (Compiler.Program
        [Compiler.AssignmentStatement (Compiler.Identifier "a")
           (Compiler.SpecialVar "write")]) /\
CodeGenerator.generate
  (Compiler.Program
     [Compiler.AssignmentStatement (Compiler.Identifier "a")
        (Compiler.SpecialVar "write")])
= Err (GenerationError "Unexpected special variable in expression").
Proof. split; reflexivity. Qed.

(** C6, amended.  For every source the parser accepts, code generation
  completes without raising when neither [write] nor [put] occurs in
  expression position; when one does, generation raises the error
  "Unexpected special variable in expression".  No other generation error
  arises on parser output. *)
Theorem C6_generation_on_parser_output (fuel : nat) (source : string)
(ast : Compiler.program) :
Compiler.parse fuel source = Ok ast ->
if Shape.program_reads_output ast
then CodeGenerator.generate ast =
     Err (GenerationError "Unexpected special variable in expression")
else exists g : CodeGenerator.t, CodeGenerator.generate ast = Ok g.
Proof.
destruct ast as [statements]. intros H.
exact (generate_outcome statements (parse_wf fuel source statements H)).
Qed.

Lemma C6_generation_on_parser_output_witness :
exists g : CodeGenerator.t,
  CodeGenerator.generate
    (Compiler.Program
       [Compiler.AssignmentStatement (Compiler.SpecialVar "write")
          (Compiler.BinaryOp (Compiler.SpecialVar "read") "+" (Compiler.Literal "0x1"))])
  = Ok g.
Proof.
exact (C6_generation_on_parser_output 10 "write = read + 1;" _ eq_refl).
Defined.

(** * Variables that have not been assigned *)

Section Unassigned.





Import MandrillVM.

Lemma load_bytecode_variables (file : list byte) (vm vm' : t) :
  load_bytecode file vm = Ok vm' ->
  exists data_size : Z,
    Struct.unpack_I (take 4 (drop 20 file)) = Ok data_size /\
    variables vm' = replicate (Z.to_nat (data_size / 4)) 0.
Proof.
  unfold load_bytecode, read. intros H.
  destruct (negb _); [discriminate|].
  apply bind_Ok_inv in H as (version & _ & H).
  destruct (negb _); [discriminate|].
  apply bind_Ok_inv in H as (data_size & Hd & H).
  apply bind_Ok_inv in H as (code_size & _ & H).
  apply bind_Ok_inv in H as (code & _ & H).
  injection H as <-. exists data_size. split; [|reflexivity].
  rewrite <- Hd. f_equal. rewrite drop_drop. reflexivity.
Qed.

Lemma load_bytecode_stack (file : list byte) (vm vm' : t) :
  load_bytecode file vm = Ok vm' -> stack vm' = [].
Proof.
  unfold load_bytecode, read. intros H.
  destruct (negb _); [discriminate|].
  apply bind_Ok_inv in H as (version & _ & H).
  destruct (negb _); [discriminate|].
  apply bind_Ok_inv in H as (data_size & Hd & H).
  apply bind_Ok_inv in H as (code_size & _ & H).
  apply bind_Ok_inv in H as (code & _ & H).
  injection H as <-. reflexivity.
Qed.







End Unassigned.



(** * The interpreter and the VM on the scenarios *)


(** The two engines differ on identical inputs in two more ways.  The VM
    prints the 32-bit wrap of a value, the interpreter the value. *)
Remark echo_sum_beyond_32_bits :
  Interpreter.main 200 Corpus.echo_sum (Interpreter.Text "2147483647 1")
  = Ok "2147483648" /\
  compile_and_run 200 Corpus.echo_sum "2147483647 1" = Ok "-2147483648".
Proof. split; vm_compute; reflexivity. Qed.

(** The interpreter reads mandrill.in in text mode, where a carriage return
    becomes a line feed; the standard input of the VM keeps it. *)
Remark character_copy_carriage_return :
  Interpreter.main 200 Corpus.character_copy (Interpreter.Text (String "013" "b"))
  = Ok (String "010" "b") /\
  compile_and_run 200 Corpus.character_copy (String "013" "b")
  = Ok (String "013" "b").
Proof. split; vm_compute; reflexivity. Qed.

(** * Concatenation of strings *)

Section Strings.

Lemma string_app_cons (x : ascii) (a b : string) :
  String x a +:+ b = String x (a +:+ b).
Proof. reflexivity. Qed.

Lemma string_app_assoc (a b c : string) : (a +:+ b) +:+ c = a +:+ (b +:+ c).
Proof.
  induction a as [|x a IH]; [reflexivity|].
  rewrite !string_app_cons, IH. reflexivity.
Qed.

Lemma string_app_empty (a : string) : a +:+ EmptyString = a.
Proof.
  induction a as [|x a IH]; [reflexivity|].
  rewrite string_app_cons, IH. reflexivity.
Qed.

End Strings.

(** * The syntax checker and the compiler's parser *)

Section Checker.

Import Compiler.
Import Blocks.

Lemma forget_Ok {A : Type} (r : result (A * parser)) (p' : parser) :
  forget r = Ok p' <-> exists a, r = Ok (a, p').
Proof.
  unfold forget. destruct r as [[a p]|e]; simpl.
  - split; [intros [= <-]; eauto | intros (b & [= _ ->]); reflexivity].
  - split; [discriminate | intros (b & [=])].
Qed.

Lemma checker_primary (prec : parser -> result parser)
  (crec : parser -> result (expr * parser)) :
  (forall p, prec p = forget (crec p)) ->
  forall p, Parser.primary prec p = forget (primary crec p).
Proof.
  intros Hrec p. unfold Parser.primary, primary.
  destruct (current_token p) as [tok|]; [|reflexivity].
  destruct (type tok).
  - destruct (str_in _ _); [|reflexivity].
    destruct (eat KEYWORD None p); reflexivity.
  - destruct (eat ID None p); reflexivity.
  - destruct (eat LITERAL None p); reflexivity.
  - destruct (String.eqb _ _); [|reflexivity].
    destruct (eat OP (Some "(") p) as [p1|]; [|reflexivity]. simpl.
    rewrite Hrec. destruct (crec p1) as [[e p2]|]; [|reflexivity]. simpl.
    destruct (eat OP (Some ")") p2); reflexivity.
Qed.

Lemma checker_binop_loop (ops : list string) (pop : parser -> result parser)
  (cop : parser -> result (expr * parser)) :
  (forall p, pop p = forget (cop p)) ->
  forall (fuel : nat) (lhs : expr) (p : parser),
    Parser.binop_loop ops pop fuel p = forget (binop_loop ops cop fuel lhs p).
Proof.
  intros Hop. induction fuel as [|f IH]; intros lhs p; simpl.
  - destruct (current_token p) as [tok|]; [|reflexivity].
    destruct (_ && _); reflexivity.
  - destruct (current_token p) as [tok|]; [|reflexivity].
    destruct (_ && _); [|reflexivity].
    destruct (eat OP (Some (value tok)) p) as [p1|]; [|reflexivity]. simpl.
    rewrite Hop. destruct (cop p1) as [[rhs p2]|]; [|reflexivity]. simpl.
    apply IH.
Qed.

Lemma checker_level (ops : list string) (pop : parser -> result parser)
  (cop : parser -> result (expr * parser)) (fuel : nat) :
  (forall p, pop p = forget (cop p)) ->
  forall p,
    (do p <- pop p; Parser.binop_loop ops pop fuel p) =
    forget (do (lhs, p) <- cop p; binop_loop ops cop fuel lhs p).
Proof.
  intros Hop p. rewrite Hop. destruct (cop p) as [[lhs p1]|]; [|reflexivity].
  simpl. apply checker_binop_loop. exact Hop.
Qed.

Lemma checker_expression (fuel : nat) (p : parser) :
  Parser.expression fuel p = forget (expression fuel p).
Proof.
  revert p. induction fuel as [|f IH]; [reflexivity|]. intros p.
  cbn [Parser.expression expression].
  unfold Parser.equality, Parser.comparison, Parser.term, Parser.factor,
    equality, comparison, term, factor.
  revert p. apply checker_level. apply checker_level. apply checker_level.
  apply checker_level. apply checker_primary. exact IH.
Qed.


Lemma checker_expression_Ok (fuel : nat) (p p' : parser) :
  Parser.expression fuel p = Ok p' <-> exists e, expression fuel p = Ok (e, p').
Proof. rewrite checker_expression. apply forget_Ok. Qed.

Lemma eat_current (token_type : TokenType) (token_value : option string)
  (p p' : parser) :
  eat token_type token_value p = Ok p' -> current_token p <> None.
Proof. unfold eat. destruct (current_token p); [discriminate | discriminate]. Qed.

Lemma forallb_no_empty_app (a b : list stmt) :
  forallb no_empty_block (a ++ b) = true ->
  forallb no_empty_block a = true /\ forallb no_empty_block b = true.
Proof. rewrite forallb_app. apply andb_true_iff. Qed.

Section Statements.

Variable fuel : nat.
Variable pst : parser -> result parser.
Variable cst : parser -> result (stmt * parser).

(** What the two [statement] methods have in common. *)
Hypothesis Hfw : forall p p',
  pst p = Ok p' -> exists s, cst p = Ok (s, p') /\ no_empty_block s = true.
Hypothesis Hbw : forall p s p',
  cst p = Ok (s, p') -> no_empty_block s = true -> pst p = Ok p'.
Hypothesis Hop : forall p tok p',
  current_token p = Some tok -> type tok = OP -> pst p <> Ok p'.

Lemma checker_loop_fw (n : nat) :
  forall (acc : list stmt) (p p' : parser),
    Parser.statement_loop pst n p = Ok p' ->
    exists l, statement_loop cst n acc p = Ok (acc ++ l, p') /\
              forallb no_empty_block l = true.
Proof.
  induction n as [|n IH]; intros acc p p' H; simpl in H |- *.
  - destruct (current_token p) as [tok|];
      [|injection H as <-; exists []; rewrite app_nil_r; split; reflexivity].
    destruct (_ && _); [discriminate|].
    injection H as <-. exists []. rewrite app_nil_r. split; reflexivity.
  - destruct (current_token p) as [tok|];
      [|injection H as <-; exists []; rewrite app_nil_r; split; reflexivity].
    destruct (_ && _);
      [|injection H as <-; exists []; rewrite app_nil_r; split; reflexivity].
    apply bind_Ok_inv in H as (p1 & Hs & H).
    destruct (Hfw _ _ Hs) as (s & Hc & Hne). rewrite Hc. simpl.
    destruct (IH (acc ++ [s]) _ _ H) as (l & Hl & Hall).
    exists (s :: l). rewrite Hl, <- app_assoc. split; [reflexivity|].
    simpl. rewrite Hne, Hall. reflexivity.
Qed.

Lemma checker_loop_bw (n : nat) :
  forall (acc : list stmt) (p : parser) (r : list stmt) (p' : parser),
    statement_loop cst n acc p = Ok (r, p') ->
    (exists l, r = acc ++ l) /\
    (forallb no_empty_block r = true -> Parser.statement_loop pst n p = Ok p').
Proof.
  induction n as [|n IH]; intros acc p r p' H; simpl in H |- *.
  - destruct (current_token p) as [tok|];
      [|injection H as <- <-; split; [exists []; symmetry; apply app_nil_r | reflexivity]].
    destruct (_ && _); [discriminate|].
    injection H as <- <-. split; [exists []; symmetry; apply app_nil_r | reflexivity].
  - destruct (current_token p) as [tok|];
      [|injection H as <- <-; split; [exists []; symmetry; apply app_nil_r | reflexivity]].
    destruct (_ && _);
      [|injection H as <- <-; split; [exists []; symmetry; apply app_nil_r | reflexivity]].
    apply bind_Ok_inv in H as ([s p1] & Hs & H).
    destruct (IH _ _ _ _ H) as ((l & ->) & Hloop).
    split; [exists (s :: l); rewrite <- app_assoc; reflexivity|].
    intros Hall. pose proof (Hloop Hall) as Hp.
    apply forallb_no_empty_app in Hall as [Hall _].
    apply forallb_no_empty_app in Hall as [_ Hs1]. simpl in Hs1.
    rewrite andb_true_r in Hs1.
    rewrite (Hbw _ _ _ Hs Hs1). simpl. exact Hp.
Qed.

Lemma checker_list_fw (p p' : parser) :
  Parser.statement_list fuel pst p = Ok p' ->
  exists l, statement_list fuel cst p = Ok (l, p') /\
            forallb no_empty_block l = true /\
            (l = [] -> current_token p' = None).
Proof.
  unfold Parser.statement_list, statement_list. intros H.
  destruct (current_token p) as [tok|] eqn:Etok;
    [|injection H as <-; exists []; repeat apply conj; [reflexivity | reflexivity | intros _; exact Etok]].
  apply bind_Ok_inv in H as (p1 & Hs & H).
  destruct (Hfw _ _ Hs) as (s & Hc & Hne).
  destruct (TokenType_eqb (type tok) OP) eqn:Eop.
  - exfalso. apply (Hop p tok p1 Etok); [|exact Hs].
    destruct (type tok); try discriminate. reflexivity.
  - simpl. rewrite Hc. simpl.
    destruct (checker_loop_fw fuel [s] _ _ H) as (l & Hl & Hall).
    exists (s :: l). rewrite Hl. repeat apply conj; [reflexivity | | discriminate].
    simpl. rewrite Hne, Hall. reflexivity.
Qed.

Lemma checker_list_bw (p : parser) (l : list stmt) (p' : parser) :
  statement_list fuel cst p = Ok (l, p') ->
  forallb no_empty_block l = true ->
  (l = [] -> current_token p' = None) ->
  Parser.statement_list fuel pst p = Ok p'.
Proof.
  unfold Parser.statement_list, statement_list. intros H Hall Hnil.
  destruct (current_token p) as [tok|] eqn:Etok; [|injection H as <- <-; reflexivity].
  apply bind_Ok_inv in H as ([acc p1] & Hfirst & H).
  destruct (checker_loop_bw fuel _ _ _ _ H) as ((l' & ->) & Hloop).
  destruct (negb (TokenType_eqb (type tok) OP) || negb (is_close_brace tok)) eqn:E.
  - apply bind_Ok_inv in Hfirst as ([s p2] & Hs & Hfirst).
    injection Hfirst as <- <-.
    pose proof (Hloop Hall) as Hp. simpl in Hall.
    apply andb_true_iff in Hall as [Hs1 _].
    rewrite (Hbw _ _ _ Hs Hs1). simpl. exact Hp.
  - injection Hfirst as <- <-. exfalso.
    apply orb_false_iff in E as [E1 E2]. apply negb_false_iff in E1.
    destruct fuel as [|n]; simpl in H; rewrite Etok, E1 in H; simpl in H;
      injection H as H <-; rewrite Etok in Hnil; symmetry in H;
      specialize (Hnil H); discriminate.
Qed.

Lemma nonempty_not_nil {A : Type} (l : list A) : nonempty l = true -> l <> [].
Proof. destruct l; [discriminate | discriminate]. Qed.

Lemma not_nil_nonempty {A : Type} (l : list A) (p : parser) (p' : parser)
  (token_type : TokenType) (token_value : option string) :
  (l = [] -> current_token p = None) ->
  eat token_type token_value p = Ok p' -> nonempty l = true.
Proof.
  intros Hnil He. destruct l; [|reflexivity].
  exfalso. exact (eat_current _ _ _ _ He (Hnil eq_refl)).
Qed.

Lemma checker_if_fw (p p' : parser) :
  Parser.if_statement fuel pst p = Ok p' ->
  exists s, if_statement fuel cst p = Ok (s, p') /\ no_empty_block s = true.
Proof.
  unfold Parser.if_statement, if_statement. intros H.
  apply bind_Ok_inv in H as (p1 & E1 & H). rewrite E1. simpl.
  apply bind_Ok_inv in H as (p2 & E2 & H). rewrite E2. simpl.
  apply bind_Ok_inv in H as (p3 & Hc & H).
  apply checker_expression_Ok in Hc as (c & Hc). rewrite Hc. simpl.
  apply bind_Ok_inv in H as (p4 & E4 & H). rewrite E4. simpl.
  apply bind_Ok_inv in H as (p5 & E5 & H). rewrite E5. simpl.
  apply bind_Ok_inv in H as (p6 & Ht & H).
  apply checker_list_fw in Ht as (t & Ht & Hall & Hnil). rewrite Ht. simpl.
  apply bind_Ok_inv in H as (p7 & E7 & H). rewrite E7. simpl.
  pose proof (not_nil_nonempty _ _ _ _ _ Hnil E7) as Hne.
  destruct (at_else p7).
  - apply bind_Ok_inv in H as (q1 & F1 & H). rewrite F1. simpl.
    apply bind_Ok_inv in H as (q2 & F2 & H). rewrite F2. simpl.
    apply bind_Ok_inv in H as (q3 & He & H).
    apply checker_list_fw in He as (e & He & Halle & Hnile). rewrite He. simpl.
    rewrite H. simpl. eexists. split; [reflexivity|].
    simpl. rewrite Hne, Hall, Halle, (not_nil_nonempty _ _ _ _ _ Hnile H).
    reflexivity.
  - injection H as <-. eexists. split; [reflexivity|].
    simpl. rewrite Hne, Hall. reflexivity.
Qed.

Lemma checker_if_bw (p : parser) (s : stmt) (p' : parser) :
  if_statement fuel cst p = Ok (s, p') -> no_empty_block s = true ->
  Parser.if_statement fuel pst p = Ok p'.
Proof.
  unfold Parser.if_statement, if_statement. intros H Hs.
  apply bind_Ok_inv in H as (p1 & E1 & H). rewrite E1. simpl.
  apply bind_Ok_inv in H as (p2 & E2 & H). rewrite E2. simpl.
  apply bind_Ok_inv in H as ([c p3] & Hc & H).
  rewrite (proj2 (checker_expression_Ok _ _ _) (ex_intro _ _ Hc)). simpl.
  apply bind_Ok_inv in H as (p4 & E4 & H). rewrite E4. simpl.
  apply bind_Ok_inv in H as (p5 & E5 & H). rewrite E5. simpl.
  apply bind_Ok_inv in H as ([t p6] & Ht & H).
  apply bind_Ok_inv in H as (p7 & E7 & H).
  destruct (at_else p7) eqn:Eelse.
  - apply bind_Ok_inv in H as (q1 & F1 & H).
    apply bind_Ok_inv in H as (q2 & F2 & H).
    apply bind_Ok_inv in H as ([e q3] & He & H).
    apply bind_Ok_inv in H as (q4 & F4 & H). injection H as <- <-.
    simpl in Hs. apply andb_true_iff in Hs as [Hs Hes].
    apply andb_true_iff in Hs as [Hne Hall].
    apply andb_true_iff in Hes as [Hnee Halle].
    rewrite (checker_list_bw _ _ _ Ht Hall
               (fun E => False_ind _ (nonempty_not_nil _ Hne E))). simpl.
    rewrite E7. simpl. rewrite Eelse, F1. simpl. rewrite F2. simpl.
    rewrite (checker_list_bw _ _ _ He Halle
               (fun E => False_ind _ (nonempty_not_nil _ Hnee E))). simpl.
    exact F4.
  - injection H as <- <-.
    simpl in Hs. rewrite andb_true_r in Hs.
    apply andb_true_iff in Hs as [Hne Hall].
    rewrite (checker_list_bw _ _ _ Ht Hall
               (fun E => False_ind _ (nonempty_not_nil _ Hne E))). simpl.
    rewrite E7. simpl. rewrite Eelse. reflexivity.
Qed.

Lemma checker_while_fw (p p' : parser) :
  Parser.while_statement fuel pst p = Ok p' ->
  exists s, while_statement fuel cst p = Ok (s, p') /\ no_empty_block s = true.
Proof.
  unfold Parser.while_statement, while_statement. intros H.
  apply bind_Ok_inv in H as (p1 & E1 & H). rewrite E1. simpl.
  apply bind_Ok_inv in H as (p2 & E2 & H). rewrite E2. simpl.
  apply bind_Ok_inv in H as (p3 & Hc & H).
  apply checker_expression_Ok in Hc as (c & Hc). rewrite Hc. simpl.
  apply bind_Ok_inv in H as (p4 & E4 & H). rewrite E4. simpl.
  apply bind_Ok_inv in H as (p5 & E5 & H). rewrite E5. simpl.
  apply bind_Ok_inv in H as (p6 & Hb & H).
  apply checker_list_fw in Hb as (b & Hb & Hall & Hnil). rewrite Hb. simpl.
  rewrite H. simpl. eexists. split; [reflexivity|].
  simpl. rewrite Hall, (not_nil_nonempty _ _ _ _ _ Hnil H). reflexivity.
Qed.

Lemma checker_while_bw (p : parser) (s : stmt) (p' : parser) :
  while_statement fuel cst p = Ok (s, p') -> no_empty_block s = true ->
  Parser.while_statement fuel pst p = Ok p'.
Proof.
  unfold Parser.while_statement, while_statement. intros H Hs.
  apply bind_Ok_inv in H as (p1 & E1 & H). rewrite E1. simpl.
  apply bind_Ok_inv in H as (p2 & E2 & H). rewrite E2. simpl.
  apply bind_Ok_inv in H as ([c p3] & Hc & H).
  rewrite (proj2 (checker_expression_Ok _ _ _) (ex_intro _ _ Hc)). simpl.
  apply bind_Ok_inv in H as (p4 & E4 & H). rewrite E4. simpl.
  apply bind_Ok_inv in H as (p5 & E5 & H). rewrite E5. simpl.
  apply bind_Ok_inv in H as ([b p6] & Hb & H).
  apply bind_Ok_inv in H as (p7 & E7 & H). injection H as <- <-.
  simpl in Hs. apply andb_true_iff in Hs as [Hne Hall].
  rewrite (checker_list_bw _ _ _ Hb Hall
             (fun E => False_ind _ (nonempty_not_nil _ Hne E))). simpl.
  exact E7.
Qed.

Lemma checker_assignment (p p' : parser) :
  Parser.assignment_statement fuel p = Ok p' <->
  exists s, assignment_statement fuel p = Ok (s, p') /\ no_empty_block s = true.
Proof.
  unfold Parser.assignment_statement, assignment_statement.
  destruct (current_token p) as [tok|];
    [|split; [discriminate | intros (s & H & _); discriminate]].
  assert (Hl : (match type tok with
                | ID => eat ID None p
                | KEYWORD =>
                    if str_in (value tok) ["write"; "put"] then eat KEYWORD None p
                    else error "Expected identifier or output variable"
                | _ => error "Expected identifier or output variable"
                end) =
               forget (match type tok with
                | ID => do p <- eat ID None p; Ok (Identifier (value tok), p)
                | KEYWORD =>
                    if str_in (value tok) ["write"; "put"] then
                      do p <- eat KEYWORD None p; Ok (SpecialVar (value tok), p)
                    else error "Expected identifier or output variable"
                | _ => error "Expected identifier or output variable"
                end)).
  { destruct (type tok); try reflexivity.
    - destruct (str_in _ _); [|reflexivity]. destruct (eat KEYWORD None p); reflexivity.
    - destruct (eat ID None p); reflexivity. }
  rewrite Hl. clear Hl.
  destruct (match type tok with ID => _ | _ => _ end) as [[lvalue p1]|];
    [|split; [discriminate | intros (s & H & _); discriminate]].
  simpl.
  destruct (eat OP (Some "=") p1) as [p2|];
    [|split; [discriminate | intros (s & H & _); discriminate]].
  simpl. rewrite checker_expression.
  destruct (expression fuel p2) as [[e p3]|];
    [|split; [discriminate | intros (s & H & _); discriminate]].
  simpl.
  destruct (eat OP (Some ";") p3) as [p4|];
    [|split; [discriminate | intros (s & H & _); discriminate]].
  simpl. split.
  - intros [= <-]. eexists. split; reflexivity.
  - intros (s & [= _ <-] & _). reflexivity.
Qed.

End Statements.

Lemma checker_statement (fuel : nat) :
  (forall p p', Parser.statement fuel p = Ok p' ->
     exists s, statement fuel p = Ok (s, p') /\ no_empty_block s = true) /\
  (forall p s p', statement fuel p = Ok (s, p') -> no_empty_block s = true ->
     Parser.statement fuel p = Ok p').
Proof.
  induction fuel as [|f [IHfw IHbw]]; [split; intros; discriminate|].
  assert (Hop : forall p tok p',
    current_token p = Some tok -> type tok = OP -> Parser.statement f p <> Ok p').
  { intros p tok p' Et Eo. destruct f; [discriminate|]. cbn [Parser.statement].
    rewrite Et, Eo. discriminate. }
  split.
  - intros p p' H. cbn [Parser.statement statement] in H |- *.
    destruct (current_token p) as [tok|]; [|discriminate].
    destruct (type tok); try discriminate.
    + destruct (String.eqb (value tok) "if");
        [exact (checker_if_fw f _ _ IHfw Hop _ _ H)|].
      destruct (String.eqb (value tok) "while");
        [exact (checker_while_fw f _ _ IHfw Hop _ _ H)|].
      destruct (str_in _ _); [|discriminate].
      exact (proj1 (checker_assignment f _ _) H).
    + exact (proj1 (checker_assignment f _ _) H).
  - intros p s p' H Hs. cbn [Parser.statement statement] in H |- *.
    destruct (current_token p) as [tok|]; [|discriminate].
    destruct (type tok); try discriminate.
    + destruct (String.eqb (value tok) "if");
        [exact (checker_if_bw f _ _ IHbw _ _ _ H Hs)|].
      destruct (String.eqb (value tok) "while");
        [exact (checker_while_bw f _ _ IHbw _ _ _ H Hs)|].
      destruct (str_in _ _); [|discriminate].
      exact (proj2 (checker_assignment f _ _) (ex_intro _ _ (conj H Hs))).
    + exact (proj2 (checker_assignment f _ _) (ex_intro _ _ (conj H Hs))).
Qed.

Lemma parse_true (fuel : nat) (p : parser) :
  Parser.parse fuel p = Ok true <-> Parser.program_to_end fuel p = Ok tt.
Proof.
  unfold Parser.parse. destruct (Parser.program_to_end fuel p) as [[]|e].
  - split; reflexivity.
  - split; [destruct e; discriminate | discriminate].
Qed.

(** X1. The syntax checker of parser.py prints PASS exactly when the parser of
    compiler.py accepts the same source and no block of the tree it builds
    (the block of an if, of its else, of a while) is empty. The two grammars
    differ in nothing else: the statement_list of the checker reads a
    statement whenever a token is left, that of the compiler reads none before
    a closing brace. (Both sides are run with the same fuel; a RecursionError
    of Python on deeply nested source aside.) *)
Theorem X1_checker_accepts (fuel : nat) (source : string) :
  Parser.main fuel source = Ok ("PASS" +:+ String "010" EmptyString) <->
  exists statements,
    parse fuel source = Ok (Program statements) /\
    forallb no_empty_block statements = true.
Proof.
  destruct (checker_statement fuel) as [Hfw Hbw].
  assert (Hop : forall p tok p',
    current_token p = Some tok -> type tok = OP -> Parser.statement fuel p <> Ok p').
  { intros p tok p' Et Eo. destruct fuel; [discriminate|]. cbn [Parser.statement].
    rewrite Et, Eo. discriminate. }
  unfold Parser.main, parse.
  destruct (init source) as [p|e]; simpl;
    [|split; [discriminate | intros (l & H & _); discriminate]].
  split.
  - intros H. apply bind_Ok_inv in H as (passed & Hp & H).
    destruct passed; [|discriminate].
    apply parse_true in Hp. unfold Parser.program_to_end in Hp.
    apply bind_Ok_inv in Hp as (p1 & Hl & Hp).
    apply (checker_list_fw fuel _ _ Hfw Hop) in Hl as (l & Hl & Hall & _).
    rewrite Hl. simpl. destruct (current_token p1); [discriminate|].
    exists l. split; [reflexivity | exact Hall].
  - intros (l & H & Hall).
    apply bind_Ok_inv in H as ([l' p1] & Hl & H).
    destruct (current_token p1) eqn:Etok; [discriminate|]. injection H as ->.
    apply (checker_list_bw fuel _ _ Hbw _ _ _) in Hl; [|exact Hall|intros _; exact Etok].
    assert (Hp : Parser.parse fuel p = Ok true).
    { apply parse_true. unfold Parser.program_to_end. rewrite Hl. simpl.
      rewrite Etok. reflexivity. }
    rewrite Hp. reflexivity.
Qed.

End Checker.

(** * The lexer *)

Section LexerProgress.

Import Shape.

Lemma skip_whitespace_length (s : string) :
  (String.length (Lexer.skip_whitespace s) <= String.length s)%nat.
Proof.
  induction s as [|c s IH]; simpl; [lia|].
  destruct (Py.isspace c); simpl; lia.
Qed.

Lemma take_while_length (p : ascii -> bool) (s : string) :
  (String.length (Lexer.take_while p s).2 <= String.length s)%nat.
Proof.
  induction s as [|c s IH]; simpl; [lia|].
  destruct (p c); [|simpl; lia].
  destruct (Lexer.take_while p s) as [r rest]. simpl in *. lia.
Qed.

Lemma take_while_all (p : ascii -> bool) (s : string) :
  all_chars p (Lexer.take_while p s).1 = true.
Proof.
  induction s as [|c s IH]; simpl; [reflexivity|].
  destruct (p c) eqn:E; [|reflexivity].
  destruct (Lexer.take_while p s) as [r rest]. simpl in *. rewrite E, IH. reflexivity.
Qed.

(** Every token takes at least one character of the source. *)
Lemma get_next_token_shorter (s rest : string) (t : Token) :
  Lexer.get_next_token s = Ok (Some t, rest) ->
  (String.length rest < String.length s)%nat.
Proof.
  unfold Lexer.get_next_token. pose proof (skip_whitespace_length s) as Hs.
  destruct (Lexer.skip_whitespace s) as [|c s'] eqn:E; [discriminate|].
  simpl in Hs.
  destruct (Py.isalpha_lower c) eqn:Ealpha.
  { unfold Lexer.identifier. cbn [Lexer.take_while]. rewrite Ealpha.
    pose proof (take_while_length Py.isalpha_lower s') as Hl.
    destruct (Lexer.take_while _ s') as [r rest']. cbn [snd] in Hl. cbv beta iota.
    destruct (str_in _ KEYWORDS); intros [= _ <-]; lia. }
  destruct (Py.isdigit c) eqn:Edigit.
  { unfold Lexer.number. cbn [Lexer.take_while]. rewrite Edigit.
    pose proof (take_while_length Py.isdigit s') as Hl.
    destruct (Lexer.take_while _ s') as [r rest']. cbn [snd] in Hl. cbv beta iota.
    destruct (Py.int _); [|discriminate]. cbn [bind]. intros [= _ <-]. lia. }
  destruct (Ascii.eqb c "'").
  { intros H. apply bind_Ok_inv in H as ([t0 r0] & Hc & H). injection H as _ <-.
    unfold Lexer.character in Hc. simpl in Hc.
    apply bind_Ok_inv in Hc as ([cv s1] & Hv & Hc).
    assert (Hs1 : (String.length (Lexer.advance s1) < String.length s')%nat).
    { destruct s' as [|a s2]; [discriminate|].
      destruct (Ascii.eqb_spec a "\") as [->|Ha].
      - destruct s2 as [|b s3]; [discriminate|].
        assert (s1 = String b s3) as ->.
        { revert Hv. clear. each_ascii b; intros Hv; try discriminate Hv;
            injection Hv as _ <-; reflexivity. }
        simpl. lia.
      - assert (s1 = String a s2) as ->.
        { revert Hv Ha. clear. each_ascii a; intros Hv Ha;
            try (injection Hv as _ <-; reflexivity).
          exfalso. apply Ha. reflexivity. }
        simpl. lia. }
    destruct (Lexer.advance s1) as [|q s4]; [discriminate|]. simpl in Hc, Hs1.
    destruct (Ascii.eqb_spec q "'") as [->|Hq].
    - injection Hc as _ <-. lia.
    - exfalso. revert Hc Hq. clear. each_ascii q; intros Hc Hq;
        solve [discriminate Hc | apply Hq; reflexivity]. }
  destruct (_ && _) eqn:Ecmp.
  { intros [= _ <-]. apply andb_true_iff in Ecmp as [_ Hp].
    destruct s' as [|b s2]; [discriminate|]. simpl in Hs |- *. lia. }
  destruct (str_in _ SINGLE_CHAR_OPS); [intros [= _ <-]; simpl; lia | discriminate].
Qed.

(** The lexer raises its own errors, [ValueError] (from [int] on a digit
    such as a superscript two) and [TypeError] (from [ord(None)]). *)
Lemma get_next_token_error (s : string) (e : exn) :
  Lexer.get_next_token s = Err e ->
  (exists msg, e = LexicalError msg) \/ e = ValueError \/ e = TypeError.
Proof.
  unfold Lexer.get_next_token.
  destruct (Lexer.skip_whitespace s) as [|c s']; [discriminate|].
  destruct (Py.isalpha_lower c).
  { destruct (Lexer.identifier _). discriminate. }
  destruct (Py.isdigit c).
  { unfold Lexer.number. destruct (Lexer.take_while _ _) as [r rest'].
    unfold Py.int. destruct (Py.int_of_string 10 r); [discriminate|].
    intros [= <-]. right. left. reflexivity. }
  destruct (Ascii.eqb c "'").
  { intros H. destruct (Lexer.character _) as [[t0 r0]|e0] eqn:Hc; [discriminate|].
    injection H as <-. unfold Lexer.character in Hc. cbn [Lexer.advance] in Hc.
    destruct s' as [|a s1]; [injection Hc as <-; right; right; reflexivity|].
    match type of Hc with bind ?m _ = _ =>
      destruct m as [[cv s2]|e1] eqn:Ev end; cbn [bind] in Hc.
    - destruct (Lexer.current_char _) as [q|];
        [|injection Hc as <-; left; eauto].
      destruct (Ascii.eqb_spec q "'") as [->|Hq]; [discriminate|].
      revert Hc Hq. clear. each_ascii q; intros [=] Hq; subst;
        solve [left; eauto | exfalso; apply Hq; reflexivity].
    - injection Hc as <-. revert Ev. clear.
      each_ascii a; try discriminate.
      destruct s1 as [|b s3]; [intros [= <-]; left; eauto|].
      each_ascii b; intros [=]; subst; left; eauto. }
  destruct (_ && _); [discriminate|].
  destruct (str_in _ SINGLE_CHAR_OPS); [discriminate|].
  intros [= <-]. left. eauto.
Qed.

Lemma tokenize_loop_fuel (fuel : nat) :
  forall s, (String.length s <= fuel)%nat ->
    Lexer.tokenize_loop fuel s <> Err OutOfFuel.
Proof.
  induction fuel as [|f IH]; intros s Hs; simpl.
  - destruct (Lexer.get_next_token s) as [[[t|] rest]|e] eqn:E; simpl.
    + apply get_next_token_shorter in E. lia.
    + discriminate.
    + intros [= ->]. apply get_next_token_error in E as [(m & E) | [E | E]]; discriminate.
  - destruct (Lexer.get_next_token s) as [[[t|] rest]|e] eqn:E; simpl.
    + apply get_next_token_shorter in E.
      specialize (IH rest ltac:(lia)).
      destruct (Lexer.tokenize_loop f rest) as [toks|e']; simpl; congruence.
    + discriminate.
    + intros [= ->]. apply get_next_token_error in E as [(m & E) | [E | E]]; discriminate.
Qed.

(** X2. Lexer.tokenize ends on every source, and an exception that leaves it
    is the error of the lexer itself, a ValueError (int on a run of digits
    that str.isdigit accepts and int does not) or a TypeError (ord of None at
    the end of the source); the bound of the loop of the model, the length of
    the source, is never exhausted. *)
Theorem X2_tokenize_errors (s : string) (e : exn) :
  Lexer.tokenize s = Err e ->
  (exists msg, e = LexicalError msg) \/ e = ValueError \/ e = TypeError.
Proof.
  unfold Lexer.tokenize. intros H.
  pose proof (tokenize_loop_fuel (String.length s) s (Nat.le_refl _)) as Hfuel.
  revert H Hfuel. generalize (String.length s) as fuel. intros fuel. revert s.
  induction fuel as [|f IH]; intros s H Hfuel; simpl in H, Hfuel.
  - destruct (Lexer.get_next_token s) as [[[t|] rest]|e0] eqn:E; simpl in H, Hfuel.
    + contradiction.
    + discriminate.
    + injection H as <-. exact (get_next_token_error _ _ E).
  - destruct (Lexer.get_next_token s) as [[[t|] rest]|e0] eqn:E; simpl in H, Hfuel.
    + destruct (Lexer.tokenize_loop f rest) as [toks|e'] eqn:El; [discriminate|].
      simpl in H, Hfuel. injection H as <-. apply (IH rest); [exact El|].
      rewrite El. exact Hfuel.
    + discriminate.
    + injection H as <-. exact (get_next_token_error _ _ E).
Qed.

Lemma X2_tokenize_errors_witness :
  (exists msg, LexicalError "Invalid character" = LexicalError msg) \/
  LexicalError "Invalid character" = ValueError \/
  LexicalError "Invalid character" = TypeError.
Proof. apply (X2_tokenize_errors "a = @;"). reflexivity. Defined.

End LexerProgress.

Section HexValue.

Import Shape.

Lemma hex_digit_value (d : Z) :
  0 <= d < 16 ->
  Py.digit_in 16 (Py.hex_digit d) = Some d /\ Py.is_underscore (Py.hex_digit d) = false.
Proof.
  intros H. rewrite <- (Z2Nat.id d) by lia.
  assert (Hn : (Z.to_nat d < 16)%nat) by lia.
  revert Hn. generalize (Z.to_nat d). clear. intros n Hn.
  do 16 (destruct n as [|n]; [split; reflexivity|]). lia.
Qed.

Lemma int_digits_hex_digit (d : Z) (s : string) (b : bool) (a0 : Z) :
  0 <= d < 16 ->
  Py.int_digits 16 (String (Py.hex_digit d) s) b a0 =
  Py.int_digits 16 s true (a0 * 16 + d).
Proof.
  intros H. destruct (hex_digit_value d H) as [Hd Hu].
  cbn [Py.int_digits]. rewrite Hu, Hd. reflexivity.
Qed.

(** Reading the digits that [hex_digits] writes in front of [acc] shifts the
    value read so far by as many places and adds [v]. *)
Lemma hex_digits_value (fuel : nat) :
  forall (v : Z) (acc : string),
    0 <= v < 16 ^ (Z.of_nat fuel + 1) ->
    exists k, 0 <= k /\
      forall (b : bool) (a0 : Z),
        Py.int_digits 16 (Py.hex_digits fuel v acc) b a0 =
        Py.int_digits 16 acc true (a0 * 16 ^ k + v).
Proof.
  induction fuel as [|f IH]; intros v acc Hv.
  - exists 1. split; [lia|]. intros b a0. cbn [Py.hex_digits].
    change (16 ^ (Z.of_nat 0 + 1)) with 16 in Hv.
    rewrite Z.mod_small by lia. rewrite int_digits_hex_digit by lia.
    rewrite Z.pow_1_r. reflexivity.
  - cbn [Py.hex_digits]. destruct (Z.eqb_spec (v / 16) 0) as [E|E].
    + exists 1. split; [lia|]. intros b a0.
      assert (v < 16) by (apply Z.div_small_iff in E; lia).
      rewrite Z.mod_small by lia. rewrite int_digits_hex_digit by lia.
      rewrite Z.pow_1_r. reflexivity.
    + assert (Hq : 0 <= v / 16 < 16 ^ (Z.of_nat f + 1)).
      { split; [apply Z.div_pos; lia|].
        apply Z.div_lt_upper_bound; [lia|].
        replace (Z.of_nat (S f) + 1) with (Z.succ (Z.of_nat f + 1)) in Hv by lia.
        rewrite Z.pow_succ_r in Hv by lia. lia. }
      destruct (IH (v / 16) (String (Py.hex_digit (v mod 16)) acc) Hq) as (k & Hk & IHk).
      exists (k + 1). split; [lia|]. intros b a0. rewrite IHk.
      rewrite int_digits_hex_digit by (apply Z.mod_pos_bound; lia).
      f_equal. rewrite Z.pow_add_r by lia. rewrite Z.pow_1_r.
      pose proof (Z.div_mod v 16 ltac:(lia)). lia.
Qed.

Lemma log2_fuel (v : Z) : 0 <= v -> v < 16 ^ (Z.of_nat (Z.to_nat (Z.log2 v)) + 1).
Proof.
  intros Hv. rewrite Z2Nat.id by apply Z.log2_nonneg.
  destruct (Z.eq_dec v 0) as [->|Hne]; [reflexivity|].
  pose proof (Z.log2_spec v ltac:(lia)) as [_ Hlt].
  pose proof (Z.log2_nonneg v).
  eapply Z.lt_le_trans; [exact Hlt|].
  replace (Z.succ (Z.log2 v)) with (Z.log2 v + 1) by lia.
  apply Z.pow_le_mono_l. lia.
Qed.

(** [int(f"0x{v:x}", 16)] is [v]. *)
Lemma int16_format_x_value (v : Z) :
  0 <= v -> Py.int16 ("0x" +:+ Py.format_x v) = Ok v.
Proof.
  intros Hv.
  destruct (hex_digits_lower (Z.to_nat (Z.log2 v)) v EmptyString eq_refl) as [Hall Hne].
  destruct (hex_digits_value (Z.to_nat (Z.log2 v)) v EmptyString
              (conj Hv (log2_fuel v Hv))) as (k & Hk & Hval).
  unfold Py.int16, Py.int_of_string, Py.format_x in *.
  set (h := Py.hex_digits _ _ _) in *.
  change ("0x" +:+ h) with (String "0" (String "x" h)).
  change (Py.lstrip (String "0" (String "x" h))) with (String "0" (String "x" h)).
  rewrite rstrip_no_space
    by (simpl; rewrite (lower_hex_no_space h Hall); reflexivity).
  cbn [Py.strip_sign]. change (16 =? 16) with true. cbn [Py.strip_prefix16 andb].
  destruct h as [|c h'] eqn:Eh; [contradiction|].
  simpl in Hall. apply andb_true_iff in Hall as [Hc Hs].
  destruct (lower_hex_digit c Hc) as (_ & _ & Hu). rewrite Hu.
  rewrite Hval. cbn [Py.int_digits]. rewrite Z.mul_0_l, Z.add_0_l. reflexivity.
Qed.


Lemma in_range_lo (lo hi : Z) (c : ascii) :
  Py.in_range lo hi c = true -> lo <= Py.ord c.
Proof.
  unfold Py.in_range. intros H. apply andb_true_iff in H as [H _].
  apply Z.leb_le. exact H.
Qed.

Lemma digit_in_nonneg (base : Z) (c : ascii) (d : Z) :
  Py.digit_in base c = Some d -> 0 <= d.
Proof.
  unfold Py.digit_in, Py.digit_value.
  destruct (Py.in_range 48 57 c) eqn:E1.
  { apply in_range_lo in E1. destruct (_ <? _); intros [= <-]. lia. }
  destruct (Py.in_range 97 102 c) eqn:E2.
  { apply in_range_lo in E2. destruct (_ <? _); intros [= <-]. lia. }
  destruct (Py.in_range 65 70 c) eqn:E3; [|discriminate].
  apply in_range_lo in E3. destruct (_ <? _); intros [= <-]. lia.
Qed.

Lemma int_digits_nonneg (base : Z) (s : string) :
  0 <= base ->
  forall (b : bool) (acc v : Z),
    0 <= acc -> Py.int_digits base s b acc = Some v -> 0 <= v.
Proof.
  intros Hbase. induction s as [|c s IH]; intros b acc v Hacc H; simpl in H.
  - destruct b; [injection H as <-; exact Hacc | discriminate].
  - destruct (Py.is_underscore c).
    + destruct b; [exact (IH _ _ _ Hacc H) | discriminate].
    + destruct (Py.digit_in base c) as [d|] eqn:Ed; [|discriminate].
      apply digit_in_nonneg in Ed.
      assert (Hacc' : 0 <= acc * base + d) by nia.
      exact (IH _ _ _ Hacc' H).
Qed.

Lemma isdigit_plain (c : ascii) :
  Py.isdigit c = true ->
  Py.isspace c = false /\ c <> "-"%char /\ c <> "+"%char.
Proof.
  each_ascii c; vm_compute; intros H; try discriminate H;
    (split; [reflexivity | split; discriminate]).
Qed.

Lemma digits_no_space (s : string) :
  all_chars Py.isdigit s = true ->
  all_chars (fun c => negb (Py.isspace c)) s = true.
Proof.
  induction s as [|c s IH]; intros H; [reflexivity|]. simpl in *.
  apply andb_true_iff in H as [Hc Hs].
  destruct (isdigit_plain c Hc) as (Hsp & _).
  rewrite Hsp, (IH Hs). reflexivity.
Qed.

(** [int] of a run of digits is not negative. *)
Lemma int_digits_run (r : string) (v : Z) :
  all_chars Py.isdigit r = true -> Py.int r = Ok v -> 0 <= v.
Proof.
  intros Hall. unfold Py.int, Py.int_of_string.
  assert (Hl : Py.lstrip r = r).
  { destruct r as [|c r']; [reflexivity|]. simpl in Hall |- *.
    apply andb_true_iff in Hall as [Hc _].
    destruct (isdigit_plain c Hc) as (Hsp & _).
    rewrite (int_space_isspace c Hsp). reflexivity. }
  rewrite Hl, (rstrip_no_space r (digits_no_space r Hall)).
  assert (Hs : Py.strip_sign r = (false, r)).
  { destruct r as [|c r']; [reflexivity|]. simpl in Hall.
    apply andb_true_iff in Hall as [Hc _].
    destruct (isdigit_plain c Hc) as (_ & Hm & Hp).
    revert Hm Hp. clear. each_ascii c; intros Hm Hp; try reflexivity;
      exfalso; solve [apply Hm; reflexivity | apply Hp; reflexivity]. }
  rewrite Hs. change (10 =? 16) with false. cbv beta iota.
  assert (Hb : match r with
               | EmptyString => r
               | String c b' => if false && Py.is_underscore c then b' else r
               end = r) by (destruct r; reflexivity).
  rewrite Hb.
  destruct (Py.int_digits 10 r false 0) as [n|] eqn:En; [|discriminate].
  intros [= <-]. exact (int_digits_nonneg 10 r ltac:(lia) _ _ _ (Z.le_refl 0) En).
Qed.

(** X5. A decimal literal keeps its value from the source text to the
    instruction and to the tree of the interpreter: when number returns a
    token, int reads a number that is not negative from the run of digits, the
    token is a literal, the code generator emits DSTORE with that number for
    it, and the primary of the parser of the interpreter builds the Literal
    node with that number. (The bound of recent versions of Python on the
    number of digits that int converts is not modelled.) *)
Theorem X5_decimal_literal_value (s rest : string) (tok : Token) :
  Lexer.number s = Ok (tok, rest) ->
  exists v,
    Py.int (Lexer.take_while Py.isdigit s).1 = Ok v /\ 0 <= v /\
    type tok = LITERAL /\
    (forall g, CodeGenerator.visit_expr (Compiler.Literal (value tok)) g =
               Ok (CodeGenerator.emit DSTORE v g)) /\
    (forall rec p p',
       Compiler.current_token p = Some tok ->
       Compiler.eat LITERAL None p = Ok p' ->
       Interpreter.primary rec p = Ok (Interpreter.Literal v, p')).
Proof.
  unfold Lexer.number. pose proof (take_while_all Py.isdigit s) as Hall.
  destruct (Lexer.take_while Py.isdigit s) as [r rest']. cbn [fst] in *.
  destruct (Py.int r) as [v|] eqn:Ev; [|discriminate].
  cbn [bind]. intros [= <- <-]. exists v.
  pose proof (int_digits_run r v Hall Ev) as Hv.
  pose proof (int16_format_x_value v Hv) as H16.
  repeat apply conj; [reflexivity | exact Hv | reflexivity | |].
  - intros g. cbn [CodeGenerator.visit_expr value]. rewrite H16. reflexivity.
  - intros rec p p' Htok Heat. unfold Interpreter.primary.
    rewrite Htok. cbn [type value]. rewrite Heat. cbn [bind].
    change (Py.startswith "0x" ("0x" +:+ Py.format_x v)) with true.
    cbv iota. rewrite H16. reflexivity.
Qed.

Lemma X5_decimal_literal_value_witness :
  exists v,
    Py.int (Lexer.take_while Py.isdigit "42;").1 = Ok v /\ 0 <= v /\
    type (mkToken LITERAL "0x2a") = LITERAL /\
    (forall g, CodeGenerator.visit_expr
                 (Compiler.Literal (value (mkToken LITERAL "0x2a"))) g =
               Ok (CodeGenerator.emit DSTORE v g)) /\
    (forall rec p p',
       Compiler.current_token p = Some (mkToken LITERAL "0x2a") ->
       Compiler.eat LITERAL None p = Ok p' ->
       Interpreter.primary rec p = Ok (Interpreter.Literal v, p')).
Proof. apply (X5_decimal_literal_value "42;" ";"). reflexivity. Defined.

End HexValue.

Section TokenShape.

Import Shape.

Lemma ord_nonneg (c : ascii) : 0 <= Py.ord c.
Proof. unfold Py.ord. lia. Qed.

Lemma character_value (s rest : string) (t : Token) :
  Lexer.character s = Ok (t, rest) ->
  type t = LITERAL /\ exists v, 0 <= v /\ value t = "0x" +:+ Py.format_x v.
Proof.
  unfold Lexer.character. intros H.
  apply bind_Ok_inv in H as ([cv s1] & Hv & H).
  assert (Hcv : 0 <= cv).
  { destruct (Lexer.advance s) as [|a s2]; [discriminate|].
    destruct (Ascii.eqb_spec a "\") as [->|Ha].
    - destruct s2 as [|b s3]; [discriminate|].
      revert Hv. clear. each_ascii b; intros Hv; try discriminate Hv;
        injection Hv as <- _; apply ord_nonneg.
    - revert Hv Ha. clear. each_ascii a; intros Hv Ha;
        try (injection Hv as <- _; apply ord_nonneg).
      exfalso. apply Ha. reflexivity. }
  destruct (Lexer.current_char _) as [q|]; [|discriminate].
  destruct (Ascii.eqb_spec q "'") as [->|Hq].
  - injection H as <- _. split; [reflexivity|]. exists cv. split; [exact Hcv | reflexivity].
  - exfalso. revert H Hq. clear. each_ascii q; intros H Hq;
      solve [discriminate H | apply Hq; reflexivity].
Qed.

Lemma cmp_start_double (c : ascii) :
  Lexer.is_cmp_start c = true ->
  str_in (String c "=") (SINGLE_CHAR_OPS ++ DOUBLE_CHAR_OPS) = true.
Proof. each_ascii c; vm_compute; intros H; try discriminate H; reflexivity. Qed.

Lemma str_in_app (x : string) (a b : list string) :
  str_in x a = true -> str_in x (a ++ b) = true.
Proof. unfold str_in. rewrite existsb_app. intros ->. reflexivity. Qed.

Lemma get_next_token_shape (s rest : string) (t : Token) :
  Lexer.get_next_token s = Ok (Some t, rest) ->
  match type t with
  | KEYWORD => str_in (value t) KEYWORDS = true
  | ID =>
      str_in (value t) KEYWORDS = false /\ value t <> EmptyString /\
      all_chars Py.isalpha_lower (value t) = true
  | LITERAL =>
      exists v, 0 <= v /\ value t = "0x" +:+ Py.format_x v /\
                Py.int16 (value t) = Ok v
  | OP => str_in (value t) (SINGLE_CHAR_OPS ++ DOUBLE_CHAR_OPS) = true
  end.
Proof.
  unfold Lexer.get_next_token.
  destruct (Lexer.skip_whitespace s) as [|c s'] eqn:E; [discriminate|].
  destruct (Py.isalpha_lower c) eqn:Ealpha.
  { unfold Lexer.identifier.
    pose proof (take_while_all Py.isalpha_lower (String c s')) as Hall.
    assert (Hne : (Lexer.take_while Py.isalpha_lower (String c s')).1 <> EmptyString).
    { cbn [Lexer.take_while]. rewrite Ealpha.
      destruct (Lexer.take_while _ s'). discriminate. }
    destruct (Lexer.take_while _ _) as [r rest']. cbn [fst] in Hall, Hne.
    destruct (str_in r KEYWORDS) eqn:Ek; intros [= <- _]; cbn [type value];
      [exact Ek | repeat apply conj; assumption]. }
  destruct (Py.isdigit c).
  { unfold Lexer.number.
    pose proof (take_while_all Py.isdigit (String c s')) as Hall.
    destruct (Lexer.take_while _ _) as [r rest']. cbn [fst] in Hall.
    destruct (Py.int r) as [n|] eqn:En; [|discriminate]. cbn [bind].
    intros [= <- _]. cbn [type value]. exists n.
    pose proof (int_digits_run r n Hall En) as Hn.
    repeat apply conj; [exact Hn | reflexivity | exact (int16_format_x_value n Hn)]. }
  destruct (Ascii.eqb c "'").
  { intros H. apply bind_Ok_inv in H as ([t0 r0] & Hc & H). injection H as <- _.
    apply character_value in Hc as (-> & v & Hv & ->).
    exists v. repeat apply conj; [exact Hv | reflexivity | exact (int16_format_x_value v Hv)]. }
  destruct (_ && _) eqn:Ecmp.
  { intros [= <- _]. cbn [type value].
    apply andb_true_iff in Ecmp as [Hc _]. exact (cmp_start_double c Hc). }
  destruct (str_in _ SINGLE_CHAR_OPS) eqn:Eop; [|discriminate].
  intros [= <- _]. cbn [type value]. exact (str_in_app _ _ _ Eop).
Qed.

(** X3. The shape of every token of get_next_token, by type: the value of a
    keyword is one of the seven keywords; the value of an identifier is a
    non-empty word of lower-case letters that is no keyword; the value of a
    literal is 0x followed by the lower-case hexadecimal digits of a number
    that is not negative, and int(value, 16) gives that number back; the value
    of an operator is one of the thirteen single or four double character
    operators. *)
Theorem X3_token_shape (s rest : string) (t : Token) :
  Lexer.get_next_token s = Ok (Some t, rest) ->
  match type t with
  | KEYWORD => str_in (value t) KEYWORDS = true
  | ID =>
      str_in (value t) KEYWORDS = false /\ value t <> EmptyString /\
      all_chars Py.isalpha_lower (value t) = true
  | LITERAL =>
      exists v, 0 <= v /\ value t = "0x" +:+ Py.format_x v /\
                Py.int16 (value t) = Ok v
  | OP => str_in (value t) (SINGLE_CHAR_OPS ++ DOUBLE_CHAR_OPS) = true
  end.
Proof. exact (get_next_token_shape s rest t). Qed.

Lemma X3_token_shape_witness :
  str_in (value (mkToken KEYWORD "while")) KEYWORDS = true.
Proof. exact (X3_token_shape "  while (x)" " (x)" (mkToken KEYWORD "while") eq_refl). Defined.

End TokenShape.

Section LexerLossless.

Import Shape.

Lemma skip_whitespace_split (s : string) :
  exists ws, s = ws +:+ Lexer.skip_whitespace s /\ all_chars Py.isspace ws = true.
Proof.
  induction s as [|c s (ws & Hs & Hws)]; [exists EmptyString; split; reflexivity|].
  simpl. destruct (Py.isspace c) eqn:E.
  - exists (String c ws). rewrite string_app_cons, <- Hs. split; [reflexivity|].
    simpl. rewrite E, Hws. reflexivity.
  - exists EmptyString. split; reflexivity.
Qed.

Lemma take_while_split (p : ascii -> bool) (s : string) :
  s = (Lexer.take_while p s).1 +:+ (Lexer.take_while p s).2.
Proof.
  induction s as [|c s IH]; [reflexivity|]. simpl.
  destruct (p c); [|reflexivity].
  destruct (Lexer.take_while p s) as [r rest]. cbn [fst snd] in *.
  rewrite string_app_cons, <- IH. reflexivity.
Qed.

Lemma character_split (s rest : string) (t : Token) :
  Lexer.character (String "'" s) = Ok (t, rest) ->
  exists lexeme, String "'" s = lexeme +:+ rest /\ lexeme <> EmptyString.
Proof.
  unfold Lexer.character. cbn [Lexer.advance]. intros H.
  apply bind_Ok_inv in H as ([cv s1] & Hv & H).
  destruct s as [|a s2]; [discriminate|].
  assert (Hs1 : exists pre, String "'" (String a s2) = pre +:+ Lexer.advance s1 /\
                            pre <> EmptyString).
  { destruct (Ascii.eqb_spec a "\") as [->|Ha].
    - destruct s2 as [|b s3]; [discriminate|].
      assert (s1 = String b s3) as ->.
      { revert Hv. clear. each_ascii b; intros Hv; try discriminate Hv;
          injection Hv as _ <-; reflexivity. }
      exists (String "'" (String "\" (String b EmptyString))).
      split; [reflexivity | discriminate].
    - assert (s1 = String a s2) as ->.
      { revert Hv Ha. clear. each_ascii a; intros Hv Ha;
          try (injection Hv as _ <-; reflexivity).
        exfalso. apply Ha. reflexivity. }
      exists (String "'" (String a EmptyString)). split; [reflexivity | discriminate]. }
  destruct Hs1 as (pre & Hpre & Hne).
  destruct (Lexer.advance s1) as [|q s4]; [discriminate|]. cbn [Lexer.current_char] in H.
  destruct (Ascii.eqb_spec q "'") as [->|Hq].
  - injection H as _ <-. exists (pre +:+ String "'" EmptyString). split.
    + rewrite Hpre, string_app_assoc. reflexivity.
    + destruct pre; [contradiction | discriminate].
  - exfalso. revert H Hq. clear. each_ascii q; intros H Hq;
      solve [discriminate H | apply Hq; reflexivity].
Qed.

(** X4. The lexer drops nothing but whitespace: when get_next_token returns a
    token, the source is the whitespace it skipped, then the non-empty text of
    the token, then what is left to read; the value of a keyword, an
    identifier or an operator is that text. *)
Theorem X4_lexer_lossless (s rest : string) (t : Token) :
  Lexer.get_next_token s = Ok (Some t, rest) ->
  exists ws lexeme,
    s = ws +:+ lexeme +:+ rest /\ all_chars Py.isspace ws = true /\
    lexeme <> EmptyString /\
    (type t <> LITERAL -> value t = lexeme).
Proof.
  unfold Lexer.get_next_token.
  destruct (skip_whitespace_split s) as (ws & Hs & Hws).
  destruct (Lexer.skip_whitespace s) as [|c s'] eqn:E; [discriminate|].
  intros H. exists ws.
  assert (Hlex : exists lexeme, String c s' = lexeme +:+ rest /\
                   lexeme <> EmptyString /\ (type t <> LITERAL -> value t = lexeme)).
  { destruct (Py.isalpha_lower c) eqn:Ealpha.
    { unfold Lexer.identifier in H.
      pose proof (take_while_split Py.isalpha_lower (String c s')) as Hsplit.
      assert (Hne : (Lexer.take_while Py.isalpha_lower (String c s')).1 <> EmptyString).
      { cbn [Lexer.take_while]. rewrite Ealpha.
        destruct (Lexer.take_while _ s'). discriminate. }
      destruct (Lexer.take_while _ _) as [r rest']. cbn [fst snd] in Hsplit, Hne.
      exists r. destruct (str_in r KEYWORDS); injection H as <- <-;
        (repeat apply conj; [exact Hsplit | exact Hne | reflexivity]). }
    destruct (Py.isdigit c) eqn:Edigit.
    { unfold Lexer.number in H.
      pose proof (take_while_split Py.isdigit (String c s')) as Hsplit.
      assert (Hne : (Lexer.take_while Py.isdigit (String c s')).1 <> EmptyString).
      { cbn [Lexer.take_while]. rewrite Edigit.
        destruct (Lexer.take_while _ s'). discriminate. }
      destruct (Lexer.take_while _ _) as [r rest']. cbn [fst snd] in Hsplit, Hne.
      destruct (Py.int r) as [n|]; [|discriminate]. cbn [bind] in H.
      injection H as <- <-. exists r.
      repeat apply conj; [exact Hsplit | exact Hne | intros Hl; contradiction]. }
    destruct (Ascii.eqb_spec c "'") as [->|Hc].
    { apply bind_Ok_inv in H as ([t0 r0] & Hch & H). injection H as <- <-.
      pose proof (character_value _ _ _ Hch) as [Hty _].
      destruct (character_split _ _ _ Hch) as (lexeme & Hl & Hne).
      exists lexeme. repeat apply conj; [exact Hl | exact Hne|].
      intros Hn. contradiction. }
    destruct (_ && _) eqn:Ecmp.
    { injection H as <- <-. apply andb_true_iff in Ecmp as [_ Hp].
      destruct s' as [|b s2]; [discriminate|].
      cbn [Lexer.peek Lexer.advance Lexer.current_char] in Hp.
      destruct (Ascii.eqb_spec b "=") as [->|Hb].
      - exists (String c (String "=" EmptyString)).
        repeat apply conj; [reflexivity | discriminate | reflexivity].
      - exfalso. revert Hp Hb. clear. each_ascii b; intros Hp Hb;
          solve [discriminate Hp | apply Hb; reflexivity]. }
    destruct (str_in _ SINGLE_CHAR_OPS); [|discriminate].
    injection H as <- <-. exists (String c EmptyString).
    repeat apply conj; [reflexivity | discriminate | reflexivity]. }
  destruct Hlex as (lexeme & Hl & Hne & Hv).
  exists lexeme. rewrite <- Hl. repeat apply conj; assumption.
Qed.

Lemma X4_lexer_lossless_witness :
  exists ws lexeme,
    "  while (x)" = ws +:+ lexeme +:+ " (x)" /\ all_chars Py.isspace ws = true /\
    lexeme <> EmptyString /\
    (type (mkToken KEYWORD "while") <> LITERAL ->
     value (mkToken KEYWORD "while") = lexeme).
Proof. apply (X4_lexer_lossless "  while (x)" " (x)"). reflexivity. Defined.

End LexerLossless.

(** * Termination of the compiler's parser *)

Section ParserTermination.

Import Compiler.
Import Measure.

Lemma get_next_token_end (s rest : string) :
  Lexer.get_next_token s = Ok (None, rest) -> rest = EmptyString.
Proof.
  unfold Lexer.get_next_token.
  destruct (Lexer.skip_whitespace s) as [|c s']; [intros [= <-]; reflexivity|].
  destruct (Py.isalpha_lower c); [destruct (Lexer.identifier _); discriminate|].
  destruct (Py.isdigit c).
  { destruct (Lexer.number _) as [[t r]|]; discriminate. }
  destruct (Ascii.eqb c "'").
  { destruct (Lexer.character _) as [[t r]|]; discriminate. }
  destruct (_ && _); [discriminate|].
  destruct (str_in _ SINGLE_CHAR_OPS); discriminate.
Qed.

Lemma init_remaining (s : string) (p : parser) :
  init s = Ok p -> (remaining p <= String.length s)%nat.
Proof.
  unfold init. intros H. apply bind_Ok_inv in H as ([t rest] & Ht & H).
  injection H as <-. unfold remaining. cbn [lexer current_token].
  destruct t as [t|].
  - apply get_next_token_shorter in Ht. lia.
  - apply get_next_token_end in Ht. subst rest. simpl. lia.
Qed.

Lemma init_error (s : string) : init s <> Err OutOfFuel.
Proof.
  unfold init. destruct (Lexer.get_next_token s) as [[t rest]|e] eqn:E;
    [discriminate|].
  cbn [bind]. intros [= ->].
  apply get_next_token_error in E as [(m & E) | [E | E]]; discriminate.
Qed.

Lemma eat_remaining (token_type : TokenType) (token_value : option string)
  (p p' : parser) :
  eat token_type token_value p = Ok p' -> (remaining p' < remaining p)%nat.
Proof.
  unfold eat. destruct (current_token p) as [tok|] eqn:E; [|discriminate].
  destruct (TokenType_eqb _ _); [|discriminate].
  destruct (match token_value with Some _ => _ | None => _ end); [|discriminate].
  intros H. apply init_remaining in H. unfold remaining at 2. rewrite E. lia.
Qed.

Lemma eat_error (token_type : TokenType) (token_value : option string) (p : parser) :
  eat token_type token_value p <> Err OutOfFuel.
Proof.
  unfold eat. destruct (current_token p) as [tok|]; [|discriminate].
  destruct (TokenType_eqb _ _); [|discriminate].
  destruct (match token_value with Some _ => _ | None => _ end); [|discriminate].
  apply init_error.
Qed.

Lemma consumes_weaken {A : Type} (b b' : nat) (f : parser -> result (A * parser)) :
  (b' <= b)%nat -> consumes b f -> consumes b' f.
Proof. intros Hle Hf p Hp. apply Hf. lia. Qed.

Lemma primary_consumes (bound : nat) (rec : parser -> result (expr * parser)) :
  consumes bound rec -> consumes (S bound) (primary rec).
Proof.
  intros Hrec p Hp. unfold primary.
  destruct (current_token p) as [tok|] eqn:Etok;
    [|split; [discriminate | intros a p' H; discriminate]].
  assert (Heat : forall ty v (k : parser -> expr),
            (do q <- eat ty v p; Ok (k q, q)) <> Err OutOfFuel /\
            forall a p', (do q <- eat ty v p; Ok (k q, q)) = Ok (a, p') ->
                         (remaining p' < remaining p)%nat).
  { intros ty v k. destruct (eat ty v p) as [q|e] eqn:E; cbn [bind].
    - split; [discriminate|]. intros a p' [= _ <-]. exact (eat_remaining _ _ _ _ E).
    - split; [|discriminate]. intros [= ->]. exact (eat_error _ _ _ E). }
  destruct (type tok).
  - destruct (str_in _ _); [|split; [discriminate | intros a p' H; discriminate]].
    exact (Heat KEYWORD None (fun _ => SpecialVar (value tok))).
  - exact (Heat ID None (fun _ => Identifier (value tok))).
  - exact (Heat LITERAL None (fun _ => Literal (value tok))).
  - destruct (String.eqb _ _); [|split; [discriminate | intros a p' H; discriminate]].
    destruct (eat OP (Some "(") p) as [p1|e] eqn:E1; cbn [bind];
      [|split; [intros [= ->]; exact (eat_error _ _ _ E1) | discriminate]].
    pose proof (eat_remaining _ _ _ _ E1) as H1.
    destruct (Hrec p1 ltac:(lia)) as [Hne Hprog].
    destruct (rec p1) as [[e p2]|e] eqn:E2; cbn [bind];
      [|split; [intros [= ->]; apply Hne; reflexivity | discriminate]].
    pose proof (Hprog _ _ eq_refl) as H2.
    destruct (eat OP (Some ")") p2) as [p3|e'] eqn:E3; cbn [bind];
      [|split; [intros [= ->]; exact (eat_error _ _ _ E3) | discriminate]].
    pose proof (eat_remaining _ _ _ _ E3) as H3.
    split; [discriminate|]. intros a p' [= _ <-]. lia.
Qed.

Lemma binop_loop_consumes (bound : nat) (ops : list string)
  (operand : parser -> result (expr * parser)) :
  consumes bound operand ->
  forall (fuel : nat) (lhs : expr) (p : parser),
    (remaining p <= fuel)%nat -> (remaining p <= bound)%nat ->
    binop_loop ops operand fuel lhs p <> Err OutOfFuel /\
    forall e p', binop_loop ops operand fuel lhs p = Ok (e, p') ->
                 (remaining p' <= remaining p)%nat.
Proof.
  intros Hoperand. induction fuel as [|f IH]; intros lhs p Hf Hb; simpl.
  - destruct (current_token p) as [tok|] eqn:Etok.
    + unfold remaining in Hf. rewrite Etok in Hf. lia.
    + split; [discriminate|]. intros e p' [= _ <-]. lia.
  - destruct (current_token p) as [tok|] eqn:Etok;
      [|split; [discriminate | intros e p' [= _ <-]; lia]].
    destruct (_ && _); [|split; [discriminate | intros e p' [= _ <-]; lia]].
    destruct (eat OP (Some (value tok)) p) as [p1|e] eqn:E1; cbn [bind];
      [|split; [intros [= ->]; exact (eat_error _ _ _ E1) | discriminate]].
    pose proof (eat_remaining _ _ _ _ E1) as H1.
    destruct (Hoperand p1 ltac:(lia)) as [Hne Hprog].
    destruct (operand p1) as [[rhs p2]|e] eqn:E2; cbn [bind];
      [|split; [intros [= ->]; apply Hne; reflexivity | discriminate]].
    pose proof (Hprog _ _ eq_refl) as H2.
    destruct (IH (BinaryOp lhs (value tok) rhs) p2 ltac:(lia) ltac:(lia)) as [Hl Hp].
    split; [exact Hl|]. intros e p' H. specialize (Hp _ _ H). lia.
Qed.

Lemma level_consumes (bound : nat) (ops : list string)
  (operand : parser -> result (expr * parser)) (fuel : nat) :
  (bound <= S (S fuel))%nat -> consumes bound operand ->
  consumes bound
    (fun p => do (lhs, p) <- operand p; binop_loop ops operand fuel lhs p).
Proof.
  intros Hfuel Hoperand p Hp.
  destruct (Hoperand p Hp) as [Hne Hprog].
  destruct (operand p) as [[lhs p1]|e] eqn:E; cbn [bind];
    [|split; [intros [= ->]; apply Hne; reflexivity | discriminate]].
  pose proof (Hprog _ _ eq_refl) as H1.
  destruct (binop_loop_consumes bound ops operand Hoperand fuel lhs p1
              ltac:(lia) ltac:(lia)) as [Hl Hq].
  split; [exact Hl|]. intros e p' H. specialize (Hq _ _ H). lia.
Qed.

Lemma expression_consumes (fuel : nat) : consumes fuel (expression fuel).
Proof.
  induction fuel as [|f IH]; [intros p Hp; lia|].
  cbn [expression]. unfold equality, comparison, term, factor.
  do 4 (apply level_consumes; [lia|]).
  apply primary_consumes. exact IH.
Qed.

Section Statements.

Variable fuel : nat.
Variable stmt_rec : parser -> result (stmt * parser).
Hypothesis Hrec : consumes fuel stmt_rec.

Lemma statement_loop_consumes (n : nat) :
  forall (acc : list stmt) (p : parser),
    (remaining p <= n)%nat -> (remaining p < fuel)%nat ->
    statement_loop stmt_rec n acc p <> Err OutOfFuel /\
    forall l p', statement_loop stmt_rec n acc p = Ok (l, p') ->
                 (remaining p' <= remaining p)%nat.
Proof.
  induction n as [|n IH]; intros acc p Hn Hf; simpl.
  - destruct (current_token p) as [tok|] eqn:Etok.
    + unfold remaining in Hn. rewrite Etok in Hn. lia.
    + split; [discriminate|]. intros l p' [= _ <-]. lia.
  - destruct (current_token p) as [tok|] eqn:Etok;
      [|split; [discriminate | intros l p' [= _ <-]; lia]].
    destruct (_ && _); [|split; [discriminate | intros l p' [= _ <-]; lia]].
    destruct (Hrec p Hf) as [Hne Hprog].
    destruct (stmt_rec p) as [[s p1]|e] eqn:E; cbn [bind];
      [|split; [intros [= ->]; apply Hne; reflexivity | discriminate]].
    pose proof (Hprog _ _ eq_refl) as H1.
    destruct (IH (acc ++ [s]) p1 ltac:(lia) ltac:(lia)) as [Hl Hp].
    split; [exact Hl|]. intros l p' H. specialize (Hp _ _ H). lia.
Qed.

Lemma statement_list_consumes (p : parser) :
  (remaining p < fuel)%nat ->
  statement_list fuel stmt_rec p <> Err OutOfFuel /\
  forall l p', statement_list fuel stmt_rec p = Ok (l, p') ->
               (remaining p' <= remaining p)%nat.
Proof.
  intros Hf. unfold statement_list.
  destruct (current_token p) as [tok|] eqn:Etok;
    [|split; [discriminate | intros l p' [= _ <-]; lia]].
  destruct (_ || _).
  - destruct (Hrec p Hf) as [Hne Hprog].
    destruct (stmt_rec p) as [[s p1]|e] eqn:E; cbn [bind];
      [|split; [intros [= ->]; apply Hne; reflexivity | discriminate]].
    pose proof (Hprog _ _ eq_refl) as H1.
    destruct (statement_loop_consumes fuel [s] p1 ltac:(lia) ltac:(lia)) as [Hl Hp].
    split; [exact Hl|]. intros l p' H. specialize (Hp _ _ H). lia.
  - cbn [bind].
    exact (statement_loop_consumes fuel [] p ltac:(lia) Hf).
Qed.

(** A sequence of [eat] and parsing steps: each step is given with the
    bound under which it does not run out of fuel. *)
Lemma eat_then {A : Type} (token_type : TokenType) (token_value : option string)
  (k : parser -> result (A * parser)) (p : parser) (bound : nat) :
  (remaining p <= bound)%nat ->
  (forall q, (remaining q < bound)%nat ->
     k q <> Err OutOfFuel /\
     forall a p', k q = Ok (a, p') -> (remaining p' <= remaining q)%nat) ->
  (do q <- eat token_type token_value p; k q) <> Err OutOfFuel /\
  forall a p', (do q <- eat token_type token_value p; k q) = Ok (a, p') ->
               (remaining p' < remaining p)%nat.
Proof.
  intros Hb Hk.
  destruct (eat token_type token_value p) as [q|e] eqn:E; cbn [bind];
    [|split; [intros [= ->]; exact (eat_error _ _ _ E) | discriminate]].
  pose proof (eat_remaining _ _ _ _ E) as H1.
  destruct (Hk q ltac:(lia)) as [Hne Hprog].
  split; [exact Hne|]. intros a p' H. specialize (Hprog _ _ H). lia.
Qed.

Lemma weak_progress {A : Type} (r : result (A * parser)) (p : parser) :
  (r <> Err OutOfFuel /\
   forall a p', r = Ok (a, p') -> (remaining p' < remaining p)%nat) ->
  r <> Err OutOfFuel /\
  forall a p', r = Ok (a, p') -> (remaining p' <= remaining p)%nat.
Proof.
  intros [Hne Hp]. split; [exact Hne|]. intros a p' H. specialize (Hp _ _ H). lia.
Qed.

Lemma done_progress {A : Type} (a : A) (p : parser) :
  (Ok (a, p) : result (A * parser)) <> Err OutOfFuel /\
  forall a' p', Ok (a, p) = Ok (a', p') -> (remaining p' <= remaining p)%nat.
Proof. split; [discriminate|]. intros a' p' [= _ <-]. lia. Qed.

(** A parsing step that may consume nothing, followed by the rest. *)
Lemma step_then {A B : Type} (f : result (A * parser))
  (k : A -> parser -> result (B * parser)) (p : parser) (bound : nat) :
  (remaining p <= bound)%nat ->
  (f <> Err OutOfFuel /\
   forall a p', f = Ok (a, p') -> (remaining p' <= remaining p)%nat) ->
  (forall a q, (remaining q <= bound)%nat ->
     k a q <> Err OutOfFuel /\
     forall b p', k a q = Ok (b, p') -> (remaining p' <= remaining q)%nat) ->
  (do (a, q) <- f; k a q) <> Err OutOfFuel /\
  forall b p', (do (a, q) <- f; k a q) = Ok (b, p') ->
               (remaining p' <= remaining p)%nat.
Proof.
  intros Hb [Hne Hprog] Hk.
  destruct f as [[a q]|e]; cbn [bind];
    [|split; [intros [= ->]; apply Hne; reflexivity | discriminate]].
  pose proof (Hprog _ _ eq_refl) as H1.
  destruct (Hk a q ltac:(lia)) as [Hne' Hprog'].
  split; [exact Hne'|]. intros b p' H. specialize (Hprog' _ _ H). lia.
Qed.

Lemma if_statement_consumes : consumes (S fuel) (if_statement fuel stmt_rec).
Proof.
  intros p Hp. unfold if_statement.
  apply (eat_then _ _ _ p fuel); [lia|]. intros p1 H1. apply weak_progress.
  apply (eat_then _ _ _ p1 fuel); [lia|]. intros p2 H2.
  apply (step_then _ _ p2 fuel); [lia | apply weak_progress, expression_consumes; exact H2|].
  intros c p3 H3. apply weak_progress.
  apply (eat_then _ _ _ p3 fuel); [lia|]. intros p4 H4. apply weak_progress.
  apply (eat_then _ _ _ p4 fuel); [lia|]. intros p5 H5.
  apply (step_then _ _ p5 fuel); [lia | apply statement_list_consumes; exact H5|].
  intros t p6 H6. apply weak_progress.
  apply (eat_then _ _ _ p6 fuel); [lia|]. intros p7 H7.
  destruct (at_else p7); [|apply done_progress].
  apply weak_progress.
  apply (eat_then _ _ _ p7 fuel); [lia|]. intros q1 G1. apply weak_progress.
  apply (eat_then _ _ _ q1 fuel); [lia|]. intros q2 G2.
  apply (step_then _ _ q2 fuel); [lia | apply statement_list_consumes; exact G2|].
  intros e q3 G3. apply weak_progress.
  apply (eat_then _ _ _ q3 fuel); [lia|]. intros q4 G4. apply done_progress.
Qed.

Lemma while_statement_consumes : consumes (S fuel) (while_statement fuel stmt_rec).
Proof.
  intros p Hp. unfold while_statement.
  apply (eat_then _ _ _ p fuel); [lia|]. intros p1 H1. apply weak_progress.
  apply (eat_then _ _ _ p1 fuel); [lia|]. intros p2 H2.
  apply (step_then _ _ p2 fuel); [lia | apply weak_progress, expression_consumes; exact H2|].
  intros c p3 H3. apply weak_progress.
  apply (eat_then _ _ _ p3 fuel); [lia|]. intros p4 H4. apply weak_progress.
  apply (eat_then _ _ _ p4 fuel); [lia|]. intros p5 H5.
  apply (step_then _ _ p5 fuel); [lia | apply statement_list_consumes; exact H5|].
  intros b p6 H6. apply weak_progress.
  apply (eat_then _ _ _ p6 fuel); [lia|]. intros p7 H7. apply done_progress.
Qed.

Lemma assignment_statement_consumes :
  consumes (S fuel) (assignment_statement fuel).
Proof.
  intros p Hp. unfold assignment_statement.
  destruct (current_token p) as [tok|] eqn:Etok;
    [|split; [discriminate | intros a p' H; discriminate]].
  assert (Hl : forall ty (node : expr),
            (do q <- eat ty None p; Ok (node, q)) <> Err OutOfFuel /\
            forall a p', (do q <- eat ty None p; Ok (node, q)) = Ok (a, p') ->
                         (remaining p' < remaining p)%nat).
  { intros ty node. apply (eat_then _ _ _ p fuel); [lia|]. intros q _.
    apply done_progress. }
  assert (Hlv : forall (f : result (expr * parser)),
            (f <> Err OutOfFuel /\
             forall a p', f = Ok (a, p') -> (remaining p' < remaining p)%nat) ->
            (do (lvalue, p0) <- f;
             do p1 <- eat OP (Some "=") p0;
             do (e, p2) <- expression fuel p1;
             do p3 <- eat OP (Some ";") p2; Ok (AssignmentStatement lvalue e, p3))
            <> Err OutOfFuel /\
            forall a p',
              (do (lvalue, p0) <- f;
               do p1 <- eat OP (Some "=") p0;
               do (e, p2) <- expression fuel p1;
               do p3 <- eat OP (Some ";") p2; Ok (AssignmentStatement lvalue e, p3))
              = Ok (a, p') -> (remaining p' < remaining p)%nat).
  { intros f [Hne Hprog].
    destruct f as [[lvalue p0]|e]; cbn [bind];
      [|split; [intros [= ->]; apply Hne; reflexivity | discriminate]].
    pose proof (Hprog _ _ eq_refl) as H0.
    assert (Hrest :
      (do p1 <- eat OP (Some "=") p0;
       do (e, p2) <- expression fuel p1;
       do p3 <- eat OP (Some ";") p2; Ok (AssignmentStatement lvalue e, p3))
      <> Err OutOfFuel /\
      forall a p',
        (do p1 <- eat OP (Some "=") p0;
         do (e, p2) <- expression fuel p1;
         do p3 <- eat OP (Some ";") p2; Ok (AssignmentStatement lvalue e, p3))
        = Ok (a, p') -> (remaining p' < remaining p0)%nat).
    { apply (eat_then _ _ _ p0 fuel); [lia|]. intros p1 H1.
      apply (step_then _ _ p1 fuel);
        [lia | apply weak_progress, expression_consumes; exact H1|].
      intros e p2 H2. apply weak_progress.
      apply (eat_then _ _ _ p2 fuel); [lia|]. intros p3 H3. apply done_progress. }
    destruct Hrest as [Hne' Hprog'].
    split; [exact Hne'|]. intros a p' H. specialize (Hprog' _ _ H). lia. }
  apply Hlv.
  destruct (type tok); try (split; [discriminate | intros a p' H; discriminate]).
  - destruct (str_in _ _); [|split; [discriminate | intros a p' H; discriminate]].
    apply Hl.
  - apply Hl.
Qed.

End Statements.

Lemma statement_consumes (fuel : nat) : consumes fuel (statement fuel).
Proof.
  induction fuel as [|f IH]; [intros p Hp; lia|].
  intros p Hp. cbn [statement].
  destruct (current_token p) as [tok|];
    [|split; [discriminate | intros a p' H; discriminate]].
  destruct (type tok); try (split; [discriminate | intros a p' H; discriminate]).
  - destruct (String.eqb (value tok) "if");
      [exact (if_statement_consumes f _ IH p Hp)|].
    destruct (String.eqb (value tok) "while");
      [exact (while_statement_consumes f _ IH p Hp)|].
    destruct (str_in _ _); [|split; [discriminate | intros a p' H; discriminate]].
    exact (assignment_statement_consumes f p Hp).
  - exact (assignment_statement_consumes f p Hp).
Qed.

(** X6. The parser of compiler.py ends on every source: in the model, fuel
    above the number of characters of the source is never exhausted, so that
    parse returns the tree or raises an exception of the lexer or of the
    parser (a RecursionError of Python on deeply nested source aside). *)
Theorem X6_parse_terminates (fuel : nat) (source : string) :
  (String.length source < fuel)%nat -> parse fuel source <> Err OutOfFuel.
Proof.
  intros Hf. unfold parse.
  destruct (init source) as [p|e] eqn:Ei; cbn [bind];
    [|intros [= ->]; exact (init_error _ Ei)].
  pose proof (init_remaining _ _ Ei) as Hp.
  destruct (statement_list_consumes fuel _ (statement_consumes fuel) p ltac:(lia))
    as [Hne _].
  destruct (statement_list fuel (statement fuel) p) as [[l p1]|e] eqn:El; cbn [bind].
  - destruct (current_token p1); discriminate.
  - intros [= ->]. apply Hne. reflexivity.
Qed.

Lemma X6_parse_terminates_witness : parse 7 "a = 1;" <> Err OutOfFuel.
Proof. apply X6_parse_terminates. vm_compute. reflexivity. Defined.

End ParserTermination.

(** * The parsers of the compiler and of the interpreter *)

Section ParsersAgree.

Import Compiler.
Import Measure.
Import Trees.

Lemma get_next_token_lexed (s rest : string) (t : Token) :
  Lexer.get_next_token s = Ok (Some t, rest) -> lexed t = true.
Proof.
  intros H. apply get_next_token_shape in H. unfold lexed, is_close_brace.
  destruct (type t).
  - destruct (String.eqb_spec (value t) "}") as [E|]; [|reflexivity].
    rewrite E in H. discriminate H.
  - destruct H as (_ & _ & Hall).
    destruct (String.eqb_spec (value t) "}") as [E|]; [|reflexivity].
    rewrite E in Hall. discriminate Hall.
  - destruct H as (v & _ & E & Hi).
    assert (Hs : Py.startswith "0x" (value t) = true) by (rewrite E; reflexivity).
    rewrite Hs, Hi. reflexivity.
  - reflexivity.
Qed.

Lemma init_lexed (s : string) (p : parser) : init s = Ok p -> lexed_parser p.
Proof.
  unfold init. intros H. apply bind_Ok_inv in H as ([t rest] & Ht & H).
  injection H as <-. unfold lexed_parser. cbn [current_token].
  destruct t as [t|]; [|exact I]. exact (get_next_token_lexed _ _ _ Ht).
Qed.

Lemma eat_lexed (token_type : TokenType) (token_value : option string)
  (p p' : parser) :
  eat token_type token_value p = Ok p' -> lexed_parser p'.
Proof.
  unfold eat. destruct (current_token p) as [tok|]; [|discriminate].
  destruct (TokenType_eqb _ _); [|discriminate].
  destruct (match token_value with Some _ => _ | None => _ end); [|discriminate].
  apply init_lexed.
Qed.

Lemma alike_refl (e : exn) : alike e e.
Proof. left. reflexivity. Qed.

Local Ltac fails_alike :=
  solve [unfold error; cbn [bind];
         split; [discriminate | eexists; split; [reflexivity | apply alike_refl]]].

(** One [eat] on both sides. *)
Local Ltac eat_step q E :=
  match goal with
  | |- context [eat ?ty ?v ?p] =>
      let e := fresh "e" in
      let Hl := fresh "Hl" in
      let Hr := fresh "Hr" in
      destruct (eat ty v p) as [q|e] eqn:E; cbn [bind];
      [ pose proof (eat_lexed _ _ _ _ E) as Hl;
        pose proof (eat_remaining _ _ _ _ E) as Hr
      | solve [split; [intros ->; exact (eat_error _ _ _ E)
                      | eexists; split; [reflexivity | apply alike_refl]]] ]
  end.

(** One call of a pair of functions that agree. *)
Local Ltac call_step H a a' q Ha Hf :=
  let e := fresh "e" in
  let e' := fresh "e'" in
  let Hne := fresh "Hne" in
  let Hal := fresh "Hal" in
  let Hl := fresh "Hl" in
  let Hr := fresh "Hr" in
  let Hx := fresh "Hx" in
  match type of H with
  | match ?r with Ok _ => _ | Err _ => _ end =>
      pose proof H as Hx;
      destruct r as [[a q]|e]; cbn [bind];
      [ destruct Hx as ((a' & Ha & Hf) & Hl & Hr); rewrite Hf; cbn [bind]
      | destruct Hx as (Hne & e' & Hf & Hal); rewrite Hf; cbn [bind];
        exact (conj Hne (ex_intro _ e' (conj eq_refl Hal))) ]
  end.

Lemma primary_agree (bound : nat)
  (rec : parser -> result (expr * parser))
  (rec' : parser -> result (Interpreter.expr * parser)) :
  agree expr_tree bound rec rec' ->
  agree expr_tree (S bound) (primary rec) (Interpreter.primary rec').
Proof.
  intros Hrec p Hp Hb. unfold primary, Interpreter.primary.
  destruct (current_token p) as [tok|] eqn:Etok; [|fails_alike].
  assert (Htok : lexed tok = true).
  { unfold lexed_parser in Hp. rewrite Etok in Hp. exact Hp. }
  unfold lexed in Htok. destruct (type tok).
  - destruct (str_in _ _); [|fails_alike].
    eat_step p1 E1.
    split; [eexists; split; reflexivity | split; assumption].
  - eat_step p1 E1.
    split; [eexists; split; reflexivity | split; assumption].
  - apply andb_true_iff in Htok as [Hs Hv]. rewrite Hs.
    destruct (Py.int16 (value tok)) as [v|] eqn:Ev; [|discriminate Hv].
    eat_step p1 E1.
    split; [|split; assumption].
    eexists. split; [|reflexivity]. cbn [expr_tree]. rewrite Hs, Ev. reflexivity.
  - destruct (String.eqb _ _); [|fails_alike].
    eat_step p1 E1.
    pose proof (Hrec p1 Hl ltac:(lia)) as H2.
    call_step H2 e e' p2 He Hf.
    eat_step p3 E3.
    split; [eexists; split; [exact He | reflexivity] | split; [assumption | lia]].
Qed.

Lemma binop_loop_agree (bound : nat) (ops : list string)
  (operand : parser -> result (expr * parser))
  (operand' : parser -> result (Interpreter.expr * parser)) :
  agree expr_tree bound operand operand' ->
  forall (fuel : nat) (lhs : expr) (lhs' : Interpreter.expr) (p : parser),
    expr_tree lhs = Ok lhs' -> lexed_parser p ->
    (remaining p <= fuel)%nat -> (remaining p <= bound)%nat ->
    match binop_loop ops operand fuel lhs p with
    | Ok (e, q) =>
        (exists e', expr_tree e = Ok e' /\
                    Interpreter.binop_loop ops operand' fuel lhs' p = Ok (e', q)) /\
        lexed_parser q /\ (remaining q <= remaining p)%nat
    | Err e =>
        e <> OutOfFuel /\
        exists e', Interpreter.binop_loop ops operand' fuel lhs' p = Err e' /\
                   alike e e'
    end.
Proof.
  intros Hoperand. induction fuel as [|f IH]; intros lhs lhs' p Hlhs Hp Hf Hb;
    cbn [binop_loop Interpreter.binop_loop].
  - destruct (current_token p) as [tok|] eqn:Etok.
    + unfold remaining in Hf. rewrite Etok in Hf. lia.
    + split; [eexists; split; [exact Hlhs | reflexivity] | split; [exact Hp | lia]].
  - destruct (current_token p) as [tok|] eqn:Etok;
      [|split; [eexists; split; [exact Hlhs | reflexivity] | split; [exact Hp | lia]]].
    destruct (_ && _);
      [|split; [eexists; split; [exact Hlhs | reflexivity] | split; [exact Hp | lia]]].
    eat_step p1 E1.
    pose proof (Hoperand p1 Hl ltac:(lia)) as H2.
    call_step H2 rhs rhs' p2 Hrhs Hf2.
    assert (Hnode : expr_tree (BinaryOp lhs (value tok) rhs) =
                    Ok (Interpreter.BinaryOp lhs' (value tok) rhs')).
    { cbn [expr_tree]. rewrite Hlhs, Hrhs. reflexivity. }
    pose proof (IH _ _ p2 Hnode Hl0 ltac:(lia) ltac:(lia)) as H3.
    destruct (binop_loop ops operand f _ p2) as [[e q]|e].
    + destruct H3 as (He & Hq & Hle). split; [exact He | split; [exact Hq | lia]].
    + exact H3.
Qed.

Lemma level_agree (bound : nat) (ops : list string)
  (operand : parser -> result (expr * parser))
  (operand' : parser -> result (Interpreter.expr * parser)) (fuel : nat) :
  (bound <= S (S fuel))%nat -> agree expr_tree bound operand operand' ->
  agree expr_tree bound
    (fun p => do (lhs, p) <- operand p; binop_loop ops operand fuel lhs p)
    (fun p => do (node, p) <- operand' p;
              Interpreter.binop_loop ops operand' fuel node p).
Proof.
  intros Hfuel Hoperand p Hp Hb.
  pose proof (Hoperand p Hp Hb) as H1.
  call_step H1 lhs lhs' p1 Hlhs Hf1.
  pose proof (binop_loop_agree bound ops operand operand' Hoperand fuel
                lhs lhs' p1 Hlhs Hl ltac:(lia) ltac:(lia)) as H2.
  destruct (binop_loop ops operand fuel lhs p1) as [[e q]|e].
  - destruct H2 as (He & Hq & Hle). split; [exact He | split; [exact Hq | lia]].
  - exact H2.
Qed.

Lemma expression_agree (fuel : nat) :
  agree expr_tree fuel (expression fuel) (Interpreter.expression fuel).
Proof.
  induction fuel as [|f IH]; [intros p _ Hb; lia|].
  cbn [expression Interpreter.expression].
  unfold equality, comparison, term, factor,
    Interpreter.equality, Interpreter.comparison, Interpreter.term,
    Interpreter.factor.
  do 4 (apply level_agree; [lia|]).
  apply primary_agree. exact IH.
Qed.

Lemma each_snoc {A B : Type} (f : A -> result B) (l : list A) (l' : list B)
  (a : A) (b : B) :
  each f l = Ok l' -> f a = Ok b -> each f (l ++ [a]) = Ok (l' ++ [b]).
Proof.
  revert l'. induction l as [|x l IH]; intros l' Hl Ha; simpl in Hl |- *.
  - injection Hl as <-. rewrite Ha. reflexivity.
  - destruct (f x) as [y|]; [|discriminate]. cbn [bind] in Hl |- *.
    destruct (each f l) as [ys|]; [|discriminate]. cbn [bind] in Hl.
    injection Hl as <-. rewrite (IH ys eq_refl Ha). reflexivity.
Qed.

Lemma remaining_token (p : parser) (tok : Token) :
  current_token p = Some tok -> (1 <= remaining p)%nat.
Proof. intros E. unfold remaining. rewrite E. lia. Qed.

Lemma eat_not_stops (p : parser) :
  stops p = false -> exists m, eat OP (Some "}") p = Err (SyntaxError m).
Proof.
  unfold stops, eat, is_close_brace.
  destruct (current_token p) as [tok|]; [|discriminate].
  destruct (TokenType_eqb (type tok) OP); [|eexists; reflexivity].
  cbn [andb]. intros ->. eexists. reflexivity.
Qed.

Section Statements.

Variable fuel : nat.
Variable cst : parser -> result (stmt * parser).
Variable ist : parser -> result (Interpreter.stmt * parser).
Hypothesis Hrec : agree stmt_tree fuel cst ist.
Hypothesis Hop : forall p tok,
  current_token p = Some tok -> type tok = OP -> (remaining p < fuel)%nat ->
  exists m, ist p = Err (SyntaxError m).

Lemma statement_loop_agree (n : nat) :
  forall (n' : nat) (acc : list stmt) (acc' : list Interpreter.stmt) (p : parser),
    each stmt_tree acc = Ok acc' -> lexed_parser p ->
    (remaining p <= n)%nat -> (remaining p <= n')%nat ->
    (remaining p < fuel)%nat ->
    loops_agree p (statement_loop cst n acc p)
                  (Interpreter.statement_loop ist n' acc' p).
Proof.
  induction n as [|n IH]; intros n' acc acc' p Hacc Hp Hn Hn' Hf;
    unfold loops_agree.
  - cbn [statement_loop].
    destruct (current_token p) as [tok|] eqn:Etok.
    + apply remaining_token in Etok. lia.
    + destruct n'; cbn [Interpreter.statement_loop]; rewrite Etok;
        (split; [exact Hp | split; [lia|]]); unfold stops; rewrite Etok;
        exists acc'; split; [exact Hacc | reflexivity | exact Hacc | reflexivity].
  - cbn [statement_loop].
    destruct (current_token p) as [tok|] eqn:Etok.
    2: { destruct n'; cbn [Interpreter.statement_loop]; rewrite Etok;
           (split; [exact Hp | split; [lia|]]); unfold stops; rewrite Etok;
           exists acc'; split; [exact Hacc | reflexivity | exact Hacc | reflexivity]. }
    pose proof (remaining_token _ _ Etok) as H1.
    destruct n' as [|n']; [lia|]. cbn [Interpreter.statement_loop]. rewrite Etok.
    assert (Htok : lexed tok = true).
    { unfold lexed_parser in Hp. rewrite Etok in Hp. exact Hp. }
    destruct (TokenType_eqb (type tok) OP) eqn:Eop; cbn [negb andb].
    + (* an operator *)
      split; [exact Hp | split; [lia|]]. unfold stops. rewrite Etok, Eop.
      cbn [andb]. destruct (is_close_brace tok); cbn [negb].
      * exists acc'. split; [exact Hacc | reflexivity].
      * assert (Ety : type tok = OP) by (destruct (type tok); try discriminate; reflexivity).
        destruct (Hop p tok Etok Ety Hf) as (m & Hm). rewrite Hm. cbn [bind].
        exists m. reflexivity.
    + (* no operator: not [}] *)
      assert (Hcb : is_close_brace tok = false).
      { unfold lexed in Htok. destruct (type tok); try discriminate Eop;
          try (apply negb_true_iff in Htok; exact Htok).
        destruct tok as [ty v]. cbn [type value] in *.
        unfold is_close_brace in *. cbn [value].
        destruct (String.eqb_spec v "}") as [->|]; [discriminate Htok | reflexivity]. }
      rewrite Hcb. cbn [negb].
      pose proof (Hrec p Hp Hf) as H2.
      pose proof H2 as Hx.
      destruct (cst p) as [[s p1]|e]; cbn [bind].
      * destruct Hx as ((s' & Hs & Hi) & Hl1 & Hr1). rewrite Hi. cbn [bind].
        pose proof (IH n' (acc ++ [s]) (acc' ++ [s']) p1
                      (each_snoc _ _ _ _ _ Hacc Hs) Hl1
                      ltac:(lia) ltac:(lia) ltac:(lia)) as H3.
        unfold loops_agree in H3.
        destruct (statement_loop cst n (acc ++ [s]) p1) as [[l q]|e].
        -- destruct H3 as (Hq & Hle & H3). split; [exact Hq | split; [lia | exact H3]].
        -- exact H3.
      * destruct Hx as (Hne & e' & Hi & Hal). rewrite Hi. cbn [bind].
        exact (conj Hne (ex_intro _ e' (conj eq_refl Hal))).
Qed.

Lemma statement_list_agree (p : parser) :
  lexed_parser p -> (remaining p < fuel)%nat ->
  loops_agree p (statement_list fuel cst p) (Interpreter.statement_list fuel ist p).
Proof.
  intros Hp Hf. unfold statement_list, Interpreter.statement_list.
  destruct (current_token p) as [tok|] eqn:Etok.
  2: { unfold loops_agree.
       assert (Hi : Interpreter.statement_loop ist fuel [] p = Ok ([], p)).
       { generalize fuel. intros []; cbn [Interpreter.statement_loop];
           rewrite Etok; reflexivity. }
       rewrite Hi. split; [exact Hp | split; [lia|]]. unfold stops. rewrite Etok.
       exists []. split; reflexivity. }
  pose proof (remaining_token _ _ Etok) as H1.
  destruct (negb (TokenType_eqb (type tok) OP) || negb (is_close_brace tok)) eqn:E.
  - (* both call [statement] *)
    assert (Hex : exists f, fuel = S f) by (exists (Nat.pred fuel); lia).
    destruct Hex as (f & Efuel).
    assert (Hi : Interpreter.statement_loop ist fuel [] p =
                 do (s, p1) <- ist p; Interpreter.statement_loop ist f [s] p1).
    { rewrite Efuel. cbn [Interpreter.statement_loop]. rewrite Etok.
      replace (negb (TokenType_eqb (type tok) OP && is_close_brace tok)) with true
        by (rewrite negb_andb; symmetry; exact E).
      reflexivity. }
    rewrite Hi. clear Hi.
    pose proof (Hrec p Hp Hf) as H2. pose proof H2 as Hx.
    destruct (cst p) as [[s p1]|e]; cbn [bind].
    + destruct Hx as ((s' & Hs & Hi) & Hl1 & Hr1). rewrite Hi. cbn [bind].
      assert (Hone : each stmt_tree [s] = Ok [s']).
      { cbn [each]. rewrite Hs. reflexivity. }
      pose proof (statement_loop_agree fuel f [s] [s'] p1 Hone Hl1
                    ltac:(lia) ltac:(lia) ltac:(lia)) as H3.
      unfold loops_agree in H3 |- *.
      destruct (statement_loop cst fuel [s] p1) as [[l q]|e].
      * destruct H3 as (Hq & Hle & H3). split; [exact Hq | split; [lia | exact H3]].
      * exact H3.
    + destruct Hx as (Hne & e' & Hi & Hal). rewrite Hi. cbn [bind].
      exact (conj Hne (ex_intro _ e' (conj eq_refl Hal))).
  - (* the operator [}] *)
    cbn [bind].
    exact (statement_loop_agree fuel fuel [] [] p eq_refl Hp
             ltac:(lia) ltac:(lia) Hf).
Qed.

(** A block: [statement_list], then [eat] of the closing brace. *)
Lemma block_agree (p : parser) :
  lexed_parser p -> (remaining p < fuel)%nat ->
  match (do (l, q) <- statement_list fuel cst p;
         do q <- eat OP (Some "}") q; Ok (l, q)) with
  | Ok (l, q) =>
      (exists l', each stmt_tree l = Ok l' /\
         (do (l, q) <- Interpreter.statement_list fuel ist p;
          do q <- eat OP (Some "}") q; Ok (l, q)) = Ok (l', q)) /\
      lexed_parser q /\ (remaining q < remaining p)%nat
  | Err e =>
      e <> OutOfFuel /\
      exists e',
        (do (l, q) <- Interpreter.statement_list fuel ist p;
         do q <- eat OP (Some "}") q; Ok (l, q)) = Err e' /\ alike e e'
  end.
Proof.
  intros Hp Hf. pose proof (statement_list_agree p Hp Hf) as H.
  unfold loops_agree in H.
  destruct (statement_list fuel cst p) as [[l q]|e]; cbn [bind].
  - destruct H as (Hq & Hle & H). destruct (stops q) eqn:Es.
    + destruct H as (l' & Hl' & ->). cbn [bind].
      eat_step q1 E1.
      split; [exists l'; split; [exact Hl' | reflexivity] | split; [assumption | lia]].
    + destruct H as (m & ->). cbn [bind].
      destruct (eat_not_stops q Es) as (m' & ->). cbn [bind].
      split; [discriminate|]. eexists. split; [reflexivity|].
      right. split; eexists; reflexivity.
  - destruct H as (Hne & e' & -> & Hal). cbn [bind].
    exact (conj Hne (ex_intro _ e' (conj eq_refl Hal))).
Qed.

(** A block on both sides: [statement_list], then [eat] of the closing
    brace. *)
Local Ltac block_step p l l' q q1 Hl' E :=
  let H := fresh "H" in
  let e := fresh "e" in
  let e' := fresh "e'" in
  let m := fresh "m" in
  let m' := fresh "m'" in
  let Hq := fresh "Hq" in
  let Hle := fresh "Hle" in
  let Hne := fresh "Hne" in
  let Hal := fresh "Hal" in
  let Es := fresh "Es" in
  pose proof (statement_list_agree p ltac:(assumption) ltac:(lia)) as H;
  unfold loops_agree in H;
  destruct (statement_list fuel cst p) as [[l q]|e]; cbn [bind];
  [ destruct H as (Hq & Hle & H); destruct (stops q) eqn:Es;
    [ destruct H as (l' & Hl' & ->); cbn [bind]; eat_step q1 E
    | destruct H as (m & ->); cbn [bind];
      destruct (eat_not_stops q Es) as (m' & ->); cbn [bind];
      solve [split; [discriminate
                    | eexists; split;
                      [reflexivity | right; split; eexists; reflexivity]]] ]
  | destruct H as (Hne & e' & -> & Hal); cbn [bind];
    solve [exact (conj Hne (ex_intro _ e' (conj eq_refl Hal)))] ].

Lemma if_statement_agree :
  agree stmt_tree (S fuel) (if_statement fuel cst)
    (Interpreter.if_statement fuel ist).
Proof.
  intros p Hp Hb. unfold if_statement, Interpreter.if_statement.
  eat_step p1 E1. eat_step p2 E2.
  pose proof (expression_agree fuel p2 ltac:(assumption) ltac:(lia)) as H3.
  call_step H3 c c' p3 Hc Hf3.
  eat_step p4 E4. eat_step p5 E5.
  block_step p5 t t' p6 p7 Ht E7.
  destruct (at_else p7).
  - eat_step q1 F1. eat_step q2 F2.
    block_step q2 l l' q3 q4 Hl' F4.
    split; [|split; [assumption | lia]].
    eexists. split; [|reflexivity].
    cbn [stmt_tree]. rewrite Hc. cbn [bind]. rewrite Ht. cbn [bind].
    rewrite Hl'. reflexivity.
  - split; [|split; [assumption | lia]].
    eexists. split; [|reflexivity].
    cbn [stmt_tree]. rewrite Hc. cbn [bind]. rewrite Ht. reflexivity.
Qed.

Lemma while_statement_agree :
  agree stmt_tree (S fuel) (while_statement fuel cst)
    (Interpreter.while_statement fuel ist).
Proof.
  intros p Hp Hb. unfold while_statement, Interpreter.while_statement.
  eat_step p1 E1. eat_step p2 E2.
  pose proof (expression_agree fuel p2 ltac:(assumption) ltac:(lia)) as H3.
  call_step H3 c c' p3 Hc Hf3.
  eat_step p4 E4. eat_step p5 E5.
  block_step p5 b b' p6 p7 Hb' E7.
  split; [|split; [assumption | lia]].
  eexists. split; [|reflexivity].
  cbn [stmt_tree]. rewrite Hc. cbn [bind]. rewrite Hb'. reflexivity.
Qed.

Lemma assignment_statement_agree :
  agree stmt_tree (S fuel) (assignment_statement fuel)
    (Interpreter.assignment_statement fuel).
Proof.
  intros p Hp Hb. unfold assignment_statement, Interpreter.assignment_statement.
  destruct (current_token p) as [tok|] eqn:Etok; [|fails_alike].
  destruct (type tok); try fails_alike.
  - destruct (str_in _ _); [|fails_alike].
    eat_step p1 E1. eat_step p2 E2.
    pose proof (expression_agree fuel p2 ltac:(assumption) ltac:(lia)) as H3.
    call_step H3 v v' p3 Hv Hf3.
    eat_step p4 E4.
    split; [|split; [assumption | lia]].
    eexists. split; [|reflexivity].
    cbn [stmt_tree expr_tree bind]. rewrite Hv. reflexivity.
  - eat_step p1 E1. eat_step p2 E2.
    pose proof (expression_agree fuel p2 ltac:(assumption) ltac:(lia)) as H3.
    call_step H3 v v' p3 Hv Hf3.
    eat_step p4 E4.
    split; [|split; [assumption | lia]].
    eexists. split; [|reflexivity].
    cbn [stmt_tree expr_tree bind]. rewrite Hv. reflexivity.
Qed.

End Statements.

Lemma statement_agree (fuel : nat) :
  agree stmt_tree fuel (statement fuel) (Interpreter.statement fuel).
Proof.
  induction fuel as [|f IH]; [intros p _ Hb; lia|].
  assert (Hop : forall p tok,
            current_token p = Some tok -> type tok = OP -> (remaining p < f)%nat ->
            exists m, Interpreter.statement f p = Err (SyntaxError m)).
  { intros p tok Et Eo Hr. destruct f; [lia|].
    cbn [Interpreter.statement]. rewrite Et, Eo. eexists. reflexivity. }
  intros p Hp Hb. cbn [statement Interpreter.statement].
  destruct (current_token p) as [tok|] eqn:Etok; [|fails_alike].
  destruct (type tok); try fails_alike.
  - destruct (String.eqb (value tok) "if");
      [exact (if_statement_agree f _ _ IH Hop p Hp Hb)|].
    destruct (String.eqb (value tok) "while");
      [exact (while_statement_agree f _ _ IH Hop p Hp Hb)|].
    destruct (str_in _ _); [|fails_alike].
    exact (assignment_statement_agree f p Hp Hb).
  - exact (assignment_statement_agree f p Hp Hb).
Qed.

Lemma parse_agree (fuel : nat) (source : string) :
  (String.length source < fuel)%nat ->
  match parse fuel source with
  | Ok ast =>
      exists ast', program_tree ast = Ok ast' /\
                   Interpreter.parse fuel source = Ok ast'
  | Err e =>
      e <> OutOfFuel /\
      exists e', Interpreter.parse fuel source = Err e' /\ alike e e'
  end.
Proof.
  intros Hfuel. unfold parse, Interpreter.parse.
  destruct (init source) as [p|e] eqn:Ei; cbn [bind];
    [|split; [intros ->; exact (init_error _ Ei)
             | eexists; split; [reflexivity | apply alike_refl]]].
  pose proof (init_lexed _ _ Ei) as Hp.
  pose proof (init_remaining _ _ Ei) as Hr.
  assert (Hop : forall p tok,
            current_token p = Some tok -> type tok = OP ->
            (remaining p < fuel)%nat ->
            exists m, Interpreter.statement fuel p = Err (SyntaxError m)).
  { intros q tok Et Eo Hq. destruct fuel; [lia|].
    cbn [Interpreter.statement]. rewrite Et, Eo. eexists. reflexivity. }
  pose proof (statement_list_agree fuel _ _ (statement_agree fuel) Hop p Hp
                ltac:(lia)) as H.
  unfold loops_agree in H.
  destruct (statement_list fuel (statement fuel) p) as [[l q]|e]; cbn [bind].
  - destruct H as (Hq & Hle & H). unfold stops in H.
    destruct (current_token q) as [tok|] eqn:Etok.
    + destruct (_ && _).
      * destruct H as (l' & Hl' & ->). cbn [bind]. rewrite Etok.
        split; [discriminate|].
        eexists. split; [reflexivity | apply alike_refl].
      * destruct H as (m & ->). cbn [bind]. split; [discriminate|].
        eexists. split; [reflexivity|]. right. split; eexists; reflexivity.
    + destruct H as (l' & Hl' & ->). cbn [bind]. rewrite Etok.
      exists (Interpreter.Program l'). split; [|reflexivity].
      cbn [program_tree]. rewrite Hl'. reflexivity.
  - destruct H as (Hne & e' & -> & Hal). cbn [bind].
    split; [exact Hne|]. exists e'. split; [reflexivity | exact Hal].
Qed.

(** X21. The parsers of compiler.py and of interpreter.py agree on every
    source. When one returns a tree so does the other, and the tree of the
    interpreter is the tree of the compiler with each SpecialVar node as a
    Keyword node and each Literal payload, which starts with 0x, as the
    integer int(value, 16). When the parser of the compiler raises, the parser
    of the interpreter raises the same exception, or both raise a syntax
    error: after a statement, at an operator other than the closing brace, the
    loop of statement_list of the compiler stops and its caller raises, where
    the loop of the interpreter calls statement, which raises. In the model,
    fuel above the number of characters of the source is exhausted by neither
    parser. (A RecursionError of Python on deeply nested source aside.) *)
Theorem X21_parsers_agree (fuel : nat) (source : string) :
  (String.length source < fuel)%nat ->
  (forall ast, parse fuel source = Ok ast ->
     exists ast', program_tree ast = Ok ast' /\
                  Interpreter.parse fuel source = Ok ast') /\
  (forall ast', Interpreter.parse fuel source = Ok ast' ->
     exists ast, parse fuel source = Ok ast /\ program_tree ast = Ok ast') /\
  (forall e, parse fuel source = Err e ->
     exists e', Interpreter.parse fuel source = Err e' /\
                (e' = e \/
                 ((exists m, e = SyntaxError m) /\ exists m', e' = SyntaxError m'))) /\
  Interpreter.parse fuel source <> Err OutOfFuel.
Proof.
  intros Hfuel. pose proof (parse_agree fuel source Hfuel) as H.
  split; [|split; [|split]].
  - intros ast E. rewrite E in H. exact H.
  - intros ast' E. destruct (parse fuel source) as [ast|e].
    + destruct H as (a & Ha & Hi). rewrite Hi in E. injection E as <-.
      exists ast. split; [reflexivity | exact Ha].
    + destruct H as (_ & e' & Hi & _). rewrite Hi in E. discriminate E.
  - intros e E. rewrite E in H. exact (proj2 H).
  - intros E. destruct (parse fuel source) as [ast|e].
    + destruct H as (a & _ & Hi). rewrite Hi in E. discriminate E.
    + destruct H as (Hne & e' & Hi & [He | (_ & m' & He)]);
        rewrite Hi in E; injection E as E.
      * apply Hne. rewrite <- He. exact E.
      * rewrite E in He. discriminate He.
Qed.

Lemma X21_parsers_agree_witness :
  exists ast',
    program_tree (Program [AssignmentStatement (Identifier "a") (Literal "0x1")]) =
      Ok ast' /\
    Interpreter.parse 7 "a = 1;" = Ok ast'.
Proof.
  apply (proj1 (X21_parsers_agree 7 "a = 1;" ltac:(vm_compute; lia))).
  vm_compute. reflexivity.
Defined.

End ParsersAgree.

(** * The variables of generated code *)

Section DenseVariables.

Import Compiler.
Import Dense.

Lemma uses_app_l (a b : list instruction) (k : Z) : uses a k -> uses (a ++ b) k.
Proof.
  intros (i & opcode & Hi & Ho). exists i, opcode. split; [|exact Ho].
  apply lookup_app_l_Some. exact Hi.
Qed.

Lemma uses_app_r (a b : list instruction) (k : Z) : uses b k -> uses (a ++ b) k.
Proof.
  intros (i & opcode & Hi & Ho). exists (length a + i)%nat, opcode. split; [|exact Ho].
  rewrite lookup_app_r by lia. replace (length a + i - length a)%nat with i by lia.
  exact Hi.
Qed.

Lemma var_id_tight (name : string) (v : Layout.symbols) (id : Z) (v' : Layout.symbols) :
  Layout.var_id name v = (id, v') -> tight v ->
  tight v' /\ Layout.count v <= Layout.count v' /\
  forall k, Layout.count v <= k < Layout.count v' -> k = id.
Proof.
  unfold Layout.var_id. intros H (Hc & Hr & Hi & Hs).
  destruct (Layout.table v !! name) as [i|] eqn:E; injection H as <- <-.
  - split; [repeat apply conj; assumption|]. split; [lia|]. intros k Hk. lia.
  - unfold tight. cbn [Layout.table Layout.count].
    split; [|split; [lia | intros k Hk; lia]].
    repeat apply conj.
    + lia.
    + intros n id Hn. apply lookup_insert_Some in Hn as [[_ <-] | [_ Hn]]; [lia|].
      specialize (Hr _ _ Hn). lia.
    + intros n1 n2 id H1 H2.
      apply lookup_insert_Some in H1 as [[<- <-] | [Hne1 H1]];
        apply lookup_insert_Some in H2 as [[<- E2] | [Hne2 H2]].
      * reflexivity.
      * specialize (Hr _ _ H2). lia.
      * specialize (Hr _ _ H1). lia.
      * exact (Hi _ _ _ H1 H2).
    + intros k Hk. destruct (Z.eq_dec k (Layout.count v)) as [->|Hne].
      * exists name. apply lookup_insert_eq.
      * destruct (Hs k ltac:(lia)) as (n & Hn). exists n.
        rewrite lookup_insert_ne; [exact Hn|]. intros <-. congruence.
Qed.

Lemma allocates_none (c : list instruction) :
  allocates (fun v => Ok (c, v)).
Proof.
  intros v c0 v' [= <- <-] Hv. split; [exact Hv|]. split; [lia|]. intros k Hk. lia.
Qed.

Lemma expr_code_allocates (e : expr) : allocates (Layout.expr_code e).
Proof.
  induction e as [l IHl op r IHr | name | value | name]; intros v c v' H Hv;
    cbn [Layout.expr_code] in H.
  - apply bind_Ok_inv in H as ([cl v1] & Hl & H).
    apply bind_Ok_inv in H as ([cr v2] & Hr & H).
    destruct (CodeGenerator.op_map op) as [code|]; [|discriminate].
    injection H as <- <-.
    destruct (IHl _ _ _ Hl Hv) as (Hv1 & Hle1 & Hu1).
    destruct (IHr _ _ _ Hr Hv1) as (Hv2 & Hle2 & Hu2).
    split; [exact Hv2|]. split; [lia|]. intros k Hk.
    destruct (Z.lt_ge_cases k (Layout.count v1)) as [Hlt|Hge].
    + apply uses_app_l. apply Hu1. lia.
    + apply uses_app_r, uses_app_l. apply Hu2. lia.
  - destruct (Layout.var_id name v) as [id v1] eqn:E. injection H as <- <-.
    destruct (var_id_tight _ _ _ _ E Hv) as (Hv1 & Hle & Hid).
    split; [exact Hv1|]. split; [exact Hle|]. intros k Hk.
    rewrite (Hid k Hk). exists 0%nat, DLOAD. split; [reflexivity | left; reflexivity].
  - apply bind_Ok_inv in H as (n & _ & H). injection H as <- <-.
    split; [exact Hv|]. split; [lia|]. intros k Hk. lia.
  - destruct (String.eqb name "read"); [exact (allocates_none _ _ _ _ H Hv)|].
    destruct (String.eqb name "get"); [exact (allocates_none _ _ _ _ H Hv)|].
    destruct (_ || _); [discriminate|]. exact (allocates_none _ _ _ _ H Hv).
Qed.

Lemma assign_code_allocates (lvalue : expr) :
  allocates (fun v => Ok (Layout.assign_code lvalue v)).
Proof.
  intros v c v' H Hv. injection H as H.
  destruct lvalue as [| name | | name]; cbn [Layout.assign_code] in H;
    try (injection H as <- <-; split; [exact Hv|]; split; [lia|]; intros k Hk; lia).
  - destruct (Layout.var_id name v) as [id v1] eqn:E. injection H as <- <-.
    destruct (var_id_tight _ _ _ _ E Hv) as (Hv1 & Hle & Hid).
    split; [exact Hv1|]. split; [exact Hle|]. intros k Hk.
    rewrite (Hid k Hk). exists 0%nat, DWRITE. split; [reflexivity | right; reflexivity].
  - destruct (String.eqb name "write");
      [injection H as <- <-; split; [exact Hv|]; split; [lia|]; intros k Hk; lia|].
    destruct (String.eqb name "put");
      injection H as <- <-; (split; [exact Hv|]; split; [lia|]; intros k Hk; lia).
Qed.

Lemma allocates_seq (f g : Layout.symbols -> result (list instruction * Layout.symbols))
  (v : Layout.symbols) (c : list instruction) (v' : Layout.symbols)
  (pre mid post : list instruction) :
  allocates f -> allocates g -> tight v ->
  forall cf v1 cg,
    f v = Ok (cf, v1) -> g v1 = Ok (cg, v') ->
    c = pre ++ cf ++ mid ++ cg ++ post ->
    tight v' /\ Layout.count v <= Layout.count v' /\
    forall k, Layout.count v <= k < Layout.count v' -> uses c k.
Proof.
  intros Hf Hg Hv cf v1 cg Ef Eg ->.
  destruct (Hf _ _ _ Ef Hv) as (Hv1 & Hle1 & Hu1).
  destruct (Hg _ _ _ Eg Hv1) as (Hv2 & Hle2 & Hu2).
  split; [exact Hv2|]. split; [lia|]. intros k Hk.
  destruct (Z.lt_ge_cases k (Layout.count v1)) as [Hlt|Hge].
  - apply uses_app_r, uses_app_l. apply Hu1. lia.
  - apply uses_app_r, uses_app_r, uses_app_r, uses_app_l. apply Hu2. lia.
Qed.

Lemma block_code_allocates (l : list stmt) :
  Forall (fun s => forall base, allocates (Layout.stmt_code base s)) l ->
  forall base, allocates (Layout.block_code Layout.stmt_code base l).
Proof.
  induction 1 as [|s rest Hs _ IH]; intros base v c v' H Hv; simpl in H.
  - exact (allocates_none _ _ _ _ H Hv).
  - apply bind_Ok_inv in H as ([c1 v1] & H1 & H).
    apply bind_Ok_inv in H as ([c2 v2] & H2 & H). injection H as <- <-.
    apply (allocates_seq _ _ v (c1 ++ c2) v2 [] [] [] (Hs base) (IH _) Hv
             c1 v1 c2 H1 H2).
    cbn [app]. rewrite app_nil_r. reflexivity.
Qed.

Lemma stmt_code_allocates (s : stmt) : forall base, allocates (Layout.stmt_code base s).
Proof.
  induction s as [lvalue e | cond t e Ht He | cond b Hb] using stmt_induction;
    intros base v c v' H Hv; cbn [Layout.stmt_code] in H.
  - apply bind_Ok_inv in H as ([ce v1] & He & H).
    destruct (Layout.assign_code lvalue v1) as [ca v2] eqn:Ea. injection H as <- <-.
    apply (allocates_seq _ _ v (ce ++ ca) v2 [] [] []
             (expr_code_allocates e) (assign_code_allocates lvalue) Hv
             ce v1 ca He); [rewrite Ea; reflexivity|].
    cbn [app]. rewrite app_nil_r. reflexivity.
  - apply bind_Ok_inv in H as ([cc v1] & Hc & H).
    apply bind_Ok_inv in H as ([ct v2] & Hthen & H).
    pose proof (block_code_allocates t Ht) as Hbt.
    assert (Hno : forall slots vv,
              Ok (cc ++ slots ++ ct, vv) = Ok (c, v') -> vv = v2 ->
              tight v' /\ Layout.count v <= Layout.count v' /\
              forall k, Layout.count v <= k < Layout.count v' -> uses c k).
    { intros slots vv E ->. injection E as <- <-.
      apply (allocates_seq _ _ v _ v2 [] slots [] (expr_code_allocates cond)
               (Hbt _) Hv cc v1 ct Hc Hthen).
      cbn [app]. rewrite app_nil_r. reflexivity. }
    destruct e as [[|s0 es]|];
      [exact (Hno [_; _; _] _ H eq_refl) | | exact (Hno [_; _; _] _ H eq_refl)].
    apply bind_Ok_inv in H as ([ce v3] & Helse & H). injection H as <- <-.
    destruct (expr_code_allocates cond _ _ _ Hc Hv) as (Hv1 & Hle1 & Hu1).
    destruct (Hbt _ _ _ _ Hthen Hv1) as (Hv2 & Hle2 & Hu2).
    destruct (block_code_allocates _ He _ _ _ _ Helse Hv2) as (Hv3 & Hle3 & Hu3).
    split; [exact Hv3|]. split; [lia|]. intros k Hk.
    destruct (Z.lt_ge_cases k (Layout.count v1)) as [Hlt|Hge].
    { apply uses_app_l. apply Hu1. lia. }
    apply uses_app_r. apply (uses_app_r [_; _; _]).
    destruct (Z.lt_ge_cases k (Layout.count v2)) as [Hlt2|Hge2].
    { apply uses_app_l. apply Hu2. lia. }
    apply uses_app_r. apply (uses_app_r [_]). apply Hu3. lia.
  - apply bind_Ok_inv in H as ([cc v1] & Hc & H).
    apply bind_Ok_inv in H as ([cb v2] & Hbody & H). injection H as <- <-.
    destruct (expr_code_allocates cond _ _ _ Hc Hv) as (Hv1 & Hle1 & Hu1).
    destruct (block_code_allocates b Hb _ _ _ _ Hbody Hv1) as (Hv2 & Hle2 & Hu2).
    split; [exact Hv2|]. split; [lia|]. intros k Hk.
    destruct (Z.lt_ge_cases k (Layout.count v1)) as [Hlt|Hge].
    { apply uses_app_l. apply Hu1. lia. }
    apply uses_app_r. apply (uses_app_r [_; _; _]). apply uses_app_l. apply Hu2. lia.
Qed.

(** X7. The variable indices of the code generator are dense: after generate,
    the table gives each name an index of its own from 0 up to var_count - 1,
    every index below var_count belongs to a name, and some DLOAD or DWRITE of
    the code has it as operand. *)
Theorem X7_variables_dense (ast : program) (g : CodeGenerator.t) :
  CodeGenerator.generate ast = Ok g ->
  (forall name id, CodeGenerator.var_table g !! name = Some id ->
     0 <= id < CodeGenerator.var_count g) /\
  (forall n1 n2 id, CodeGenerator.var_table g !! n1 = Some id ->
     CodeGenerator.var_table g !! n2 = Some id -> n1 = n2) /\
  (forall k, 0 <= k < CodeGenerator.var_count g ->
     (exists name, CodeGenerator.var_table g !! name = Some k) /\
     exists i opcode,
       CodeGenerator.instructions g !! i = Some (opcode, k) /\
       (opcode = DLOAD \/ opcode = DWRITE)).
Proof.
  destruct ast as [statements]. unfold CodeGenerator.generate.
  rewrite generate_from_layout. intros H.
  apply bind_Ok_inv in H as ([c v] & Hc & H). injection H as <-.
  cbn [CodeGenerator.var_table CodeGenerator.var_count CodeGenerator.instructions].
  assert (H0 : tight (Layout.mk ∅ 0)).
  { repeat apply conj; cbn.
    - lia.
    - intros name id Hn. rewrite lookup_empty in Hn. discriminate.
    - intros n1 n2 id Hn. rewrite lookup_empty in Hn. discriminate.
    - intros k Hk. lia. }
  destruct (block_code_allocates statements
              ltac:(apply Forall_forall; intros s _; apply stmt_code_allocates)
              _ _ _ _ Hc H0) as ((_ & Hr & Hi & Hs) & _ & Hu).
  repeat apply conj; [exact Hr | exact Hi|].
  intros k Hk. split; [exact (Hs k Hk)|].
  exact (uses_app_l _ _ _ (Hu k Hk)).
Qed.

Lemma X7_variables_dense_witness :
  let table : gmap string Z := <["a" := 0]> ∅ in
  (forall name id, table !! name = Some id -> 0 <= id < 1) /\
  (forall n1 n2 id, table !! n1 = Some id -> table !! n2 = Some id -> n1 = n2) /\
  (forall k, 0 <= k < 1 ->
     (exists name, table !! name = Some k) /\
     exists i opcode,
       [(DSTORE, 1); (DWRITE, 0); (JUMP, HALT)] !! i = Some (opcode, k) /\
       (opcode = DLOAD \/ opcode = DWRITE)).
Proof.
  intros table.
  refine (X7_variables_dense
            (Program [AssignmentStatement (Identifier "a") (Literal "0x1")])
            (CodeGenerator.mk [(DSTORE, 1); (DWRITE, 0); (JUMP, HALT)] table 1) _).
  vm_compute. reflexivity.
Defined.

End DenseVariables.

(** * The VM across a run *)

Section VMFrame.

Import MandrillVM.

Lemma to_32bit_int_int32 (v : Z) : int32 (_to_32bit_int v).
Proof.
  rewrite to_32bit_int_truncate32. pose proof (truncate32_range v).
  unfold int32, INT32_MIN, INT32_MAX. lia.
Qed.

Lemma vm_frame_refl (vm : t) : vm_frame vm vm.
Proof.
  repeat apply conj; try reflexivity; try (intros H; exact H).
  - exists EmptyString. symmetry. apply string_app_empty.
  - exists EmptyString. reflexivity.
  - exists []. reflexivity.
Qed.

Lemma vm_frame_trans (a b c : t) : vm_frame a b -> vm_frame b c -> vm_frame a c.
Proof.
  intros (Hc1 & Hl1 & Hv1 & (o1 & Ho1) & (i1 & Hi1) & (t1 & Ht1))
         (Hc2 & Hl2 & Hv2 & (o2 & Ho2) & (i2 & Hi2) & (t2 & Ht2)).
  repeat apply conj.
  - congruence.
  - congruence.
  - intros H. exact (Hv2 (Hv1 H)).
  - exists (o1 +:+ o2). rewrite Ho2, Ho1. apply string_app_assoc.
  - exists (i1 +:+ i2). rewrite Hi1, Hi2. symmetry. apply string_app_assoc.
  - exists (t1 ++ t2). rewrite Ht1, Ht2. apply app_assoc.
Qed.

(** Changing the stack and [pc] only. *)
Lemma vm_frame_stack_pc (vm vm' : t) :
  variables vm' = variables vm -> code vm' = code vm ->
  input_tokens vm' = input_tokens vm -> input_chars vm' = input_chars vm ->
  output vm' = output vm -> vm_frame vm vm'.
Proof.
  intros Hv Hc Ht Hi Ho. unfold vm_frame. rewrite Hv, Hc, Ht, Hi, Ho.
  apply vm_frame_refl.
Qed.

Lemma get_next_int_suffix (tokens : list string) :
  exists read, tokens = read ++ (_get_next_int tokens).2.
Proof.
  induction tokens as [|tok rest (read & IH)]; [exists []; reflexivity|].
  simpl. destruct (Py.int tok).
  - exists [tok]. reflexivity.
  - exists (tok :: read). simpl. rewrite <- IH. reflexivity.
Qed.

Lemma set_index_length {A : Type} (l l' : list A) (i : Z) (x : A) :
  Py.set_index l i x = Some l' -> length l' = length l.
Proof.
  unfold Py.set_index. destruct (0 <=? i).
  - destruct (i <? _); [|discriminate]. intros [= <-]. apply length_insert.
  - destruct (0 <=? _); [|discriminate]. intros [= <-]. apply length_insert.
Qed.

Lemma set_index_Forall {A : Type} (P : A -> Prop) (l l' : list A) (i : Z) (x : A) :
  Py.set_index l i x = Some l' -> P x -> Forall P l -> Forall P l'.
Proof.
  unfold Py.set_index. intros H Hx Hl. destruct (0 <=? i).
  - destruct (i <? _); [|discriminate]. injection H as <-.
    apply Forall_insert; assumption.
  - destruct (0 <=? _); [|discriminate]. injection H as <-.
    apply Forall_insert; assumption.
Qed.

Lemma dispatch_frame (opcode operand : Z) (vm vm' : t) (halted : bool) :
  dispatch opcode operand vm = Ok (halted, vm') -> vm_frame vm vm'.
Proof.
  unfold dispatch. intros Hd.
  destruct (opcode =? NOP); [injection Hd as _ <-; apply vm_frame_refl|].
  destruct (opcode =? DSTORE);
    [injection Hd as _ <-; apply vm_frame_stack_pc; reflexivity|].
  destruct (opcode =? DLOAD).
  { apply bind_Ok_inv in Hd as (vm2 & Hd & H). injection H as _ <-.
    unfold handle_dload in Hd.
    destruct (Py.index (variables vm) operand); [|discriminate].
    injection Hd as <-. apply vm_frame_stack_pc; reflexivity. }
  destruct (opcode =? DWRITE).
  { apply bind_Ok_inv in Hd as (vm2 & Hd & H). injection H as _ <-.
    unfold handle_dwrite in Hd. destruct (stack vm) as [|top rest]; [discriminate|].
    cbn [variables set_stack] in Hd.
    destruct (Py.set_index (variables vm) operand (_to_32bit_int top)) as [vars|] eqn:Es;
      [|discriminate].
    injection Hd as <-. repeat apply conj; cbn.
    - reflexivity.
    - exact (set_index_length _ _ _ _ Es).
    - exact (set_index_Forall int32 _ _ _ _ Es (to_32bit_int_int32 top)).
    - exists EmptyString. symmetry. apply string_app_empty.
    - exists EmptyString. reflexivity.
    - exists []. reflexivity. }
  destruct (opcode =? EVAL).
  { apply bind_Ok_inv in Hd as (vm2 & Hd & H). injection H as _ <-.
    unfold execute_eval_optimized in Hd.
    destruct (operand =? OP_COND_JUMP).
    - destruct (stack vm) as [|a [|b [|c rest]]]; try discriminate.
      injection Hd as <-. apply vm_frame_stack_pc; reflexivity.
    - destruct (stack vm) as [|a [|b rest]]; try discriminate.
      apply bind_Ok_inv in Hd as (r & _ & H). injection H as <-.
      apply vm_frame_stack_pc; reflexivity. }
  destruct (opcode =? JUMP).
  { unfold handle_jump in Hd.
    destruct (operand =? HALT); injection Hd as _ <-;
      [apply vm_frame_refl | apply vm_frame_stack_pc; reflexivity]. }
  destruct (opcode =? GETI).
  { injection Hd as _ <-. unfold handle_geti.
    destruct (get_next_int_suffix (input_tokens vm)) as (read & Hr).
    destruct (_get_next_int _) as [v rest]. cbn [snd] in Hr.
    repeat apply conj; cbn; try reflexivity; try (intros H; exact H).
    - exists EmptyString. symmetry. apply string_app_empty.
    - exists EmptyString. reflexivity.
    - exists read. exact Hr. }
  destruct (opcode =? GETC).
  { injection Hd as _ <-. unfold handle_getc, _get_next_char.
    destruct (input_chars vm) as [|c rest] eqn:Ei.
    - apply vm_frame_stack_pc; try reflexivity. cbn. symmetry. exact Ei.
    - repeat apply conj; cbn; try reflexivity; try (intros H; exact H).
      + exists EmptyString. symmetry. apply string_app_empty.
      + exists (String c EmptyString). rewrite Ei. reflexivity.
      + exists []. reflexivity. }
  destruct (opcode =? PUTI).
  { apply bind_Ok_inv in Hd as (vm2 & Hd & H). injection H as _ <-.
    unfold handle_puti in Hd. destruct (stack vm); [discriminate|].
    injection Hd as <-.
    repeat apply conj; cbn; try reflexivity; try (intros H; exact H).
    - eexists. reflexivity.
    - exists EmptyString. reflexivity.
    - exists []. reflexivity. }
  destruct (opcode =? PUTC); [|discriminate].
  apply bind_Ok_inv in Hd as (vm2 & Hd & H). injection H as _ <-.
  unfold handle_putc in Hd. destruct (stack vm); [discriminate|].
  destruct (_ && _); injection Hd as <-.
  - repeat apply conj; cbn; try reflexivity; try (intros H; exact H).
    + eexists. reflexivity.
    + exists EmptyString. reflexivity.
    + exists []. reflexivity.
  - apply vm_frame_stack_pc; reflexivity.
Qed.

Lemma step_frame (vm vm' : t) (halted : bool) :
  step vm = Ok (halted, vm') -> vm_frame vm vm'.
Proof.
  unfold step. destruct (Py.index (code vm) (pc vm)) as [[opcode operand]|];
    [|discriminate].
  intros H. apply bind_Ok_inv in H as ([h vm1] & Hd & H).
  apply dispatch_frame in Hd.
  destruct h; injection H as _ <-; [exact Hd|].
  eapply vm_frame_trans; [exact Hd|]. apply vm_frame_stack_pc; reflexivity.
Qed.

Lemma run_loop_frame (fuel : nat) :
  forall vm vm', run_loop fuel vm = Ok vm' -> vm_frame vm vm'.
Proof.
  induction fuel as [|f IH]; intros vm vm' H; simpl in H.
  - destruct (_ <? _); [discriminate|]. injection H as <-. apply vm_frame_refl.
  - destruct (_ <? _); [|injection H as <-; apply vm_frame_refl].
    apply bind_Ok_inv in H as ([h vm1] & Hs & H). apply step_frame in Hs.
    destruct h; [injection H as <-; exact Hs|].
    eapply vm_frame_trans; [exact Hs | exact (IH _ _ H)].
Qed.

End VMFrame.

Section VMTheorems.

Import MandrillVM.

(** X14. Whatever the bytecode file, after a load and a run that ends without
    exception the code is the code loaded, the number of variables is the
    number the loader set up, and every variable holds a signed 32-bit value.
    *)
Theorem X14_variables_int32 (fuel : nat) (file : list byte) (vm0 vm vm' : t) :
  load_bytecode file vm0 = Ok vm ->
  run fuel vm = Ok vm' ->
  code vm' = code vm /\
  length (variables vm') = length (variables vm) /\
  Forall int32 (variables vm').
Proof.
  intros Hl Hr. unfold run in Hr. apply run_loop_frame in Hr.
  destruct Hr as (Hc & Hlen & Hv & _). cbn in Hc, Hlen, Hv.
  repeat apply conj; [exact Hc | exact Hlen |]. apply Hv.
  apply load_bytecode_variables in Hl as (d & _ & ->).
  apply Forall_replicate. unfold int32, INT32_MIN, INT32_MAX. lia.
Qed.

Lemma X14_variables_int32_witness :
  Forall int32 [-2147483648].
Proof.
  refine (proj2 (proj2 (X14_variables_int32 10
    (MAGIC ++ [x00; x00; x00; x01; x00; x00; x00; x04; x00; x00; x00; x18;
               x00; x00; x00; x00;
               x00; x00; x00; x01; x80; x00; x00; x00;
               x00; x00; x00; x03; x00; x00; x00; x00;
               x00; x00; x00; x06; xff; xff; xff; xff])%list
    (new "")
    (mk [] [0] [(DSTORE, 2147483648); (DWRITE, 0); (JUMP, HALT)] 0 [] "" "")
    (mk [] [-2147483648] [(DSTORE, 2147483648); (DWRITE, 0); (JUMP, HALT)] 2 [] "" "")
    _ _))).
  - apply (write_then_load [(DSTORE, 2147483648); (DWRITE, 0); (JUMP, HALT)] 1).
    vm_compute. reflexivity.
  - vm_compute. reflexivity.
Defined.

(** X15. A run of the VM only appends to the output and only takes input from
    the front: the output after the run starts with the output before, the
    characters and the tokens left to read are a suffix of those before. *)
Theorem X15_run_output_input (fuel : nat) (vm vm' : t) :
  run fuel vm = Ok vm' ->
  (exists printed, output vm' = output vm +:+ printed) /\
  (exists read, input_chars vm = read +:+ input_chars vm') /\
  (exists read, input_tokens vm = read ++ input_tokens vm').
Proof.
  intros Hr. unfold run in Hr. apply run_loop_frame in Hr.
  destruct Hr as (_ & _ & _ & Ho & Hi & Ht). cbn in Ho, Hi, Ht.
  repeat apply conj; assumption.
Qed.

Lemma X15_run_output_input_witness :
  (exists printed, "12" = "" +:+ printed) /\
  (exists read, "12 x" = read +:+ " x") /\
  (exists read, ["12"; "x"] = read ++ ["x"]).
Proof.
  apply (X15_run_output_input 10
           (mk [] [] [(GETI, 0); (PUTI, 0); (GETC, 0); (GETC, 0); (JUMP, HALT)] 0
               ["12"; "x"] "12 x" "")
           (mk [50; 49] [] [(GETI, 0); (PUTI, 0); (GETC, 0); (GETC, 0); (JUMP, HALT)] 4
               ["x"] " x" "12")).
  vm_compute. reflexivity.
Defined.

(** X11. _to_32bit_int returns the one value between INT32_MIN and INT32_MAX
    that is congruent to its argument modulo 2^32; applying it twice is
    applying it once. *)
Theorem X11_to_32bit_int (v : Z) :
  INT32_MIN <= _to_32bit_int v <= INT32_MAX /\
  (_to_32bit_int v - v) mod UINT32_MAX = 0 /\
  (forall w, INT32_MIN <= w <= INT32_MAX -> (w - v) mod UINT32_MAX = 0 ->
             w = _to_32bit_int v) /\
  _to_32bit_int (_to_32bit_int v) = _to_32bit_int v.
Proof.
  pose proof (to_32bit_int_int32 v) as Hr. unfold int32 in Hr.
  assert (Hc : (_to_32bit_int v - v) mod UINT32_MAX = 0).
  { rewrite to_32bit_int_truncate32. unfold truncate32, UINT32_MAX.
    change (2 ^ 32) with 4294967296. change (2 ^ 31) with 2147483648.
    pose proof (Z.div_mod (v + 2147483648) 4294967296 ltac:(lia)) as Hd.
    replace ((v + 2147483648) mod 4294967296 - 2147483648 - v)
      with (- ((v + 2147483648) / 4294967296) * 4294967296) by lia.
    apply Z.mod_mul. lia. }
  repeat apply conj; [apply Hr | apply Hr | exact Hc | |].
  - intros w Hw Hwv. unfold INT32_MIN, INT32_MAX, UINT32_MAX in *.
    apply Z.mod_divide in Hc; [|lia]. apply Z.mod_divide in Hwv; [|lia].
    destruct Hc as (a & Ha). destruct Hwv as (b & Hb). lia.
  - rewrite !to_32bit_int_truncate32. apply truncate32_small.
    apply truncate32_range.
Qed.


(** X13. The fallback execute_eval and execute_eval_optimized give the same
    result (the same machine or the same exception) whenever the stack holds
    the operands, three for COND_JUMP and two for any other operand; on a
    shorter stack execute_eval raises its own exception and
    execute_eval_optimized an IndexError. *)
Theorem X13_execute_eval_agree (operand : Z) (vm : t) :
  ((eval_arity operand <= length (stack vm))%nat ->
   execute_eval operand vm = execute_eval_optimized operand vm) /\
  ((length (stack vm) < eval_arity operand)%nat ->
   execute_eval_optimized operand vm = Err IndexError /\
   exists msg, execute_eval operand vm = Err (VMError msg)).
Proof.
  unfold eval_arity, execute_eval, execute_eval_optimized.
  destruct (operand =? OP_COND_JUMP) eqn:Ecj.
  - split; intros Hlen.
    + destruct (stack vm) as [|a [|b [|c rest]]]; simpl in Hlen; try lia.
      reflexivity.
    + destruct (stack vm) as [|a [|b [|c rest]]]; simpl in Hlen; try lia;
        (split; [reflexivity | eexists; reflexivity]).
  - split; intros Hlen.
    + destruct (stack vm) as [|rhs [|lhs rest]]; simpl in Hlen; try lia.
      cbn [length Nat.ltb Nat.leb]. f_equal.
      destruct (Z.eqb_spec operand OP_MUL) as [->|Hmul].
      { change (OP_MUL =? OP_ADD) with false. change (OP_MUL =? OP_SUB) with false.
        cbv iota. symmetry. apply mul_shortcuts. }
      destruct (operand =? OP_ADD); [reflexivity|].
      destruct (operand =? OP_SUB); [reflexivity|].
      destruct (operand =? OP_DIV); [reflexivity|].
      destruct (operand =? OP_MOD); [reflexivity|].
      destruct (Z.eqb_spec operand OP_GT) as [->|Hgt]; [reflexivity|].
      destruct (Z.eqb_spec operand OP_LT) as [->|Hlt]; [reflexivity|].
      destruct (Z.eqb_spec operand OP_GE) as [->|Hge]; [reflexivity|].
      destruct (Z.eqb_spec operand OP_LE) as [->|Hle]; [reflexivity|].
      destruct (operand =? OP_EQ); [reflexivity|].
      destruct (operand =? OP_NE); reflexivity.
    + destruct (stack vm) as [|rhs [|lhs rest]]; simpl in Hlen; try lia;
        (split; [reflexivity | eexists; reflexivity]).
Qed.

(** X12. _get_next_int skips the tokens that int rejects and returns the value
    of the first token that int reads, leaving the tokens after it; when int
    reads no token it returns 0 and leaves no token. *)
Theorem X12_get_next_int (tokens : list string) :
  exists skipped,
    Forall (fun token => Py.int token = Err ValueError) skipped /\
    ((exists token, tokens = skipped ++ token :: (_get_next_int tokens).2 /\
                    Py.int token = Ok (_get_next_int tokens).1) \/
     (tokens = skipped /\ _get_next_int tokens = (0, []))).
Proof.
  induction tokens as [|tok rest (skipped & Hall & IH)].
  - exists []. split; [constructor | right; split; reflexivity].
  - cbn [_get_next_int]. destruct (Py.int tok) as [v|e] eqn:Ev.
    + exists []. split; [constructor|]. left. exists tok. split; [reflexivity | exact Ev].
    + assert (e = ValueError) as ->.
      { unfold Py.int in Ev. destruct (Py.int_of_string 10 tok); [discriminate|].
        injection Ev as <-. reflexivity. }
      exists (tok :: skipped). split; [constructor; assumption|].
      destruct IH as [(token & Ht & Hv) | (Ht & Hn)].
      * left. exists token. split; [|exact Hv]. simpl. rewrite <- Ht. reflexivity.
      * right. split; [rewrite Ht; reflexivity | exact Hn].
Qed.


Lemma unpack_I_range (b : list byte) (x : Z) : Struct.unpack_I b = Ok x -> u32 x.
Proof.
  unfold Struct.unpack_I.
  destruct b as [|b3 [|b2 [|b1 [|b0 [|]]]]]; try discriminate.
  intros [= <-].
  pose proof (Z_of_byte_range b3). pose proof (Z_of_byte_range b2).
  pose proof (Z_of_byte_range b1). pose proof (Z_of_byte_range b0).
  rewrite (lor_shiftl_small _ _ 8) by lia.
  rewrite (lor_shiftl_small _ _ 16)
    by (change (2 ^ 16) with 65536; change (2 ^ 8) with 256; lia).
  rewrite (lor_shiftl_small _ _ 24)
    by (change (2 ^ 24) with 16777216; change (2 ^ 16) with 65536;
        change (2 ^ 8) with 256; lia).
  unfold u32. change (2 ^ 32) with 4294967296. change (2 ^ 24) with 16777216.
  change (2 ^ 16) with 65536. change (2 ^ 8) with 256. lia.
Qed.

Lemma unpack_II_range (b : list byte) (x y : Z) :
  Struct.unpack_II b = Ok (x, y) -> u32 x /\ u32 y.
Proof.
  unfold Struct.unpack_II. destruct (Nat.eqb _ _); [|discriminate]. intros H.
  apply bind_Ok_inv in H as (x' & Hx & H).
  apply bind_Ok_inv in H as (y' & Hy & H). injection H as <- <-.
  split; [exact (unpack_I_range _ _ Hx) | exact (unpack_I_range _ _ Hy)].
Qed.

Lemma unpack_II_length (b : list byte) (i : instruction) :
  Struct.unpack_II b = Ok i -> length b = 8%nat.
Proof.
  unfold Struct.unpack_II. destruct (Nat.eqb_spec (length b) 8); [|discriminate].
  intros _. assumption.
Qed.

Lemma decode_range (n : nat) :
  forall (code_bytes : list byte) (code : list instruction),
    decode n code_bytes = Ok code ->
    length code = n /\ Forall (fun i => u32 i.1 /\ u32 i.2) code /\
    (8 * n <= length code_bytes)%nat.
Proof.
  induction n as [|n IH]; intros code_bytes code H; simpl in H.
  - injection H as <-. repeat apply conj; [reflexivity | constructor | lia].
  - apply bind_Ok_inv in H as ([x y] & Hi & H).
    apply bind_Ok_inv in H as (rest & Hr & H). injection H as <-.
    destruct (IH _ _ Hr) as (Hlen & Hall & Hb).
    pose proof (unpack_II_length _ _ Hi) as H8.
    rewrite length_take in H8. rewrite length_drop in Hb.
    repeat apply conj; [simpl; lia | | lia].
    constructor; [exact (unpack_II_range _ _ _ Hi) | exact Hall].
Qed.

(** X10. What load_bytecode accepts and what it leaves in the machine: when it
    returns, the file starts with the 16 bytes of the magic and the version 1,
    it holds the 8 bytes of every instruction loaded (or no instruction is
    loaded), the stack is empty, every variable is 0, every opcode and operand
    is an unsigned 32-bit value, and pc, the input and the output are
    untouched. *)
Theorem X10_load_bytecode (file : list byte) (vm vm' : t) :
  load_bytecode file vm = Ok vm' ->
  take 16 file = MAGIC /\
  Struct.unpack_I (take 4 (drop 16 file)) = Ok 1 /\
  (32 + 8 * length (code vm') <= length file \/ code vm' = [])%nat /\
  stack vm' = [] /\
  Forall (fun v => v = 0) (variables vm') /\
  Forall (fun i => u32 i.1 /\ u32 i.2) (code vm') /\
  pc vm' = pc vm /\ input_tokens vm' = input_tokens vm /\
  input_chars vm' = input_chars vm /\ output vm' = output vm.
Proof.
  unfold load_bytecode, read. intros H.
  destruct (bool_decide (take (Z.to_nat 16) file = MAGIC)) eqn:Em; [|discriminate].
  apply bool_decide_eq_true in Em. cbn [negb] in H.
  apply bind_Ok_inv in H as (version & Hv & H).
  destruct (Z.eqb_spec version 1) as [->|]; [|discriminate]. cbn [negb] in H.
  apply bind_Ok_inv in H as (data_size & Hd & H).
  apply bind_Ok_inv in H as (code_size & Hcs & H).
  apply bind_Ok_inv in H as (instrs & Hc & H).
  injection H as <-. cbn [stack variables code pc input_tokens input_chars output].
  apply decode_range in Hc as (Hlen & Hall & Hb).
  repeat apply conj; try reflexivity.
  - exact Em.
  - exact Hv.
  - destruct instrs as [|i instrs]; [right; reflexivity|]. left.
    rewrite length_take, !length_drop in Hb. simpl in Hlen |- *. lia.
  - apply Forall_replicate. reflexivity.
  - exact Hall.
Qed.

Lemma X10_load_bytecode_witness :
  take 16 (MAGIC ++ [x00; x00; x00; x01; x00; x00; x00; x04; x00; x00; x00; x08;
                     x00; x00; x00; x00;
                     x00; x00; x00; x06; xff; xff; xff; xff])%list = MAGIC.
Proof.
  refine (proj1 (X10_load_bytecode _ (new "")
                   (mk [] [0] [(JUMP, HALT)] 0 (Py.split "") "" "") _)).
  apply (write_then_load [(JUMP, HALT)] 1). vm_compute. reflexivity.
Defined.

End VMTheorems.

Section PrintedText.

Import Shape.
Import Printed.

Lemma all_chars_app (p : ascii -> bool) (a b : string) :
  all_chars p a = true -> all_chars p b = true -> all_chars p (a +:+ b) = true.
Proof.
  intros Ha Hb. induction a as [|c a IH]; [exact Hb|].
  simpl in Ha. apply andb_true_iff in Ha as [Hc Ha].
  rewrite string_app_cons. simpl. rewrite Hc. exact (IH Ha).
Qed.

Lemma string_of_uint_ascii (d : Decimal.uint) :
  all_chars ascii7 (NilEmpty.string_of_uint d) = true.
Proof. induction d; simpl; try exact IHd; reflexivity. Qed.

Lemma str_ascii (v : Z) : all_chars ascii7 (Py.str v) = true.
Proof.
  unfold Py.str, NilZero.string_of_int, NilZero.string_of_uint.
  destruct (Z.to_int v) as [d|d].
  - destruct d; try reflexivity; apply (string_of_uint_ascii (_ d)).
  - simpl. destruct d; try reflexivity; apply (string_of_uint_ascii (_ d)).
Qed.

Lemma chr_ascii (v : Z) :
  (0 <=? v) && (v <=? 127) = true ->
  all_chars ascii7 (String (Py.chr v) EmptyString) = true.
Proof.
  intros H. apply andb_true_iff in H as [H0 H1].
  apply Z.leb_le in H0. apply Z.leb_le in H1.
  simpl. rewrite andb_true_r. unfold ascii7, Py.ord, Py.chr.
  rewrite N_ascii_embedding by lia. apply Z.leb_le. lia.
Qed.

End PrintedText.

Section VMPrinted.

Import Shape.
Import Printed.
Import MandrillVM.

Lemma dispatch_printed (opcode operand : Z) (vm vm' : t) (halted : bool) :
  dispatch opcode operand vm = Ok (halted, vm') ->
  exists printed, vm_printed printed vm vm' /\ all_chars ascii7 printed = true.
Proof.
  unfold dispatch, vm_printed. intros Hd.
  assert (Hsame : forall vm2, output vm2 = output vm ->
            exists printed, output vm2 = output vm +:+ printed /\
                            all_chars ascii7 printed = true).
  { intros vm2 ->. exists EmptyString. split; [|reflexivity].
    symmetry. apply string_app_empty. }
  destruct (opcode =? NOP); [injection Hd as _ <-; apply Hsame; reflexivity|].
  destruct (opcode =? DSTORE); [injection Hd as _ <-; apply Hsame; reflexivity|].
  destruct (opcode =? DLOAD).
  { apply bind_Ok_inv in Hd as (vm2 & Hd & H). injection H as _ <-.
    unfold handle_dload in Hd.
    destruct (Py.index (variables vm) operand); [|discriminate].
    injection Hd as <-. apply Hsame. reflexivity. }
  destruct (opcode =? DWRITE).
  { apply bind_Ok_inv in Hd as (vm2 & Hd & H). injection H as _ <-.
    unfold handle_dwrite in Hd. destruct (stack vm) as [|top rest]; [discriminate|].
    cbn [variables set_stack] in Hd.
    destruct (Py.set_index _ _ _); [|discriminate].
    injection Hd as <-. apply Hsame. reflexivity. }
  destruct (opcode =? EVAL).
  { apply bind_Ok_inv in Hd as (vm2 & Hd & H). injection H as _ <-.
    unfold execute_eval_optimized in Hd.
    destruct (operand =? OP_COND_JUMP).
    - destruct (stack vm) as [|a [|b [|c rest]]]; try discriminate.
      injection Hd as <-. apply Hsame. reflexivity.
    - destruct (stack vm) as [|a [|b rest]]; try discriminate.
      apply bind_Ok_inv in Hd as (r & _ & H). injection H as <-.
      apply Hsame. reflexivity. }
  destruct (opcode =? JUMP).
  { unfold handle_jump in Hd.
    destruct (operand =? HALT); injection Hd as _ <-; apply Hsame; reflexivity. }
  destruct (opcode =? GETI).
  { injection Hd as _ <-. unfold handle_geti.
    destruct (_get_next_int _) as [v rest]. apply Hsame. reflexivity. }
  destruct (opcode =? GETC).
  { injection Hd as _ <-. unfold handle_getc.
    destruct (_get_next_char _) as [v rest]. apply Hsame. reflexivity. }
  destruct (opcode =? PUTI).
  { apply bind_Ok_inv in Hd as (vm2 & Hd & H). injection H as _ <-.
    unfold handle_puti in Hd. destruct (stack vm) as [|top rest]; [discriminate|].
    injection Hd as <-. eexists. split; [reflexivity | apply str_ascii]. }
  destruct (opcode =? PUTC); [|discriminate].
  apply bind_Ok_inv in Hd as (vm2 & Hd & H). injection H as _ <-.
  unfold handle_putc in Hd. destruct (stack vm) as [|top rest]; [discriminate|].
  destruct (_ && _) eqn:E; injection Hd as <-.
  - eexists. split; [reflexivity | exact (chr_ascii _ E)].
  - apply Hsame. reflexivity.
Qed.

Lemma run_loop_printed (fuel : nat) :
  forall vm vm', run_loop fuel vm = Ok vm' ->
    exists printed, vm_printed printed vm vm' /\ all_chars ascii7 printed = true.
Proof.
  assert (Hrefl : forall vm, exists printed,
            vm_printed printed vm vm /\ all_chars ascii7 printed = true).
  { intros vm. exists EmptyString. split; [|reflexivity].
    unfold vm_printed. symmetry. apply string_app_empty. }
  induction fuel as [|f IH]; intros vm vm' H; simpl in H.
  - destruct (_ <? _); [discriminate|]. injection H as <-. apply Hrefl.
  - destruct (_ <? _); [|injection H as <-; apply Hrefl].
    apply bind_Ok_inv in H as ([h vm1] & Hs & H).
    assert (H1 : exists printed, vm_printed printed vm vm1 /\
                                 all_chars ascii7 printed = true).
    { unfold step in Hs.
      destruct (Py.index (code vm) (pc vm)) as [[opcode operand]|]; [|discriminate].
      apply bind_Ok_inv in Hs as ([h' vm2] & Hd & Hs).
      apply dispatch_printed in Hd as (printed & Hp & Ha).
      exists printed. split; [|exact Ha].
      destruct h'; injection Hs as _ <-; exact Hp. }
    destruct h; [injection H as <-; exact H1|].
    destruct H1 as (p1 & Hp1 & Ha1).
    destruct (IH _ _ H) as (p2 & Hp2 & Ha2).
    exists (p1 +:+ p2). split; [|exact (all_chars_app _ _ _ Ha1 Ha2)].
    unfold vm_printed in *. rewrite Hp2, Hp1. apply string_app_assoc.
Qed.

(** X23. A run of the VM that ends without exception only appends to the
    output, and every character it appends has a code of at most 127: PUTI
    prints the decimal numeral of a 32-bit value, and PUTC prints a character
    only for a value from 0 to 127. *)
Theorem X23_vm_prints_ascii (fuel : nat) (vm vm' : t) :
  run fuel vm = Ok vm' ->
  exists printed,
    output vm' = output vm +:+ printed /\ all_chars ascii7 printed = true.
Proof. intros H. exact (run_loop_printed fuel _ _ H). Qed.

Lemma X23_vm_prints_ascii_witness :
  exists printed,
    "A-7" = "" +:+ printed /\ all_chars ascii7 printed = true.
Proof.
  apply (X23_vm_prints_ascii 10
           (mk [] [] [(DSTORE, 65); (PUTC, 0); (DSTORE, 4294967289); (PUTI, 0);
                      (JUMP, HALT)] 0 [] "" "")
           (mk [] [] [(DSTORE, 65); (PUTC, 0); (DSTORE, 4294967289); (PUTI, 0);
                      (JUMP, HALT)] 4 [] "" "A-7")).
  vm_compute. reflexivity.
Defined.

End VMPrinted.

(** * Safety of generated code on the VM *)

Section Dynamic.

Import MandrillVM.
Import Safety.
#[local] Abbreviation addr := CodeGenerator.addr.

Lemma run_depth_app (a b : list instruction) (d : nat) :
  run_depth (a ++ b) d = run_depth b (run_depth a d).
Proof. unfold run_depth. apply fold_left_app. Qed.

Lemma depth_at_S (code : list instruction) (k : nat) (i : instruction) :
  code !! k = Some i -> depth_at code (S k) = effect i (depth_at code k).
Proof.
  intros H. unfold depth_at. rewrite (take_S_r _ _ _ H), run_depth_app. reflexivity.
Qed.

Lemma effect_push (opcode operand : Z) (d : nat) :
  pushes opcode -> effect (opcode, operand) d = S d.
Proof. intros [-> | [-> | [-> | ->]]]; reflexivity. Qed.

Lemma effect_pop (opcode operand : Z) (d : nat) :
  pops opcode -> effect (opcode, operand) d = pred d.
Proof. intros [-> | [-> | ->]]; reflexivity. Qed.

Lemma binop_not_cond_jump (operand : Z) : binop operand -> operand <> OP_COND_JUMP.
Proof.
  unfold binop. simpl. intros H ->.
  repeat (destruct H as [H|H]; [discriminate H|]). exact H.
Qed.

Lemma effect_binop (operand : Z) (d : nat) :
  binop operand -> effect (EVAL, operand) d = pred d.
Proof.
  intros H. apply binop_not_cond_jump in H. unfold effect. cbn [fst snd].
  change (EVAL =? DSTORE) with false. change (EVAL =? DLOAD) with false.
  change (EVAL =? GETI) with false. change (EVAL =? GETC) with false.
  change (EVAL =? DWRITE) with false. change (EVAL =? PUTI) with false.
  change (EVAL =? PUTC) with false. change (EVAL =? EVAL) with true. cbn [orb].
  destruct (Z.eqb_spec operand OP_COND_JUMP); [contradiction | reflexivity].
Qed.

(** A position that follows a [DSTORE] is no target. *)
Lemma after_dstore_not_target (code : list instruction) (j : nat) (a : Z) :
  code !! j = Some (DSTORE, a) -> depth_at code (S j) <> 0%nat.
Proof. intros H. rewrite (depth_at_S _ _ _ H). discriminate. Qed.

Lemma addr_div (p : nat) : addr p / 8 = Z.of_nat p.
Proof. unfold CodeGenerator.addr. apply Z.div_mul. lia. Qed.

Lemma addr_not_halt (p : nat) : addr p <> HALT.
Proof. unfold CodeGenerator.addr, HALT. lia. Qed.


Lemma eval_binop_total (operand : Z) (vm : t) (rhs lhs : Z) (rest : list Z) :
  binop operand -> stack vm = rhs :: lhs :: rest ->
  (exists r, execute_eval_optimized operand vm = Ok (set_stack (r :: rest) vm)) \/
  execute_eval_optimized operand vm = Err (VMError "Division by zero").
Proof.
  intros Hop Hst. unfold execute_eval_optimized. rewrite Hst.
  unfold binop in Hop. simpl in Hop.
  destruct Hop as [<-|[<-|[<-|[<-|[<-|[<-|[<-|[<-|[<-|[<-|[<-|[]]]]]]]]]]]].
  - left. eexists. reflexivity.
  - left. eexists. reflexivity.
  - left. exists (lhs * rhs).
    change (OP_MUL =? OP_COND_JUMP) with false. change (OP_MUL =? OP_MUL) with true.
    cbv iota. rewrite mul_shortcuts. reflexivity.
  - change (OP_DIV =? OP_COND_JUMP) with false. change (OP_DIV =? OP_MUL) with false.
    change (OP_DIV =? OP_ADD) with false. change (OP_DIV =? OP_SUB) with false.
    change (OP_DIV =? OP_DIV) with true. cbv iota.
    destruct (rhs =? 0); [right; reflexivity | left; eexists; reflexivity].
  - change (OP_MOD =? OP_COND_JUMP) with false. change (OP_MOD =? OP_MUL) with false.
    change (OP_MOD =? OP_ADD) with false. change (OP_MOD =? OP_SUB) with false.
    change (OP_MOD =? OP_DIV) with false. change (OP_MOD =? OP_MOD) with true.
    cbv iota. destruct (rhs =? 0); [right; reflexivity | left; eexists; reflexivity].
  - left. eexists. reflexivity.
  - left. eexists. reflexivity.
  - left. eexists. reflexivity.
  - left. eexists. reflexivity.
  - left. eexists. reflexivity.
  - left. eexists. reflexivity.
Qed.

(** The state after an instruction that goes on to the next position. *)
Lemma inv_next (code : list instruction) (k : nat) (vm vm' : t)
  (opcode operand : Z) :
  inv code k vm -> code !! k = Some (opcode, operand) ->
  MandrillVM.code vm' = code -> pc vm' = pc vm + 1 ->
  length (stack vm') = effect (opcode, operand) (length (stack vm)) ->
  (opcode = DSTORE -> stack vm' = operand :: stack vm) ->
  inv code (S k) vm'.
Proof.
  intros [Hc Hpc Hb Hd Ht Ht2] Hk Hc' Hpc' Hlen Hst.
  constructor.
  - exact Hc'.
  - rewrite Hpc', Hpc. lia.
  - apply lookup_lt_Some in Hk. lia.
  - rewrite (depth_at_S _ _ _ Hk), Hlen, Hd. reflexivity.
  - intros j a [= <-] Hj. rewrite Hk in Hj. injection Hj as -> ->.
    exists (stack vm). exact (Hst eq_refl).
  - intros j a b [= ->] Hj Hj'. rewrite Hk in Hj'. injection Hj' as -> ->.
    destruct (Ht j b eq_refl Hj) as (rest & Hrest).
    exists rest. rewrite (Hst eq_refl), Hrest. reflexivity.
Qed.

(** The state after a jump to a target. *)
Lemma inv_target (code : list instruction) (p : nat) (vm' : t) :
  target code p -> MandrillVM.code vm' = code -> pc vm' = Z.of_nat p ->
  stack vm' = [] -> inv code p vm'.
Proof.
  intros [Hb Hd] Hc Hpc Hst. constructor.
  - exact Hc.
  - exact Hpc.
  - exact Hb.
  - rewrite Hst, Hd. reflexivity.
  - intros j a -> Hj. exfalso. exact (after_dstore_not_target _ _ _ Hj Hd).
  - intros j a b -> _ Hj. exfalso. exact (after_dstore_not_target _ _ _ Hj Hd).
Qed.

Lemma index_in_range {A : Type} (l : list A) (i : Z) :
  0 <= i < Z.of_nat (length l) -> exists x, Py.index l i = Some x.
Proof.
  intros H. rewrite index_nonneg by lia.
  apply lookup_lt_is_Some_2. lia.
Qed.

Lemma set_index_in_range {A : Type} (l : list A) (i : Z) (x : A) :
  0 <= i < Z.of_nat (length l) -> exists l', Py.set_index l i x = Some l'.
Proof.
  intros H. unfold Py.set_index.
  destruct (Z.leb_spec 0 i); [|lia]. destruct (Z.ltb_spec i (Z.of_nat (length l))); [|lia].
  eexists. reflexivity.
Qed.

Lemma ok_instr_cases (code : list instruction) (k : nat) (opcode operand : Z) :
  ok_instr code k (opcode, operand) ->
  pushes opcode \/
  (pops opcode /\ (1 <= depth_at code k)%nat) \/
  (opcode = EVAL /\ binop operand /\ (2 <= depth_at code k)%nat) \/
  (opcode = EVAL /\ operand = OP_COND_JUMP /\
   exists j p q, k = S (S j) /\ code !! j = Some (DSTORE, addr p) /\
                 code !! S j = Some (DSTORE, addr q) /\
                 depth_at code k = 3%nat /\ target code p /\ target code q) \/
  (opcode = JUMP /\ operand = HALT) \/
  (opcode = JUMP /\ exists p, operand = addr p /\ depth_at code k = 0%nat /\
                               target code p).
Proof.
  inversion 1; subst.
  - left. assumption.
  - right. left. split; assumption.
  - right. right. left. repeat apply conj; [reflexivity | assumption | assumption].
  - right. right. right. left. repeat apply conj; [reflexivity | reflexivity|].
    match goal with
    | Hj : code !! ?j = Some (DSTORE, addr ?p),
      Hj' : code !! S ?j = Some (DSTORE, addr ?q) |- _ => exists j, p, q
    end.
    split; [reflexivity|]. do 4 (split; [assumption|]). assumption.
  - right. right. right. right. left. split; reflexivity.
  - right. right. right. right. right. split; [reflexivity|].
    eexists. split; [reflexivity|]. split; assumption.
Qed.

Section Step.

Variable code : list instruction.
Variable nvars : Z.
Hypothesis Htyped : well_typed code.
Hypothesis Hvars : Layout.vars_below nvars code.

Lemma var_in_range (k : nat) (opcode operand : Z) :
  code !! k = Some (opcode, operand) -> opcode = DLOAD \/ opcode = DWRITE ->
  0 <= operand < nvars.
Proof.
  intros Hk Hop. unfold Layout.vars_below in Hvars.
  rewrite Forall_lookup in Hvars. exact (Hvars _ _ Hk Hop).
Qed.

(** One turn of the main loop on well-typed code. *)
Lemma step_safe (k : nat) (vm : t) :
  inv code k vm -> (k < length code)%nat ->
  Z.of_nat (length (variables vm)) = nvars ->
  step vm = Err (VMError "Division by zero") \/
  (exists vm', step vm = Ok (true, vm')) \/
  (exists vm' k', step vm = Ok (false, vm') /\ inv code k' vm').
Proof.
  intros Hinv Hk Hlen. pose proof Hinv as [Hc Hpc Hb Hd Ht Ht2].
  destruct (lookup_lt_is_Some_2 code k Hk) as ([opcode operand] & Hi).
  assert (Hidx : Py.index (MandrillVM.code vm) (pc vm) = Some (opcode, operand)).
  { rewrite Hc, Hpc, index_nonneg by lia. rewrite Nat2Z.id. exact Hi. }
  unfold step. rewrite Hidx.
  destruct (ok_instr_cases _ _ _ _ (Htyped _ _ Hi))
    as [Hpush | [[Hpop Hdep] | [(-> & Hbin & Hdep) | [(-> & -> & j & p & q & -> & Hj & Hj' & Hdep & Hp & Hq)
        | [[-> ->] | (-> & p & -> & Hdep & Hp)]]]]].
  - (* push *)
    right. right.
    destruct Hpush as [-> | [-> | [-> | ->]]].
    + eexists _, (S k). split; [reflexivity|].
      apply (inv_next _ _ _ _ _ _ Hinv Hi);
        [exact Hc | reflexivity | reflexivity | reflexivity].
    + destruct (index_in_range (variables vm) operand) as (v & Hv).
      { rewrite Hlen. apply (var_in_range _ _ _ Hi). left. reflexivity. }
      change (dispatch DLOAD operand vm)
        with (do vm <- handle_dload operand vm; Ok (false, vm)).
      unfold handle_dload. rewrite Hv. cbn [bind].
      eexists _, (S k). split; [reflexivity|].
      apply (inv_next _ _ _ _ _ _ Hinv Hi);
        [exact Hc | reflexivity | reflexivity | discriminate].
    + change (dispatch GETI operand vm) with (Ok (false, handle_geti vm) : result _).
      cbn [bind]. unfold handle_geti. destruct (_get_next_int _) as [v rest].
      eexists _, (S k). split; [reflexivity|].
      apply (inv_next _ _ _ _ _ _ Hinv Hi);
        [exact Hc | reflexivity | reflexivity | discriminate].
    + change (dispatch GETC operand vm) with (Ok (false, handle_getc vm) : result _).
      cbn [bind]. unfold handle_getc. destruct (_get_next_char _) as [v rest].
      eexists _, (S k). split; [reflexivity|].
      apply (inv_next _ _ _ _ _ _ Hinv Hi);
        [exact Hc | reflexivity | reflexivity | discriminate].
  - (* pop *)
    right. right. rewrite <- Hd in Hdep.
    destruct (stack vm) as [|top rest] eqn:Est; [simpl in Hdep; lia|].
    destruct Hpop as [-> | [-> | ->]].
    + destruct (set_index_in_range (variables vm) operand (_to_32bit_int top))
        as (vars & Hv).
      { rewrite Hlen. apply (var_in_range _ _ _ Hi). right. reflexivity. }
      change (dispatch DWRITE operand vm)
        with (do vm <- handle_dwrite operand vm; Ok (false, vm)).
      unfold handle_dwrite. rewrite Est. cbn [variables set_stack]. rewrite Hv.
      cbn [bind]. eexists _, (S k). split; [reflexivity|].
      apply (inv_next _ _ _ _ _ _ Hinv Hi);
        [exact Hc | reflexivity | rewrite Est; reflexivity | discriminate].
    + change (dispatch PUTI operand vm)
        with (do vm <- handle_puti vm; Ok (false, vm)).
      unfold handle_puti. rewrite Est. cbn [bind].
      eexists _, (S k). split; [reflexivity|].
      apply (inv_next _ _ _ _ _ _ Hinv Hi);
        [exact Hc | reflexivity | rewrite Est; reflexivity | discriminate].
    + change (dispatch PUTC operand vm)
        with (do vm <- handle_putc vm; Ok (false, vm)).
      unfold handle_putc. rewrite Est.
      destruct (_ && _); cbn [bind]; eexists _, (S k); (split; [reflexivity|]);
        apply (inv_next _ _ _ _ _ _ Hinv Hi);
        [exact Hc | reflexivity | rewrite Est; reflexivity | discriminate
        |exact Hc | reflexivity | rewrite Est; reflexivity | discriminate].
  - (* binary operation *)
    rewrite <- Hd in Hdep.
    destruct (stack vm) as [|rhs [|lhs rest]] eqn:Est; try (simpl in Hdep; lia).
    change (dispatch EVAL operand vm)
      with (do vm <- execute_eval_optimized operand vm; Ok (false, vm)).
    destruct (eval_binop_total operand vm rhs lhs rest Hbin Est) as [(r & ->) | ->];
      [|left; reflexivity].
    right. right. cbn [bind]. eexists _, (S k). split; [reflexivity|].
    apply (inv_next _ _ _ _ _ _ Hinv Hi);
      [exact Hc | reflexivity | | discriminate].
    rewrite (effect_binop _ _ Hbin), Est. reflexivity.
  - (* conditional jump *)
    right. right.
    destruct (Ht2 j _ _ eq_refl Hj Hj') as (rest & Est).
    rewrite <- Hd, Est in Hdep.
    destruct rest as [|c [|]]; try (simpl in Hdep; lia).
    change (dispatch EVAL OP_COND_JUMP vm)
      with (do vm <- execute_eval_optimized OP_COND_JUMP vm; Ok (false, vm)).
    unfold execute_eval_optimized. change (OP_COND_JUMP =? OP_COND_JUMP) with true.
    cbv iota. rewrite Est. cbn [bind]. rewrite !addr_div.
    destruct (negb (c =? 0)).
    + eexists _, p. split; [reflexivity|].
      apply inv_target; [exact Hp | exact Hc | cbn [pc set_pc]; lia | reflexivity].
    + eexists _, q. split; [reflexivity|].
      apply inv_target; [exact Hq | exact Hc | cbn [pc set_pc]; lia | reflexivity].
  - (* the halting jump *)
    right. left. eexists. reflexivity.
  - (* jump *)
    right. right.
    change (dispatch JUMP (addr p) vm) with (Ok (handle_jump (addr p) vm) : result _).
    unfold handle_jump. destruct (Z.eqb_spec (addr p) HALT) as [E|_];
      [exfalso; exact (addr_not_halt p E)|].
    cbn [bind]. rewrite addr_div. eexists _, p. split; [reflexivity|].
    rewrite <- Hd in Hdep.
    apply inv_target; [exact Hp | exact Hc | cbn [pc set_pc]; lia |].
    cbn [stack set_pc]. destruct (stack vm); [reflexivity | discriminate].
Qed.

(** A run on well-typed code ends normally, runs out of fuel or divides
    by zero. *)
Lemma run_loop_safe (fuel : nat) :
  forall (k : nat) (vm : t) (e : exn),
    inv code k vm -> Z.of_nat (length (variables vm)) = nvars ->
    run_loop fuel vm = Err e ->
    e = OutOfFuel \/ e = VMError "Division by zero".
Proof.
  induction fuel as [|f IH]; intros k vm e Hinv Hlen H; simpl in H.
  - destruct (_ <? _); [|discriminate]. injection H as <-. left. reflexivity.
  - destruct (Z.ltb_spec (pc vm) (Z.of_nat (length (MandrillVM.code vm)))) as [Hlt|];
      [|discriminate].
    assert (Hk : (k < length code)%nat).
    { destruct Hinv as [Hc Hpc _ _ _ _]. rewrite Hc, Hpc in Hlt. lia. }
    destruct (step_safe k vm Hinv Hk Hlen) as [Hs | [(vm' & Hs) | (vm' & k' & Hs & Hinv')]];
      rewrite Hs in H; cbn [bind] in H.
    + injection H as <-. right. reflexivity.
    + discriminate.
    + apply (IH k' vm' e Hinv'); [|exact H].
      apply step_frame in Hs. destruct Hs as (_ & Hl & _). rewrite Hl. exact Hlen.
Qed.

End Step.

End Dynamic.

Section ParserNames.

Import Compiler.
Import Names.

Lemma primary_names (rec : parser -> result (expr * parser)) :
  keeps expr_names rec -> keeps expr_names (primary rec).
Proof.
  intros Hrec p e p' H. unfold primary in H.
  destruct (current_token p) as [tok|]; [|discriminate].
  destruct (type tok).
  - destruct (str_in _ _) eqn:E; [|discriminate].
    apply bind_Ok_inv in H as (p1 & _ & H). injection H as <- _. exact E.
  - apply bind_Ok_inv in H as (p1 & _ & H). injection H as <- _. reflexivity.
  - apply bind_Ok_inv in H as (p1 & _ & H). injection H as <- _. reflexivity.
  - destruct (String.eqb _ _); [|discriminate].
    apply bind_Ok_inv in H as (p1 & _ & H).
    apply bind_Ok_inv in H as ([e1 p2] & Hr & H).
    apply bind_Ok_inv in H as (p3 & _ & H). injection H as <- _.
    exact (Hrec _ _ _ Hr).
Qed.

Lemma binop_loop_names (ops : list string)
  (operand : parser -> result (expr * parser)) :
  keeps expr_names operand ->
  forall (fuel : nat) (lhs : expr) (p : parser) (e : expr) (p' : parser),
    expr_names lhs = true ->
    binop_loop ops operand fuel lhs p = Ok (e, p') -> expr_names e = true.
Proof.
  intros Hoperand. induction fuel as [|f IH]; intros lhs p e p' Hl H; simpl in H.
  - destruct (current_token p) as [tok|]; [|injection H as <- _; exact Hl].
    destruct (_ && _); [discriminate | injection H as <- _; exact Hl].
  - destruct (current_token p) as [tok|]; [|injection H as <- _; exact Hl].
    destruct (_ && _); [|injection H as <- _; exact Hl].
    apply bind_Ok_inv in H as (p1 & _ & H).
    apply bind_Ok_inv in H as ([rhs p2] & Hr & H).
    apply (IH _ _ _ _) in H; [exact H|].
    simpl. rewrite Hl, (Hoperand _ _ _ Hr). reflexivity.
Qed.

Lemma level_names (ops : list string)
  (operand : parser -> result (expr * parser)) (fuel : nat) :
  keeps expr_names operand ->
  keeps expr_names
    (fun p => do (lhs, p) <- operand p; binop_loop ops operand fuel lhs p).
Proof.
  intros Hoperand p e p' H.
  apply bind_Ok_inv in H as ([lhs p1] & Hl & H).
  exact (binop_loop_names ops operand Hoperand fuel _ _ _ _ (Hoperand _ _ _ Hl) H).
Qed.

Lemma expression_names (fuel : nat) : keeps expr_names (expression fuel).
Proof.
  induction fuel as [|f IH]; [intros p e p' H; discriminate|].
  cbn [expression]. unfold equality, comparison, term, factor.
  do 4 apply level_names. apply primary_names. exact IH.
Qed.

Section Statements.

Variable fuel : nat.
Variable stmt_rec : parser -> result (stmt * parser).
Hypothesis Hrec : keeps stmt_names stmt_rec.

Lemma statement_loop_names (n : nat) :
  forall (acc : list stmt) (p : parser) (l : list stmt) (p' : parser),
    forallb stmt_names acc = true ->
    statement_loop stmt_rec n acc p = Ok (l, p') ->
    forallb stmt_names l = true.
Proof.
  induction n as [|n IH]; intros acc p l p' Hacc H; simpl in H.
  - destruct (current_token p) as [tok|]; [|injection H as <- _; exact Hacc].
    destruct (_ && _); [discriminate | injection H as <- _; exact Hacc].
  - destruct (current_token p) as [tok|]; [|injection H as <- _; exact Hacc].
    destruct (_ && _); [|injection H as <- _; exact Hacc].
    apply bind_Ok_inv in H as ([s p1] & Hs & H).
    apply (IH _ _ _ _) in H; [exact H|].
    rewrite forallb_app, Hacc. simpl. rewrite (Hrec _ _ _ Hs). reflexivity.
Qed.

Lemma statement_list_names : keeps (forallb stmt_names) (statement_list fuel stmt_rec).
Proof.
  intros p l p' H. unfold statement_list in H.
  destruct (current_token p) as [tok|]; [|injection H as <- _; reflexivity].
  apply bind_Ok_inv in H as ([acc p1] & Hfirst & H).
  apply (statement_loop_names _ _ _ _ _) in H; [exact H|].
  destruct (_ || _).
  - apply bind_Ok_inv in Hfirst as ([s p2] & Hs & Hfirst).
    injection Hfirst as <- _. simpl. rewrite (Hrec _ _ _ Hs). reflexivity.
  - injection Hfirst as <- _. reflexivity.
Qed.

Lemma if_statement_names : keeps stmt_names (if_statement fuel stmt_rec).
Proof.
  intros p s p' H. unfold if_statement in H.
  apply bind_Ok_inv in H as (p1 & _ & H).
  apply bind_Ok_inv in H as (p2 & _ & H).
  apply bind_Ok_inv in H as ([c p3] & Hc & H). apply expression_names in Hc.
  apply bind_Ok_inv in H as (p4 & _ & H).
  apply bind_Ok_inv in H as (p5 & _ & H).
  apply bind_Ok_inv in H as ([t p6] & Ht & H). apply statement_list_names in Ht.
  apply bind_Ok_inv in H as (p7 & _ & H).
  destruct (at_else p7).
  - apply bind_Ok_inv in H as (q1 & _ & H).
    apply bind_Ok_inv in H as (q2 & _ & H).
    apply bind_Ok_inv in H as ([e q3] & He & H). apply statement_list_names in He.
    apply bind_Ok_inv in H as (q4 & _ & H). injection H as <- _.
    simpl. rewrite Hc, Ht, He. reflexivity.
  - injection H as <- _. simpl. rewrite Hc, Ht. reflexivity.
Qed.

Lemma while_statement_names : keeps stmt_names (while_statement fuel stmt_rec).
Proof.
  intros p s p' H. unfold while_statement in H.
  apply bind_Ok_inv in H as (p1 & _ & H).
  apply bind_Ok_inv in H as (p2 & _ & H).
  apply bind_Ok_inv in H as ([c p3] & Hc & H). apply expression_names in Hc.
  apply bind_Ok_inv in H as (p4 & _ & H).
  apply bind_Ok_inv in H as (p5 & _ & H).
  apply bind_Ok_inv in H as ([b p6] & Hb & H). apply statement_list_names in Hb.
  apply bind_Ok_inv in H as (p7 & _ & H). injection H as <- _.
  simpl. rewrite Hc, Hb. reflexivity.
Qed.

Lemma assignment_statement_names : keeps stmt_names (assignment_statement fuel).
Proof.
  intros p s p' H. unfold assignment_statement in H.
  destruct (current_token p) as [tok|]; [|discriminate].
  apply bind_Ok_inv in H as ([lvalue p1] & Hl & H).
  assert (Hlv : lvalue_names lvalue = true).
  { destruct (type tok); try discriminate.
    - destruct (str_in _ _) eqn:E; [|discriminate].
      apply bind_Ok_inv in Hl as (q & _ & Hl). injection Hl as <- _. exact E.
    - apply bind_Ok_inv in Hl as (q & _ & Hl). injection Hl as <- _. reflexivity. }
  apply bind_Ok_inv in H as (p2 & _ & H).
  apply bind_Ok_inv in H as ([e p3] & He & H). apply expression_names in He.
  apply bind_Ok_inv in H as (p4 & _ & H). injection H as <- _.
  simpl. rewrite Hlv, He. reflexivity.
Qed.

End Statements.

Lemma statement_names (fuel : nat) : keeps stmt_names (statement fuel).
Proof.
  induction fuel as [|f IH]; [intros p s p' H; discriminate|].
  intros p s p' H. cbn [statement] in H.
  destruct (current_token p) as [tok|]; [|discriminate].
  destruct (type tok); try discriminate.
  - destruct (String.eqb (value tok) "if");
      [exact (if_statement_names f _ IH _ _ _ H)|].
    destruct (String.eqb (value tok) "while");
      [exact (while_statement_names f _ IH _ _ _ H)|].
    destruct (str_in _ _); [|discriminate].
    exact (assignment_statement_names f _ _ _ H).
  - exact (assignment_statement_names f _ _ _ H).
Qed.

Lemma parse_names (fuel : nat) (source : string) (statements : list stmt) :
  parse fuel source = Ok (Program statements) ->
  forallb stmt_names statements = true.
Proof.
  unfold parse. intros H.
  apply bind_Ok_inv in H as (p & _ & H).
  apply bind_Ok_inv in H as ([l p1] & Hl & H).
  apply (statement_list_names fuel _ (statement_names fuel)) in Hl.
  destruct (current_token p1); [discriminate|]. injection H as <-. exact Hl.
Qed.

End ParserNames.

Section Static.

Import Compiler.
Import Safety.
Import Names.
#[local] Abbreviation addr := CodeGenerator.addr.

Lemma seg_ok_nil (d : nat) : seg_ok [] d.
Proof. intros k i H. discriminate. Qed.

Lemma seg_ok_app (a b : list instruction) (d : nat) :
  seg_ok a d -> seg_ok b (run_depth a d) -> seg_ok (a ++ b) d.
Proof.
  intros Ha Hb k i H. apply lookup_app_Some in H as [H | [Hk H]].
  - pose proof (lookup_lt_Some _ _ _ H) as Hlt.
    rewrite take_app_le by lia. exact (Ha _ _ H).
  - rewrite take_app_ge by lia. rewrite run_depth_app. exact (Hb _ _ H).
Qed.

Lemma seg_ok_push (opcode operand : Z) (d : nat) :
  pushes opcode -> seg_ok [(opcode, operand)] d.
Proof.
  intros Hp k i H. destruct k as [|k]; [|destruct k; discriminate].
  injection H as <-. left. exact Hp.
Qed.

Lemma seg_ok_pop (opcode operand : Z) (d : nat) :
  pops opcode -> seg_ok [(opcode, operand)] (S d).
Proof.
  intros Hp k i H. destruct k as [|k]; [|destruct k; discriminate].
  injection H as <-. right. left. split; [exact Hp | simpl; lia].
Qed.

Lemma seg_ok_binop (operand : Z) (d : nat) :
  binop operand -> seg_ok [(EVAL, operand)] (S (S d)).
Proof.
  intros Hp k i H. destruct k as [|k]; [|destruct k; discriminate].
  injection H as <-. right. right. repeat apply conj; [reflexivity | exact Hp | simpl; lia].
Qed.

Lemma op_map_binop (op : string) (code : Z) :
  CodeGenerator.op_map op = Some code -> binop code.
Proof.
  unfold CodeGenerator.op_map, binop.
  repeat (destruct (String.eqb op _); [intros [= <-]; simpl; tauto|]).
  discriminate.
Qed.

(** The code of an expression pushes one value, whatever the depth. *)
Lemma expr_code_seg (e : expr) :
  forall v c v',
    Layout.expr_code e v = Ok (c, v') ->
    Shape.expr_wf e = true -> expr_names e = true ->
    forall d, seg_ok c d /\ run_depth c d = S d.
Proof.
  induction e as [l IHl op r IHr | name | value | name];
    intros v c v' H Hwf Hn d; cbn [Layout.expr_code] in H.
  - apply bind_Ok_inv in H as ([cl v1] & Hl & H).
    apply bind_Ok_inv in H as ([cr v2] & Hr & H).
    destruct (CodeGenerator.op_map op) as [code|] eqn:Eop; [|discriminate].
    injection H as <- <-.
    simpl in Hwf, Hn. apply andb_true_iff in Hwf as [Hwf Hwfr].
    apply andb_true_iff in Hwf as [Hwfl _]. apply andb_true_iff in Hn as [Hnl Hnr].
    destruct (IHl _ _ _ Hl Hwfl Hnl d) as [Hsl Hdl].
    destruct (IHr _ _ _ Hr Hwfr Hnr (S d)) as [Hsr Hdr].
    split.
    + apply seg_ok_app; [exact Hsl|]. rewrite Hdl.
      apply seg_ok_app; [exact Hsr|]. rewrite Hdr.
      apply seg_ok_binop. exact (op_map_binop _ _ Eop).
    + rewrite !run_depth_app, Hdl, Hdr. cbn [run_depth fold_left].
      rewrite (effect_binop _ _ (op_map_binop _ _ Eop)). reflexivity.
  - destruct (Layout.var_id name v) as [id v1]. injection H as <- <-.
    split; [apply seg_ok_push; right; left; reflexivity | reflexivity].
  - apply bind_Ok_inv in H as (n & _ & H). injection H as <- <-.
    split; [apply seg_ok_push; left; reflexivity | reflexivity].
  - simpl in Hn. unfold str_in in Hn. simpl in Hn.
    destruct (String.eqb name "read") eqn:E1.
    { injection H as <- <-.
      split; [apply seg_ok_push; right; right; left; reflexivity | reflexivity]. }
    destruct (String.eqb name "get") eqn:E2.
    { injection H as <- <-.
      split; [apply seg_ok_push; right; right; right; reflexivity | reflexivity]. }
    destruct (String.eqb name "write") eqn:E3; [discriminate|].
    destruct (String.eqb name "put") eqn:E4; [discriminate|].
    discriminate.
Qed.

(** The code that stores or prints the value takes it from the stack. *)
Lemma assign_code_seg (lvalue : expr) (v : Layout.symbols) (d : nat) :
  lvalue_names lvalue = true ->
  seg_ok (Layout.assign_code lvalue v).1 (S d) /\
  run_depth (Layout.assign_code lvalue v).1 (S d) = d.
Proof.
  intros Hn. destruct lvalue as [| name | | name]; try discriminate;
    cbn [Layout.assign_code].
  - destruct (Layout.var_id name v) as [id v1]. cbn [fst].
    split; [apply seg_ok_pop; left; reflexivity | reflexivity].
  - simpl in Hn. unfold str_in in Hn. simpl in Hn.
    destruct (String.eqb name "write").
    { split; [apply seg_ok_pop; right; left; reflexivity | reflexivity]. }
    destruct (String.eqb name "put"); [|discriminate].
    split; [apply seg_ok_pop; right; right; reflexivity | reflexivity].
Qed.

Lemma depth_at_prefix (a rest : list instruction) (p : nat) :
  p = length a -> depth_at (a ++ rest) p = run_depth a 0.
Proof. intros ->. unfold depth_at. rewrite take_app_length. reflexivity. Qed.

Lemma depth_at_inside (pre c suf : list instruction) (k : nat) :
  (k <= length c)%nat ->
  depth_at (pre ++ c ++ suf) (length pre + k) =
  run_depth (take k c) (run_depth pre 0).
Proof.
  intros Hk. unfold depth_at. rewrite take_app_ge by lia.
  replace (length pre + k - length pre)%nat with k by lia.
  rewrite take_app_le by lia. apply run_depth_app.
Qed.

Lemma seg_ok_typed (pre c suf : list instruction) (base : nat) :
  length pre = base -> seg_ok c (run_depth pre 0) ->
  typed_in (pre ++ c ++ suf) base c.
Proof.
  intros <- Hc k [opcode operand] H.
  pose proof (lookup_lt_Some _ _ _ H) as Hlt.
  destruct (Hc _ _ H) as [Hp | [[Hp Hd] | (Ho & Hb & Hd)]]; cbn [fst snd] in *.
  - apply ok_push. exact Hp.
  - apply ok_pop; [exact Hp|]. rewrite depth_at_inside by lia. exact Hd.
  - subst opcode. apply ok_binop; [exact Hb|]. rewrite depth_at_inside by lia. exact Hd.
Qed.

Lemma typed_in_nil (code : list instruction) (base : nat) : typed_in code base [].
Proof. intros k i H. discriminate. Qed.

Lemma typed_in_app (code : list instruction) (base : nat) (a b : list instruction) :
  typed_in code base a -> typed_in code (base + length a) b ->
  typed_in code base (a ++ b).
Proof.
  intros Ha Hb k i H. apply lookup_app_Some in H as [H | [Hk H]].
  - exact (Ha _ _ H).
  - replace (base + k)%nat with (base + length a + (k - length a))%nat by lia.
    exact (Hb _ _ H).
Qed.

Lemma typed_in_one (code : list instruction) (base : nat) (i : instruction) :
  ok_instr code base i -> typed_in code base [i].
Proof.
  intros Hi k i' H. destruct k as [|k]; [|destruct k; discriminate].
  injection H as <-. rewrite Nat.add_0_r. exact Hi.
Qed.


Local Ltac same_code := repeat rewrite <- app_assoc; reflexivity.

(** The depth after the code of a condition and its three-instruction
    conditional jump. *)
Lemma run_depth_cond (pre cc : list instruction) (a b : Z) :
  run_depth pre 0 = 0%nat -> run_depth cc 0 = 1%nat ->
  run_depth (pre ++ cc ++ [(DSTORE, a); (DSTORE, b); (EVAL, OP_COND_JUMP)]) 0 = 0%nat.
Proof.
  intros Hpre Hcc. rewrite !run_depth_app, Hpre, Hcc. reflexivity.
Qed.

(** The code of a condition followed by its conditional jump, once the two
    addresses are known to be targets. *)
Lemma cond_typed (code pre cc rest : list instruction) (p q base : nat) :
  code = pre ++ cc ++ [(DSTORE, addr p); (DSTORE, addr q); (EVAL, OP_COND_JUMP)] ++ rest ->
  length pre = base -> run_depth pre 0 = 0%nat ->
  (forall d, seg_ok cc d /\ run_depth cc d = S d) ->
  target code p -> target code q ->
  typed_in code base
    (cc ++ [(DSTORE, addr p); (DSTORE, addr q); (EVAL, OP_COND_JUMP)]).
Proof.
  intros Hcode Hlen Hpre Hcc Hp Hq.
  destruct (Hcc 0%nat) as [Hseg Hd].
  apply typed_in_app.
  - rewrite Hcode. apply seg_ok_typed; [exact Hlen | rewrite Hpre; exact Hseg].
  - assert (Hj : code !! (base + length cc)%nat = Some (DSTORE, addr p)).
    { rewrite Hcode, <- Hlen. rewrite lookup_app_r by lia.
      replace (length pre + length cc - length pre)%nat with (length cc) by lia.
      rewrite lookup_app_r by lia. rewrite Nat.sub_diag. reflexivity. }
    assert (Hj' : code !! S (base + length cc)%nat = Some (DSTORE, addr q)).
    { rewrite Hcode, <- Hlen. rewrite lookup_app_r by lia.
      replace (S (length pre + length cc) - length pre)%nat with (S (length cc)) by lia.
      rewrite lookup_app_r by lia.
      replace (S (length cc) - length cc)%nat with 1%nat by lia. reflexivity. }
    intros k i H. destruct k as [|[|[|k]]]; try discriminate; injection H as <-.
    + apply ok_push. left. reflexivity.
    + apply ok_push. left. reflexivity.
    + apply (ok_cond_jump _ _ (base + length cc) p q);
        [lia | exact Hj | exact Hj' | | exact Hp | exact Hq].
      replace (base + length cc + 2)%nat with (S (S (base + length cc))) by lia.
      rewrite (depth_at_S _ _ _ Hj'), (depth_at_S _ _ _ Hj).
      replace code with ((pre ++ cc) ++
        [(DSTORE, addr p); (DSTORE, addr q); (EVAL, OP_COND_JUMP)] ++ rest)
        by (rewrite Hcode; same_code).
      rewrite depth_at_prefix by (rewrite length_app; lia).
      rewrite run_depth_app, Hpre, Hd. reflexivity.
Qed.

Lemma block_code_typed (l : list stmt) :
  Forall (fun s => forall base v c v',
            Layout.stmt_code base s v = Ok (c, v') ->
            Shape.stmt_wf s = true -> stmt_names s = true ->
            run_depth c 0 = 0%nat /\
            forall pre suf, length pre = base -> run_depth pre 0 = 0%nat ->
              typed_in (pre ++ c ++ suf) base c) l ->
  forall base v c v',
    Layout.block_code Layout.stmt_code base l v = Ok (c, v') ->
    forallb Shape.stmt_wf l = true -> forallb stmt_names l = true ->
    run_depth c 0 = 0%nat /\
    forall pre suf, length pre = base -> run_depth pre 0 = 0%nat ->
      typed_in (pre ++ c ++ suf) base c.
Proof.
  induction 1 as [|s rest Hs _ IH]; intros base v c v' H Hwf Hn; simpl in H.
  - injection H as <- <-. split; [reflexivity|]. intros. apply typed_in_nil.
  - apply bind_Ok_inv in H as ([c1 v1] & H1 & H).
    apply bind_Ok_inv in H as ([c2 v2] & H2 & H). injection H as <- <-.
    simpl in Hwf, Hn. apply andb_true_iff in Hwf as [Hwf1 Hwf2].
    apply andb_true_iff in Hn as [Hn1 Hn2].
    destruct (Hs _ _ _ _ H1 Hwf1 Hn1) as [Hd1 Ht1].
    destruct (IH _ _ _ _ H2 Hwf2 Hn2) as [Hd2 Ht2].
    split; [rewrite run_depth_app, Hd1; exact Hd2|].
    intros pre suf Hlen Hpre. apply typed_in_app.
    + replace (pre ++ (c1 ++ c2) ++ suf) with (pre ++ c1 ++ (c2 ++ suf)) by same_code.
      apply Ht1; assumption.
    + replace (pre ++ (c1 ++ c2) ++ suf) with ((pre ++ c1) ++ c2 ++ suf) by same_code.
      apply Ht2; [rewrite length_app; lia | rewrite run_depth_app, Hpre; exact Hd1].
Qed.


Lemma target_prefix (a rest : list instruction) (p : nat) :
  p = length a -> run_depth a 0 = 0%nat -> target (a ++ rest) p.
Proof.
  intros Hp Hd. split; [rewrite length_app; lia|].
  rewrite depth_at_prefix by exact Hp. exact Hd.
Qed.

Lemma stmt_code_typed (s : stmt) :
  forall base v c v',
    Layout.stmt_code base s v = Ok (c, v') ->
    Shape.stmt_wf s = true -> stmt_names s = true ->
    run_depth c 0 = 0%nat /\
    forall pre suf, length pre = base -> run_depth pre 0 = 0%nat ->
      typed_in (pre ++ c ++ suf) base c.
Proof.
  induction s as [lvalue e | cond t e Ht He | cond b Hb] using stmt_induction;
    intros base v c v' H Hwf Hn; cbn [Layout.stmt_code] in H.
  - (* assignment *)
    apply bind_Ok_inv in H as ([ce v1] & He & H).
    simpl in Hwf, Hn. apply andb_true_iff in Hn as [Hnl Hne].
    destruct (expr_code_seg _ _ _ _ He Hwf Hne 0%nat) as [Hse Hde].
    destruct (assign_code_seg lvalue v1 0%nat Hnl) as [Hsa Hda].
    destruct (Layout.assign_code lvalue v1) as [ca v2]. cbn [fst] in Hsa, Hda.
    injection H as <- <-.
    assert (Hseg : seg_ok (ce ++ ca) 0)
      by (apply seg_ok_app; [exact Hse | rewrite Hde; exact Hsa]).
    split; [rewrite run_depth_app, Hde; exact Hda|].
    intros pre suf Hlen Hpre. apply seg_ok_typed; [exact Hlen|].
    rewrite Hpre. exact Hseg.
  - (* if *)
    apply bind_Ok_inv in H as ([cc v1] & Hc & H).
    apply bind_Ok_inv in H as ([ct v2] & Hthen & H).
    simpl in Hwf, Hn.
    apply andb_true_iff in Hwf as [Hwf Hwfe]. apply andb_true_iff in Hwf as [Hwfc Hwft].
    apply andb_true_iff in Hn as [Hn Hne]. apply andb_true_iff in Hn as [Hnc Hnt].
    pose proof (expr_code_seg _ _ _ _ Hc Hwfc Hnc) as Hcc.
    destruct (block_code_typed t Ht _ _ _ _ Hthen Hwft Hnt) as [Hdt Htt].
    destruct (Hcc 0%nat) as [_ Hdc].
    assert (Hno : forall vv,
              Ok (cc ++ [(DSTORE, addr (base + length cc + 3));
                         (DSTORE, addr (base + length cc + 3 + length ct));
                         (EVAL, OP_COND_JUMP)] ++ ct, vv) = Ok (c, v') ->
              run_depth c 0 = 0%nat /\
              forall pre suf, length pre = base -> run_depth pre 0 = 0%nat ->
                typed_in (pre ++ c ++ suf) base c).
    { intros vv E.
      set (slots := [(DSTORE, addr (base + length cc + 3));
                     (DSTORE, addr (base + length cc + 3 + length ct));
                     (EVAL, OP_COND_JUMP)]).
      assert (Ec : cc ++ slots ++ ct = c) by (injection E as E _; exact E).
      clear E. subst c. split.
      - rewrite !run_depth_app, Hdc. exact Hdt.
      - intros pre suf Hlen Hpre.
        set (code := pre ++ (cc ++ slots ++ ct) ++ suf).
        assert (E1 : code = (pre ++ cc ++ slots) ++ ct ++ suf)
          by (unfold code; same_code).
        assert (Hpre' : run_depth (pre ++ cc ++ slots) 0 = 0%nat)
          by (apply run_depth_cond; assumption).
        assert (Hlen' : length (pre ++ cc ++ slots) = (base + length cc + 3)%nat)
          by (rewrite !length_app; unfold slots; simpl; lia).
        replace (cc ++ slots ++ ct) with ((cc ++ slots) ++ ct) by same_code.
        apply typed_in_app.
        + apply (cond_typed code pre cc (ct ++ suf)); try assumption.
          * unfold code, slots. same_code.
          * rewrite E1. apply target_prefix; [symmetry; exact Hlen' | exact Hpre'].
          * replace code with ((pre ++ cc ++ slots ++ ct) ++ suf)
              by (unfold code; same_code).
            apply target_prefix.
            -- rewrite !length_app. unfold slots. simpl. lia.
            -- replace (pre ++ cc ++ slots ++ ct) with ((pre ++ cc ++ slots) ++ ct)
                 by same_code.
               rewrite run_depth_app, Hpre'. exact Hdt.
        + rewrite E1. rewrite length_app. unfold slots at 2. cbn [length].
          replace (base + (length cc + 3))%nat with (base + length cc + 3)%nat by lia.
          apply Htt; assumption. }
    destruct e as [[|s0 es]|]; [exact (Hno _ H) | | exact (Hno _ H)].
    apply bind_Ok_inv in H as ([ce v3] & Helse & H).
    destruct (block_code_typed _ He _ _ _ _ Helse Hwfe Hne) as [Hde Hte].
    set (ts := (base + length cc + 3)%nat) in *.
    set (es_ := (ts + length ct + 1)%nat) in *.
    set (slots := [(DSTORE, addr ts); (DSTORE, addr es_); (EVAL, OP_COND_JUMP)]).
    set (jump := [(JUMP, addr (es_ + length ce))]).
    assert (Ec : cc ++ slots ++ ct ++ jump ++ ce = c) by (injection H as H _; exact H).
    clear H. subst c. split.
    + rewrite !run_depth_app, Hdc.
      change (run_depth slots 1) with 0%nat. rewrite Hdt.
      change (run_depth jump 0) with 0%nat. exact Hde.
    + intros pre suf Hlen Hpre.
      set (code := pre ++ (cc ++ slots ++ ct ++ jump ++ ce) ++ suf).
      assert (Hpre' : run_depth (pre ++ cc ++ slots) 0 = 0%nat)
        by (apply run_depth_cond; assumption).
      assert (Hlen' : length (pre ++ cc ++ slots) = ts)
        by (rewrite !length_app; unfold slots, ts; simpl; lia).
      assert (Hpt : run_depth ((pre ++ cc ++ slots) ++ ct) 0 = 0%nat)
        by (rewrite run_depth_app, Hpre'; exact Hdt).
      assert (Hpj : run_depth (((pre ++ cc ++ slots) ++ ct) ++ jump) 0 = 0%nat)
        by (rewrite run_depth_app, Hpt; reflexivity).
      assert (Hend : target code (es_ + length ce)).
      { replace code with (((((pre ++ cc ++ slots) ++ ct) ++ jump) ++ ce) ++ suf)
          by (unfold code; same_code).
        apply target_prefix.
        - rewrite !length_app in *. unfold jump, es_. simpl. lia.
        - rewrite run_depth_app, Hpj. exact Hde. }
      replace (cc ++ slots ++ ct ++ jump ++ ce)
        with ((cc ++ slots) ++ ct ++ jump ++ ce) by same_code.
      apply typed_in_app; [|apply typed_in_app; [|apply typed_in_app]].
      * apply (cond_typed code pre cc (ct ++ jump ++ ce ++ suf)); try assumption.
        -- unfold code, slots. same_code.
        -- replace code with ((pre ++ cc ++ slots) ++ ct ++ jump ++ ce ++ suf)
             by (unfold code; same_code).
           apply target_prefix; [symmetry; exact Hlen' | exact Hpre'].
        -- replace code with ((((pre ++ cc ++ slots) ++ ct) ++ jump) ++ ce ++ suf)
             by (unfold code; same_code).
           apply target_prefix; [|exact Hpj].
           rewrite !length_app in *. unfold jump, es_. simpl. lia.
      * replace code with ((pre ++ cc ++ slots) ++ ct ++ (jump ++ ce ++ suf))
          by (unfold code; same_code).
        rewrite length_app. unfold slots at 2. cbn [length].
        replace (base + (length cc + 3))%nat with ts by (unfold ts; lia).
        apply Htt; assumption.
      * apply typed_in_one. apply ok_jump; [|exact Hend].
        replace code with (((pre ++ cc ++ slots) ++ ct) ++ jump ++ ce ++ suf)
          by (unfold code; same_code).
        rewrite depth_at_prefix; [exact Hpt|].
        rewrite !length_app in *. unfold slots. simpl. lia.
      * replace code with ((((pre ++ cc ++ slots) ++ ct) ++ jump) ++ ce ++ suf)
          by (unfold code; same_code).
        replace (base + length (cc ++ slots) + length ct + length jump)%nat with es_
          by (rewrite length_app; unfold slots, jump, es_, ts; simpl; lia).
        apply Hte; [|exact Hpj].
        rewrite !length_app in *. unfold slots, jump, es_, ts. simpl. lia.
  - (* while *)
    apply bind_Ok_inv in H as ([cc v1] & Hc & H).
    apply bind_Ok_inv in H as ([cb v2] & Hbody & H).
    simpl in Hwf, Hn.
    apply andb_true_iff in Hwf as [Hwfc Hwfb]. apply andb_true_iff in Hn as [Hnc Hnb].
    pose proof (expr_code_seg _ _ _ _ Hc Hwfc Hnc) as Hcc.
    destruct (block_code_typed b Hb _ _ _ _ Hbody Hwfb Hnb) as [Hdb Htb].
    destruct (Hcc 0%nat) as [_ Hdc].
    set (bs := (base + length cc + 3)%nat) in *.
    set (slots := [(DSTORE, addr bs); (DSTORE, addr (bs + length cb + 1));
                   (EVAL, OP_COND_JUMP)]).
    set (jump := [(JUMP, addr base)]).
    assert (Ec : cc ++ slots ++ cb ++ jump = c) by (injection H as H _; exact H).
    clear H. subst c. split.
    + rewrite !run_depth_app, Hdc.
      change (run_depth slots 1) with 0%nat. rewrite Hdb. reflexivity.
    + intros pre suf Hlen Hpre.
      set (code := pre ++ (cc ++ slots ++ cb ++ jump) ++ suf).
      assert (Hpre' : run_depth (pre ++ cc ++ slots) 0 = 0%nat)
        by (apply run_depth_cond; assumption).
      assert (Hlen' : length (pre ++ cc ++ slots) = bs)
        by (rewrite !length_app; unfold slots, bs; simpl; lia).
      assert (Hpb : run_depth ((pre ++ cc ++ slots) ++ cb) 0 = 0%nat)
        by (rewrite run_depth_app, Hpre'; exact Hdb).
      replace (cc ++ slots ++ cb ++ jump)
        with ((cc ++ slots) ++ cb ++ jump) by same_code.
      apply typed_in_app; [|apply typed_in_app].
      * apply (cond_typed code pre cc (cb ++ jump ++ suf)); try assumption.
        -- unfold code, slots. same_code.
        -- replace code with ((pre ++ cc ++ slots) ++ cb ++ jump ++ suf)
             by (unfold code; same_code).
           apply target_prefix; [symmetry; exact Hlen' | exact Hpre'].
        -- replace code with ((((pre ++ cc ++ slots) ++ cb) ++ jump) ++ suf)
             by (unfold code; same_code).
           apply target_prefix.
           ++ rewrite !length_app in *. unfold jump. simpl. lia.
           ++ rewrite run_depth_app, Hpb. reflexivity.
      * replace code with ((pre ++ cc ++ slots) ++ cb ++ (jump ++ suf))
          by (unfold code; same_code).
        rewrite length_app. unfold slots at 2. cbn [length].
        replace (base + (length cc + 3))%nat with bs by (unfold bs; lia).
        apply Htb; assumption.
      * apply typed_in_one. apply ok_jump.
        -- replace code with (((pre ++ cc ++ slots) ++ cb) ++ jump ++ suf)
             by (unfold code; same_code).
           rewrite depth_at_prefix; [exact Hpb|].
           rewrite !length_app in *. unfold slots. simpl. lia.
        -- unfold code. apply target_prefix; [symmetry; exact Hlen | exact Hpre].
Qed.

End Static.

Section SafeRuns.

Import Compiler.
Import Safety.
Import Names.

Lemma generate_well_typed (statements : list stmt) (g : CodeGenerator.t) :
  CodeGenerator.generate (Program statements) = Ok g ->
  forallb Shape.stmt_wf statements = true ->
  forallb stmt_names statements = true ->
  well_typed (CodeGenerator.instructions g).
Proof.
  unfold CodeGenerator.generate. rewrite generate_from_layout. intros H Hwf Hn.
  apply bind_Ok_inv in H as ([c v] & Hc & H). injection H as <-.
  cbn [CodeGenerator.instructions].
  destruct (block_code_typed statements
              ltac:(apply Forall_forall; intros s _; apply stmt_code_typed)
              _ _ _ _ Hc Hwf Hn) as [Hd Ht].
  specialize (Ht [] [(JUMP, HALT)] eq_refl eq_refl). cbn [app] in Ht.
  intros k i H. apply lookup_app_Some in H as [H | [Hk H]].
  - exact (Ht _ _ H).
  - destruct (k - length c)%nat as [|n] eqn:E; [|destruct n; discriminate].
    injection H as <-. apply ok_halt.
Qed.

Lemma inv_start (code : list instruction) (vm : MandrillVM.t) :
  MandrillVM.code vm = code -> MandrillVM.stack vm = [] ->
  inv code 0 (MandrillVM.set_pc 0 vm).
Proof.
  intros Hc Hs. constructor; cbn.
  - exact Hc.
  - reflexivity.
  - lia.
  - rewrite Hs. reflexivity.
  - intros j a [=].
  - intros j a b [=].
Qed.

Lemma generated_run_safe (fuel0 fuel : nat) (source : string)
  (ast : program) (g : CodeGenerator.t) (vm : MandrillVM.t) (e : exn) :
  parse fuel0 source = Ok ast ->
  CodeGenerator.generate ast = Ok g ->
  MandrillVM.code vm = CodeGenerator.instructions g ->
  Z.of_nat (length (MandrillVM.variables vm)) = CodeGenerator.var_count g ->
  MandrillVM.stack vm = [] ->
  MandrillVM.run fuel vm = Err e ->
  e = OutOfFuel \/ e = VMError "Division by zero".
Proof.
  destruct ast as [statements]. intros Hp Hg Hc Hv Hs Hr.
  pose proof (generate_well_typed _ _ Hg (parse_wf _ _ _ Hp) (parse_names _ _ _ Hp))
    as Htyped.
  destruct (generate_vars _ _ Hg) as [_ Hvars].
  unfold MandrillVM.run in Hr.
  exact (run_loop_safe _ _ Htyped Hvars fuel 0%nat _ e (inv_start _ _ Hc Hs) Hv Hr).
Qed.

(** X16. The code generated for a parsed program runs safely on the VM:
    started with an empty stack and as many variables as the generator
    counted, a run takes no value from an empty stack, meets no unknown opcode
    or EVAL operand, and names no variable out of range; the only exception it
    can raise is the division by zero. (The fuel of the model runs out when
    the program loops.) *)
Theorem X16_generated_code_safe (fuel0 fuel : nat) (source : string)
  (ast : program) (g : CodeGenerator.t) (vm : MandrillVM.t) (e : exn) :
  parse fuel0 source = Ok ast ->
  CodeGenerator.generate ast = Ok g ->
  MandrillVM.code vm = CodeGenerator.instructions g ->
  Z.of_nat (length (MandrillVM.variables vm)) = CodeGenerator.var_count g ->
  MandrillVM.stack vm = [] ->
  MandrillVM.run fuel vm = Err e ->
  e = OutOfFuel \/ e = VMError "Division by zero".
Proof. exact (generated_run_safe fuel0 fuel source ast g vm e). Qed.

Lemma X16_generated_code_safe_witness :
  VMError "Division by zero" = OutOfFuel \/
  VMError "Division by zero" = VMError "Division by zero".
Proof.
  eapply (X16_generated_code_safe 20 20 "a = 1 / 0;" _ _
            (MandrillVM.mk [] [0] [(DSTORE, 1); (DSTORE, 0); (EVAL, OP_DIV);
                                   (DWRITE, 0); (JUMP, HALT)] 0 [] "" "")).
  - vm_compute. reflexivity.
  - vm_compute. reflexivity.
  - reflexivity.
  - reflexivity.
  - reflexivity.
  - vm_compute. reflexivity.
Defined.

Lemma pack_I_error (x : Z) (e : exn) : Struct.pack_I x = Err e -> e = StructError.
Proof.
  unfold Struct.pack_I. destruct (_ && _); [discriminate|]. intros [= <-]. reflexivity.
Qed.

Lemma write_code_error (instructions : list instruction) (e : exn) :
  BytecodeWriter.write_code instructions = Err e -> e = StructError.
Proof.
  induction instructions as [|[opcode operand] rest IH]; simpl; [discriminate|].
  unfold Struct.pack_II.
  destruct (Struct.pack_I opcode) as [bx|e1] eqn:E1;
    [|intros [= <-]; exact (pack_I_error _ _ E1)].
  destruct (Struct.pack_I operand) as [by_|e2] eqn:E2;
    [|intros [= <-]; exact (pack_I_error _ _ E2)].
  cbn [bind].
  destruct (BytecodeWriter.write_code rest) as [code|e3]; [discriminate|].
  intros [= <-]. apply IH. reflexivity.
Qed.

Lemma write_bytecode_error (instructions : list instruction) (var_count : Z) (e : exn) :
  BytecodeWriter.write_bytecode instructions var_count = Err e -> e = StructError.
Proof.
  unfold BytecodeWriter.write_bytecode. cbv zeta.
  change (Struct.pack_I 1) with (Ok [Byte.x00; Byte.x00; Byte.x00; Byte.x01]).
  cbn [bind].
  destruct (Struct.pack_I (var_count * 4)) as [ds|e1] eqn:E1;
    [|intros [= <-]; exact (pack_I_error _ _ E1)].
  destruct (Struct.pack_I (Z.of_nat (length instructions) * 8)) as [cs|e2] eqn:E2;
    [|intros [= <-]; exact (pack_I_error _ _ E2)].
  cbn [bind].
  destruct (BytecodeWriter.write_code instructions) as [code|e3] eqn:E3;
    [discriminate|].
  intros [= <-]. exact (write_code_error _ _ E3).
Qed.

(** X17. Every way in which compiling a source with compiler.py and running
    the file on the VM can fail: the parser rejects the source (with that
    exception); write or put is read in an expression; a value does not fit a
    32-bit field of the file (struct.error); the program divides by zero. (The
    fuel of the model runs out when the program loops.) *)
Theorem X17_pipeline_errors (fuel : nat) (source all_input : string) (e : exn) :
  compile_and_run fuel source all_input = Err e ->
  parse fuel source = Err e \/
  e = GenerationError "Unexpected special variable in expression" \/
  e = StructError \/
  e = VMError "Division by zero" \/
  e = OutOfFuel.
Proof.
  unfold compile_and_run, compile. intros H.
  destruct (parse fuel source) as [[statements]|e0] eqn:Hp;
    [|left; cbn [bind] in H; injection H as <-; reflexivity].
  right. cbn [bind] in H.
  pose proof (generate_outcome statements (parse_wf _ _ _ Hp)) as Hout.
  unfold Shape.outcome in Hout.
  destruct (existsb Shape.stmt_reads_output statements).
  { rewrite Hout in H. injection H as <-. left. reflexivity. }
  destruct Hout as (g & Hg). rewrite Hg in H. cbn [bind] in H.
  destruct (BytecodeWriter.write_bytecode _ _) as [file|e1] eqn:Hw.
  - cbn [bind] in H. unfold MandrillVM.main in H.
    rewrite (write_then_load _ _ _ _ Hw) in H. cbn [bind] in H.
    destruct (MandrillVM.run fuel _) as [vm'|e2] eqn:Hr; [discriminate|].
    injection H as <-.
    destruct (generate_vars _ _ Hg) as [Hn _].
    assert (Hlen : Z.of_nat (length (replicate (Z.to_nat (CodeGenerator.var_count g)) 0))
                   = CodeGenerator.var_count g)
      by (rewrite length_replicate; lia).
    match type of Hr with
    | MandrillVM.run _ ?vm = _ =>
        destruct (generated_run_safe fuel fuel source _ g vm e2 Hp Hg eq_refl Hlen
                    eq_refl Hr) as [-> | ->]
    end; tauto.
  - injection H as <-. right. left. exact (write_bytecode_error _ _ _ Hw).
Qed.

Lemma X17_pipeline_errors_witness :
  parse 20 "a = 1 / 0;" = Err (VMError "Division by zero") \/
  VMError "Division by zero" =
    GenerationError "Unexpected special variable in expression" \/
  VMError "Division by zero" = StructError \/
  VMError "Division by zero" = VMError "Division by zero" \/
  VMError "Division by zero" = OutOfFuel.
Proof. apply (X17_pipeline_errors 20 "a = 1 / 0;" ""). vm_compute. reflexivity. Defined.

End SafeRuns.

Section Jumps.

Import Compiler.
Import Safety.
Import Names.

Lemma jump_cases (code : list instruction) (k : nat) (operand : Z) :
  ok_instr code k (JUMP, operand) ->
  operand = HALT \/ exists p, operand = CodeGenerator.addr p /\ target code p.
Proof.
  intros H. apply ok_instr_cases in H.
  destruct H as [Hp | [[Hp _] | [(E & _) | [(E & _) | [[_ ->] | (_ & p & -> & _ & Hp)]]]]].
  - destruct Hp as [E | [E | [E | E]]]; discriminate E.
  - destruct Hp as [E | [E | E]]; discriminate E.
  - discriminate E.
  - discriminate E.
  - left. reflexivity.
  - right. exists p. split; [reflexivity | exact Hp].
Qed.

(** X8. The code generated for a parsed program ends with the halting jump
    (JUMP 0xFFFFFFFF), and the operand of every other JUMP is the byte
    address, 8 times the index, of an instruction of the code. *)
Theorem X8_jumps_in_code (fuel : nat) (source : string) (ast : program)
  (g : CodeGenerator.t) :
  parse fuel source = Ok ast ->
  CodeGenerator.generate ast = Ok g ->
  last (CodeGenerator.instructions g) = Some (JUMP, HALT) /\
  forall k operand,
    CodeGenerator.instructions g !! k = Some (JUMP, operand) ->
    operand = HALT \/
    exists p, operand = CodeGenerator.addr p /\
              (p < length (CodeGenerator.instructions g))%nat.
Proof.
  destruct ast as [statements]. intros Hp Hg.
  pose proof (parse_wf _ _ _ Hp) as Hwf. pose proof (parse_names _ _ _ Hp) as Hn.
  unfold CodeGenerator.generate in Hg. rewrite generate_from_layout in Hg.
  apply bind_Ok_inv in Hg as ([c v] & Hc & Hg). injection Hg as <-.
  cbn [CodeGenerator.instructions].
  split; [apply last_snoc|].
  destruct (block_code_typed statements
              ltac:(apply Forall_forall; intros s _; apply stmt_code_typed)
              _ _ _ _ Hc Hwf Hn) as [_ Ht].
  specialize (Ht [] [] eq_refl eq_refl). cbn [app] in Ht. rewrite app_nil_r in Ht.
  intros k operand H. apply lookup_app_Some in H as [H | [Hk H]].
  - destruct (jump_cases _ _ _ (Ht _ _ H)) as [-> | (p & -> & Hb & _)];
      [left; reflexivity|].
    right. exists p. split; [reflexivity|]. rewrite length_app. simpl. lia.
  - destruct (k - length c)%nat as [|n]; [|destruct n; discriminate].
    injection H as <-. left. reflexivity.
Qed.

Lemma X8_jumps_in_code_witness :
  last [(DSTORE, 1); (DWRITE, 0); (JUMP, HALT)] = Some (JUMP, HALT) /\
  forall k operand,
    [(DSTORE, 1); (DWRITE, 0); (JUMP, HALT)] !! k = Some (JUMP, operand) ->
    operand = HALT \/
    exists p, operand = CodeGenerator.addr p /\
              (p < 3)%nat.
Proof.
  apply (X8_jumps_in_code 10 "a = 1;" (Program [AssignmentStatement (Identifier "a") (Literal "0x1")])
           (CodeGenerator.mk [(DSTORE, 1); (DWRITE, 0); (JUMP, HALT)] {["a" := 0]} 1)).
  - vm_compute. reflexivity.
  - vm_compute. reflexivity.
Defined.

End Jumps.

(** * The bytecode writer *)

Section Writer.

Lemma write_code_ok (instructions : list instruction) :
  Forall (fun i => u32 i.1 /\ u32 i.2) instructions ->
  exists code, BytecodeWriter.write_code instructions = Ok code.
Proof.
  induction 1 as [|[opcode operand] rest [Ho Hr] _ (code & IH)]; simpl.
  - eexists. reflexivity.
  - unfold Struct.pack_II.
    destruct (pack_I_ok opcode Ho) as (bx & ->).
    destruct (pack_I_ok operand Hr) as (by_ & ->). cbn [bind].
    rewrite IH. cbn [bind]. eexists. reflexivity.
Qed.

Lemma write_code_u32 (instructions : list instruction) (code : list byte) :
  BytecodeWriter.write_code instructions = Ok code ->
  Forall (fun i => u32 i.1 /\ u32 i.2) instructions.
Proof.
  revert code. induction instructions as [|[opcode operand] rest IH]; intros code H;
    [constructor|].
  simpl in H. apply bind_Ok_inv in H as (b & Hb & H).
  apply bind_Ok_inv in H as (code' & Hc & _).
  unfold Struct.pack_II in Hb.
  apply bind_Ok_inv in Hb as (bx & Hx & Hb).
  apply bind_Ok_inv in Hb as (by_ & Hy & _).
  constructor; [|exact (IH _ Hc)].
  split; [exact (pack_I_inv _ _ Hx) | exact (pack_I_inv _ _ Hy)].
Qed.

(** X9. write_bytecode returns the bytes of a file exactly when 4 times the
    number of variables, 8 times the number of instructions, and every opcode
    and operand fit an unsigned 32-bit field; otherwise it raises
    struct.error, and nothing else. *)
Theorem X9_writer_domain (instructions : list instruction) (var_count : Z) :
  ((exists file, BytecodeWriter.write_bytecode instructions var_count = Ok file) <->
   u32 (var_count * 4) /\ u32 (Z.of_nat (length instructions) * 8) /\
   Forall (fun i => u32 i.1 /\ u32 i.2) instructions) /\
  (forall e, BytecodeWriter.write_bytecode instructions var_count = Err e ->
             e = StructError).
Proof.
  split; [|intros e; apply write_bytecode_error].
  unfold BytecodeWriter.write_bytecode. cbv zeta.
  change (Struct.pack_I 1) with (Ok [Byte.x00; Byte.x00; Byte.x00; Byte.x01]).
  cbn [bind]. split.
  - intros (file & H).
    apply bind_Ok_inv in H as (ds & Hd & H).
    apply bind_Ok_inv in H as (cs & Hc & H).
    apply bind_Ok_inv in H as (code & Hw & _).
    split; [exact (pack_I_inv _ _ Hd)|].
    split; [exact (pack_I_inv _ _ Hc) | exact (write_code_u32 _ _ Hw)].
  - intros (Hd & Hc & Hall).
    destruct (pack_I_ok _ Hd) as (ds & ->). destruct (pack_I_ok _ Hc) as (cs & ->).
    destruct (write_code_ok _ Hall) as (code & ->). cbn [bind]. eexists. reflexivity.
Qed.

End Writer.

(** * The operators in the VM and in the interpreter *)

Section Operators.

Import MandrillVM.

Lemma to_32bit_int_idem (v : Z) : _to_32bit_int (_to_32bit_int v) = _to_32bit_int v.
Proof.
  rewrite !to_32bit_int_truncate32. apply truncate32_small. apply truncate32_range.
Qed.

Lemma to_32bit_int_small (v : Z) : int32 v -> _to_32bit_int v = v.
Proof.
  intros H. rewrite to_32bit_int_truncate32. apply truncate32_small.
  unfold int32, INT32_MIN, INT32_MAX in H. lia.
Qed.

Lemma operator_agree (op : string) (code lhs rhs : Z) (rest : list Z) (vm : t) :
  CodeGenerator.op_map op = Some code ->
  (rhs = 0 -> op <> "/" /\ op <> "%") ->
  exists v r,
    Interpreter.binary op lhs rhs = Ok v /\
    execute_eval_optimized code (set_stack (rhs :: lhs :: rest) vm) =
      Ok (set_stack (r :: rest) vm) /\
    _to_32bit_int r = _to_32bit_int v /\
    (int32 v -> r = v).
Proof.
  unfold CodeGenerator.op_map, Interpreter.binary. intros Hop Hz.
  destruct (String.eqb op "+") eqn:E1.
  { injection Hop as <-. exists (lhs + rhs), (lhs + rhs).
    repeat apply conj; [reflexivity | apply eval_add | reflexivity | reflexivity]. }
  destruct (String.eqb op "-") eqn:E2.
  { injection Hop as <-. exists (lhs - rhs), (_to_32bit_int (lhs - rhs)).
    repeat apply conj; [reflexivity | reflexivity | apply to_32bit_int_idem |
                        apply to_32bit_int_small]. }
  destruct (String.eqb op "*") eqn:E3.
  { injection Hop as <-. exists (lhs * rhs), (lhs * rhs).
    repeat apply conj; [reflexivity | apply eval_mul | reflexivity | reflexivity]. }
  destruct (String.eqb op "/") eqn:E4.
  { injection Hop as <-. apply String.eqb_eq in E4. subst op.
    assert (Hr : rhs <> 0) by (intros ->; destruct (Hz eq_refl) as [H _]; apply H; reflexivity).
    exists (lhs / rhs), (_to_32bit_int (lhs / rhs)).
    destruct (Z.eqb_spec rhs 0) as [|_]; [contradiction|].
    repeat apply conj; [reflexivity | | apply to_32bit_int_idem | apply to_32bit_int_small].
    rewrite to_32bit_int_truncate32. apply eval_div. exact Hr. }
  destruct (String.eqb op "%") eqn:E5.
  { injection Hop as <-. apply String.eqb_eq in E5. subst op.
    assert (Hr : rhs <> 0) by (intros ->; destruct (Hz eq_refl) as [_ H]; apply H; reflexivity).
    exists (lhs mod rhs), (_to_32bit_int (lhs mod rhs)).
    destruct (Z.eqb_spec rhs 0) as [|_]; [contradiction|].
    repeat apply conj; [reflexivity | | apply to_32bit_int_idem | apply to_32bit_int_small].
    rewrite to_32bit_int_truncate32. apply eval_mod. exact Hr. }
  destruct (String.eqb op ">") eqn:E6.
  { injection Hop as <-. eexists _, _.
    repeat apply conj; [reflexivity | reflexivity | reflexivity | reflexivity]. }
  destruct (String.eqb op "<") eqn:E7.
  { injection Hop as <-. eexists _, _.
    repeat apply conj; [reflexivity | reflexivity | reflexivity | reflexivity]. }
  destruct (String.eqb op ">=") eqn:E8.
  { injection Hop as <-. eexists _, _.
    repeat apply conj; [reflexivity | reflexivity | reflexivity | reflexivity]. }
  destruct (String.eqb op "<=") eqn:E9.
  { injection Hop as <-. eexists _, _.
    repeat apply conj; [reflexivity | reflexivity | reflexivity | reflexivity]. }
  destruct (String.eqb op "==") eqn:E10.
  { injection Hop as <-. eexists _, _.
    repeat apply conj; [reflexivity | reflexivity | reflexivity | reflexivity]. }
  destruct (String.eqb op "!=") eqn:E11; [|discriminate].
  injection Hop as <-. eexists _, _.
  repeat apply conj; [reflexivity | reflexivity | reflexivity | reflexivity].
Qed.

(** X18. The operator table of the code generator sends each operator of the
    language to the EVAL operand with which the VM computes what
    visit_BinaryOp of the interpreter computes, when the divisor of / and % is
    not 0: the two results have the same image under _to_32bit_int (the VM
    wraps the results of -, / and % to 32 bits, the interpreter none), and
    they are equal when the result of the interpreter is a signed 32-bit
    value. *)
Theorem X18_operator_agree (op : string) (code lhs rhs : Z) (rest : list Z) (vm : t) :
  CodeGenerator.op_map op = Some code ->
  (rhs = 0 -> op <> "/" /\ op <> "%") ->
  exists v r,
    Interpreter.binary op lhs rhs = Ok v /\
    execute_eval_optimized code (set_stack (rhs :: lhs :: rest) vm) =
      Ok (set_stack (r :: rest) vm) /\
    _to_32bit_int r = _to_32bit_int v /\
    (int32 v -> r = v).
Proof. exact (operator_agree op code lhs rhs rest vm). Qed.

Lemma X18_operator_agree_witness :
  exists v r,
    Interpreter.binary "-" (-2147483648) 1 = Ok v /\
    execute_eval_optimized OP_SUB (set_stack [1; -2147483648] (new "")) =
      Ok (set_stack [r] (new "")) /\
    _to_32bit_int r = _to_32bit_int v /\
    (int32 v -> r = v).
Proof.
  apply (X18_operator_agree "-" OP_SUB (-2147483648) 1 [] (new "")).
  - reflexivity.
  - discriminate.
Defined.

End Operators.

(** * The interpreter on parsed programs *)

Section InterpreterTotal.

Import Interpreter.
Import Known.
Import Names.

#[local] Abbreviation parser := Compiler.parser.
#[local] Abbreviation current_token := Compiler.current_token.

Lemma interp_primary_known (rec : parser -> result (expr * parser)) :
  keeps expr_known rec -> keeps expr_known (primary rec).
Proof.
  intros Hrec p e p' H. unfold primary in H.
  destruct (current_token p) as [tok|]; [|discriminate].
  destruct (type tok).
  - destruct (str_in _ _) eqn:E; [|discriminate].
    apply bind_Ok_inv in H as (p1 & _ & H). injection H as <- _. exact E.
  - apply bind_Ok_inv in H as (p1 & _ & H). injection H as <- _. reflexivity.
  - apply bind_Ok_inv in H as (p1 & _ & H).
    apply bind_Ok_inv in H as (v & _ & H). injection H as <- _. reflexivity.
  - destruct (String.eqb _ _); [|discriminate].
    apply bind_Ok_inv in H as (p1 & _ & H).
    apply bind_Ok_inv in H as ([e1 p2] & Hr & H).
    apply bind_Ok_inv in H as (p3 & _ & H). injection H as <- _.
    exact (Hrec _ _ _ Hr).
Qed.

Lemma interp_binary_ops :
  binary_ops ["*"; "/"; "%"] /\ binary_ops ["+"; "-"] /\
  binary_ops [">"; "<"; ">="; "<="] /\ binary_ops ["=="; "!="].
Proof.
  repeat apply conj; intros op H; unfold str_in in H; simpl in H;
    repeat match type of H with
      | (String.eqb ?a ?b || _)%bool = true =>
          let E := fresh "E" in
          destruct (String.eqb a b) eqn:E;
          [apply String.eqb_eq in E; subst; reflexivity | simpl in H]
      end; discriminate.
Qed.

Lemma interp_binop_loop_known (ops : list string)
  (operand : parser -> result (expr * parser)) :
  binary_ops ops -> keeps expr_known operand ->
  forall (fuel : nat) (lhs : expr) (p : parser) (e : expr) (p' : parser),
    expr_known lhs = true ->
    binop_loop ops operand fuel lhs p = Ok (e, p') -> expr_known e = true.
Proof.
  intros Hops Hoperand. induction fuel as [|f IH]; intros lhs p e p' Hl H; simpl in H.
  - destruct (current_token p) as [tok|]; [|injection H as <- _; exact Hl].
    destruct (_ && _); [discriminate | injection H as <- _; exact Hl].
  - destruct (current_token p) as [tok|]; [|injection H as <- _; exact Hl].
    destruct (TokenType_eqb (type tok) OP && str_in (value tok) ops) eqn:E;
      [|injection H as <- _; exact Hl].
    apply andb_true_iff in E as [_ Hin].
    apply bind_Ok_inv in H as (p1 & _ & H).
    apply bind_Ok_inv in H as ([rhs p2] & Hr & H).
    apply (IH _ _ _ _) in H; [exact H|].
    simpl. rewrite Hl, (Hops _ Hin), (Hoperand _ _ _ Hr). reflexivity.
Qed.

Lemma interp_level_known (ops : list string)
  (operand : parser -> result (expr * parser)) (fuel : nat) :
  binary_ops ops -> keeps expr_known operand ->
  keeps expr_known
    (fun p => do (lhs, p) <- operand p; binop_loop ops operand fuel lhs p).
Proof.
  intros Hops Hoperand p e p' H.
  apply bind_Ok_inv in H as ([lhs p1] & Hl & H).
  exact (interp_binop_loop_known ops operand Hops Hoperand fuel _ _ _ _
           (Hoperand _ _ _ Hl) H).
Qed.

Lemma interp_expression_known (fuel : nat) : keeps expr_known (expression fuel).
Proof.
  destruct interp_binary_ops as (Hmul & Hadd & Hcmp & Heq).
  induction fuel as [|f IH]; [intros p e p' H; discriminate|].
  cbn [expression]. unfold equality, comparison, term, factor.
  apply interp_level_known; [exact Heq|].
  apply interp_level_known; [exact Hcmp|].
  apply interp_level_known; [exact Hadd|].
  apply interp_level_known; [exact Hmul|].
  apply interp_primary_known. exact IH.
Qed.

Section Statements.

Variable fuel : nat.
Variable stmt_rec : parser -> result (stmt * parser).
Hypothesis Hrec : keeps stmt_known stmt_rec.

Lemma interp_statement_loop_known (n : nat) :
  forall (acc : list stmt) (p : parser) (l : list stmt) (p' : parser),
    forallb stmt_known acc = true ->
    statement_loop stmt_rec n acc p = Ok (l, p') ->
    forallb stmt_known l = true.
Proof.
  induction n as [|n IH]; intros acc p l p' Hacc H; simpl in H.
  - destruct (current_token p) as [tok|]; [|injection H as <- _; exact Hacc].
    destruct (negb _); [discriminate | injection H as <- _; exact Hacc].
  - destruct (current_token p) as [tok|]; [|injection H as <- _; exact Hacc].
    destruct (negb _); [|injection H as <- _; exact Hacc].
    apply bind_Ok_inv in H as ([s p1] & Hs & H).
    apply (IH _ _ _ _) in H; [exact H|].
    rewrite forallb_app, Hacc. simpl. rewrite (Hrec _ _ _ Hs). reflexivity.
Qed.

Lemma interp_statement_list_known :
  keeps (forallb stmt_known) (statement_list fuel stmt_rec).
Proof.
  intros p l p' H. unfold statement_list in H.
  exact (interp_statement_loop_known fuel [] p l p' eq_refl H).
Qed.

Lemma interp_if_statement_known : keeps stmt_known (if_statement fuel stmt_rec).
Proof.
  intros p s p' H. unfold if_statement in H.
  apply bind_Ok_inv in H as (p1 & _ & H).
  apply bind_Ok_inv in H as (p2 & _ & H).
  apply bind_Ok_inv in H as ([c p3] & Hc & H). apply interp_expression_known in Hc.
  apply bind_Ok_inv in H as (p4 & _ & H).
  apply bind_Ok_inv in H as (p5 & _ & H).
  apply bind_Ok_inv in H as ([t p6] & Ht & H). apply interp_statement_list_known in Ht.
  apply bind_Ok_inv in H as (p7 & _ & H).
  destruct (Compiler.at_else p7).
  - apply bind_Ok_inv in H as (q1 & _ & H).
    apply bind_Ok_inv in H as (q2 & _ & H).
    apply bind_Ok_inv in H as ([e q3] & He & H).
    apply interp_statement_list_known in He.
    apply bind_Ok_inv in H as (q4 & _ & H). injection H as <- _.
    simpl. rewrite Hc, Ht, He. reflexivity.
  - injection H as <- _. simpl. rewrite Hc, Ht. reflexivity.
Qed.

Lemma interp_while_statement_known : keeps stmt_known (while_statement fuel stmt_rec).
Proof.
  intros p s p' H. unfold while_statement in H.
  apply bind_Ok_inv in H as (p1 & _ & H).
  apply bind_Ok_inv in H as (p2 & _ & H).
  apply bind_Ok_inv in H as ([c p3] & Hc & H). apply interp_expression_known in Hc.
  apply bind_Ok_inv in H as (p4 & _ & H).
  apply bind_Ok_inv in H as (p5 & _ & H).
  apply bind_Ok_inv in H as ([b p6] & Hb & H). apply interp_statement_list_known in Hb.
  apply bind_Ok_inv in H as (p7 & _ & H). injection H as <- _.
  simpl. rewrite Hc, Hb. reflexivity.
Qed.

Lemma interp_assignment_statement_known :
  keeps stmt_known (assignment_statement fuel).
Proof.
  intros p s p' H. unfold assignment_statement in H.
  destruct (current_token p) as [tok|]; [|discriminate].
  apply bind_Ok_inv in H as ([target p1] & _ & H).
  apply bind_Ok_inv in H as (p2 & _ & H).
  apply bind_Ok_inv in H as ([e p3] & He & H). apply interp_expression_known in He.
  apply bind_Ok_inv in H as (p4 & _ & H). injection H as <- _. exact He.
Qed.

End Statements.

Lemma interp_statement_known (fuel : nat) : keeps stmt_known (statement fuel).
Proof.
  induction fuel as [|f IH]; [intros p s p' H; discriminate|].
  intros p s p' H. cbn [statement] in H.
  destruct (current_token p) as [tok|]; [|discriminate].
  destruct (type tok); try discriminate.
  - destruct (String.eqb (value tok) "if");
      [exact (interp_if_statement_known f _ IH _ _ _ H)|].
    destruct (String.eqb (value tok) "while");
      [exact (interp_while_statement_known f _ IH _ _ _ H)|].
    destruct (str_in _ _); [|discriminate].
    exact (interp_assignment_statement_known f _ _ _ H).
  - exact (interp_assignment_statement_known f _ _ _ H).
Qed.

Lemma interp_parse_known (fuel : nat) (source : string) (statements : list stmt) :
  parse fuel source = Ok (Program statements) ->
  forallb stmt_known statements = true.
Proof.
  unfold parse. intros H.
  apply bind_Ok_inv in H as (p & _ & H).
  apply bind_Ok_inv in H as ([l p1] & Hl & H).
  apply (interp_statement_list_known fuel _ (interp_statement_known fuel)) in Hl.
  destruct (current_token p1); [discriminate|]. injection H as <-. exact Hl.
Qed.

(** A known operator is computed whatever the operands. *)
Lemma binary_known (op : string) (lhs rhs : Z) :
  is_ok (binary op 0 0) = true -> exists v, binary op lhs rhs = Ok v.
Proof.
  unfold binary.
  repeat (destruct (String.eqb op _); [intros _; eexists; reflexivity|]).
  discriminate.
Qed.

Lemma visit_expr_known (e : expr) :
  expr_known e = true -> forall i, exists v i', visit_expr e i = Ok (v, i').
Proof.
  induction e as [l IHl op r IHr | n | name | name]; intros Hk i; simpl in Hk |- *.
  - apply andb_true_iff in Hk as [Hk Hr]. apply andb_true_iff in Hk as [Hl Hop].
    destruct (IHl Hl i) as (lv & i1 & ->). cbn [bind].
    destruct (IHr Hr i1) as (rv & i2 & ->). cbn [bind].
    destruct (binary_known op lv rv Hop) as (v & ->). cbn [bind]. eauto.
  - eauto.
  - eauto.
  - unfold visit_Keyword. unfold str_in in Hk. simpl in Hk.
    destruct (String.eqb name "read") eqn:E1;
      [destruct (read_integer i); eauto|].
    destruct (String.eqb name "get") eqn:E2;
      [destruct (read_character i); eauto|].
    unfold str_in. simpl.
    destruct (String.eqb name "write"); [eauto|].
    destruct (String.eqb name "put"); [eauto|].
    simpl in Hk. discriminate.
Qed.

Lemma visit_each_known (visit : stmt -> t -> result t) (l : list stmt) :
  Forall (fun s => forall i e, visit s i = Err e -> e = OutOfFuel) l ->
  forall i e, visit_each visit l i = Err e -> e = OutOfFuel.
Proof.
  induction 1 as [|s rest Hs _ IH]; intros i e H; simpl in H; [discriminate|].
  destruct (visit s i) as [i1|e1] eqn:E; cbn [bind] in H.
  - exact (IH _ _ H).
  - injection H as <-. exact (Hs _ _ E).
Qed.

Lemma forallb_Forall_known (P : stmt -> Prop) (l : list stmt) :
  forallb stmt_known l = true ->
  (forall s, stmt_known s = true -> P s) -> Forall P l.
Proof.
  intros Hall HP. apply Forall_forall. intros s Hs. apply HP.
  rewrite forallb_forall in Hall. apply Hall.
  apply list_elem_of_In. exact Hs.
Qed.

Lemma visit_stmt_known (fuel : nat) :
  forall s, stmt_known s = true ->
    forall i e, visit_stmt fuel s i = Err e -> e = OutOfFuel.
Proof.
  induction fuel as [|f IH]; intros s Hk i e H; simpl in H;
    [injection H as <-; reflexivity|].
  destruct s as [target v | c tb eb | c b]; simpl in Hk.
  - destruct (visit_expr_known v Hk i) as (x & i1 & Hv). rewrite Hv in H.
    discriminate.
  - apply andb_true_iff in Hk as [Hk He]. apply andb_true_iff in Hk as [Hc Ht].
    destruct (visit_expr_known c Hc i) as (x & i1 & Hv). rewrite Hv in H.
    cbn [bind] in H. destruct (negb (x =? 0)).
    + exact (visit_each_known _ _ (forallb_Forall_known _ _ Ht IH) _ _ H).
    + destruct eb as [l|]; [|discriminate].
      exact (visit_each_known _ _ (forallb_Forall_known _ _ He IH) _ _ H).
  - apply andb_true_iff in Hk as [Hc Hb].
    destruct (visit_expr_known c Hc i) as (x & i1 & Hv). rewrite Hv in H.
    cbn [bind] in H. destruct (x =? 0); [discriminate|].
    destruct (visit_each _ b i1) as [i2|e2] eqn:Eb; cbn [bind] in H.
    + apply (IH (WhileStatement c b)) in H; [exact H|].
      simpl. rewrite Hc, Hb. reflexivity.
    + injection H as <-.
      exact (visit_each_known _ _ (forallb_Forall_known _ _ Hb IH) _ _ Eb).
Qed.

Lemma interpret_parsed (fuel0 fuel : nat) (source : string) (ast : program)
  (i : t) (e : exn) :
  parse fuel0 source = Ok ast -> interpret fuel ast i = Err e -> e = OutOfFuel.
Proof.
  destruct ast as [statements]. intros Hp H. unfold interpret in H.
  pose proof (interp_parse_known _ _ _ Hp) as Hk.
  exact (visit_each_known _ _
           (forallb_Forall_known _ _ Hk (visit_stmt_known fuel)) _ _ H).
Qed.

(** X19. Once the parser of the interpreter has accepted a program and
    mandrill.in has been read, interpreting the program raises nothing,
    whatever the input: no operator or keyword of the tree is unknown to the
    visitor, and a division by zero gives 0. The only exceptions that reach
    the except clause of main are those of the parser and, when the parser
    has accepted the program, those of opening and reading mandrill.in that
    the constructor does not catch: an OSError other than FileNotFoundError,
    or a UnicodeDecodeError. (The fuel of the model runs out when the program
    loops. Not modelled: the RecursionError of Python on deeply nested
    programs, and the bound of recent versions of Python on the number of
    digits of an integer that print converts.) *)
Theorem X19_interpreter_total (fuel : nat) (source : string) (file : input_file)
  (e : exn) :
  main fuel source file = Err e ->
  parse fuel source = Err e \/
  (is_ok (parse fuel source) = true /\ new file = Err e /\
   ((file = Unopenable /\ e = OSError) \/
    (file = Undecodable /\ e = UnicodeDecodeError))) \/
  e = OutOfFuel.
Proof.
  unfold main. intros H.
  destruct (parse fuel source) as [ast|e0] eqn:Hp;
    [|left; cbn [bind] in H; injection H as <-; reflexivity].
  right. cbn [bind] in H.
  destruct (new file) as [i0|e0] eqn:Hn; cbn [bind] in H.
  - right. destruct (interpret fuel ast i0) as [i|e1] eqn:Hi; [discriminate|].
    injection H as <-. exact (interpret_parsed _ _ _ _ _ _ Hp Hi).
  - left. injection H as <-. split; [reflexivity|]. split; [reflexivity|].
    destruct file; try discriminate Hn; injection Hn as <-;
      [left | right]; split; reflexivity.
Qed.

Lemma X19_interpreter_total_witness :
  parse 20 "a = 1;" = Err UnicodeDecodeError \/
  (is_ok (parse 20 "a = 1;") = true /\ new Undecodable = Err UnicodeDecodeError /\
   ((Undecodable = Unopenable /\ UnicodeDecodeError = OSError) \/
    (Undecodable = Undecodable /\ UnicodeDecodeError = UnicodeDecodeError))) \/
  UnicodeDecodeError = OutOfFuel.
Proof.
  apply (X19_interpreter_total 20 "a = 1;" Undecodable). vm_compute. reflexivity.
Defined.

End InterpreterTotal.

Section ReadInteger.

Import Interpreter.

Lemma skip_whitespace_idem (s : string) :
  Lexer.skip_whitespace (Lexer.skip_whitespace s) = Lexer.skip_whitespace s.
Proof.
  induction s as [|c s IH]; [reflexivity|]. simpl.
  destruct (Py.isspace c) eqn:E; [exact IH|]. simpl. rewrite E. reflexivity.
Qed.

(** X20. When the first character of the input that is not whitespace cannot
    start a number (it is no digit, and no minus sign followed by a digit),
    read_integer returns 0 and leaves the input before that character, so that
    every later call of read_integer returns 0 as well and moves no further.
    *)
Theorem X20_read_integer_stuck (i : t) (c : ascii) (rest : string) :
  Lexer.skip_whitespace (input_data i) = String c rest ->
  Py.isdigit c = false ->
  (c = "-"%char -> match rest with
                   | String d _ => Py.isdigit d = false
                   | EmptyString => True
                   end) ->
  let stuck := mk (variables i) (String c rest) (output i) in
  read_integer i = (0, stuck) /\ read_integer stuck = (0, stuck).
Proof.
  intros Hskip Hdigit Hminus stuck.
  assert (Hread : forall j, input_data j = input_data i \/ input_data j = String c rest ->
            variables j = variables i -> output j = output i ->
            read_integer j = (0, stuck)).
  { intros j Hin Hv Ho. unfold read_integer.
    assert (Hs : Lexer.skip_whitespace (input_data j) = String c rest).
    { destruct Hin as [-> | ->]; [exact Hskip|].
      rewrite <- Hskip. apply skip_whitespace_idem. }
    rewrite Hs, Hv, Ho.
    destruct (Ascii.eqb_spec c "-") as [->|Hc].
    - cbn [Lexer.advance]. specialize (Hminus eq_refl).
      destruct rest as [|d rest']; [reflexivity|].
      cbn [Lexer.take_while]. rewrite Hminus. reflexivity.
    - cbn [Lexer.take_while]. rewrite Hdigit. reflexivity. }
  split; apply Hread; auto.
Qed.

Lemma X20_read_integer_stuck_witness :
  let stuck := mk ∅ "+5 7" "" in
  read_integer (mk ∅ "  +5 7" "") = (0, stuck) /\ read_integer stuck = (0, stuck).
Proof.
  apply (X20_read_integer_stuck (mk ∅ "  +5 7" "") "+" "5 7").
  - reflexivity.
  - reflexivity.
  - discriminate.
Defined.

End ReadInteger.

Section InterpreterPrinted.

Import Shape.
Import Printed.
Import Interpreter.

Lemma interp_frame_refl (i : t) : interp_frame EmptyString EmptyString i i.
Proof. split; [symmetry; apply string_app_empty | reflexivity]. Qed.

Lemma interp_frame_trans (p1 p2 r1 r2 : string) (a b c : t) :
  interp_frame p1 r1 a b -> interp_frame p2 r2 b c ->
  interp_frame (p1 +:+ p2) (r1 +:+ r2) a c.
Proof.
  intros [Ho1 Hi1] [Ho2 Hi2]. split.
  - rewrite Ho2, Ho1. apply string_app_assoc.
  - rewrite Hi1, Hi2. symmetry. apply string_app_assoc.
Qed.

Lemma framed_refl (i : t) : framed i i.
Proof. exists EmptyString, EmptyString. split; [apply interp_frame_refl | reflexivity]. Qed.

Lemma framed_trans (a b c : t) : framed a b -> framed b c -> framed a c.
Proof.
  intros (p1 & r1 & H1 & A1) (p2 & r2 & H2 & A2).
  exists (p1 +:+ p2), (r1 +:+ r2).
  split; [exact (interp_frame_trans _ _ _ _ _ _ _ H1 H2)|].
  exact (all_chars_app _ _ _ A1 A2).
Qed.

Lemma framed_read (i i' : t) (read : string) :
  output i' = output i -> input_data i = read +:+ input_data i' -> framed i i'.
Proof.
  intros Ho Hi. exists EmptyString, read. split; [|reflexivity].
  split; [rewrite Ho; symmetry; apply string_app_empty | exact Hi].
Qed.

Lemma read_integer_framed (i : t) : framed i (read_integer i).2.
Proof.
  unfold read_integer.
  destruct (skip_whitespace_split (input_data i)) as (ws & Hws & _).
  destruct (Lexer.skip_whitespace (input_data i)) as [|c data] eqn:Es.
  - apply (framed_read _ _ ws); [reflexivity | exact Hws].
  - destruct (Ascii.eqb_spec c "-") as [->|Hc].
    + cbn [Lexer.advance].
      pose proof (take_while_split Py.isdigit data) as Ht.
      destruct (Lexer.take_while Py.isdigit data) as [digits rest].
      cbn [fst snd] in Ht.
      destruct (_ || _); [apply (framed_read _ _ ws); [reflexivity | exact Hws]|].
      assert (Hin : input_data i = (ws +:+ String "-" digits) +:+ rest).
      { rewrite Hws, Ht, string_app_assoc, string_app_cons. reflexivity. }
      destruct (Py.int _); cbn [snd];
        (apply (framed_read _ _ (ws +:+ String "-" digits)); [reflexivity | exact Hin]).
    + pose proof (take_while_split Py.isdigit (String c data)) as Ht.
      destruct (Lexer.take_while Py.isdigit (String c data)) as [digits rest].
      cbn [fst snd] in Ht.
      destruct (_ || _); [apply (framed_read _ _ ws); [reflexivity | exact Hws]|].
      assert (Hin : input_data i = (ws +:+ digits) +:+ rest).
      { rewrite Hws, Ht, string_app_assoc. reflexivity. }
      destruct (Py.int _); cbn [snd];
        (apply (framed_read _ _ (ws +:+ digits)); [reflexivity | exact Hin]).
Qed.

Lemma read_character_framed (i : t) : framed i (read_character i).2.
Proof.
  unfold read_character. destruct (input_data i) as [|c rest] eqn:E.
  - apply framed_refl.
  - apply (framed_read _ _ (String c EmptyString)); [reflexivity|].
    rewrite E. reflexivity.
Qed.

Lemma visit_expr_framed (node : expr) :
  forall (i i' : t) (v : Z), visit_expr node i = Ok (v, i') -> framed i i'.
Proof.
  induction node as [l IHl op r IHr|v0|name|name]; intros i i' v H; simpl in H.
  - apply bind_Ok_inv in H as ([lhs i1] & Hl & H).
    apply bind_Ok_inv in H as ([rhs i2] & Hr & H).
    apply bind_Ok_inv in H as (x & _ & H). injection H as _ <-.
    exact (framed_trans _ _ _ (IHl _ _ _ Hl) (IHr _ _ _ Hr)).
  - injection H as _ <-. apply framed_refl.
  - injection H as _ <-. apply framed_refl.
  - unfold visit_Keyword in H.
    destruct (String.eqb name "read").
    { injection H as H. rewrite (surjective_pairing (read_integer i)) in H.
      injection H as _ <-. apply read_integer_framed. }
    destruct (String.eqb name "get").
    { injection H as H. rewrite (surjective_pairing (read_character i)) in H.
      injection H as _ <-. apply read_character_framed. }
    destruct (str_in _ _); [|discriminate].
    injection H as _ <-. apply framed_refl.
Qed.

Lemma assign_to_framed (target : expr) (v : Z) (i : t) :
  framed i (assign_to target v i).
Proof.
  assert (Hprint : forall s, all_chars ascii7 s = true -> framed i (print s i)).
  { intros s Hs. exists s, EmptyString. split; [|exact Hs]. split; reflexivity. }
  unfold assign_to. destruct target as [l op r|v0|name|name];
    try apply framed_refl.
  - apply (framed_read _ _ EmptyString); reflexivity.
  - destruct (String.eqb name "write"); [apply Hprint, str_ascii|].
    destruct (String.eqb name "put"); [|apply framed_refl].
    destruct (_ && _) eqn:E; [|apply framed_refl].
    apply Hprint. exact (chr_ascii _ E).
Qed.

Lemma visit_each_framed (visit : stmt -> t -> result t) (statements : list stmt) :
  Forall (fun s => forall i i', visit s i = Ok i' -> framed i i') statements ->
  forall i i', visit_each visit statements i = Ok i' -> framed i i'.
Proof.
  induction 1 as [|s rest Hs _ IH]; intros i i' H; simpl in H.
  - injection H as <-. apply framed_refl.
  - apply bind_Ok_inv in H as (i1 & H1 & H).
    exact (framed_trans _ _ _ (Hs _ _ H1) (IH _ _ H)).
Qed.

Lemma visit_stmt_framed (fuel : nat) :
  forall (node : stmt) (i i' : t), visit_stmt fuel node i = Ok i' -> framed i i'.
Proof.
  induction fuel as [|f IH]; intros node i i' H; [discriminate|].
  assert (Hall : forall l, Forall (fun s => forall i i',
                   visit_stmt f s i = Ok i' -> framed i i') l).
  { intros l. apply Forall_forall. intros s _. exact (IH s). }
  cbn [visit_stmt] in H. destruct node as [target e|c t e|c b].
  - apply bind_Ok_inv in H as ([v i1] & He & H). injection H as <-.
    exact (framed_trans _ _ _ (visit_expr_framed _ _ _ _ He) (assign_to_framed _ _ _)).
  - apply bind_Ok_inv in H as ([v i1] & Hc & H).
    apply visit_expr_framed in Hc.
    destruct (negb (v =? 0)).
    + exact (framed_trans _ _ _ Hc (visit_each_framed _ _ (Hall t) _ _ H)).
    + destruct e as [l|].
      * exact (framed_trans _ _ _ Hc (visit_each_framed _ _ (Hall l) _ _ H)).
      * injection H as <-. exact Hc.
  - apply bind_Ok_inv in H as ([v i1] & Hc & H).
    apply visit_expr_framed in Hc.
    destruct (v =? 0); [injection H as <-; exact Hc|].
    apply bind_Ok_inv in H as (i2 & Hb & H).
    exact (framed_trans _ _ _ Hc
             (framed_trans _ _ _ (visit_each_framed _ _ (Hall b) _ _ Hb)
                (IH _ _ _ H))).
Qed.

(** X24. An interpretation that ends without exception only appends to the
    output, every character it appends has a code of at most 127, and it reads
    its input from the front: the input before is what was read followed by
    the input that is left. *)
Theorem X24_interpreter_frame (fuel : nat) (ast : program) (i i' : t) :
  interpret fuel ast i = Ok i' ->
  exists printed read,
    output i' = output i +:+ printed /\
    all_chars ascii7 printed = true /\
    input_data i = read +:+ input_data i'.
Proof.
  intros H. destruct ast as [statements]. cbn [interpret] in H.
  assert (Hall : Forall (fun s => forall i i',
                   visit_stmt fuel s i = Ok i' -> framed i i') statements).
  { apply Forall_forall. intros s _. exact (visit_stmt_framed fuel s). }
  destruct (visit_each_framed _ _ Hall _ _ H) as (p & r & [Ho Hi] & Ha).
  exists p, r. repeat apply conj; assumption.
Qed.

Lemma X24_interpreter_frame_witness :
  exists printed read,
    "A" = "" +:+ printed /\
    all_chars ascii7 printed = true /\
    "A7" = read +:+ "7".
Proof.
  apply (X24_interpreter_frame 5
           (Program [Assignment (Keyword "put") (Keyword "get")])
           (mk ∅ "A7" "") (mk ∅ "7" "A")).
  vm_compute. reflexivity.
Defined.

End InterpreterPrinted.

(** * Reading integers in the interpreter and in the VM *)

Section ReadAgree.

Import Shape.
Import Input.

Lemma ascii_digit_facts (c : ascii) :
  ascii_digit c = true ->
  Py.isdigit c = true /\ Py.isspace c = false /\ Py.is_underscore c = false /\
  c <> "-"%char /\ c <> "+"%char /\
  Py.digit_in 10 c = Some (Py.ord c - 48).
Proof.
  each_ascii c; vm_compute; intros H; try discriminate H;
    repeat apply conj; try reflexivity; discriminate.
Qed.

Lemma space_not_digit (c : ascii) : Py.isspace c = true -> Py.isdigit c = false.
Proof. each_ascii c; vm_compute; intros H; try discriminate H; reflexivity. Qed.

Lemma digits_isdigit (d : string) :
  all_chars ascii_digit d = true -> all_chars Py.isdigit d = true.
Proof.
  induction d as [|c d IH]; [reflexivity|]. simpl.
  intros H. apply andb_true_iff in H as [Hc Hd].
  destruct (ascii_digit_facts c Hc) as (-> & _). exact (IH Hd).
Qed.

Lemma digits_not_space (d : string) :
  all_chars ascii_digit d = true ->
  all_chars (fun c => negb (Py.isspace c)) d = true.
Proof.
  induction d as [|c d IH]; [reflexivity|]. simpl.
  intros H. apply andb_true_iff in H as [Hc Hd].
  destruct (ascii_digit_facts c Hc) as (_ & -> & _). exact (IH Hd).
Qed.

Lemma lstrip_word (s : string) :
  all_chars (fun c => negb (Py.isspace c)) s = true -> Py.lstrip s = s.
Proof.
  destruct s as [|c s]; [reflexivity|]. simpl. intros H.
  apply andb_true_iff in H as [Hc _]. apply negb_true_iff in Hc.
  rewrite (int_space_isspace c Hc). reflexivity.
Qed.

Lemma rstrip_word (s : string) :
  all_chars (fun c => negb (Py.isspace c)) s = true -> Py.rstrip s = s.
Proof.
  induction s as [|c s IH]; [reflexivity|]. simpl. intros H.
  apply andb_true_iff in H as [Hc Hs]. apply negb_true_iff in Hc.
  rewrite (IH Hs). destruct s; [rewrite (int_space_isspace c Hc)|]; reflexivity.
Qed.

Lemma int_digits_decimal (d : string) :
  all_chars ascii_digit d = true ->
  forall (b : bool) (acc : Z),
    d <> EmptyString \/ b = true ->
    exists v, Py.int_digits 10 d b acc = Some v.
Proof.
  induction d as [|c d IH]; intros Hall b acc Hne; simpl.
  - destruct Hne as [Hne | ->]; [contradiction | eexists; reflexivity].
  - simpl in Hall. apply andb_true_iff in Hall as [Hc Hd].
    destruct (ascii_digit_facts c Hc) as (_ & _ & -> & _ & _ & ->).
    apply (IH Hd). right. reflexivity.
Qed.

(** [int] reads every such number. *)
Lemma int_decimal (num : string) :
  decimal num = true -> exists v, Py.int num = Ok v.
Proof.
  intros H.
  assert (Hw : all_chars (fun c => negb (Py.isspace c)) num = true /\
               exists neg d, Py.strip_sign num = (neg, d) /\
                             all_chars ascii_digit d = true /\ d <> EmptyString).
  { unfold decimal in H. destruct num as [|c d]; [discriminate H|].
    destruct (Ascii.eqb_spec c "-") as [->|Hc].
    - apply andb_true_iff in H as [Hne Hd]. split.
      + simpl. exact (digits_not_space d Hd).
      + exists true, d. repeat apply conj; [reflexivity | exact Hd |].
        intros ->. discriminate Hne.
    - assert (Hall : all_chars ascii_digit (String c d) = true).
      { revert H Hc. clear. each_ascii c; intros H Hc;
          solve [exfalso; apply Hc; reflexivity
                | apply andb_true_iff in H as [_ H]; exact H]. }
      split; [exact (digits_not_space _ Hall)|].
      exists false, (String c d). repeat apply conj; [|exact Hall | discriminate].
      simpl in Hall. apply andb_true_iff in Hall as [Hd _].
      destruct (ascii_digit_facts c Hd) as (_ & _ & _ & Hm & Hp & _).
      revert Hm Hp. clear. each_ascii c; intros Hm Hp;
        solve [reflexivity | exfalso; apply Hm; reflexivity
              | exfalso; apply Hp; reflexivity]. }
  destruct Hw as (Hw & neg & d & Hs & Hd & Hne).
  unfold Py.int, Py.int_of_string.
  rewrite (lstrip_word _ Hw), (rstrip_word _ Hw), Hs.
  change (10 =? 16) with false. cbv iota beta.
  assert (Hb : match d with
               | String c b' => if false && Py.is_underscore c then b' else d
               | EmptyString => d
               end = d) by (destruct d; reflexivity).
  rewrite Hb.
  destruct (int_digits_decimal d Hd false 0 (or_introl Hne)) as (v & ->).
  eexists. reflexivity.
Qed.

Lemma skip_whitespace_app (ws s : string) :
  all_chars Py.isspace ws = true ->
  Lexer.skip_whitespace (ws +:+ s) = Lexer.skip_whitespace s.
Proof.
  induction ws as [|c ws IH]; [reflexivity|]. intros H. simpl in H.
  apply andb_true_iff in H as [Hc Hs]. rewrite string_app_cons. simpl.
  rewrite Hc. exact (IH Hs).
Qed.

Lemma take_while_app (p : ascii -> bool) (a b : string) :
  all_chars p a = true ->
  match b with String c _ => p c = false | EmptyString => True end ->
  Lexer.take_while p (a +:+ b) = (a, b).
Proof.
  intros Ha Hb. induction a as [|c a IH].
  - change (EmptyString +:+ b) with b. destruct b as [|c b]; [reflexivity|].
    simpl. rewrite Hb. reflexivity.
  - simpl in Ha. apply andb_true_iff in Ha as [Hc Ha].
    rewrite string_app_cons. simpl. rewrite Hc, (IH Ha). reflexivity.
Qed.

Lemma split_aux_spaces (ws s : string) :
  all_chars Py.isspace ws = true ->
  Py.split_aux (ws +:+ s) EmptyString = Py.split_aux s EmptyString.
Proof.
  induction ws as [|c ws IH]; [reflexivity|]. intros H. simpl in H.
  apply andb_true_iff in H as [Hc Hs]. rewrite string_app_cons. simpl.
  rewrite Hc. exact (IH Hs).
Qed.

Lemma split_aux_word (w s : string) :
  all_chars (fun c => negb (Py.isspace c)) w = true ->
  forall cur, Py.split_aux (w +:+ s) cur = Py.split_aux s (cur +:+ w).
Proof.
  induction w as [|c w IH]; intros H cur.
  - change (EmptyString +:+ s) with s. rewrite string_app_empty. reflexivity.
  - simpl in H. apply andb_true_iff in H as [Hc Hw]. apply negb_true_iff in Hc.
    rewrite string_app_cons. simpl. rewrite Hc, (IH Hw), string_app_assoc.
    reflexivity.
Qed.

Lemma split_aux_end (rest cur : string) :
  ends_word rest = true -> cur <> EmptyString ->
  Py.split_aux rest cur = cur :: Py.split_aux rest EmptyString.
Proof.
  intros Hr Hc. destruct rest as [|c r]; simpl.
  - destruct cur; [contradiction | reflexivity].
  - simpl in Hr. rewrite Hr. destruct cur; [contradiction | reflexivity].
Qed.

Lemma read_agree (ws num rest : string) (i : Interpreter.t) :
  all_chars Py.isspace ws = true ->
  decimal num = true ->
  ends_word rest = true ->
  Interpreter.input_data i = ws +:+ num +:+ rest ->
  exists v,
    Py.int num = Ok v /\
    Interpreter.read_integer i =
      (v, Interpreter.mk (Interpreter.variables i) rest (Interpreter.output i)) /\
    MandrillVM._get_next_int (Py.split (ws +:+ num +:+ rest)) = (v, Py.split rest).
Proof.
  intros Hws Hnum Hrest Hin.
  destruct (int_decimal num Hnum) as (v & Hv). exists v.
  assert (Hrd : match rest with
                | String c _ => Py.isdigit c = false
                | EmptyString => True
                end).
  { destruct rest as [|c r]; [exact I|]. exact (space_not_digit c Hrest). }
  split; [exact Hv|]. split.
  - unfold Interpreter.read_integer. rewrite Hin, (skip_whitespace_app _ _ Hws).
    unfold decimal in Hnum. destruct num as [|c d]; [discriminate Hnum|].
    rewrite string_app_cons.
    destruct (Ascii.eqb_spec c "-") as [->|Hc].
    + apply andb_true_iff in Hnum as [Hne Hd].
      cbn [Lexer.skip_whitespace]. change (Py.isspace "-") with false.
      cbv iota. cbn [Ascii.eqb Bool.eqb andb]. cbv iota.
      cbn [Lexer.advance].
      rewrite (take_while_app Py.isdigit d rest (digits_isdigit d Hd) Hrd).
      change ("-" +:+ d) with (String "-" d).
      replace (String.eqb (String "-" d) "" || String.eqb (String "-" d) "-")
        with false.
      * rewrite Hv. reflexivity.
      * simpl. destruct d; [discriminate Hne | reflexivity].
    + assert (Hall : all_chars ascii_digit (String c d) = true).
      { revert Hnum Hc. clear. each_ascii c; intros H Hc;
          solve [exfalso; apply Hc; reflexivity
                | apply andb_true_iff in H as [_ H]; exact H]. }
      pose proof Hall as Hall'. simpl in Hall'.
      apply andb_true_iff in Hall' as [Hd _].
      destruct (ascii_digit_facts c Hd) as (_ & Hsp & _ & Hm & _).
      cbn [Lexer.skip_whitespace]. rewrite Hsp.
      destruct (Ascii.eqb_spec c "-") as [E|_]; [contradiction|].
      rewrite <- string_app_cons.
      rewrite (take_while_app Py.isdigit _ rest (digits_isdigit _ Hall) Hrd).
      change ("" +:+ String c d) with (String c d).
      replace (String.eqb (String c d) "" || String.eqb (String c d) "-")
        with false.
      * rewrite Hv. reflexivity.
      * simpl. destruct (Ascii.eqb_spec c "-") as [E|_]; [contradiction|].
        reflexivity.
  - assert (Hw : all_chars (fun c => negb (Py.isspace c)) num = true).
    { unfold decimal in Hnum. destruct num as [|c d]; [discriminate Hnum|].
      destruct (Ascii.eqb_spec c "-") as [->|Hc].
      - apply andb_true_iff in Hnum as [_ Hd]. simpl. exact (digits_not_space d Hd).
      - apply digits_not_space. revert Hnum Hc. clear. each_ascii c; intros H Hc;
          solve [exfalso; apply Hc; reflexivity
                | apply andb_true_iff in H as [_ H]; exact H]. }
    assert (Hne : num <> EmptyString).
    { intros ->. discriminate Hnum. }
    unfold Py.split.
    rewrite (split_aux_spaces _ _ Hws), (split_aux_word _ _ Hw).
    change (EmptyString +:+ num) with num.
    rewrite (split_aux_end _ _ Hrest Hne).
    cbn [MandrillVM._get_next_int]. rewrite Hv. reflexivity.
Qed.

(** X22. On a number of the input (a minus sign or none, then one or more of
    the digits 0 to 9) that only whitespace precedes and that whitespace or
    the end of the input follows, read_integer of the interpreter and
    _get_next_int of the VM return the same value, the one that int reads from
    the number, and leave the same input: the interpreter the text after the
    number, the VM the tokens of that text. (The bound of recent versions of
    Python on the number of digits that int converts is not modelled.) *)
Theorem X22_read_agree (ws num rest : string) (i : Interpreter.t) :
  all_chars Py.isspace ws = true ->
  decimal num = true ->
  ends_word rest = true ->
  Interpreter.input_data i = ws +:+ num +:+ rest ->
  exists v,
    Py.int num = Ok v /\
    Interpreter.read_integer i =
      (v, Interpreter.mk (Interpreter.variables i) rest (Interpreter.output i)) /\
    MandrillVM._get_next_int (Py.split (ws +:+ num +:+ rest)) = (v, Py.split rest).
Proof. exact (read_agree ws num rest i). Qed.

Lemma X22_read_agree_witness :
  exists v,
    Py.int "-42" = Ok v /\
    Interpreter.read_integer (Interpreter.mk ∅ "  -42 7" "") =
      (v, Interpreter.mk ∅ " 7" "") /\
    MandrillVM._get_next_int (Py.split ("  " +:+ "-42" +:+ " 7")) = (v, Py.split " 7").
Proof.
  apply (X22_read_agree "  " "-42" " 7" (Interpreter.mk ∅ "  -42 7" ""));
    reflexivity.
Defined.

End ReadAgree.

(** * Compiled code and the interpreter *)

Section WithinSound.

Import Interpreter.

Variable reads : bool.

Lemma within_binary (op : string) (lhs rhs v : Z) :
  Within.binary op lhs rhs = Some v ->
  binary op lhs rhs = Ok v /\ int32 v /\ (rhs = 0 -> op <> "/" /\ op <> "%").
Proof.
  unfold Within.binary. intros H.
  destruct ((String.eqb op "/" || String.eqb op "%") && (rhs =? 0)) eqn:E;
    [discriminate|].
  destruct (binary op lhs rhs) as [x|]; [|discriminate].
  destruct (Within.fits x) eqn:Ef; [|discriminate]. injection H as <-.
  split; [reflexivity|]. split.
  - unfold Within.fits in Ef. apply andb_true_iff in Ef as [H1 H2].
    apply Z.leb_le in H1. apply Z.leb_le in H2. split; assumption.
  - intros ->. rewrite andb_true_r in E. apply orb_false_iff in E as [E1 E2].
    split; intros ->; discriminate.
Qed.

Lemma within_visit_expr (node : expr) :
  forall (i i' : t) (v : Z),
    Within.visit_expr reads node i = Some (v, i') -> visit_expr node i = Ok (v, i').
Proof.
  induction node as [l IHl op r IHr|v0|name|name]; intros i i' v H; simpl in H |- *.
  - destruct (Within.visit_expr reads l i) as [[lhs i1]|] eqn:El; [|discriminate].
    simpl in H.
    destruct (Within.visit_expr reads r i1) as [[rhs i2]|] eqn:Er; [|discriminate].
    simpl in H.
    destruct (Within.binary op lhs rhs) as [x|] eqn:Eb; [|discriminate].
    simpl in H. injection H as <- <-.
    rewrite (IHl _ _ _ El). cbn [bind]. rewrite (IHr _ _ _ Er). cbn [bind].
    destruct (within_binary _ _ _ _ Eb) as (-> & _). reflexivity.
  - injection H as <- <-. reflexivity.
  - injection H as <- <-. reflexivity.
  - unfold visit_Keyword. destruct reads.
    + destruct (String.eqb_spec name "read") as [->|]; [|discriminate].
      unfold Within.read_decimal in H.
      destruct (Within.minus_sign _) as [sign after_sign].
      destruct (Lexer.take_while _ _) as [digits rest].
      destruct (_ && _); [|discriminate].
      injection H as H. rewrite H. reflexivity.
    + destruct (String.eqb_spec name "get") as [->|]; [|discriminate].
      injection H as H. rewrite H. reflexivity.
Qed.

Lemma within_assign_to (target : expr) (v : Z) (i i' : t) :
  Within.assign_to target v i = Some i' -> assign_to target v i = i'.
Proof.
  unfold Within.assign_to. destruct (Within.fits v); [|discriminate].
  destruct target as [l op r|v0|name|name]; try discriminate.
  - intros [= <-]. reflexivity.
  - destruct (str_in _ _); [|discriminate]. intros [= <-]. reflexivity.
Qed.

Lemma within_visit_each (visit : stmt -> t -> option t)
  (visit' : stmt -> t -> result t) (statements : list stmt) :
  (forall s i i', visit s i = Some i' -> visit' s i = Ok i') ->
  forall i i', Within.visit_each visit statements i = Some i' ->
               visit_each visit' statements i = Ok i'.
Proof.
  intros Hv. induction statements as [|s rest IH]; intros i i' H; simpl in H |- *.
  - injection H as <-. reflexivity.
  - destruct (visit s i) as [i1|] eqn:E; [|discriminate]. simpl in H.
    rewrite (Hv _ _ _ E). cbn [bind]. exact (IH _ _ H).
Qed.

Lemma within_visit_stmt (fuel : nat) :
  forall (node : stmt) (i i' : t),
    Within.visit_stmt reads fuel node i = Some i' -> visit_stmt fuel node i = Ok i'.
Proof.
  induction fuel as [|f IH]; intros node i i' H; [discriminate|].
  cbn [Within.visit_stmt visit_stmt] in H |- *.
  destruct node as [target e|c t e|c b].
  - destruct (Within.visit_expr reads e i) as [[v i1]|] eqn:Ee; [|discriminate].
    simpl in H. rewrite (within_visit_expr _ _ _ _ Ee). cbn [bind].
    rewrite (within_assign_to _ _ _ _ H). reflexivity.
  - destruct (Within.visit_expr reads c i) as [[v i1]|] eqn:Ec; [|discriminate].
    simpl in H. rewrite (within_visit_expr _ _ _ _ Ec). cbn [bind].
    destruct (negb (v =? 0)).
    + exact (within_visit_each _ _ _ IH _ _ H).
    + destruct e as [l|].
      * exact (within_visit_each _ _ _ IH _ _ H).
      * injection H as <-. reflexivity.
  - destruct (Within.visit_expr reads c i) as [[v i1]|] eqn:Ec; [|discriminate].
    simpl in H. rewrite (within_visit_expr _ _ _ _ Ec). cbn [bind].
    destruct (v =? 0); [injection H as <-; reflexivity|].
    destruct (Within.visit_each _ b i1) as [i2|] eqn:Eb; [|discriminate].
    simpl in H. rewrite (within_visit_each _ _ _ IH _ _ Eb). cbn [bind].
    exact (IH _ _ _ H).
Qed.

End WithinSound.

Section Machine.

Import MandrillVM.
Import Sim.

Lemma runs_trans (n m : nat) (a b c : t) :
  runs n a b -> runs m b c -> runs (n + m) a c.
Proof.
  induction 1 as [vm|n vm vm1 vm2 Hpc Hs _ IH]; intros H; [exact H|].
  exact (runs_step _ _ _ _ Hpc Hs (IH H)).
Qed.

Lemma runs_one (vm vm1 : t) :
  (pc vm <? Z.of_nat (length (code vm))) = true ->
  step vm = Ok (false, vm1) -> runs 1 vm vm1.
Proof. intros Hpc Hs. exact (runs_step _ _ _ _ Hpc Hs (runs_done _)). Qed.

Lemma run_loop_runs (n : nat) (vm vm1 : t) :
  runs n vm vm1 -> forall f, run_loop (n + f) vm = run_loop f vm1.
Proof.
  induction 1 as [vm|n vm vm1 vm2 Hpc Hs _ IH]; intros f; [reflexivity|].
  cbn [Nat.add run_loop]. rewrite Hpc, Hs. cbn [bind]. apply IH.
Qed.

(** The instruction at [pc]. *)
Lemma fetch (vm : t) (k : nat) (i : instruction) :
  pc vm = Z.of_nat k -> code vm !! k = Some i ->
  (pc vm <? Z.of_nat (length (code vm))) = true /\
  Py.index (code vm) (pc vm) = Some i.
Proof.
  intros Hpc Hi. split.
  - apply Z.ltb_lt. apply lookup_lt_Some in Hi. lia.
  - rewrite index_nonneg by lia. rewrite Hpc, Nat2Z.id. exact Hi.
Qed.

Lemma set_stack_same (vm : t) : set_stack (stack vm) vm = vm.
Proof. destruct vm. reflexivity. Qed.

Lemma sits_app (instrs : list instruction) (k : nat) (a b : list instruction) :
  sits instrs k (a ++ b) -> sits instrs k a /\ sits instrs (k + length a) b.
Proof.
  intros H. split.
  - intros j i Hj. apply H. apply lookup_app_l_Some. exact Hj.
  - intros j i Hj. rewrite <- Nat.add_assoc. apply H.
    rewrite lookup_app_r by lia.
    replace (length a + j - length a)%nat with j by lia. exact Hj.
Qed.

Lemma sits_head (instrs : list instruction) (k : nat) (i : instruction)
  (c : list instruction) :
  sits instrs k (i :: c) -> instrs !! k = Some i /\ sits instrs (S k) c.
Proof.
  intros H. split.
  - rewrite <- (Nat.add_0_r k). apply H. reflexivity.
  - intros j x Hj. replace (S k + j)%nat with (k + S j)%nat by lia.
    apply H. exact Hj.
Qed.

Lemma minus_sign_split (data : string) :
  data = (Within.minus_sign data).1 +:+ (Within.minus_sign data).2.
Proof.
  destruct data as [|c d]; [reflexivity|].
  destruct c as [[] [] [] [] [] [] [] []]; reflexivity.
Qed.

(** A guarded [read] and [GETI] on the tokens of the same input. *)
Lemma read_decimal_agree (i i1 : Interpreter.t) (v : Z) :
  Within.read_decimal i = Some (v, i1) ->
  Interpreter.output i1 = Interpreter.output i /\
  Interpreter.variables i1 = Interpreter.variables i /\
  _get_next_int (Py.split (Interpreter.input_data i)) =
    (v, Py.split (Interpreter.input_data i1)).
Proof.
  unfold Within.read_decimal. intros H.
  destruct (skip_whitespace_split (Interpreter.input_data i)) as (ws & Hws & Hsp).
  pose proof (minus_sign_split (Lexer.skip_whitespace (Interpreter.input_data i)))
    as Hdata.
  destruct (Within.minus_sign _) as [sign after_sign]. cbn [fst snd] in Hdata.
  pose proof (take_while_split Input.ascii_digit after_sign) as Ht.
  destruct (Lexer.take_while Input.ascii_digit after_sign) as [digits rest].
  cbn [fst snd] in Ht.
  destruct (Input.decimal (sign +:+ digits) && Input.ends_word rest) eqn:E;
    [|discriminate].
  apply andb_true_iff in E as [Hd He].
  assert (Hin : Interpreter.input_data i = ws +:+ (sign +:+ digits) +:+ rest).
  { rewrite Hws at 1. rewrite Hdata, Ht, !string_app_assoc. reflexivity. }
  destruct (read_agree ws (sign +:+ digits) rest i Hsp Hd He Hin)
    as (v' & _ & Hr & Hg).
  rewrite Hr in H. injection H as <- <-. cbn [Interpreter.output
    Interpreter.variables Interpreter.input_data].
  split; [reflexivity|]. split; [reflexivity|]. rewrite Hin. exact Hg.
Qed.

End Machine.

Section Simulation.

Import MandrillVM.
Import Sim.
Import Compiler.
Import Trees.

Variable reads : bool.
Variable tbl : gmap string Z.
Variable instrs : list instruction.
Hypothesis Hinj : forall n1 n2 id,
  tbl !! n1 = Some id -> tbl !! n2 = Some id -> n1 = n2.

Lemma step_at (vm : t) (k : nat) (opcode operand : Z) :
  pc vm = Z.of_nat k -> code vm !! k = Some (opcode, operand) ->
  (pc vm <? Z.of_nat (length (code vm))) = true /\
  step vm =
    do (halted, vm') <- dispatch opcode operand vm;
    if halted then Ok (true, vm') else Ok (false, set_pc (pc vm' + 1) vm').
Proof.
  intros Hpc Hi. destruct (fetch vm k _ Hpc Hi) as [Hlt Hidx].
  split; [exact Hlt|]. unfold step. rewrite Hidx. reflexivity.
Qed.

(** What one instruction does, when it only changes the stack. *)
Lemma stack_step (vm : t) (k : nat) (opcode operand : Z) (s : list Z)
  (i : Interpreter.t) :
  same_state reads tbl instrs i vm -> pc vm = Z.of_nat k ->
  instrs !! k = Some (opcode, operand) ->
  dispatch opcode operand vm = Ok (false, set_stack s vm) ->
  exists vm1,
    runs 1 vm vm1 /\ pc vm1 = Z.of_nat (S k) /\ stack vm1 = s /\
    same_state reads tbl instrs i vm1.
Proof.
  intros (Hc & Ho & Hi & Hv) Hpc Hk Hd.
  rewrite <- Hc in Hk. destruct (step_at vm k _ _ Hpc Hk) as [Hlt Hs].
  rewrite Hd in Hs. cbn [bind] in Hs.
  eexists. split; [exact (runs_one _ _ Hlt Hs)|].
  split; [cbn; lia|]. split; [reflexivity|].
  split; [exact Hc | split; [exact Ho | split; [exact Hi | exact Hv]]].
Qed.

Lemma var_id_lookup (name : string) (v v' : Layout.symbols) (id : Z) :
  Layout.var_id name v = (id, v') ->
  Layout.table v' !! name = Some id /\ Layout.table v ⊆ Layout.table v'.
Proof.
  unfold Layout.var_id.
  destruct (Layout.table v !! name) as [x|] eqn:E; intros [= <- <-].
  - split; [exact E | reflexivity].
  - cbn [Layout.table]. split; [apply lookup_insert_eq|].
    apply insert_subseteq. exact E.
Qed.

Lemma expr_code_grows (e : expr) : grows (Layout.expr_code e).
Proof.
  induction e as [l IHl op r IHr|name|value|name]; intros v c v' H; simpl in H.
  - apply bind_Ok_inv in H as ([cl v1] & Hl & H).
    apply bind_Ok_inv in H as ([cr v2] & Hr & H).
    destruct (CodeGenerator.op_map op); [|discriminate]. injection H as _ <-.
    etrans; [exact (IHl _ _ _ Hl) | exact (IHr _ _ _ Hr)].
  - destruct (Layout.var_id name v) as [id v1] eqn:E. injection H as _ <-.
    exact (proj2 (var_id_lookup _ _ _ _ E)).
  - apply bind_Ok_inv in H as (n & _ & H). injection H as _ <-. reflexivity.
  - destruct (String.eqb name "read"); [injection H as _ <-; reflexivity|].
    destruct (String.eqb name "get"); [injection H as _ <-; reflexivity|].
    destruct (_ || _); [discriminate|]. injection H as _ <-. reflexivity.
Qed.

Lemma expr_runs (e : expr) :
  forall (e' : Interpreter.expr) (v : Layout.symbols) (c : list instruction)
         (v' : Layout.symbols) (k : nat) (i i1 : Interpreter.t) (val : Z) (vm : t),
    expr_tree e = Ok e' ->
    Layout.expr_code e v = Ok (c, v') ->
    Layout.table v' ⊆ tbl ->
    sits instrs k c ->
    same_state reads tbl instrs i vm ->
    pc vm = Z.of_nat k ->
    Within.visit_expr reads e' i = Some (val, i1) ->
    exists vm1,
      runs (length c) vm vm1 /\ pc vm1 = Z.of_nat (k + length c) /\
      stack vm1 = val :: stack vm /\ same_state reads tbl instrs i1 vm1.
Proof.
  induction e as [l IHl op r IHr|name|value|name];
    intros e' v c v' k i i1 val vm He Hc Hsub Hsits Hs Hpc Hv;
    cbn [expr_tree Layout.expr_code] in He, Hc.
  - apply bind_Ok_inv in He as (l' & Hl' & He).
    apply bind_Ok_inv in He as (r' & Hr' & He). injection He as <-.
    apply bind_Ok_inv in Hc as ([cl v1] & Hcl & Hc).
    apply bind_Ok_inv in Hc as ([cr v2] & Hcr & Hc).
    destruct (CodeGenerator.op_map op) as [opc|] eqn:Eop; [|discriminate].
    injection Hc as <- <-.
    simpl in Hv.
    destruct (Within.visit_expr reads l' i) as [[lhs ia]|] eqn:El; [|discriminate].
    simpl in Hv.
    destruct (Within.visit_expr reads r' ia) as [[rhs ib]|] eqn:Er; [|discriminate].
    simpl in Hv.
    destruct (Within.binary op lhs rhs) as [x|] eqn:Eb; [|discriminate].
    simpl in Hv. injection Hv as <- <-.
    apply sits_app in Hsits as [Hsl Hsits].
    apply sits_app in Hsits as [Hsr Hse].
    apply sits_head in Hse as [Hse _].
    pose proof (expr_code_grows r _ _ _ Hcr) as Hg.
    destruct (IHl _ _ _ _ _ _ _ _ _ Hl' Hcl ltac:(etrans; eassumption) Hsl Hs Hpc El)
      as (vma & Ra & Pa & Sa & Ha).
    destruct (IHr _ _ _ _ _ _ _ _ _ Hr' Hcr Hsub Hsr Ha Pa Er)
      as (vmb & Rb & Pb & Sb & Hb).
    destruct (within_binary _ _ _ _ Eb) as (Hbin & Hfit & Hz).
    destruct (operator_agree op opc lhs rhs (stack vm) vmb Eop Hz)
      as (x' & r0 & Hbin' & Hev & _ & Hsame).
    rewrite Hbin in Hbin'. injection Hbin' as <-. rewrite (Hsame Hfit) in Hev.
    assert (Hstack : set_stack (rhs :: lhs :: stack vm) vmb = vmb).
    { rewrite <- (set_stack_same vmb) at 2. rewrite Sb, Sa. reflexivity. }
    rewrite Hstack in Hev.
    assert (Hset : set_stack (x :: stack vm) vmb = set_stack (x :: stack vm) vmb)
      by reflexivity.
    destruct (stack_step vmb (k + length cl + length cr) EVAL opc (x :: stack vm) ib
                Hb Pb Hse) as (vm1 & R1 & P1 & S1 & H1).
    { change (dispatch EVAL opc vmb)
        with (do vm' <- execute_eval_optimized opc vmb; Ok (false, vm')).
      rewrite Hev. reflexivity. }
    exists vm1. split; [|split; [|split; [exact S1 | exact H1]]].
    + rewrite !length_app. cbn [length].
      replace (length cl + (length cr + 1))%nat
        with (length cl + (length cr + 1))%nat by reflexivity.
      rewrite Nat.add_assoc.
      exact (runs_trans _ _ _ _ _ (runs_trans _ _ _ _ _ Ra Rb) R1).
    + rewrite P1, !length_app. cbn [length]. f_equal. lia.
  - injection He as <-.
    destruct (Layout.var_id name v) as [id v1] eqn:E. injection Hc as <- <-.
    simpl in Hv. injection Hv as <- <-.
    destruct (var_id_lookup _ _ _ _ E) as [Hid _].
    pose proof (lookup_weaken _ _ _ _ Hid Hsub) as Ht.
    destruct Hs as (Hcode & Ho & Hi & Hvars).
    destruct (Hvars _ _ Ht) as [Hid0 Hval].
    apply sits_head in Hsits as [Hk _].
    destruct (stack_step vm k DLOAD id
                (Interpreter.visit_Identifier name i :: stack vm) i
                (conj Hcode (conj Ho (conj Hi Hvars))) Hpc Hk)
      as (vm1 & R1 & P1 & S1 & H1).
    { change (dispatch DLOAD id vm)
        with (do vm' <- handle_dload id vm; Ok (false, vm')).
      unfold handle_dload. rewrite index_nonneg by exact Hid0. rewrite Hval.
      reflexivity. }
    exists vm1. split; [exact R1|]. split; [rewrite P1; f_equal; simpl; lia|].
    split; [exact S1 | exact H1].
  - destruct (Py.startswith "0x" value); [|discriminate].
    apply bind_Ok_inv in He as (n' & Hn' & He). injection He as <-.
    apply bind_Ok_inv in Hc as (n & Hn & Hc). injection Hc as <- <-.
    rewrite Hn in Hn'. injection Hn' as <-.
    simpl in Hv. injection Hv as <- <-.
    apply sits_head in Hsits as [Hk _].
    destruct (stack_step vm k DSTORE n (n :: stack vm) i Hs Hpc Hk)
      as (vm1 & R1 & P1 & S1 & H1); [reflexivity|].
    exists vm1. split; [exact R1|]. split; [rewrite P1; f_equal; simpl; lia|].
    split; [exact S1 | exact H1].
  - injection He as <-. cbn [Within.visit_expr] in Hv.
    destruct Hs as (Hcode & Ho & Hi & Hvars).
    destruct reads.
    + (* [read] and [GETI] *)
      destruct (String.eqb_spec name "read") as [->|]; [|discriminate].
      cbn in Hc. injection Hc as <- <-.
      apply sits_head in Hsits as [Hk _].
      rewrite <- Hcode in Hk. destruct (step_at vm k _ _ Hpc Hk) as [Hlt Hstep].
      change (dispatch GETI 0 vm) with (Ok (false, handle_geti vm) : result (bool * t))
        in Hstep.
      cbn [bind] in Hstep.
      destruct (read_decimal_agree _ _ _ Hv) as (Ho1 & Hv1 & Hg).
      eexists. split; [exact (runs_one _ _ Hlt Hstep)|].
      unfold handle_geti. rewrite Hi, Hg. cbn.
      split; [lia|]. split; [reflexivity|].
      split; [exact Hcode | split; [rewrite Ho1; exact Ho | split; [reflexivity|]]].
      intros name id Hn. unfold Interpreter.visit_Identifier. rewrite Hv1.
      exact (Hvars name id Hn).
    + (* [get] and [GETC] *)
      destruct (String.eqb_spec name "get") as [->|]; [|discriminate].
      injection Hv as Hv. cbn in Hc. injection Hc as <- <-.
      apply sits_head in Hsits as [Hk _].
      rewrite <- Hcode in Hk. destruct (step_at vm k _ _ Hpc Hk) as [Hlt Hstep].
      change (dispatch GETC 0 vm) with (Ok (false, handle_getc vm) : result (bool * t))
        in Hstep.
      cbn [bind] in Hstep.
      eexists. split; [exact (runs_one _ _ Hlt Hstep)|].
      unfold handle_getc, _get_next_char. unfold Interpreter.read_character in Hv.
      rewrite Hi. destruct (Interpreter.input_data i) as [|ch rest] eqn:Ein;
        injection Hv as <- <-; cbn.
      * split; [lia|]. split; [reflexivity|].
        split; [exact Hcode | split; [exact Ho | split; [|exact Hvars]]].
        symmetry. exact Ein.
      * split; [lia|]. split; [reflexivity|].
        split; [exact Hcode | split; [exact Ho | split; [reflexivity | exact Hvars]]].
Qed.

Lemma assign_code_grows (lvalue : expr) (v v' : Layout.symbols)
  (c : list instruction) :
  Layout.assign_code lvalue v = (c, v') -> Layout.table v ⊆ Layout.table v'.
Proof.
  unfold Layout.assign_code. destruct lvalue as [l op r|name|value|name].
  - intros [= _ <-]. reflexivity.
  - destruct (Layout.var_id name v) as [id v1] eqn:E. intros [= _ <-].
    exact (proj2 (var_id_lookup _ _ _ _ E)).
  - intros [= _ <-]. reflexivity.
  - destruct (String.eqb name "write"); [intros [= _ <-]; reflexivity|].
    destruct (String.eqb name "put"); intros [= _ <-]; reflexivity.
Qed.

Lemma block_code_grows (l : list stmt) :
  Forall (fun s => forall base, grows (Layout.stmt_code base s)) l ->
  forall base, grows (Layout.block_code Layout.stmt_code base l).
Proof.
  induction 1 as [|s rest Hs _ IH]; intros base v c v' H; simpl in H.
  - injection H as _ <-. reflexivity.
  - apply bind_Ok_inv in H as ([c1 v1] & H1 & H).
    apply bind_Ok_inv in H as ([c2 v2] & H2 & H). injection H as _ <-.
    etrans; [exact (Hs _ _ _ _ H1) | exact (IH _ _ _ _ H2)].
Qed.

Lemma stmt_code_grows (s : stmt) : forall base, grows (Layout.stmt_code base s).
Proof.
  induction s as [lvalue e | cond t e Ht He | cond b Hb] using stmt_induction;
    intros base v c v' H; cbn [Layout.stmt_code] in H.
  - apply bind_Ok_inv in H as ([ce v1] & He & H).
    destruct (Layout.assign_code lvalue v1) as [ca v2] eqn:Ea. injection H as _ <-.
    etrans; [exact (expr_code_grows _ _ _ _ He) | exact (assign_code_grows _ _ _ _ Ea)].
  - apply bind_Ok_inv in H as ([cc v1] & Hc & H).
    apply bind_Ok_inv in H as ([ct v2] & Hthen & H).
    pose proof (expr_code_grows _ _ _ _ Hc) as G1.
    pose proof (block_code_grows t Ht _ _ _ _ Hthen) as G2.
    destruct e as [[|s0 es]|].
    + injection H as _ <-. etrans; eassumption.
    + apply bind_Ok_inv in H as ([ce v3] & Helse & H). injection H as _ <-.
      pose proof (block_code_grows _ He _ _ _ _ Helse) as G3.
      etrans; [exact G1|]. etrans; eassumption.
    + injection H as _ <-. etrans; eassumption.
  - apply bind_Ok_inv in H as ([cc v1] & Hc & H).
    apply bind_Ok_inv in H as ([cb v2] & Hbody & H). injection H as _ <-.
    etrans; [exact (expr_code_grows _ _ _ _ Hc)|].
    exact (block_code_grows b Hb _ _ _ _ Hbody).
Qed.

Lemma all_grow (l : list stmt) :
  Forall (fun s => forall base, grows (Layout.stmt_code base s)) l.
Proof. apply Forall_forall. intros s _. exact (stmt_code_grows s). Qed.

(** The slots and the conditional jump after the code of a condition. *)
Lemma cond_jump_runs (vm : t) (k p q : nat) (cond : Z) (rest : list Z)
  (i : Interpreter.t) :
  same_state reads tbl instrs i vm -> pc vm = Z.of_nat k ->
  sits instrs k [(DSTORE, CodeGenerator.addr p); (DSTORE, CodeGenerator.addr q);
                 (EVAL, OP_COND_JUMP)] ->
  stack vm = cond :: rest ->
  exists vm1,
    runs 3 vm vm1 /\
    pc vm1 = Z.of_nat (if negb (cond =? 0) then p else q) /\
    stack vm1 = rest /\ same_state reads tbl instrs i vm1.
Proof.
  intros Hs Hpc Hsits Hst.
  apply sits_head in Hsits as [H1 Hsits].
  apply sits_head in Hsits as [H2 Hsits].
  apply sits_head in Hsits as [H3 _].
  destruct (stack_step vm k DSTORE _ (CodeGenerator.addr p :: stack vm) i Hs Hpc H1
              eq_refl) as (vma & Ra & Pa & Sa & Ha).
  destruct (stack_step vma (S k) DSTORE _ (CodeGenerator.addr q :: stack vma) i
              Ha Pa H2 eq_refl) as (vmb & Rb & Pb & Sb & Hb).
  destruct Hb as (Hcode & Ho & Hi & Hvars).
  rewrite <- Hcode in H3. destruct (step_at vmb (S (S k)) _ _ Pb H3) as [Hlt Hstep].
  change (dispatch EVAL OP_COND_JUMP vmb)
    with (do vm' <- execute_eval_optimized OP_COND_JUMP vmb; Ok (false, vm'))
    in Hstep.
  unfold execute_eval_optimized in Hstep.
  change (OP_COND_JUMP =? OP_COND_JUMP) with true in Hstep. cbv iota in Hstep.
  rewrite Sb, Sa, Hst in Hstep. cbn [bind] in Hstep.
  eexists. split.
  - exact (runs_trans 2 1 _ _ _ (runs_trans 1 1 _ _ _ Ra Rb) (runs_one _ _ Hlt Hstep)).
  - cbn. rewrite !addr_div. split; [destruct (negb (cond =? 0)); lia|].
    split; [reflexivity|].
    split; [exact Hcode | split; [exact Ho | split; [exact Hi | exact Hvars]]].
Qed.

Lemma jump_runs (vm : t) (k p : nat) (i : Interpreter.t) :
  same_state reads tbl instrs i vm -> pc vm = Z.of_nat k ->
  instrs !! k = Some (JUMP, CodeGenerator.addr p) ->
  exists vm1,
    runs 1 vm vm1 /\ pc vm1 = Z.of_nat p /\ stack vm1 = stack vm /\
    same_state reads tbl instrs i vm1.
Proof.
  intros (Hcode & Ho & Hi & Hvars) Hpc Hk.
  rewrite <- Hcode in Hk. destruct (step_at vm k _ _ Hpc Hk) as [Hlt Hstep].
  change (dispatch JUMP (CodeGenerator.addr p) vm)
    with (Ok (handle_jump (CodeGenerator.addr p) vm) : result (bool * t)) in Hstep.
  unfold handle_jump in Hstep.
  destruct (Z.eqb_spec (CodeGenerator.addr p) HALT) as [E|_];
    [exfalso; exact (addr_not_halt p E)|].
  cbn [bind] in Hstep.
  eexists. split; [exact (runs_one _ _ Hlt Hstep)|].
  cbn. rewrite addr_div. split; [lia|]. split; [reflexivity|].
  split; [exact Hcode | split; [exact Ho | split; [exact Hi | exact Hvars]]].
Qed.

Lemma fits_small (v : Z) : Within.fits v = true -> _to_32bit_int v = v.
Proof.
  intros H. apply to_32bit_int_small. unfold Within.fits in H.
  apply andb_true_iff in H as [H1 H2]. apply Z.leb_le in H1. apply Z.leb_le in H2.
  split; assumption.
Qed.

(** The instruction of an assignment, with the value on the stack. *)
Lemma assign_runs (lvalue : expr) (target : Interpreter.expr)
  (v v' : Layout.symbols) (c : list instruction) (k : nat)
  (i i' : Interpreter.t) (val : Z) (rest : list Z) (vm : t) :
  expr_tree lvalue = Ok target ->
  Layout.assign_code lvalue v = (c, v') ->
  Layout.table v' ⊆ tbl ->
  sits instrs k c ->
  same_state reads tbl instrs i vm ->
  pc vm = Z.of_nat k ->
  stack vm = val :: rest ->
  Within.assign_to target val i = Some i' ->
  exists vm1,
    runs (length c) vm vm1 /\ pc vm1 = Z.of_nat (k + length c) /\
    stack vm1 = rest /\ same_state reads tbl instrs i' vm1.
Proof.
  intros Ht Hc Hsub Hsits (Hcode & Ho & Hi & Hvars) Hpc Hst Ha.
  unfold Within.assign_to in Ha. destruct (Within.fits val) eqn:Ef; [|discriminate].
  pose proof (fits_small _ Ef) as Hval.
  unfold Layout.assign_code in Hc.
  destruct lvalue as [l op r|name|value|name]; cbn [expr_tree] in Ht.
  - apply bind_Ok_inv in Ht as (l' & _ & Ht).
    apply bind_Ok_inv in Ht as (r' & _ & Ht). injection Ht as <-. discriminate.
  - injection Ht as <-. injection Ha as <-.
    destruct (Layout.var_id name v) as [id v1] eqn:E. injection Hc as <- <-.
    destruct (var_id_lookup _ _ _ _ E) as [Hid _].
    pose proof (lookup_weaken _ _ _ _ Hid Hsub) as Hname.
    destruct (Hvars _ _ Hname) as [Hid0 Hold].
    apply sits_head in Hsits as [Hk _]. rewrite <- Hcode in Hk.
    destruct (step_at vm k _ _ Hpc Hk) as [Hlt Hstep].
    change (dispatch DWRITE id vm)
      with (do vm' <- handle_dwrite id vm; Ok (false, vm')) in Hstep.
    unfold handle_dwrite in Hstep. rewrite Hst in Hstep.
    cbn [variables set_stack] in Hstep. rewrite Hval in Hstep.
    assert (Hlen : (Z.to_nat id < length (variables vm))%nat)
      by (apply lookup_lt_Some in Hold; exact Hold).
    assert (Hset : Py.set_index (variables vm) id val =
                   Some (<[Z.to_nat id := val]> (variables vm))).
    { unfold Py.set_index. destruct (Z.leb_spec 0 id); [|lia].
      destruct (Z.ltb_spec id (Z.of_nat (length (variables vm)))); [reflexivity | lia]. }
    rewrite Hset in Hstep. cbn [bind] in Hstep.
    eexists. split; [exact (runs_one _ _ Hlt Hstep)|].
    cbn. split; [lia|]. split; [reflexivity|].
    split; [exact Hcode | split; [exact Ho | split; [exact Hi|]]].
    intros name' id' Hn'. destruct (Hvars _ _ Hn') as [Hid0' Hold'].
    split; [exact Hid0'|]. unfold Interpreter.visit_Identifier. cbn.
    destruct (String.eqb_spec name' name) as [->|Hne].
    + rewrite Hname in Hn'. injection Hn' as <-.
      rewrite lookup_insert_eq. rewrite list_lookup_insert_eq by exact Hlen.
      reflexivity.
    + rewrite lookup_insert_ne by (intros E'; apply Hne; symmetry; exact E').
      rewrite list_lookup_insert_ne; [exact Hold'|].
      intros E'. apply Hne. apply (Hinj name' name id'); [exact Hn'|].
      replace id' with id by lia. exact Hname.
  - destruct (Py.startswith "0x" value); [|discriminate].
    apply bind_Ok_inv in Ht as (n & _ & Ht). injection Ht as <-. discriminate.
  - injection Ht as <-.
    destruct (str_in name ["write"; "put"]) eqn:En; [|discriminate].
    injection Ha as <-.
    destruct (String.eqb_spec name "write") as [->|Hw].
    + injection Hc as <- <-.
      apply sits_head in Hsits as [Hk _]. rewrite <- Hcode in Hk.
      destruct (step_at vm k _ _ Hpc Hk) as [Hlt Hstep].
      change (dispatch PUTI 0 vm)
        with (do vm' <- handle_puti vm; Ok (false, vm')) in Hstep.
      unfold handle_puti in Hstep. rewrite Hst, Hval in Hstep.
      cbn [bind] in Hstep.
      eexists. split; [exact (runs_one _ _ Hlt Hstep)|].
      cbn. split; [lia|]. split; [reflexivity|].
      split; [exact Hcode | split; [|split; [exact Hi | exact Hvars]]].
      unfold set_pc, print, set_stack, Interpreter.print.
      cbn [output Interpreter.output]. rewrite Ho. reflexivity.
    + assert (Hp : name = "put").
      { unfold str_in in En. cbn [existsb] in En.
        destruct (String.eqb_spec name "write"); [contradiction|].
        destruct (String.eqb_spec name "put"); [assumption | discriminate]. }
      subst name. injection Hc as <- <-.
      apply sits_head in Hsits as [Hk _]. rewrite <- Hcode in Hk.
      destruct (step_at vm k _ _ Hpc Hk) as [Hlt Hstep].
      change (dispatch PUTC 0 vm)
        with (do vm' <- handle_putc vm; Ok (false, vm')) in Hstep.
      unfold handle_putc in Hstep. rewrite Hst in Hstep. cbv zeta in Hstep.
      rewrite Hval in Hstep. unfold Interpreter.assign_to.
      change (String.eqb "put" "write") with false.
      change (String.eqb "put" "put") with true. cbv iota.
      destruct ((0 <=? val) && (val <=? 127)); cbn [bind] in Hstep;
        (eexists; split; [exact (runs_one _ _ Hlt Hstep)|]);
        cbn; (split; [lia|]); (split; [reflexivity|]).
      * split; [exact Hcode | split; [|split; [exact Hi | exact Hvars]]].
        unfold set_pc, print, set_stack, Interpreter.print.
        cbn [output Interpreter.output]. rewrite Ho. reflexivity.
      * split; [exact Hcode | split; [exact Ho | split; [exact Hi | exact Hvars]]].
Qed.

Lemma block_runs (f : nat) :
  simulates stmt_tree Layout.stmt_code (Within.visit_stmt reads f) reads tbl instrs ->
  simulates (each stmt_tree) (Layout.block_code Layout.stmt_code)
    (Within.visit_each (Within.visit_stmt reads f)) reads tbl instrs.
Proof.
  intros Hstmt l.
  induction l as [|s rest IH]; intros l' base v c v' i i' vm Ht Hc Hsub Hsits Hs Hpc Hv;
    cbn [each Layout.block_code] in Ht, Hc.
  - injection Ht as <-. injection Hc as <- <-. injection Hv as <-.
    exists 0%nat, vm. split; [constructor|]. split; [rewrite Hpc; f_equal; simpl; lia|].
    split; [reflexivity | exact Hs].
  - apply bind_Ok_inv in Ht as (s' & Hs' & Ht).
    apply bind_Ok_inv in Ht as (rest' & Hr' & Ht). injection Ht as <-.
    apply bind_Ok_inv in Hc as ([c1 v1] & Hc1 & Hc).
    apply bind_Ok_inv in Hc as ([c2 v2] & Hc2 & Hc). injection Hc as <- <-.
    cbn [Within.visit_each] in Hv.
    destruct (Within.visit_stmt reads f s' i) as [i1|] eqn:E1; [|discriminate].
    simpl in Hv.
    apply sits_app in Hsits as [Hs1 Hs2].
    pose proof (block_code_grows rest (all_grow rest) _ _ _ _ Hc2) as G2.
    destruct (Hstmt _ _ _ _ _ _ _ _ _ Hs' Hc1 ltac:(etrans; eassumption) Hs1 Hs Hpc E1)
      as (n1 & vm1 & R1 & P1 & S1 & H1).
    destruct (IH _ _ _ _ _ _ _ _ Hr' Hc2 Hsub Hs2 H1 P1 Hv)
      as (n2 & vm2 & R2 & P2 & S2 & H2).
    exists (n1 + n2)%nat, vm2. split; [exact (runs_trans _ _ _ _ _ R1 R2)|].
    split; [rewrite P2, length_app; f_equal; lia|].
    split; [rewrite S2; exact S1 | exact H2].
Qed.

Local Ltac lens := repeat (progress (rewrite ?length_app; cbn [length])).

Lemma stmt_runs (f : nat) :
  simulates stmt_tree Layout.stmt_code (Within.visit_stmt reads f) reads tbl instrs.
Proof.
  induction f as [|f IH];
    intros s s' base v c v' i i' vm Ht Hc Hsub Hsits Hs Hpc Hv; [discriminate|].
  pose proof (block_runs f IH) as Hblock.
  pose proof Ht as Ht0. pose proof Hc as Hc0. pose proof Hsits as Hsits0.
  destruct s as [lvalue e | cond t e | cond b];
    cbn [stmt_tree Layout.stmt_code] in Ht, Hc.
  - (* an assignment *)
    apply bind_Ok_inv in Ht as (target & Htarget & Ht).
    apply bind_Ok_inv in Ht as (e' & He' & Ht). injection Ht as <-.
    apply bind_Ok_inv in Hc as ([ce v1] & Hce & Hc).
    destruct (Layout.assign_code lvalue v1) as [ca v2] eqn:Ea.
    injection Hc as <- <-.
    cbn [Within.visit_stmt] in Hv.
    destruct (Within.visit_expr reads e' i) as [[val i1]|] eqn:Ev; [|discriminate].
    simpl in Hv.
    apply sits_app in Hsits as [Hse Hsa].
    pose proof (assign_code_grows _ _ _ _ Ea) as Ga.
    destruct (expr_runs e _ _ _ _ _ _ _ _ _ He' Hce ltac:(etrans; eassumption)
                Hse Hs Hpc Ev) as (vm1 & R1 & P1 & S1 & H1).
    destruct (assign_runs lvalue target v1 v2 ca _ i1 i' val (stack vm) vm1
                Htarget Ea Hsub Hsa H1 P1 S1 Hv) as (vm2 & R2 & P2 & S2 & H2).
    exists (length ce + length ca)%nat, vm2.
    split; [exact (runs_trans _ _ _ _ _ R1 R2)|].
    split; [rewrite P2, length_app; f_equal; lia|].
    split; [exact S2 | exact H2].
  - (* an [if] *)
    apply bind_Ok_inv in Ht as (c' & Hc' & Ht).
    apply bind_Ok_inv in Ht as (t' & Ht' & Ht).
    apply bind_Ok_inv in Hc as ([cc v1] & Hcc & Hc).
    apply bind_Ok_inv in Hc as ([ct v2] & Hct & Hc).
    pose proof (block_code_grows t (all_grow t) _ _ _ _ Hct) as Gt.
    assert (Hcond : forall e' rest_code,
              s' = Interpreter.IfStatement c' t' e' ->
              sits instrs base (cc ++ rest_code) ->
              Layout.table v1 ⊆ tbl ->
              exists cv i1 vm1,
                Within.visit_expr reads c' i = Some (cv, i1) /\
                (if negb (cv =? 0)
                 then Within.visit_each (Within.visit_stmt reads f) t' i1
                 else match e' with
                      | Some b => Within.visit_each (Within.visit_stmt reads f) b i1
                      | None => Some i1
                      end) = Some i' /\
                runs (length cc) vm vm1 /\
                pc vm1 = Z.of_nat (base + length cc) /\
                stack vm1 = cv :: stack vm /\ same_state reads tbl instrs i1 vm1).
    { intros e' rest_code -> Hsit Hsub1. cbn [Within.visit_stmt] in Hv.
      destruct (Within.visit_expr reads c' i) as [[cv i1]|] eqn:Ev; [|discriminate].
      simpl in Hv. apply sits_app in Hsit as [Hsc _].
      destruct (expr_runs cond _ _ _ _ _ _ _ _ _ Hc' Hcc Hsub1 Hsc Hs Hpc Ev)
        as (vm1 & R1 & P1 & S1 & H1).
      exists cv, i1, vm1. split; [reflexivity|]. split; [exact Hv|].
      split; [exact R1|]. split; [exact P1|]. split; [exact S1 | exact H1]. }
    destruct e as [[|s0 es]|].
    + (* an empty [else] *)
      cbn [each bind] in Ht. injection Ht as <-. injection Hc as <- <-.
      destruct (Hcond _ _ eq_refl Hsits ltac:(etrans; eassumption))
        as (cv & i1 & vm1 & _ & Hbranch & R1 & P1 & S1 & H1).
      apply sits_app in Hsits as [_ Hsits].
      apply (sits_app _ _ [_; _; _]) in Hsits as [Hslots Hst].
      destruct (cond_jump_runs vm1 _ _ _ cv (stack vm) i1 H1 P1 Hslots S1)
        as (vm2 & R2 & P2 & S2 & H2).
      destruct (negb (cv =? 0)).
      * destruct (Hblock _ _ _ _ _ _ _ _ _ Ht' Hct Hsub Hst H2 P2 Hbranch)
          as (n3 & vm3 & R3 & P3 & S3 & H3).
        exists (length cc + 3 + n3)%nat, vm3.
        split; [exact (runs_trans _ _ _ _ _ (runs_trans _ _ _ _ _ R1 R2) R3)|].
        split; [rewrite P3; lens; f_equal; lia|].
        split; [rewrite S3; exact S2 | exact H3].
      * cbn [Within.visit_each] in Hbranch. injection Hbranch as <-.
        exists (length cc + 3)%nat, vm2.
        split; [exact (runs_trans _ _ _ _ _ R1 R2)|].
        split; [rewrite P2; lens; f_equal; lia|].
        split; [exact S2 | exact H2].
    + (* an [else] with statements *)
      apply bind_Ok_inv in Ht as (l' & Hl' & Ht). injection Ht as <-.
      apply bind_Ok_inv in Hc as ([ce v3] & Hce & Hc). injection Hc as <- <-.
      pose proof (block_code_grows _ (all_grow _) _ _ _ _ Hce) as Ge.
      destruct (Hcond _ _ eq_refl Hsits
                  ltac:(etrans; [exact Gt | etrans; eassumption]))
        as (cv & i1 & vm1 & _ & Hbranch & R1 & P1 & S1 & H1).
      apply sits_app in Hsits as [_ Hsits].
      apply (sits_app _ _ [_; _; _]) in Hsits as [Hslots Hsits].
      apply sits_app in Hsits as [Hst Hsits].
      apply (sits_app _ _ [_]) in Hsits as [Hsj Hse].
      apply sits_head in Hsj as [Hsj _].
      destruct (cond_jump_runs vm1 _ _ _ cv (stack vm) i1 H1 P1 Hslots S1)
        as (vm2 & R2 & P2 & S2 & H2).
      cbn [length] in Hst, Hsj, Hse.
      destruct (negb (cv =? 0)).
      * destruct (Hblock _ _ _ _ _ _ _ _ _ Ht' Hct ltac:(etrans; eassumption)
                    Hst H2 P2 Hbranch) as (n3 & vm3 & R3 & P3 & S3 & H3).
        destruct (jump_runs vm3 _ _ i' H3 P3 Hsj) as (vm4 & R4 & P4 & S4 & H4).
        exists (length cc + 3 + n3 + 1)%nat, vm4.
        split; [exact (runs_trans _ _ _ _ _
                         (runs_trans _ _ _ _ _ (runs_trans _ _ _ _ _ R1 R2) R3) R4)|].
        split; [rewrite P4; lens; f_equal; lia|].
        split; [rewrite S4, S3; exact S2 | exact H4].
      * assert (P2' : pc vm2 =
                      Z.of_nat (base + length cc + 3 + length ct + 1)).
        { rewrite P2. f_equal. }
        destruct (Hblock _ _ _ _ _ _ _ _ _ Hl' Hce Hsub Hse H2 P2' Hbranch)
          as (n3 & vm3 & R3 & P3 & S3 & H3).
        exists (length cc + 3 + n3)%nat, vm3.
        split; [exact (runs_trans _ _ _ _ _ (runs_trans _ _ _ _ _ R1 R2) R3)|].
        split; [rewrite P3; lens; f_equal; lia|].
        split; [rewrite S3; exact S2 | exact H3].
    + (* no [else] *)
      injection Ht as <-. injection Hc as <- <-.
      destruct (Hcond _ _ eq_refl Hsits ltac:(etrans; eassumption))
        as (cv & i1 & vm1 & _ & Hbranch & R1 & P1 & S1 & H1).
      apply sits_app in Hsits as [_ Hsits].
      apply (sits_app _ _ [_; _; _]) in Hsits as [Hslots Hst].
      destruct (cond_jump_runs vm1 _ _ _ cv (stack vm) i1 H1 P1 Hslots S1)
        as (vm2 & R2 & P2 & S2 & H2).
      destruct (negb (cv =? 0)).
      * destruct (Hblock _ _ _ _ _ _ _ _ _ Ht' Hct Hsub Hst H2 P2 Hbranch)
          as (n3 & vm3 & R3 & P3 & S3 & H3).
        exists (length cc + 3 + n3)%nat, vm3.
        split; [exact (runs_trans _ _ _ _ _ (runs_trans _ _ _ _ _ R1 R2) R3)|].
        split; [rewrite P3; lens; f_equal; lia|].
        split; [rewrite S3; exact S2 | exact H3].
      * injection Hbranch as <-.
        exists (length cc + 3)%nat, vm2.
        split; [exact (runs_trans _ _ _ _ _ R1 R2)|].
        split; [rewrite P2; lens; f_equal; lia|].
        split; [exact S2 | exact H2].
  - (* a [while] *)
    apply bind_Ok_inv in Ht as (c' & Hc' & Ht).
    apply bind_Ok_inv in Ht as (b' & Hb' & Ht). injection Ht as <-.
    apply bind_Ok_inv in Hc as ([cc v1] & Hcc & Hc).
    apply bind_Ok_inv in Hc as ([cb v2] & Hcb & Hc). injection Hc as <- <-.
    pose proof (block_code_grows b (all_grow b) _ _ _ _ Hcb) as Gb.
    cbn [Within.visit_stmt] in Hv.
    destruct (Within.visit_expr reads c' i) as [[cv i1]|] eqn:Ev; [|discriminate].
    simpl in Hv.
    apply sits_app in Hsits as [Hsc Hsits].
    apply (sits_app _ _ [_; _; _]) in Hsits as [Hslots Hsits].
    apply sits_app in Hsits as [Hsb Hsj].
    apply sits_head in Hsj as [Hsj _].
    cbn [length] in Hsb, Hsj.
    destruct (expr_runs cond _ _ _ _ _ _ _ _ _ Hc' Hcc ltac:(etrans; eassumption)
                Hsc Hs Hpc Ev) as (vm1 & R1 & P1 & S1 & H1).
    destruct (cond_jump_runs vm1 _ _ _ cv (stack vm) i1 H1 P1 Hslots S1)
      as (vm2 & R2 & P2 & S2 & H2).
    destruct (cv =? 0); cbn [negb] in P2.
    + injection Hv as <-.
      exists (length cc + 3)%nat, vm2.
      split; [exact (runs_trans _ _ _ _ _ R1 R2)|].
      split; [rewrite P2; lens; f_equal; lia|].
      split; [exact S2 | exact H2].
    + destruct (Within.visit_each (Within.visit_stmt reads f) b' i1) as [i2|] eqn:Eb;
        [|discriminate].
      simpl in Hv.
      destruct (Hblock _ _ _ _ _ _ _ _ _ Hb' Hcb Hsub Hsb H2 P2 Eb)
        as (n3 & vm3 & R3 & P3 & S3 & H3).
      destruct (jump_runs vm3 _ _ i2 H3 P3 Hsj) as (vm4 & R4 & P4 & S4 & H4).
      destruct (IH _ _ _ _ _ _ _ _ _ Ht0 Hc0 Hsub Hsits0 H4 P4 Hv)
        as (n5 & vm5 & R5 & P5 & S5 & H5).
      exists (length cc + 3 + n3 + 1 + n5)%nat, vm5.
      split; [exact (runs_trans _ _ _ _ _
                       (runs_trans _ _ _ _ _
                          (runs_trans _ _ _ _ _ (runs_trans _ _ _ _ _ R1 R2) R3) R4)
                       R5)|].
      split; [exact P5|].
      split; [rewrite S5, S4, S3; exact S2 | exact H5].
Qed.

End Simulation.

Section CompiledRun.

Import MandrillVM.
Import Sim.
Import Compiler.
Import Trees.
Import Dense.

Lemma within_interpret (reads : bool) (fuel : nat) (ast : Interpreter.program)
  (i i' : Interpreter.t) :
  Within.interpret reads fuel ast i = Some i' -> Interpreter.interpret fuel ast i = Ok i'.
Proof.
  destruct ast as [statements]. cbn [Within.interpret Interpreter.interpret].
  apply within_visit_each. exact (within_visit_stmt reads fuel).
Qed.

(** Text mode turns whitespace into whitespace: the words of the text are
    those of the characters it decodes. *)
Lemma split_aux_universal_newlines (n : nat) :
  forall (s cur : string), (String.length s <= n)%nat ->
    Py.split_aux (Py.universal_newlines s) cur = Py.split_aux s cur.
Proof.
  induction n as [|n IH]; intros s cur Hlen;
    (destruct s as [|c rest]; [reflexivity|]); cbn [String.length] in Hlen;
    [lia|].
  cbn [Py.universal_newlines].
  destruct (Ascii.eqb_spec c "013") as [->|Hc].
  - cbn [Py.split_aux]. change (Py.isspace "013") with true.
    change (Py.isspace "010") with true. cbv iota.
    assert (Hrest : Py.split_aux
                      match rest with
                      | EmptyString => EmptyString
                      | String c' rest' =>
                          if Ascii.eqb c' "010" then Py.universal_newlines rest'
                          else Py.universal_newlines rest
                      end EmptyString = Py.split_aux rest EmptyString).
    { destruct rest as [|c' rest']; [reflexivity|]. cbn [String.length] in Hlen.
      destruct (Ascii.eqb_spec c' "010") as [->|Hc'].
      - rewrite IH by lia. cbn [Py.split_aux].
        change (Py.isspace "010") with true. reflexivity.
      - apply IH. cbn [String.length]. lia. }
    rewrite Hrest. reflexivity.
  - cbn [Py.split_aux]. rewrite !IH by lia. reflexivity.
Qed.

Lemma split_universal_newlines (s : string) :
  Py.split (Py.universal_newlines s) = Py.split s.
Proof. exact (split_aux_universal_newlines (String.length s) s _ (Nat.le_refl _)). Qed.

(** Text mode changes nothing but the carriage returns. *)
Lemma universal_newlines_plain (s : string) :
  Input.no_carriage_return s = true -> Py.universal_newlines s = s.
Proof.
  induction s as [|c s IH]; [reflexivity|].
  unfold Input.no_carriage_return. cbn [Shape.all_chars Py.universal_newlines].
  intros H. apply andb_true_iff in H as [Hc Hs].
  apply negb_true_iff in Hc. rewrite Hc, (IH Hs). reflexivity.
Qed.

(** The machine that [load_bytecode] leaves, run on the code of [generate]. *)
Lemma program_runs (reads : bool) (ast : program) (ast' : Interpreter.program)
  (g : CodeGenerator.t) (fuel : nat) (i0 i' : Interpreter.t) (vm : t) :
  CodeGenerator.generate ast = Ok g ->
  program_tree ast = Ok ast' ->
  Within.interpret reads fuel ast' i0 = Some i' ->
  Interpreter.variables i0 = ∅ ->
  Interpreter.output i0 = EmptyString ->
  code vm = CodeGenerator.instructions g ->
  variables vm = replicate (Z.to_nat (CodeGenerator.var_count g)) 0 ->
  (if reads then input_tokens vm = Py.split (Interpreter.input_data i0)
   else input_chars vm = Interpreter.input_data i0) ->
  output vm = EmptyString ->
  exists n vm', run n vm = Ok vm' /\ output vm' = Interpreter.output i'.
Proof.
  destruct ast as [statements]. unfold CodeGenerator.generate.
  rewrite generate_from_layout. intros Hg Ht Hi Hv0 Ho0 Hcode Hvars Hin Hout.
  apply bind_Ok_inv in Hg as ([c v] & Hc & Hg). injection Hg as <-.
  cbn [CodeGenerator.instructions CodeGenerator.var_count] in Hcode, Hvars.
  cbn [program_tree] in Ht. apply bind_Ok_inv in Ht as (l' & Hl' & Ht).
  injection Ht as <-. cbn [Within.interpret] in Hi.
  assert (H0 : tight (Layout.mk ∅ 0)).
  { repeat apply conj; cbn.
    - lia.
    - intros name id Hn. rewrite lookup_empty in Hn. discriminate.
    - intros n1 n2 id Hn. rewrite lookup_empty in Hn. discriminate.
    - intros k Hk. lia. }
  destruct (block_code_allocates statements
              ltac:(apply Forall_forall; intros s _; apply stmt_code_allocates)
              _ _ _ _ Hc H0) as ((_ & Hrange & Hinj & _) & _ & _).
  set (instrs := c ++ [(JUMP, HALT)]) in *.
  assert (Hsits : sits instrs 0 c).
  { intros j x Hj. apply lookup_app_l_Some. exact Hj. }
  assert (Hsame : same_state reads (Layout.table v) instrs i0 (set_pc 0 vm)).
  { split; [exact Hcode|]. split; [rewrite Ho0; exact Hout|].
    split; [exact Hin|].
    intros name id Hn. destruct (Hrange _ _ Hn) as [Hlo Hhi].
    split; [exact Hlo|]. cbn [variables set_pc]. rewrite Hvars.
    unfold Interpreter.visit_Identifier. rewrite Hv0, lookup_empty.
    cbn [default]. apply lookup_replicate_2. lia. }
  destruct (block_runs reads (Layout.table v) instrs fuel
              (stmt_runs reads (Layout.table v) instrs Hinj fuel)
              statements l' 0%nat (Layout.mk ∅ 0) c v i0 i'
              (set_pc 0 vm) Hl' Hc ltac:(reflexivity) Hsits Hsame eq_refl Hi)
    as (n & vm1 & R & P & _ & (Hcode1 & Hout1 & _)).
  exists (n + 1)%nat, vm1. split; [|exact Hout1].
  unfold run. rewrite (run_loop_runs _ _ _ R 1).
  assert (Hk : code vm1 !! length c = Some (JUMP, HALT)).
  { rewrite Hcode1. unfold instrs. rewrite lookup_app_r by lia.
    rewrite Nat.sub_diag. reflexivity. }
  destruct (step_at vm1 (length c) _ _ P Hk) as [Hlt Hstep].
  cbn [run_loop]. rewrite Hlt, Hstep. reflexivity.
Qed.

(** The interpreter on the text of mandrill.in and the VM on the same
    characters on its standard input. *)
Lemma compiled_run (reads : bool) (fuel : nat) (source input : string)
  (file : list byte) (out : string) :
  (String.length source < fuel)%nat ->
  compile fuel source = Ok file ->
  (reads = false -> Input.no_carriage_return input = true) ->
  Within.main reads fuel source (Interpreter.Text input) = Some out ->
  Interpreter.main fuel source (Interpreter.Text input) = Ok out /\
  exists fuel', MandrillVM.main fuel' file input = Ok out.
Proof.
  intros Hfuel Hcompile Hnl Hwithin.
  unfold compile in Hcompile.
  apply bind_Ok_inv in Hcompile as (ast & Hparse & Hcompile).
  apply bind_Ok_inv in Hcompile as (g & Hg & Hwrite).
  unfold Within.main in Hwithin.
  destruct (Interpreter.parse fuel source) as [ast'|] eqn:Hparse'; [|discriminate].
  cbn [Interpreter.new] in Hwithin.
  destruct (Within.interpret reads fuel ast' _) as [i'|] eqn:Hi; [|discriminate].
  simpl in Hwithin. injection Hwithin as <-.
  pose proof (parse_agree fuel source Hfuel) as Hagree.
  rewrite Hparse in Hagree. destruct Hagree as (ast'' & Htree & Hp).
  rewrite Hparse' in Hp. injection Hp as <-.
  split.
  - unfold Interpreter.main. rewrite Hparse'. cbn [bind Interpreter.new].
    rewrite (within_interpret _ _ _ _ _ Hi). reflexivity.
  - pose proof (write_then_load _ _ _ (new input) Hwrite) as Hload.
    match type of Hload with
    | _ = Ok ?vm0 =>
        destruct (program_runs reads ast ast' g fuel _ i' vm0 Hg Htree Hi
                    eq_refl eq_refl eq_refl eq_refl) as (n & vm' & Hrun & Hout);
          [|reflexivity|]
    end.
    + cbn [Interpreter.input_data input_tokens input_chars new].
      destruct reads.
      * symmetry. apply split_universal_newlines.
      * symmetry. apply universal_newlines_plain, Hnl. reflexivity.
    + exists n. unfold main. rewrite Hload. cbn [bind]. rewrite Hrun. cbn [bind].
      rewrite Hout. reflexivity.
Qed.

(** X25. Compiled code does what the interpreter does, on runs that stay
    within 32 bits and read the input in one way. When compiler.py compiles a
    source to a file, and the interpreter runs the source to its end on the
    text of mandrill.in in such a way that every result of an operator and
    every value assigned (to a variable, to write or to put) is a signed
    32-bit value, no divisor of / or % is 0, no expression reads write or put,
    and the expressions read the input either only with get, the text holding
    no carriage return (which the interpreter reads as a line feed and the VM
    as it is), or only with read where each read finds, after whitespace, a
    decimal number (an optional minus sign and digits 0 to 9) that whitespace
    or the end of the input follows, then the VM, loaded with the file and
    run with the same characters on its standard input, ends without
    exception and its output is the output of the interpreter. (In the model,
    the fuel of the parsers is above the number of characters of the source,
    and the VM is given the fuel it needs; both programs decode the input to
    the same characters; the limits of Python on recursion depth and on the
    digits of int are not modelled.) *)
Theorem X25_compiled_run (reads : bool) (fuel : nat) (source input : string)
  (file : list byte) (out : string) :
  (String.length source < fuel)%nat ->
  compile fuel source = Ok file ->
  (reads = false -> Input.no_carriage_return input = true) ->
  Within.main reads fuel source (Interpreter.Text input) = Some out ->
  Interpreter.main fuel source (Interpreter.Text input) = Ok out /\
  exists fuel', MandrillVM.main fuel' file input = Ok out.
Proof. exact (compiled_run reads fuel source input file out). Qed.

Lemma X25_compiled_run_witness :
  exists file,
    compile 60 "n = read; i = 0; while (i < n) { write = i; i = i + 1; }" =
      Ok file /\
    Interpreter.main 60
      "n = read; i = 0; while (i < n) { write = i; i = i + 1; }"
      (Interpreter.Text "3") = Ok "012" /\
    exists fuel',
      MandrillVM.main fuel' file "3" = Ok "012".
Proof.
  eexists. split; [vm_compute; reflexivity|].
  apply (X25_compiled_run true 60
           "n = read; i = 0; while (i < n) { write = i; i = i + 1; }" "3").
  - vm_compute. lia.
  - vm_compute. reflexivity.
  - discriminate.
  - vm_compute. reflexivity.
Defined.

End CompiledRun.

(** * The interpreter and the VM on the corpus *)

Section Scenarios.



End Scenarios.
